(** * zkmerkle-proof-of-solvency: a shallow embedding of the utils package,
      the proof model and the batch verifier, with the properties of the
      specification stated and proved over it.

    Conventions of the embedding.
    - A Go [[]byte] and a Go [string] are both a Rocq [string] (a list of
      8-bit characters); the source compares byte slices through
      [string(a) != string(b)].
    - A [uint64], [uint32], [uint16], [uint8] or [int] is a [Z]; conversions
      that can wrap are written out with [mod].
    - A [*big.Int] that is only read is the [Z] it holds.  Where the source
      writes through the pointer, the cell is threaded explicitly.
    - A panic is an outcome of its own, distinct from a returned error.
    - The Poseidon permutation, the decimal parser and the CSV reader are
      external collaborators: they are parameters of the sections below. *)

From Stdlib Require Import ZArith Lia Ascii String Bool.
From stdpp Require Import gmap strings list fin_maps option.

Local Open Scope string_scope.
Local Open Scope Z_scope.
Local Open Scope list_scope.

(** ** Byte strings and outcomes *)

Abbreviation bytes := string (only parsing).

(** The outcome of a Go call that may return an error or panic. *)
Inductive outcome (A : Type) : Type :=
| Ok (a : A)
| Err (msg : string)
| Panic (msg : string).
Arguments Ok {A} a.
Arguments Err {A} msg.
Arguments Panic {A} msg.

Definition obind {A B} (m : outcome A) (k : A -> outcome B) : outcome B :=
  match m with
  | Ok a => k a
  | Err e => Err e
  | Panic e => Panic e
  end.

#[global] Instance outcome_ret : MRet outcome := fun A a => Ok a.
#[global] Instance outcome_bind : MBind outcome := fun A B k m => obind m k.

Definition is_Ok {A} (m : outcome A) : bool :=
  match m with Ok _ => true | _ => false end.
Definition is_Err {A} (m : outcome A) : bool :=
  match m with Err _ => true | _ => false end.
Definition is_Panic {A} (m : outcome A) : bool :=
  match m with Panic _ => true | _ => false end.

(** ** Constants (src/utils/constants.go) *)

Definition AccountTreeDepth : nat := 28.
Definition AssetCounts : nat := 500.
Definition TierCount : nat := 12.

Definition ZeroBigInt : Z := 0.
Definition PercentageMultiplier : Z := 100.
Definition MaxTierBoundaryValue : Z := 332306998946228968225951765070086144.
Definition Uint64MaxValueBigInt : Z := 18446744073709551616.
Definition Uint64MaxValueBigIntSquare : Z := 340282366920938463463374607431768211456.
Definition Uint8MaxValueBigInt : Z := 256.
Definition Uint126MaxValueBigInt : Z := 85070591730234615865843651857942052864.
Definition Uint134MaxValueBigInt : Z := 21778071482940061661655974875633165533184.

(** [BatchCreateUserOpsCountsTiers]: users per batch for each asset tier. *)
Definition BatchCreateUserOpsCountsTiers : gmap Z Z :=
  <[500 := 92]> (<[50 := 700]> ∅).

(** [AssetCountsTiers]: the keys of the map above, sorted by [init]. *)
Definition AssetCountsTiers : list Z := [50; 500].

Definition wrap (w : Z) (x : Z) : Z := x mod 2 ^ w.

(** ** big.Int.Bytes: the big-endian bytes of the absolute value, without
       leading zeros (the empty slice for 0). *)

Fixpoint be_bytes (fuel : nat) (n : N) (acc : bytes) : bytes :=
  match fuel with
  | O => acc
  | S fuel' =>
      match n with
      | N0 => acc
      | _ => be_bytes fuel' (N.shiftr n 8) (String (ascii_of_N (N.land n 255)) acc)
      end
  end.

Definition BigIntBytes (z : Z) : bytes :=
  let n := Z.to_N (Z.abs z) in
  be_bytes (N.to_nat (N.size n)) n "".

(** ** Types (src/utils/types.go) *)

Record TierRatio := mkTierRatio {
  BoundaryValue : Z;      (* *big.Int *)
  Ratio : Z;              (* uint8 *)
  PrecomputedValue : Z    (* *big.Int *)
}.

Record CexAssetInfo := mkCexAssetInfo {
  TotalEquity : Z;
  TotalDebt : Z;
  BasePrice : Z;
  Symbol : string;
  CexIndex : Z;                        (* field Index, uint32 *)
  LoanCollateral : Z;
  MarginCollateral : Z;
  PortfolioMarginCollateral : Z;
  LoanRatios : list TierRatio;         (* [TierCount]TierRatio *)
  MarginRatios : list TierRatio;
  PortfolioMarginRatios : list TierRatio
}.

Record AccountAsset := mkAccountAsset {
  Index : Z;            (* uint16 *)
  Equity : Z;
  Debt : Z;
  Loan : Z;
  Margin : Z;
  PortfolioMargin : Z
}.

Record AccountInfo := mkAccountInfo {
  AccountIndex : Z;         (* uint32 *)
  AccountId : bytes;
  AcctTotalEquity : Z;      (* field TotalEquity, *big.Int *)
  AcctTotalDebt : Z;        (* field TotalDebt *)
  AcctTotalCollateral : Z;  (* field TotalCollateral *)
  Assets : list AccountAsset
}.

#[global] Instance TierRatio_eq_dec : EqDecision TierRatio.
Proof. solve_decision. Defined.
#[global] Instance AccountAsset_eq_dec : EqDecision AccountAsset.
Proof. solve_decision. Defined.
#[global] Instance CexAssetInfo_eq_dec : EqDecision CexAssetInfo.
Proof. solve_decision. Defined.
#[global] Instance AccountInfo_eq_dec : EqDecision AccountInfo.
Proof. solve_decision. Defined.

(** ** Tiered valuation (utils.go) *)

(** The loop of [CalculateAssetValueViaTiersRatio] from index [i] on;
    [prev] is [tiersRatio[i-1]] ([None] when [i = 0]) and [last] the last
    tier seen.  The first component is the returned value, the second the
    contents of the cell [collateralValue] points to when the call returns. *)
Fixpoint CalculateAssetValueViaTiersRatio_loop (collateralValue : Z)
    (prev : option TierRatio) (tiersRatio : list TierRatio) : Z * Z :=
  match tiersRatio with
  | [] =>
      match prev with
      | Some l => (PrecomputedValue l, collateralValue)
      | None => (ZeroBigInt, collateralValue)
      end
  | t :: rest =>
      if collateralValue <=? BoundaryValue t then
        let collateralValue' :=
          match prev with
          | Some p => collateralValue - BoundaryValue p
          | None => collateralValue
          end in
        let res := collateralValue' * Ratio t in
        let res := res / PercentageMultiplier in
        let res :=
          match prev with
          | Some p => res + PrecomputedValue p
          | None => res
          end in
        (res, collateralValue')
      else CalculateAssetValueViaTiersRatio_loop collateralValue (Some t) rest
  end.

Definition CalculateAssetValueViaTiersRatio (collateralValue : Z)
    (tiersRatio : list TierRatio) : Z * Z :=
  if (length tiersRatio =? 0)%nat then (ZeroBigInt, collateralValue)
  else CalculateAssetValueViaTiersRatio_loop collateralValue None tiersRatio.

Definition CalculateAssetValueForCollateral (loan margin portfolioMargin : Z)
    (cexAssetInfo : CexAssetInfo) : Z :=
  let assetPrice := BasePrice cexAssetInfo in
  let loanValue := loan * assetPrice in
  let loanValue := fst (CalculateAssetValueViaTiersRatio loanValue (LoanRatios cexAssetInfo)) in
  let marginValue := margin * assetPrice in
  let marginValue := fst (CalculateAssetValueViaTiersRatio marginValue (MarginRatios cexAssetInfo)) in
  let portfolioMarginValue := portfolioMargin * assetPrice in
  let portfolioMarginValue :=
    fst (CalculateAssetValueViaTiersRatio portfolioMarginValue (PortfolioMarginRatios cexAssetInfo)) in
  loanValue + marginValue + portfolioMarginValue.

(** [PaddingTierRatios]: panics ([None]) on more than [TierCount] tiers. *)
Definition PaddingTierRatios (tiersRatio : list TierRatio) : option (list TierRatio) :=
  if (TierCount <? length tiersRatio)%nat then None
  else
    let precomputedValue :=
      match list.last tiersRatio with
      | Some t => PrecomputedValue t
      | None => 0
      end in
    Some (tiersRatio ++
          replicate (TierCount - length tiersRatio)
            (mkTierRatio MaxTierBoundaryValue 0 precomputedValue)).

(** [CalculatePrecomputedValue], writing the field of every tier in turn;
    [prevBoundary] is [tiersRatio[i-1].BoundaryValue] (0 for [i = 0]). *)
Fixpoint CalculatePrecomputedValue_loop (precomputedValue prevBoundary : Z)
    (tiersRatio : list TierRatio) : list TierRatio :=
  match tiersRatio with
  | [] => []
  | t :: rest =>
      let diffValue := BoundaryValue t - prevBoundary in
      let precomputedValue' :=
        precomputedValue + diffValue * Ratio t / PercentageMultiplier in
      mkTierRatio (BoundaryValue t) (Ratio t) precomputedValue'
        :: CalculatePrecomputedValue_loop precomputedValue' (BoundaryValue t) rest
  end.

Definition CalculatePrecomputedValue (tiersRatio : list TierRatio) : list TierRatio :=
  CalculatePrecomputedValue_loop 0 0 tiersRatio.

(** ** User assets: tiering and padding (utils.go) *)

Definition SafeAdd (a b : Z) : option Z :=
  let c := wrap 64 (a + b) in
  if c <? a then None else Some c.

Fixpoint first_tier_fitting (count : Z) (tiers : list Z) : Z :=
  match tiers with
  | [] => 0
  | v :: rest => if count <=? v then v else first_tier_fitting count rest
  end.

Definition GetAssetsCountOfUser (assets : list AccountAsset) : Z :=
  let count := Z.of_nat (length assets) in
  first_tier_fitting count AssetCountsTiers.

(** A write [arr[i] = v] into a Go slice: out of range panics. *)
Definition store (arr : list Z) (i : Z) (v : Z) : option (list Z) :=
  if (0 <=? i) && (i <? Z.of_nat (length arr))
  then Some (<[Z.to_nat i := v]> arr) else None.

(** The loop variables of [PaddingAccountAssets]. *)
Record pad_state := mkPadState {
  paddingFlattenAssets : list Z;
  currentPaddingCounts : Z;
  currentAssetIndex : Z;
  index : Z
}.

Definition numOfAssetsFields : Z := 6.

(** The inner loop [for j := currentAssetIndex; j < int(assets[i].Index); j++]
    with [fuel] iterations left; it breaks once enough slots are padded. *)
Fixpoint pad_gap (fuel : nat) (j : Z) (paddingCounts : Z) (st : pad_state)
    : option pad_state :=
  match fuel with
  | O => Some st
  | S fuel' =>
      let cpc := currentPaddingCounts st + 1 in
      arr ← store (paddingFlattenAssets st) (index st * numOfAssetsFields) (wrap 64 j);
      let st' := mkPadState arr cpc (currentAssetIndex st) (index st + 1) in
      if cpc >=? paddingCounts then Some st'
      else pad_gap fuel' (j + 1) paddingCounts st'
  end.

Definition store_asset (arr : list Z) (index : Z) (a : AccountAsset) : option (list Z) :=
  arr ← store arr (index * numOfAssetsFields) (wrap 64 (Index a));
  arr ← store arr (index * numOfAssetsFields + 1) (Equity a);
  arr ← store arr (index * numOfAssetsFields + 2) (Debt a);
  arr ← store arr (index * numOfAssetsFields + 3) (Loan a);
  arr ← store arr (index * numOfAssetsFields + 4) (Margin a);
  store arr (index * numOfAssetsFields + 5) (PortfolioMargin a).

(** The outer loop [for i := 0; i < len(assets); i++]. *)
Fixpoint pad_assets (assets : list AccountAsset) (paddingCounts : Z)
    (st : pad_state) : option pad_state :=
  match assets with
  | [] => Some st
  | a :: rest =>
      st1 ← (if currentPaddingCounts st <? paddingCounts
             then pad_gap (Z.to_nat (Index a - currentAssetIndex st))
                    (currentAssetIndex st) paddingCounts st
             else Some st);
      arr ← store_asset (paddingFlattenAssets st1) (index st1) a;
      pad_assets rest paddingCounts
        (mkPadState arr (currentPaddingCounts st1) (Index a + 1) (index st1 + 1))
  end.

(** The last loop [for i := index; i < targetCounts; i++]. *)
Fixpoint pad_tail (fuel : nat) (i : Z) (currentAssetIndex : Z) (arr : list Z)
    : option (list Z) :=
  match fuel with
  | O => Some arr
  | S fuel' =>
      arr' ← store arr (i * numOfAssetsFields) (wrap 64 currentAssetIndex);
      pad_tail fuel' (i + 1) (currentAssetIndex + 1) arr'
  end.

(** [PaddingAccountAssets]: [None] is a panic. *)
Definition PaddingAccountAssets (assets : list AccountAsset) : option (list Z) :=
  let targetCounts := GetAssetsCountOfUser assets in
  if targetCounts <? Z.of_nat (length assets) then None
  else
    let arr0 := replicate (Z.to_nat (targetCounts * numOfAssetsFields)) 0 in
    let paddingCounts := targetCounts - Z.of_nat (length assets) in
    st ← pad_assets assets paddingCounts (mkPadState arr0 0 0 0);
    pad_tail (Z.to_nat (targetCounts - index st)) (index st)
      (currentAssetIndex st) (paddingFlattenAssets st).

(** A read guarded by [if i < len(arr)], 0 otherwise. *)
Definition read_or_zero (arr : list Z) (i : Z) : Z :=
  if i <? Z.of_nat (length arr) then default 0 (arr !! Z.to_nat i) else 0.

(** ** Packing CEX records (utils.go) *)

(** [ConvertTierRatiosToBytes]: two tiers per chunk; [tiersRatio[i+1]] out
    of range (odd length) panics. *)
Fixpoint ConvertTierRatiosToBytes (tiersRatio : list TierRatio) : option (list bytes) :=
  match tiersRatio with
  | [] => Some []
  | [_] => None
  | t0 :: t1 :: rest =>
      let aBigInt := Ratio t0 in
      let bBigInt := BoundaryValue t0 * Uint8MaxValueBigInt in
      let aBigInt := aBigInt + bBigInt in
      let cBigInt := Ratio t1 * Uint126MaxValueBigInt in
      let dBigInt := BoundaryValue t1 * Uint134MaxValueBigInt in
      let cBigInt := cBigInt + dBigInt in
      let resBigInt := aBigInt + cBigInt in
      res ← ConvertTierRatiosToBytes rest;
      Some (BigIntBytes resBigInt :: res)
  end.

Definition ConvertAssetInfoToBytes (t : CexAssetInfo) : option (list bytes) :=
  let aBigInt := TotalEquity t * Uint64MaxValueBigIntSquare in
  let bBigInt := TotalDebt t * Uint64MaxValueBigInt in
  let cBigInt := BasePrice t in
  let aBigInt := aBigInt + bBigInt in
  let resBigInt := aBigInt + cBigInt in
  let res := [BigIntBytes resBigInt] in
  let aBigInt := LoanCollateral t * Uint64MaxValueBigIntSquare in
  let bBigInt := MarginCollateral t * Uint64MaxValueBigInt in
  let cBigInt := PortfolioMarginCollateral t in
  let aBigInt := aBigInt + bBigInt in
  let resBigInt := cBigInt + aBigInt in
  let res := res ++ [BigIntBytes resBigInt] in
  tempRes ← ConvertTierRatiosToBytes (LoanRatios t);
  let res := res ++ tempRes in
  tempRes ← ConvertTierRatiosToBytes (MarginRatios t);
  let res := res ++ tempRes in
  tempRes ← ConvertTierRatiosToBytes (PortfolioMarginRatios t);
  let res := res ++ tempRes in
  Some res.

(** The reserved entry at position [i]. *)
Definition reserved_asset (i : Z) : option CexAssetInfo :=
  r ← PaddingTierRatios [];
  Some (mkCexAssetInfo 0 0 0 "reserved" (wrap 32 i) 0 0 0 r r r).

(** ** encoding/hex *)

Definition hex_digit (c : ascii) : option N :=
  let n := N_of_ascii c in
  if ((48 <=? n) && (n <=? 57))%N then Some (n - 48)%N
  else if ((97 <=? n) && (n <=? 102))%N then Some (n - 87)%N
  else if ((65 <=? n) && (n <=? 70))%N then Some (n - 55)%N
  else None.

Fixpoint hex_DecodeString (s : string) : option bytes :=
  match s with
  | EmptyString => Some EmptyString
  | String _ EmptyString => None
  | String a (String b rest) =>
      hi ← hex_digit a;
      lo ← hex_digit b;
      r ← hex_DecodeString rest;
      Some (String (ascii_of_N (16 * hi + lo)) r)
  end.

(** ** The Poseidon hasher (gnark-crypto): [Write] appends a chunk,
       [Sum(nil)] hashes the chunks written since the last [Reset]. *)

Section Poseidon.

(** [poseidon.PoseidonBytes(chunks...)]; [hasher.Sum(nil)] after the
    same chunks were written gives the same digest. *)
Variable PoseidonBytes : list bytes -> bytes.

Definition hasher := list bytes.
Definition NewPoseidon : hasher := [].
Definition Write (h : hasher) (p : bytes) : hasher := h ++ [p].
Definition Sum (h : hasher) : bytes := PoseidonBytes h.
Definition Reset (h : hasher) : hasher := [].

(** *** src/utils/account_tree.go *)

(** The loop of [VerifyMerkleProof]: [steps] iterations are left, [i] is
    the loop counter; [proof[i]] out of range panics ([None]). *)
Fixpoint VerifyMerkleProof_loop (steps i : nat) (h : hasher)
    (accountIndex : Z) (proof : list bytes) (node : bytes) : option bytes :=
  match steps with
  | O => Some node
  | S steps' =>
      match proof !! i with
      | None => None
      | Some p =>
          let bit := Z.land accountIndex (wrap 32 (Z.shiftl 1 (Z.of_nat i))) in
          let h1 := if bit =? 0
                    then Write (Write h node) p
                    else Write (Write h p) node in
          let node' := Sum h1 in
          let h2 := Reset h1 in
          VerifyMerkleProof_loop steps' (S i) h2 accountIndex proof node'
      end
  end.

Definition VerifyMerkleProof (root : bytes) (accountIndex : Z)
    (proof : list bytes) (node : bytes) : option bool :=
  if negb (length proof =? AccountTreeDepth)%nat then Some false
  else
    match VerifyMerkleProof_loop AccountTreeDepth 0 NewPoseidon
            accountIndex proof node with
    | None => None
    | Some node' =>
        if negb (String.eqb node' root) then Some false else Some true
    end.

(** The fold of the specification: from the least-significant bit up, the
    running node is the left input when bit [i] is 0, the right one
    otherwise. *)
Fixpoint merkle_fold (i : nat) (index : Z) (siblings : list bytes)
    (node : bytes) : bytes :=
  match siblings with
  | [] => node
  | s :: rest =>
      merkle_fold (S i) index rest
        (if Z.testbit index (Z.of_nat i)
         then PoseidonBytes [s; node]
         else PoseidonBytes [node; s])
  end.

(** *** Commitments (utils.go) *)

(** The loop [for i := 0; i < nEles; i++] of [ComputeUserAssetsCommitment]. *)
Fixpoint ComputeUserAssetsCommitment_loop (fuel : nat) (i : Z)
    (paddingFlattenAssets : list Z) (h : hasher) : hasher :=
  match fuel with
  | O => h
  | S fuel' =>
      let numOfOneField := 3 in
      let aBigInt := read_or_zero paddingFlattenAssets (i * numOfOneField) in
      let bBigInt := read_or_zero paddingFlattenAssets (i * numOfOneField + 1) in
      let cBigInt := read_or_zero paddingFlattenAssets (i * numOfOneField + 2) in
      let sumBigIntBytes :=
        BigIntBytes (aBigInt * Uint64MaxValueBigIntSquare
                     + bBigInt * Uint64MaxValueBigInt + cBigInt) in
      ComputeUserAssetsCommitment_loop fuel' (i + 1) paddingFlattenAssets
        (Write h sumBigIntBytes)
  end.

(** The chunks the hasher holds when [ComputeUserAssetsCommitment]
    calls [Sum]. *)
Definition user_assets_chunks (assets : list AccountAsset) : option hasher :=
  paddingFlattenAssets ← PaddingAccountAssets assets;
  let targetCounts := GetAssetsCountOfUser assets in
  let nEles := Z.quot (targetCounts * numOfAssetsFields + 2) 3 in
  Some (ComputeUserAssetsCommitment_loop (Z.to_nat nEles) 0
          paddingFlattenAssets (Reset NewPoseidon)).

(** [ComputeUserAssetsCommitment]: the hasher is reset on entry, so the
    digest does not depend on its previous contents. *)
Definition ComputeUserAssetsCommitment (assets : list AccountAsset) : option bytes :=
  h ← user_assets_chunks assets;
  Some (Sum h).

Definition AccountInfoToHash (account : AccountInfo) : option bytes :=
  assetCommitment ← ComputeUserAssetsCommitment (Assets account);
  Some (PoseidonBytes [AccountId account;
                       BigIntBytes (AcctTotalEquity account);
                       BigIntBytes (AcctTotalDebt account);
                       BigIntBytes (AcctTotalCollateral account);
                       assetCommitment]).

(** The two nested loops that write every chunk of every asset. *)
Fixpoint write_cex_assets (cexAssetsInfo : list CexAssetInfo) (h : hasher)
    : option hasher :=
  match cexAssetsInfo with
  | [] => Some h
  | a :: rest =>
      commitments ← ConvertAssetInfoToBytes a;
      write_cex_assets rest (fold_left Write commitments h)
  end.

(** [ComputeCexAssetsCommitment]: [make] with a negative length panics. *)
Definition ComputeCexAssetsCommitment (cexAssetsInfo : list CexAssetInfo)
    : option bytes :=
  let hasher0 := NewPoseidon in
  if (AssetCounts <? length cexAssetsInfo)%nat then None
  else
    emptyCexAssets ←
      mapM reserved_asset
        (seqZ (Z.of_nat (length cexAssetsInfo))
              (Z.of_nat (AssetCounts - length cexAssetsInfo)));
    let cexAssetsInfo := cexAssetsInfo ++ emptyCexAssets in
    h ← write_cex_assets cexAssetsInfo hasher0;
    Some (Sum h).

End Poseidon.

(** ** The witness builder (src/witness/witness/witness.go) *)

Module Witness.

Record BatchCreateUserWitness := mkBatchCreateUserWitness {
  BatchCommitment : bytes;
  BeforeAccountTreeRoot : bytes;
  AfterAccountTreeRoot : bytes;
  BeforeCEXAssetsCommitment : bytes;
  AfterCEXAssetsCommitment : bytes
}.

Section WithPoseidon.

Variable PoseidonBytes : list bytes -> bytes.

(** One round of the batch loop of [Run] around the user operations:
    [beforeRoot] and [afterRoot] are [w.accountTree.Root()] before and after
    the operations, [cexBefore] and [cexAfter] the contents of [w.cexAssets]
    at those two points.  The hasher is reset after each [Sum]. *)
Definition Run_batch (beforeRoot afterRoot : bytes)
    (cexBefore cexAfter : list CexAssetInfo) : option BatchCreateUserWitness :=
  let poseidonHasher := NewPoseidon in
  h ← write_cex_assets cexBefore poseidonHasher;
  let beforeCEXAssetsCommitment := Sum PoseidonBytes h in
  let poseidonHasher := Reset h in
  h ← write_cex_assets cexAfter poseidonHasher;
  let afterCEXAssetsCommitment := Sum PoseidonBytes h in
  let batchCommitment :=
    PoseidonBytes [beforeRoot; afterRoot;
                   beforeCEXAssetsCommitment; afterCEXAssetsCommitment] in
  Some (mkBatchCreateUserWitness batchCommitment beforeRoot afterRoot
          beforeCEXAssetsCommitment afterCEXAssetsCommitment).

End WithPoseidon.

End Witness.

(** ** The verifier (src/verifier/main.go), batch mode *)

Module Verifier.

Record Proof := mkProof {
  BatchNumber : Z;
  ZkProof : string;
  CexAssetCommitment : list string;
  AccountTreeRoots : list string;
  BatchCommitment : string;
  AssetsCount : Z
}.

(** Both slices are made with length 2 and only written at 0 and 1: a pair. *)
Record ProofMetaData := mkProofMetaData {
  accountTreeRoots : bytes * bytes;
  cexAssetListCommitments : bytes * bytes
}.

Section WithPoseidon.

Variable PoseidonBytes : list bytes -> bytes.
(** [base64.StdEncoding.DecodeString] *)
Variable base64_DecodeString : string -> option bytes.

(** [for p := 0; p < len(src); p++ { dst[p], err = decode(src[p]) }] into a
    slice of length 2: a decoding error and an index above 1 both panic. *)
Fixpoint decode_pair (p : nat) (src : list string) (dst : bytes * bytes)
    : outcome (bytes * bytes) :=
  match src with
  | [] => Ok dst
  | x :: rest =>
      match base64_DecodeString x with
      | None => Panic "decode failed"
      | Some b =>
          match p with
          | O => decode_pair 1 rest (b, snd dst)
          | S O => decode_pair 2 rest (fst dst, b)
          | _ => Panic "index out of range"
          end
      end
  end.

(** The public-input check of one batch in a worker: from the decoding of
    the proof to the insertion into the shared map. *)
Definition check_public_input (proof : Proof) (proofMap : gmap Z ProofMetaData)
    : outcome (bytes * gmap Z ProofMetaData) :=
  let batchNumber := BatchNumber proof in
  match base64_DecodeString (ZkProof proof) with
  | None => Panic "verify proof failed"
  | Some proofRaw =>
      cexAssetListCommitments ← decode_pair 0 (CexAssetCommitment proof) ("", "");
      accountTreeRoots ← decode_pair 0 (AccountTreeRoots proof) ("", "");
      let poseidonHasher := NewPoseidon in
      let poseidonHasher := Write poseidonHasher (fst accountTreeRoots) in
      let poseidonHasher := Write poseidonHasher (snd accountTreeRoots) in
      let poseidonHasher := Write poseidonHasher (fst cexAssetListCommitments) in
      let poseidonHasher := Write poseidonHasher (snd cexAssetListCommitments) in
      let expectHash := Sum PoseidonBytes poseidonHasher in
      match base64_DecodeString (BatchCommitment proof) with
      | None => Panic "verify proof failed"
      | Some actualHash =>
          if negb (String.eqb expectHash actualHash)
          then Panic "verify proof failed"
          else Ok (actualHash,
                   <[batchNumber := mkProofMetaData accountTreeRoots
                                      cexAssetListCommitments]> proofMap)
      end
  end.

(** The placement loop over [verifierConfig.CexAssetsInfo]; a slot left at
    its zero value is [None]. *)
Fixpoint place_cex_assets (cfg : list CexAssetInfo)
    (cexAssetsInfo : list (option CexAssetInfo))
    : outcome (list (option CexAssetInfo)) :=
  match cfg with
  | [] => Ok cexAssetsInfo
  | c :: rest =>
      if (CexIndex c <? 0) || (Z.of_nat (length cexAssetsInfo) <=? CexIndex c)
      then Panic "index out of range"
      else
        let cexAssetsInfo' := <[Z.to_nat (CexIndex c) := Some c]> cexAssetsInfo in
        if TotalEquity c <? TotalDebt c then Panic "invalid cex asset info"
        else place_cex_assets rest cexAssetsInfo'
  end.

(** A slot that was never written holds tiers with nil boundary values;
    packing it dereferences nil. *)
Definition written_slots (slots : list (option CexAssetInfo)) : outcome (list CexAssetInfo) :=
  match mapM id slots with
  | Some l => Ok l
  | None => Panic "nil pointer dereference"
  end.

Definition zero_totals (c : CexAssetInfo) : CexAssetInfo :=
  mkCexAssetInfo 0 0 (BasePrice c) (Symbol c) (CexIndex c) 0 0 0
    (LoanRatios c) (MarginRatios c) (PortfolioMarginRatios c).

Definition commit_or_panic (l : list CexAssetInfo) : outcome bytes :=
  match ComputeCexAssetsCommitment PoseidonBytes l with
  | Some c => Ok c
  | None => Panic "ComputeCexAssetsCommitment"
  end.

Definition emptyAccountTreeRootHex : string :=
  "08696bfcb563a2ee4dde9e1dbd34f68d3f4643df6e3709cdb1855c9f886240c7".

Record chain_state := mkChainState {
  prevAccountTreeRoots : bytes * bytes;
  prevCexAssetListCommitments : bytes * bytes;
  accountTreeRoot : bytes;
  finalCexAssetsInfoComm : bytes
}.

(** The initialisation before the workers start: the empty root, the
    commitment of the zeroed configuration and the expected final one. *)
Definition init_state (cfg : list CexAssetInfo) : outcome (chain_state * bytes) :=
  match hex_DecodeString emptyAccountTreeRootHex with
  | None => Err "wrong empty empty account tree root"
  | Some emptyAccountTreeRoot =>
      slots ← place_cex_assets cfg (replicate (length cfg) None);
      cexAssetsInfo ← written_slots slots;
      let emptyCexAssetsInfo := map zero_totals cexAssetsInfo in
      emptyCexAssetListCommitment ← commit_or_panic emptyCexAssetsInfo;
      expectFinalCexAssetsInfoComm ← commit_or_panic cexAssetsInfo;
      Ok (mkChainState ("", emptyAccountTreeRoot)
            ("", emptyCexAssetListCommitment) "" "",
          expectFinalCexAssetsInfoComm)
  end.

(** The serial loop [for batchNumber := 0; batchNumber < len(proofs); ...]. *)
Fixpoint serial_pass (fuel : nat) (batchNumber : Z)
    (proofMap : gmap Z ProofMetaData) (st : chain_state) : outcome chain_state :=
  match fuel with
  | O => Ok st
  | S fuel' =>
      match proofMap !! batchNumber with
      | None => Panic "proof data not found"
      | Some proofData =>
          if negb (String.eqb (fst (accountTreeRoots proofData))
                              (snd (prevAccountTreeRoots st)))
          then Panic "account tree root not match"
          else if negb (String.eqb (fst (cexAssetListCommitments proofData))
                                   (snd (prevCexAssetListCommitments st)))
          then Panic "cex asset list commitment not match"
          else
            serial_pass fuel' (batchNumber + 1) proofMap
              (mkChainState (accountTreeRoots proofData)
                 (cexAssetListCommitments proofData)
                 (snd (accountTreeRoots proofData))
                 (snd (cexAssetListCommitments proofData)))
      end
  end.

(** Batch mode around the workers: [st0] and [expect] come from
    [init_state], [proofMap] is the map the workers filled, [nProofs] is
    [len(proofs)].  [Ok root] is "All proofs verify passed". *)
Definition serial_check (st0 : chain_state) (expectFinalCexAssetsInfoComm : bytes)
    (nProofs : nat) (proofMap : gmap Z ProofMetaData) : outcome bytes :=
  st ← serial_pass nProofs 0 proofMap st0;
  if negb (String.eqb (finalCexAssetsInfoComm st) expectFinalCexAssetsInfoComm)
  then Panic "Final Cex Assets Info Not Match"
  else Ok (accountTreeRoot st).

Definition batch_mode (cfg : list CexAssetInfo) (nProofs : nat)
    (proofMap : gmap Z ProofMetaData) : outcome bytes :=
  '(st0, expect) ← init_state cfg;
  serial_check st0 expect nProofs proofMap.

End WithPoseidon.

End Verifier.

(** ** The proof table (src/prover/prover/proof_model.go) *)

Module Prover.

Record Proof := mkProof {
  ProofInfo : string;
  CexAssetListCommitments : string;
  AccountTreeRoots : string;
  BatchCommitment : string;
  AssetsCount : Z;
  BatchNumber : Z
}.

Inductive db_error := DbErrSqlOperation | DbErrNotFound.

(** The table behind [m.DB.Table(m.table)]: its rows, and whether the
    connection fails the next statement. *)
Record DB := mkDB {
  rows : list Proof;
  failing : bool
}.

(** What gorm hands back after [Find(&row)]. *)
Record dbTx := mkDbTx {
  Error : bool;          (* dbTx.Error != nil *)
  RowsAffected : Z;
  row : option Proof     (* the *Proof the statement filled, nil if none *)
}.

(** The row that [ORDER BY batch_number DESC LIMIT 1] selects among [l],
    given the best row so far. *)
Fixpoint latest_row (best : option Proof) (l : list Proof) : option Proof :=
  match l with
  | [] => best
  | r :: rest =>
      match best with
      | Some b =>
          if BatchNumber b <? BatchNumber r
          then latest_row (Some r) rest else latest_row best rest
      | None => latest_row (Some r) rest
      end
  end.

(** [m.DB.Table(m.table).Order("batch_number desc").Limit(1).Find(&row)] *)
Definition Order_desc_Limit1_Find (db : DB) : dbTx :=
  if failing db then mkDbTx true 0 None
  else
    match latest_row None (rows db) with
    | Some r => mkDbTx false 1 (Some r)
    | None => mkDbTx false 0 None
    end.

Definition GetLatestProof (m : DB) : option Proof * option db_error :=
  let dbTx := Order_desc_Limit1_Find m in
  if Error dbTx then (None, Some DbErrSqlOperation)
  else if RowsAffected dbTx =? 0 then (None, Some DbErrNotFound)
  else (row dbTx, None).

Definition GetLatestConfirmedProof (m : DB) : option Proof * option db_error :=
  let dbTx := Order_desc_Limit1_Find m in
  if Error dbTx then (None, Some DbErrSqlOperation)
  else if RowsAffected dbTx =? 0 then (None, Some DbErrNotFound)
  else (row dbTx, None).

End Prover.

(** ** The strings package, on 8-bit characters *)

Fixpoint in_cutset (c : ascii) (cutset : string) : bool :=
  match cutset with
  | EmptyString => false
  | String d rest => Ascii.eqb c d || in_cutset c rest
  end.

Fixpoint strings_TrimLeft (s cutset : string) : string :=
  match s with
  | EmptyString => EmptyString
  | String c rest => if in_cutset c cutset then strings_TrimLeft rest cutset else s
  end.

Definition strings_Trim (s cutset : string) : string :=
  String.rev (strings_TrimLeft (String.rev (strings_TrimLeft s cutset)) cutset).

(** [strings.Split(s, sep)] for a one-character separator. *)
Fixpoint strings_Split (s : string) (sep : ascii) : list string :=
  match s with
  | EmptyString => [EmptyString]
  | String c rest =>
      match strings_Split rest sep with
      | [] => [EmptyString]
      | h :: t =>
          if Ascii.eqb c sep then EmptyString :: h :: t else String c h :: t
      end
  end.

Definition ascii_ToLower (c : ascii) : ascii :=
  let n := N_of_ascii c in
  if ((65 <=? n) && (n <=? 90))%N then ascii_of_N (n + 32) else c.

Fixpoint strings_ToLower (s : string) : string :=
  match s with
  | EmptyString => EmptyString
  | String c rest => String (ascii_ToLower c) (strings_ToLower rest)
  end.

(** ** Amounts and tier strings (utils.go) *)

Definition IsUint64 (z : Z) : bool := (0 <=? z) && (z <? 2 ^ 64).

Section Decimal.

(** [decimal.NewFromString] (shopspring): on success the coefficient and
    the exponent of the decimal, value = coefficient * 10^exponent. *)
Variable NewFromString : string -> option (Z * Z).

(** [Decimal.BigInt]: the integer part, truncated toward zero. *)
Definition Decimal_BigInt (d : Z * Z) : Z :=
  let '(value, exp) := d in
  if 0 <=? exp then value * 10 ^ exp else Z.quot value (10 ^ (- exp)).

Definition ConvertFloatStrToUint64 (f : string) (multiplier : Z) : outcome Z :=
  if String.eqb f "0.0" then Ok 0
  else
    match NewFromString f with
    | None => Err "decimal"
    | Some (value, exp) =>
        let numFloat := (value * multiplier, exp) in
        let numBigInt := Decimal_BigInt numFloat in
        if negb (IsUint64 numBigInt) then Err "overflow uint64"
        else Ok numBigInt
    end.

Definition valueMultiplier : Z := 10000000000000000.

(** One round of the loop of [ParseTiersRatioFromStr]: [tiersRatio] holds
    the [i] tiers appended so far, so that [tiersRatio[i-1]] is its last
    element. *)
Definition ParseTiersRatioFromStr_step (tiersRatioStr : string)
    (tiersRatio : list TierRatio) : outcome (list TierRatio) :=
  let tmpTierRatio := strings_Split (strings_Trim tiersRatioStr " ") ":" in
  let rangeValues := strings_Split (default "" (tmpTierRatio !! 0%nat)) "-" in
  if negb (length tmpTierRatio =? 2)%nat || negb (length rangeValues =? 2)%nat
  then Err "tiers ratio data wrong"
  else
    lowBoundaryValue ←
      ConvertFloatStrToUint64 (strings_Trim (default "" (rangeValues !! 0%nat)) " ") 1;
    boundaryValue ←
      ConvertFloatStrToUint64 (strings_Trim (default "" (rangeValues !! 1%nat)) " ") 1;
    ratio ←
      ConvertFloatStrToUint64 (strings_Trim (default "" (tmpTierRatio !! 1%nat)) " ") 1;
    let boundaryValueBigInt := boundaryValue * valueMultiplier in
    let lowBoundaryValueBigInt := lowBoundaryValue * valueMultiplier in
    if boundaryValueBigInt <? lowBoundaryValueBigInt
    then Err "tiers boundry value data wrong"
    else if MaxTierBoundaryValue <? boundaryValueBigInt
    then Err "tiers boundry value data wrong"
    else
      let t := mkTierRatio boundaryValueBigInt (wrap 8 ratio) 0 in
      match list.last tiersRatio with
      | Some prev =>
          if BoundaryValue t <=? BoundaryValue prev
          then Err "tiers boundry value data wrong"
          else Ok (tiersRatio ++ [t])
      | None => Ok (tiersRatio ++ [t])
      end.

Fixpoint ParseTiersRatioFromStr_loop (tiersRatioStrs : list string)
    (tiersRatio : list TierRatio) : outcome (list TierRatio) :=
  match tiersRatioStrs with
  | [] => Ok tiersRatio
  | x :: rest =>
      tiersRatio' ← ParseTiersRatioFromStr_step x tiersRatio;
      ParseTiersRatioFromStr_loop rest tiersRatio'
  end.

Definition padded (tiersRatio : list TierRatio) : outcome (list TierRatio) :=
  match PaddingTierRatios tiersRatio with
  | Some r => Ok r
  | None => Panic "the length of tiers ratio is bigger than TierCount"
  end.

Definition ParseTiersRatioFromStr (tiersRatioEnc : string) : outcome (list TierRatio) :=
  let tiersRatioEnc := strings_Trim tiersRatioEnc "[]" in
  if (String.length tiersRatioEnc =? 0)%nat then padded []
  else
    let tiersRatioStrs := strings_Split tiersRatioEnc "," in
    tiersRatio ← ParseTiersRatioFromStr_loop tiersRatioStrs [];
    padded (CalculatePrecomputedValue tiersRatio).

End Decimal.

(** ** fr.Element: [new(fr.Element).SetBytes(b).Marshal()] *)

Definition fr_Modulus : Z :=
  21888242871839275222246405745257275088548364400416034343698204186575808495617.

Fixpoint be_to_Z (s : bytes) (acc : Z) : Z :=
  match s with
  | EmptyString => acc
  | String c rest => be_to_Z rest (acc * 256 + Z.of_N (N_of_ascii c))
  end.

Fixpoint be_fixed (n : nat) (z : Z) (acc : bytes) : bytes :=
  match n with
  | O => acc
  | S n' => be_fixed n' (Z.shiftr z 8) (String (ascii_of_N (Z.to_N (Z.land z 255))) acc)
  end.

Definition fr_SetBytes_Marshal (b : bytes) : bytes :=
  be_fixed 32 (be_to_Z b 0 mod fr_Modulus) "".

(** ** Reading the user files (utils.go) *)

Definition AssetTypeForTwoDigits (symbol : string) : bool :=
  bool_decide (symbol ∈
    ["BTTC"; "bttc"; "SHIB"; "shib"; "LUNC"; "lunc"; "XEC"; "xec";
     "WIN"; "win"; "BIDR"; "bidr"; "SPELL"; "spell"; "HOT"; "hot";
     "DOGE"; "doge"; "PEPE"; "pepe"; "FLOKI"; "floki"; "IDRT"; "idrt";
     "DOGS"; "dogs"; "BONK"; "bonk"; "1000SATS"; "1000sats";
     "NEIRO"; "neiro"; "1000PEPPER"; "1000pepper"; "NOT"; "not";
     "NFT"; "nft"; "BOME"; "bome"; "1MBABYDOGE"; "1mbabydoge"]).

Section UserData.

Variable NewFromString : string -> option (Z * Z).

(** Reads [data[i][k]] and converts it.  [Ok None] is the path that counts
    the row as invalid and breaks out of the asset loop. *)
Definition with_amount {X} (row : list string) (k : Z) (multiplier : Z)
    (cont : Z -> outcome (option X)) : outcome (option X) :=
  match row !! Z.to_nat k with
  | None => Panic "index out of range"
  | Some f =>
      match ConvertFloatStrToUint64 NewFromString f multiplier with
      | Ok v => cont v
      | Err _ => Ok None
      | Panic m => Panic m
      end
  end.

(** The body of the loop over the assets of a row, for asset [j]. *)
Definition read_asset (row : list string) (cexAssetsInfo : list CexAssetInfo)
    (j : Z) (st : AccountInfo * list AccountAsset)
    : outcome (option (AccountInfo * list AccountAsset)) :=
  let '(account, assets) := st in
  match cexAssetsInfo !! Z.to_nat j with
  | None => Panic "index out of range"
  | Some cex =>
      let multiplier := if AssetTypeForTwoDigits (Symbol cex) then 100 else 100000000 in
      with_amount row (j * 6 + 2) multiplier (fun equity =>
      with_amount row (j * 6 + 3) multiplier (fun debt =>
      with_amount row (j * 6 + 5) multiplier (fun loan =>
      with_amount row (j * 6 + 6) multiplier (fun margin =>
      with_amount row (j * 6 + 7) multiplier (fun portfolioMargin =>
        if negb (equity =? 0) || negb (debt =? 0) then
          let tmpAsset := mkAccountAsset (wrap 16 j) equity debt loan margin portfolioMargin in
          let assets := assets ++ [tmpAsset] in
          match SafeAdd (Loan tmpAsset) (Margin tmpAsset) with
          | None => Panic "overflow for balance"
          | Some assetTotalCollateral =>
              match SafeAdd assetTotalCollateral (PortfolioMargin tmpAsset) with
              | None => Panic "overflow for balance"
              | Some assetTotalCollateral =>
                  if Equity tmpAsset <? assetTotalCollateral then Ok None
                  else
                    Ok (Some
                      (mkAccountInfo (AccountIndex account) (AccountId account)
                         (AcctTotalEquity account + Equity tmpAsset * BasePrice cex)
                         (AcctTotalDebt account + Debt tmpAsset * BasePrice cex)
                         (AcctTotalCollateral account
                          + CalculateAssetValueForCollateral loan margin portfolioMargin cex)
                         (Assets account),
                       assets))
              end
          end
        else Ok (Some (account, assets)))))))
  end.

(** [for j := 0; j < assetCounts; j++] with [fuel] rounds left. *)
Fixpoint read_assets (fuel : nat) (j : Z) (row : list string)
    (cexAssetsInfo : list CexAssetInfo) (st : AccountInfo * list AccountAsset)
    : outcome (option (AccountInfo * list AccountAsset)) :=
  match fuel with
  | O => Ok (Some st)
  | S fuel' =>
      r ← read_asset row cexAssetsInfo j st;
      match r with
      | None => Ok None
      | Some st' => read_assets fuel' (j + 1) row cexAssetsInfo st'
      end
  end.

(** One row: [Ok (Some account)] is an accepted account, [Ok None] a row
    that was counted as invalid. *)
Definition read_row (row : list string) (cexAssetsInfo : list CexAssetInfo)
    (assetCounts : Z) (accountIndex : Z) : outcome (option AccountInfo) :=
  match row !! 1%nat with
  | None => Panic "index out of range"
  | Some id =>
      match hex_DecodeString id with
      | None => Panic "accountId is invalid"
      | Some accountId =>
          if negb (String.length accountId =? 32)%nat
          then Panic "accountId is invalid"
          else
            let account :=
              mkAccountInfo (wrap 32 accountIndex) (fr_SetBytes_Marshal accountId)
                0 0 0 [] in
            r ← read_assets (Z.to_nat assetCounts) 0 row cexAssetsInfo (account, []);
            match r with
            | None => Ok None
            | Some (account, assets) =>
                let account :=
                  mkAccountInfo (AccountIndex account) (AccountId account)
                    (AcctTotalEquity account) (AcctTotalDebt account)
                    (AcctTotalCollateral account) assets in
                if AcctTotalDebt account <=? AcctTotalCollateral account
                then Ok (Some account) else Ok None
            end
      end
  end.

(** The loop over [AssetCountsTiers] that files an account under the first
    tier it fits. *)
Fixpoint add_to_tier (tiers : list Z) (account : AccountInfo)
    (accounts : gmap Z (list AccountInfo)) : gmap Z (list AccountInfo) :=
  match tiers with
  | [] => accounts
  | t :: rest =>
      if Z.of_nat (length (Assets account)) <=? t
      then <[t := default [] (accounts !! t) ++ [account]]> accounts
      else add_to_tier rest account accounts
  end.

Fixpoint read_rows (data : list (list string)) (cexAssetsInfo : list CexAssetInfo)
    (assetCounts : Z) (accounts : gmap Z (list AccountInfo))
    (accountIndex invalidCounts : Z)
    : outcome (gmap Z (list AccountInfo) * Z) :=
  match data with
  | [] => Ok (accounts, invalidCounts)
  | row :: rest =>
      r ← read_row row cexAssetsInfo assetCounts accountIndex;
      match r with
      | None =>
          read_rows rest cexAssetsInfo assetCounts accounts accountIndex
            (invalidCounts + 1)
      | Some account =>
          read_rows rest cexAssetsInfo assetCounts
            (add_to_tier AssetCountsTiers account accounts)
            (accountIndex + 1) invalidCounts
      end
  end.

(** [ReadUserDataFromCsvFile] on the records [csvReader.ReadAll] returned. *)
Definition ReadUserDataFromCsvFile (data : list (list string))
    (cexAssetsInfo : list CexAssetInfo)
    : outcome (gmap Z (list AccountInfo) * Z) :=
  match data with
  | [] => Panic "index out of range"
  | header :: data =>
      let assetCounts := Z.quot (Z.of_nat (length header) - 3) 6 in
      read_rows data cexAssetsInfo assetCounts ∅ 0 0
  end.

Definition count_accounts (accounts : gmap Z (list AccountInfo)) : Z :=
  map_fold (fun _ v n => n + Z.of_nat (length v)) 0 accounts.

Definition shift_account (currentAccountIndex : Z) (a : AccountInfo) : AccountInfo :=
  mkAccountInfo (wrap 32 (AccountIndex a + wrap 32 currentAccountIndex))
    (AccountId a) (AcctTotalEquity a) (AcctTotalDebt a) (AcctTotalCollateral a)
    (Assets a).

(** The collector of [ParseUserDataSet]: the results are taken in the
    order of the files, whichever worker produced them. *)
Fixpoint collect_results (i : nat) (files : list (list (list string)))
    (cexAssetInfo : list CexAssetInfo) (accountInfo : gmap Z (list AccountInfo))
    (totalInvalidAccountNum : Z) : outcome (gmap Z (list AccountInfo) * Z) :=
  match files with
  | [] => Ok (accountInfo, totalInvalidAccountNum)
  | f :: rest =>
      '(accounts, invalidAccNum) ← ReadUserDataFromCsvFile f cexAssetInfo;
      let totalInvalidAccountNum := totalInvalidAccountNum + invalidAccNum in
      let accounts :=
        if negb (i =? 0)%nat
        then fmap (M := gmap Z) (map (shift_account (count_accounts accountInfo))) accounts
        else accounts in
      let accountInfo :=
        union_with (fun a b => Some (a ++ b)) accountInfo accounts in
      collect_results (S i) rest cexAssetInfo accountInfo totalInvalidAccountNum
  end.

(** [ParseUserDataSet] once the CEX file has given [cexAssetInfo]. *)
Definition ParseUserDataSet (files : list (list (list string)))
    (cexAssetInfo : list CexAssetInfo)
    : outcome (gmap Z (list AccountInfo) * list CexAssetInfo) :=
  match files with
  | [] => Panic "index out of range"
  | _ =>
      '(accountInfo, totalInvalidAccountNum) ←
        collect_results 0 files cexAssetInfo ∅ 0;
      if 0 <? totalInvalidAccountNum then Err "invalid account data"
      else Ok (accountInfo, cexAssetInfo)
  end.

(** [main] of the witness service around [ParseUserDataSet]: [Run] stands
    for the tree, the service and its run, [db] for the rows of the witness
    table; the result is the outcome and the table afterwards. *)
Definition witness_main {Row : Type}
    (Run : gmap Z (list AccountInfo) -> list CexAssetInfo -> list Row
           -> outcome unit * list Row)
    (files : list (list (list string))) (cexAssetInfo : list CexAssetInfo)
    (db : list Row) : outcome unit * list Row :=
  match ParseUserDataSet files cexAssetInfo with
  | Ok (accounts, cexAssetsInfo) => Run accounts cexAssetsInfo db
  | Err e => (Panic e, db)
  | Panic e => (Panic e, db)
  end.

End UserData.

(** ** Plain decimals: digits with at most one point, as
       [decimal.NewFromString] reads them (no sign, no exponent). *)

Definition digit_value (c : ascii) : option Z :=
  let n := N_of_ascii c in
  if ((48 <=? n) && (n <=? 57))%N then Some (Z.of_N n - 48) else None.

Fixpoint plain_decimal_go (s : string) (value : Z) (frac : option Z)
    (seen : bool) : option (Z * Z) :=
  match s with
  | EmptyString =>
      if seen then Some (value, match frac with Some k => - k | None => 0 end)
      else None
  | String c rest =>
      if Ascii.eqb c "." then
        match frac with
        | None => plain_decimal_go rest value (Some 0) seen
        | Some _ => None
        end
      else
        match digit_value c with
        | Some d => plain_decimal_go rest (value * 10 + d) (Z.succ <$> frac) true
        | None => None
        end
  end.

Definition plain_decimal (s : string) : option (Z * Z) :=
  plain_decimal_go s 0 None false.

(** ** Tier selection, in the words of the specification *)

(** [tiers[i-1].boundary], taking [tiers[-1].boundary = 0]. *)
Definition prev_boundary (tiers : list TierRatio) (i : nat) : Z :=
  match i with
  | O => 0
  | S k => default 0 (BoundaryValue <$> tiers !! k)
  end.

(** [tiers[i-1].precomputed], taking [tiers[-1].precomputed = 0]. *)
Definition prev_precomputed (tiers : list TierRatio) (i : nat) : Z :=
  match i with
  | O => 0
  | S k => default 0 (PrecomputedValue <$> tiers !! k)
  end.

(** Boundary values strictly ascending along the list, each above [prev]. *)
Fixpoint ascending_from (prev : Z) (tiers : list TierRatio) : bool :=
  match tiers with
  | [] => true
  | t :: rest => (prev <? BoundaryValue t) && ascending_from (BoundaryValue t) rest
  end.

Definition ascending_boundaries (tiers : list TierRatio) : bool :=
  match tiers with
  | [] => true
  | t :: rest => ascending_from (BoundaryValue t) rest
  end.

(** The tier the loop stops at: the first whose boundary is not below [v]. *)
Definition selected_tier (v : Z) (tiers : list TierRatio) : option (nat * TierRatio) :=
  list_find (fun t => v <= BoundaryValue t) tiers.

(** ** A stand-in digest to evaluate the definitions on concrete inputs:
       a rolling checksum over the bytes of the chunks. *)
Fixpoint roll (s : bytes) (acc : Z) : Z :=
  match s with
  | EmptyString => acc
  | String c rest => roll rest (Z.land (acc * 257 + Z.of_N (N_of_ascii c) + 1) 4294967295)
  end.

Definition sample_hash (chunks : list bytes) : bytes :=
  BigIntBytes (fold_left (fun acc c => roll c (Z.land (acc * 263 + 5) 4294967295)) chunks 1).

Definition sample_base64 (s : string) : option bytes := Some s.

(** ** The chain conditions of the verifier, in the words of the
       specification *)

Definition emptyAccountTreeRoot : bytes :=
  default "" (hex_DecodeString Verifier.emptyAccountTreeRootHex).

Definition before_root (proofMap : gmap Z Verifier.ProofMetaData) (k : nat) : bytes :=
  default "" (fst ∘ Verifier.accountTreeRoots <$> proofMap !! Z.of_nat k).
Definition after_root (proofMap : gmap Z Verifier.ProofMetaData) (k : nat) : bytes :=
  default "" (snd ∘ Verifier.accountTreeRoots <$> proofMap !! Z.of_nat k).
Definition before_cex (proofMap : gmap Z Verifier.ProofMetaData) (k : nat) : bytes :=
  default "" (fst ∘ Verifier.cexAssetListCommitments <$> proofMap !! Z.of_nat k).
Definition after_cex (proofMap : gmap Z Verifier.ProofMetaData) (k : nat) : bytes :=
  default "" (snd ∘ Verifier.cexAssetListCommitments <$> proofMap !! Z.of_nat k).

(** The after-root of the batch before [k]; [first] for [k = 0]. *)
Definition prev_after_root (first : bytes) (proofMap : gmap Z Verifier.ProofMetaData)
    (k : nat) : bytes :=
  match k with O => first | S j => after_root proofMap j end.

Definition prev_after_cex (first : bytes) (proofMap : gmap Z Verifier.ProofMetaData)
    (k : nat) : bytes :=
  match k with O => first | S j => after_cex proofMap j end.

(** Batch [k] continues the chain. *)
Definition chained (firstRoot firstCex : bytes)
    (proofMap : gmap Z Verifier.ProofMetaData) (k : nat) : Prop :=
  before_root proofMap k = prev_after_root firstRoot proofMap k
  /\ before_cex proofMap k = prev_after_cex firstCex proofMap k.

(** The after CEX commitment of the last of [n] batches; the zero value of
    the variable when there is no batch. *)
Definition final_after_cex (proofMap : gmap Z Verifier.ProofMetaData) (n : nat) : bytes :=
  prev_after_cex "" proofMap n.

(** The configuration of the verifier placed by index. *)
Definition placed_config (cfg : list CexAssetInfo) : outcome (list CexAssetInfo) :=
  slots ← Verifier.place_cex_assets cfg (replicate (length cfg) None);
  Verifier.written_slots slots.

(** Batch [k] is in the map the workers filled and continues the chain. *)
Definition stored_and_chained (firstRoot firstCex : bytes)
    (proofMap : gmap Z Verifier.ProofMetaData) (k : nat) : Prop :=
  is_Some (proofMap !! Z.of_nat k) /\ chained firstRoot firstCex proofMap k.

(** In the words of the specification: [z] is the configured asset [c]
    with all five totals zeroed, its price, symbol, index and ratios
    kept. *)
Definition totals_zeroed (c z : CexAssetInfo) : Prop :=
  TotalEquity z = 0 /\ TotalDebt z = 0
  /\ LoanCollateral z = 0 /\ MarginCollateral z = 0 /\ PortfolioMarginCollateral z = 0
  /\ BasePrice z = BasePrice c /\ Symbol z = Symbol c /\ CexIndex z = CexIndex c
  /\ LoanRatios z = LoanRatios c /\ MarginRatios z = MarginRatios c
  /\ PortfolioMarginRatios z = PortfolioMarginRatios c.

(** ** A small verifier run: one configured asset and one batch *)

Definition sample_tiers : list TierRatio :=
  default [] (PaddingTierRatios []).

Definition sample_cfg : list CexAssetInfo :=
  [mkCexAssetInfo 7 3 2 "btc" 0 1 1 1 sample_tiers sample_tiers sample_tiers].

Definition sample_empty_commitment : bytes :=
  Eval vm_compute in
    default "" (ComputeCexAssetsCommitment sample_hash (map Verifier.zero_totals sample_cfg)).

Definition sample_final_commitment : bytes :=
  Eval vm_compute in
    default "" (ComputeCexAssetsCommitment sample_hash sample_cfg).

Definition sample_proofMap : gmap Z Verifier.ProofMetaData :=
  <[0 := Verifier.mkProofMetaData (emptyAccountTreeRoot, "root1")
           (sample_empty_commitment, sample_final_commitment)]> ∅.

(** ** Tier strings, in the words of the specification *)

Section TierStringSpec.

Variable NewFromString : string -> option (Z * Z).

(** A well-formed entry [low-high:ratio] and its three numbers. *)
Definition tier_entry (s : string) : option (Z * Z * Z) :=
  match strings_Split (strings_Trim s " ") ":" with
  | [range; r] =>
      match strings_Split range "-" with
      | [l; b] =>
          match ConvertFloatStrToUint64 NewFromString (strings_Trim l " ") 1,
                ConvertFloatStrToUint64 NewFromString (strings_Trim b " ") 1,
                ConvertFloatStrToUint64 NewFromString (strings_Trim r " ") 1 with
          | Ok l, Ok b, Ok r => Some (l, b, r)
          | _, _, _ => None
          end
      | _ => None
      end
  | _ => None
  end.

(** The entries of a tier string. *)
Definition tier_entries (enc : string) : list (option (Z * Z * Z)) :=
  tier_entry <$> strings_Split (strings_Trim enc "[]") ",".

(** Every entry is well formed, its boundary is above its own lower bound
    (strictly when [strict]), not above the maximum, and strictly above the
    boundary [prev] of the entry before it. *)
Fixpoint tiers_valid (strict : bool) (prev : option Z)
    (es : list (option (Z * Z * Z))) : bool :=
  match es with
  | [] => true
  | None :: _ => false
  | Some (l, b, _) :: rest =>
      (if strict then l * valueMultiplier <? b * valueMultiplier
       else l * valueMultiplier <=? b * valueMultiplier)
      && (b * valueMultiplier <=? MaxTierBoundaryValue)
      && match prev with
         | Some p => p <? b * valueMultiplier
         | None => true
         end
      && tiers_valid strict (Some (b * valueMultiplier)) rest
  end.

(** The tier an entry stands for, before its precomputed value is set. *)
Definition entry_tier (e : Z * Z * Z) : TierRatio :=
  let '(_, b, r) := e in mkTierRatio (b * valueMultiplier) (wrap 8 r) 0.

End TierStringSpec.

(** The sentinel that pads a tier list. *)
Definition sentinel (lastPrecomputed : Z) : TierRatio :=
  mkTierRatio MaxTierBoundaryValue 0 lastPrecomputed.

(** The recurrence of the precomputed values along a tier list. *)
Definition precomputed_recurrence (tiers : list TierRatio) : Prop :=
  forall (i : nat) (t : TierRatio),
    tiers !! i = Some t ->
    PrecomputedValue t
    = prev_precomputed tiers i
      + (BoundaryValue t - prev_boundary tiers i) * Ratio t / 100.

(** The boundary of the last tier appended so far. *)
Definition last_boundary (tiersRatio : list TierRatio) : option Z :=
  BoundaryValue <$> list.last tiersRatio.

(** ** The expanded asset list, in the words of the specification *)

(** A padding slot: index [i], every amount zero. *)
Definition padding_slot (i : Z) : AccountAsset := mkAccountAsset i 0 0 0 0 0.

Definition is_padding_slot (a : AccountAsset) : bool :=
  (Equity a =? 0) && (Debt a =? 0) && (Loan a =? 0) && (Margin a =? 0)
  && (PortfolioMargin a =? 0).

(** The real assets with [need] padding slots: the slots take the lowest
    indices from [cur] on that no real asset uses, first in the gaps
    before the real assets, the rest after the last one. *)
Fixpoint expand_assets (assets : list AccountAsset) (cur : Z) (need : nat)
    : list AccountAsset :=
  match assets with
  | [] => padding_slot <$> seqZ cur (Z.of_nat need)
  | a :: rest =>
      let g := Z.to_nat (Z.min (Index a - cur) (Z.of_nat need)) in
      (padding_slot <$> seqZ cur (Z.of_nat g))
      ++ a :: expand_assets rest (Index a + 1) (need - g)
  end.

(** The six fields of every asset, in order. *)
Definition asset_fields (a : AccountAsset) : list Z :=
  [Index a; Equity a; Debt a; Loan a; Margin a; PortfolioMargin a].

Definition flatten_assets (l : list AccountAsset) : list Z :=
  l ≫= asset_fields.

(** Three consecutive fields in one value [a * 2^128 + b * 2^64 + c]. *)
Fixpoint pack3 (l : list Z) : list Z :=
  match l with
  | a :: b :: c :: rest => (a * 2 ^ 128 + b * 2 ^ 64 + c) :: pack3 rest
  | _ => []
  end.

(** Indices strictly ascending along the list, each above [prev]. *)
Fixpoint ascending_indices_from (prev : Z) (l : list AccountAsset) : bool :=
  match l with
  | [] => true
  | a :: rest => (prev <? Index a) && ascending_indices_from (Index a) rest
  end.

(** Assets sorted strictly ascending by a non-negative index. *)
Definition ascending_indices (l : list AccountAsset) : bool :=
  ascending_indices_from (-1) l.

Definition uint16_indices (l : list AccountAsset) : bool :=
  forallb (fun a => Index a <? 65536) l.

(** The smallest tier in [{50, 500}] that holds [n] assets. *)
Definition smallest_tier (n : nat) : Z :=
  if (n <=? 50)%nat then 50 else 500.

(** The array while it is filled: the fields of the slots written so far,
    then zeros for the [free] slots still to come. *)
Definition filled (pre : list AccountAsset) (free : nat) : list Z :=
  flatten_assets pre ++ replicate (6 * free) 0.

(** ** The scenario of [TestComputeUserAssetsCommitment] (utils_test.go) *)

(** Ten assets at the positions [3i]. *)
Definition sparse_asset (i : Z) : AccountAsset :=
  mkAccountAsset (wrap 16 (3 * i)) (i * 10 + 1000) (i * 10 + 500)
    (i * 10 + 100) (i * 10 + 100) (i * 10 + 100).

Definition testUserAssets1 : list AccountAsset := sparse_asset <$> seqZ 0 10.

(** The list of [n] slots with indices [0 .. n-1] that holds the same
    amounts at those positions and zero amounts elsewhere. *)
Definition dense_slot (j : Z) : AccountAsset :=
  if (j mod 3 =? 0) && (j <? 30) then sparse_asset (j / 3) else padding_slot j.

Definition dense_assets (n : Z) : list AccountAsset := dense_slot <$> seqZ 0 n.

Section TestHelper.

Variable PoseidonBytes : list bytes -> bytes.

(** [ComputeAssetsCommitmentForTest]: five fields per asset over
    [AssetCounts] assets, three per chunk; [userAssets[i]] out of range
    panics. *)
Definition ComputeAssetsCommitmentForTest (userAssets : list AccountAsset)
    : option bytes :=
  let nEles := Z.quot (Z.of_nat AssetCounts * 5 + 2) 3 in
  if (length userAssets <? AssetCounts)%nat then None
  else
    let flattenUserAssets :=
      (take AssetCounts userAssets ≫=
         (fun a => [Equity a; Debt a; Loan a; Margin a; PortfolioMargin a]))
      ++ replicate (Z.to_nat (3 * nEles) - 5 * AssetCounts) 0 in
    Some (Sum PoseidonBytes
            (fold_left Write (BigIntBytes <$> pack3 flattenUserAssets) NewPoseidon)).

End TestHelper.

(** ** The rows of a user file, in the words of the specification *)

Section UserRowSpec.

Variable NewFromString : string -> option (Z * Z).

(** The amount in column [k] of a row; [None] when it is missing,
    malformed or does not fit 64 bits. *)
Definition amount_at (row : list string) (k : Z) (multiplier : Z) : option Z :=
  match row !! Z.to_nat k with
  | Some f =>
      match ConvertFloatStrToUint64 NewFromString f multiplier with
      | Ok v => Some v
      | _ => None
      end
  | None => None
  end.

Definition asset_multiplier (cex : CexAssetInfo) : Z :=
  if AssetTypeForTwoDigits (Symbol cex) then 100 else 100000000.

(** What a row says about asset [j]. *)
Inductive asset_view :=
| Malformed                                        (* an amount does not parse *)
| CollateralAboveEquity                            (* loan + margin + portfolio margin > equity *)
| NotHeld                                          (* equity = 0 and debt = 0 *)
| Held (a : AccountAsset) (cex : CexAssetInfo).

Definition view_asset (row : list string) (cexAssetsInfo : list CexAssetInfo)
    (j : Z) : asset_view :=
  match cexAssetsInfo !! Z.to_nat j with
  | None => Malformed
  | Some cex =>
      let m := asset_multiplier cex in
      match amount_at row (j * 6 + 2) m, amount_at row (j * 6 + 3) m,
            amount_at row (j * 6 + 5) m, amount_at row (j * 6 + 6) m,
            amount_at row (j * 6 + 7) m with
      | Some equity, Some debt, Some loan, Some margin, Some portfolioMargin =>
          if negb (equity =? 0) || negb (debt =? 0) then
            if equity <? loan + margin + portfolioMargin then CollateralAboveEquity
            else Held (mkAccountAsset (wrap 16 j) equity debt loan margin portfolioMargin) cex
          else NotHeld
      | _, _, _, _, _ => Malformed
      end
  end.

Definition view_bad (v : asset_view) : bool :=
  match v with
  | Malformed | CollateralAboveEquity => true
  | _ => false
  end.

Definition view_debt (v : asset_view) : Z :=
  match v with Held a cex => Debt a * BasePrice cex | _ => 0 end.

Definition view_equity (v : asset_view) : Z :=
  match v with Held a cex => Equity a * BasePrice cex | _ => 0 end.

Definition view_collateral (v : asset_view) : Z :=
  match v with
  | Held a cex =>
      CalculateAssetValueForCollateral (Loan a) (Margin a) (PortfolioMargin a) cex
  | _ => 0
  end.

Definition view_assets (v : asset_view) : list AccountAsset :=
  match v with Held a _ => [a] | _ => [] end.

Definition sumZ (l : list Z) : Z := foldr Z.add 0 l.

(** The views of the assets [0 .. assetCounts-1] of a row. *)
Definition row_views (row : list string) (cexAssetsInfo : list CexAssetInfo)
    (assetCounts : Z) : list asset_view :=
  view_asset row cexAssetsInfo <$> seqZ 0 assetCounts.

(** A row is invalid when an amount is malformed, an asset it holds has
    more collateral than equity, or its total collateral is below its total
    debt. *)
Definition row_invalid (row : list string) (cexAssetsInfo : list CexAssetInfo)
    (assetCounts : Z) : bool :=
  let views := row_views row cexAssetsInfo assetCounts in
  existsb view_bad views
  || (sumZ (view_collateral <$> views) <? sumZ (view_debt <$> views)).

(** The number of invalid rows of a file (its first record is the header). *)
Definition invalid_rows (data : list (list string)) (cexAssetsInfo : list CexAssetInfo) : Z :=
  match data with
  | [] => 0
  | header :: rows =>
      let assetCounts := Z.quot (Z.of_nat (length header) - 3) 6 in
      Z.of_nat (length (filter (fun row => row_invalid row cexAssetsInfo assetCounts = true) rows))
  end.

(** The tier an account is filed under. *)
Definition tier_of (a : AccountInfo) : option Z :=
  snd <$> list_find (fun t => Z.of_nat (length (Assets a)) <= t) AssetCountsTiers.

End UserRowSpec.

(** The totals of an account after the asset behind view [v] is added. *)
Definition credit (account : AccountInfo) (v : asset_view) : AccountInfo :=
  mkAccountInfo (AccountIndex account) (AccountId account)
    (AcctTotalEquity account + view_equity v)
    (AcctTotalDebt account + view_debt v)
    (AcctTotalCollateral account + view_collateral v)
    (Assets account).

Section UserAccountSpec.

Variable NewFromString : string -> option (Z * Z).

(** The account a valid row stands for, given its account index. *)
Definition row_account (row : list string) (cexAssetsInfo : list CexAssetInfo)
    (assetCounts : Z) (accountIndex : Z) : AccountInfo :=
  let views := row_views NewFromString row cexAssetsInfo assetCounts in
  mkAccountInfo (wrap 32 accountIndex)
    (fr_SetBytes_Marshal (default "" (row !! 1%nat ≫= hex_DecodeString)))
    (sumZ (view_equity <$> views))
    (sumZ (view_debt <$> views))
    (sumZ (view_collateral <$> views))
    (views ≫= view_assets).

(** What a row contributes: nothing when it is invalid, its account
    otherwise. *)
Definition row_result (row : list string) (cexAssetsInfo : list CexAssetInfo)
    (assetCounts : Z) (accountIndex : Z) : option AccountInfo :=
  if row_invalid NewFromString row cexAssetsInfo assetCounts then None
  else Some (row_account row cexAssetsInfo assetCounts accountIndex).

(** The contributions of the rows of a file, the accepted ones numbered
    from [accountIndex] on. *)
Fixpoint rows_results (rows : list (list string)) (cexAssetsInfo : list CexAssetInfo)
    (assetCounts : Z) (accountIndex : Z) : list (option AccountInfo) :=
  match rows with
  | [] => []
  | row :: rest =>
      let r := row_result row cexAssetsInfo assetCounts accountIndex in
      r :: rows_results rest cexAssetsInfo assetCounts
             (match r with Some _ => accountIndex + 1 | None => accountIndex end)
  end.

End UserAccountSpec.

(** ** A small user file: one asset, a valid row, a row whose collateral
       exceeds its equity, and variations *)

Definition sample_cex : list CexAssetInfo :=
  [mkCexAssetInfo 0 0 100000000 "btc" 0 0 0 0 sample_tiers sample_tiers sample_tiers].

Definition sample_id : string :=
  "00000000000000000000000000000000000000000000000000000000000000ff".

Definition sample_header : list string :=
  ["rn"; "id"; "equity_btc"; "debt_btc"; "btc"; "btc_loan"; "btc_margin";
   "btc_portfolio_margin"; "total_net_balance"].

Definition sample_row (id equity debt loan : string) : list string :=
  ["1"; id; equity; debt; "btc"; loan; "0.0"; "0.0"; "0"].

Definition sample_file : list (list string) :=
  [sample_header;
   sample_row sample_id "2.5" "0.0" "0.0";
   sample_row sample_id "1" "0.0" "5"].

(** The same file with a row whose account id is not hexadecimal. *)
Definition sample_file_bad_id : list (list string) :=
  [sample_header; sample_row "zz" "2.5" "0.0" "0.0"].

(** A row with a loan but neither equity nor debt. *)
Definition sample_file_loan_only : list (list string) :=
  [sample_header; sample_row sample_id "0.0" "0.0" "1"].

(** * Further definitions *)

(** ** Tier tables, as the valuation expects them *)

(** A table that continues a tier with boundary [pb] and precomputed value
    [pp]: boundaries never descend, ratios are not negative and each
    precomputed value follows from the one before by
    [pp + (boundary - pb) * ratio / 100]. *)
Fixpoint tiers_consistent (pb pp : Z) (tiers : list TierRatio) : bool :=
  match tiers with
  | [] => true
  | t :: rest =>
      (pb <=? BoundaryValue t) && (0 <=? Ratio t)
      && (PrecomputedValue t =? pp + (BoundaryValue t - pb) * Ratio t / 100)
      && tiers_consistent (BoundaryValue t) (PrecomputedValue t) rest
  end.

(** The piecewise-linear value of [v] over a table that continues a tier
    with boundary [pb] and precomputed value [pp]. *)
Fixpoint tier_value (pb pp : Z) (v : Z) (tiers : list TierRatio) : Z :=
  match tiers with
  | [] => pp
  | t :: rest =>
      if v <=? BoundaryValue t then (v - pb) * Ratio t / 100 + pp
      else tier_value (BoundaryValue t) (PrecomputedValue t) v rest
  end.

Definition ratios_at_most_100 (tiers : list TierRatio) : bool :=
  forallb (fun t => Ratio t <=? 100) tiers.

(** A tier table of two real tiers, with its precomputed values. *)
Definition two_tiers : list TierRatio :=
  [mkTierRatio 1000 50 500; mkTierRatio 3000 20 900].

(** The three tier tables of an asset are consistent and no ratio exceeds
    100 percent. *)
Definition haircut_tables (cex : CexAssetInfo) : bool :=
  tiers_consistent 0 0 (LoanRatios cex) && ratios_at_most_100 (LoanRatios cex)
  && tiers_consistent 0 0 (MarginRatios cex) && ratios_at_most_100 (MarginRatios cex)
  && tiers_consistent 0 0 (PortfolioMarginRatios cex)
  && ratios_at_most_100 (PortfolioMarginRatios cex).

(** An asset priced at 3 with [two_tiers] on every leg. *)
Definition two_tier_asset : CexAssetInfo :=
  mkCexAssetInfo 0 0 3 "abc" 0 0 0 0 two_tiers two_tiers two_tiers.

(** The invariant of the loop of [ParseTiersRatioFromStr] on the tiers
    appended so far. *)
Definition parsed_so_far (l : list TierRatio) : Prop :=
  ascending_from (-1) l = true
  /\ Forall (fun t => BoundaryValue t < MaxTierBoundaryValue
                      /\ 0 <= Ratio t < 256) l.

(** ** What the packing of a CEX record reads *)

Definition tier_committed (t : TierRatio) : Z * Z := (BoundaryValue t, Ratio t).

(** The fields of a record that [ConvertAssetInfoToBytes] reads: neither
    the symbol, nor the index, nor any precomputed value. *)
Definition committed_fields (t : CexAssetInfo)
    : list Z * list (Z * Z) * list (Z * Z) * list (Z * Z) :=
  ([TotalEquity t; TotalDebt t; BasePrice t;
    LoanCollateral t; MarginCollateral t; PortfolioMarginCollateral t],
   tier_committed <$> LoanRatios t,
   tier_committed <$> MarginRatios t,
   tier_committed <$> PortfolioMarginRatios t).

(** A padding tier: boundary [2^118], ratio 0. *)
Definition is_sentinel (t : TierRatio) : bool :=
  (BoundaryValue t =? MaxTierBoundaryValue) && (Ratio t =? 0).

(** A tier below the sentinel boundary, with a [uint8] ratio. *)
Definition is_real_tier (t : TierRatio) : bool :=
  (0 <=? Ratio t) && (Ratio t <? 256)
  && (0 <=? BoundaryValue t) && (BoundaryValue t <? MaxTierBoundaryValue).

(** Real tiers first, then nothing but sentinels. *)
Fixpoint table_in_range (l : list TierRatio) : bool :=
  match l with
  | [] => true
  | t :: rest => (is_real_tier t && table_in_range rest) || forallb is_sentinel (t :: rest)
  end.

(** A record as the Go types and the parser give it: [uint64] amounts and
    three tables of [TierCount] tiers in range. *)
Definition asset_in_range (t : CexAssetInfo) : bool :=
  forallb IsUint64 [TotalEquity t; TotalDebt t; BasePrice t;
                    LoanCollateral t; MarginCollateral t; PortfolioMarginCollateral t]
  && forallb (fun l => (length l =? TierCount)%nat && table_in_range l)
       [LoanRatios t; MarginRatios t; PortfolioMarginRatios t].

(** A record with two real tiers and ten sentinels on every leg. *)
Definition twelve_tiers : list TierRatio :=
  two_tiers ++ replicate 10 (mkTierRatio MaxTierBoundaryValue 0 900).

Definition sample_record (symbol : string) (idx : Z) : CexAssetInfo :=
  mkCexAssetInfo 7 5 3 symbol idx 1 2 3 twelve_tiers twelve_tiers twelve_tiers.

(** The number one chunk holds for the tiers [t0] and [t1]. *)
Definition pair_value (t0 t1 : TierRatio) : Z :=
  Ratio t0 + BoundaryValue t0 * Uint8MaxValueBigInt
  + (Ratio t1 * Uint126MaxValueBigInt + BoundaryValue t1 * Uint134MaxValueBigInt).

(** Two tiers that may follow each other in a table in range. *)
Definition pair_in_range (t0 t1 : TierRatio) : bool :=
  (is_real_tier t0 && (is_real_tier t1 || is_sentinel t1))
  || (is_sentinel t0 && is_sentinel t1).

(** ** The workers of the batch verifier (src/verifier/main.go) *)

Module VerifierWorkers.

Section WithCollaborators.

Variable PoseidonBytes : list bytes -> bytes.
Variable base64_DecodeString : string -> option bytes.

(** gnark: a verifying key, a public witness, [LoadVerifyingKey] on a file
    name, [frontend.NewWitness] on the circuit built from the batch
    commitment, and whether [groth16.Verify] returns no error. *)
Variables VK PublicWitness : Type.
Variable LoadVerifyingKey : string -> option VK.
Variable NewWitness : bytes -> option PublicWitness.
Variable groth16_Verify : bytes -> VK -> PublicWitness -> bool.

(** [verifierConfig.AssetsCountTiers] and [verifierConfig.ZkKeyName]. *)
Variable AssetsCountTiers : list Z.
Variable ZkKeyName : list string.

(** The key a worker holds: [vk] (nil before the first load) and
    [currentAssetCountsTier]. *)
Definition key_state : Type := option VK * Z.

(** [if proofs[j].AssetsCount != currentAssetCountsTier { ... }] *)
Definition load_key (assetsCount : Z) (ks : key_state) : outcome key_state :=
  if negb (assetsCount =? snd ks) then
    match fst <$> list_find (fun t => t = assetsCount) AssetsCountTiers with
    | None => Panic "invalid asset counts tier"
    | Some index =>
        match ZkKeyName !! index with
        | None => Panic "index out of range"
        | Some name =>
            match LoadVerifyingKey (name ++ ".vk") with
            | None => Panic "load verifying key"
            | Some vk => Ok (Some vk, assetsCount)
            end
        end
    end
  else Ok ks.

(** The loop [for j := startIndex; j < endIndex; j++] of one worker with
    [fuel] rounds left.  A failed verification prints a line and returns
    from the worker. *)
Fixpoint worker_loop (fuel : nat) (j : Z) (proofs : list Verifier.Proof)
    (ks : key_state) (proofMap : gmap Z Verifier.ProofMetaData)
    : outcome (gmap Z Verifier.ProofMetaData) :=
  match fuel with
  | O => Ok proofMap
  | S fuel' =>
      match proofs !! Z.to_nat j with
      | None => Panic "index out of range"
      | Some proof =>
          '(actualHash, proofMap) ←
            Verifier.check_public_input PoseidonBytes base64_DecodeString proof proofMap;
          match NewWitness actualHash with
          | None => Panic "new witness"
          | Some vWitness =>
              ks ← load_key (Verifier.AssetsCount proof) ks;
              match fst ks with
              | None => Panic "nil verifying key"
              | Some vk =>
                  let proofRaw := default "" (base64_DecodeString (Verifier.ZkProof proof)) in
                  if groth16_Verify proofRaw vk vWitness
                  then worker_loop fuel' (j + 1) proofs ks proofMap
                  else Ok proofMap
              end
          end
      end
  end.

(** The goroutine [func(index int)]. *)
Definition worker (index : Z) (averageProofCount : Z) (proofs : list Verifier.Proof)
    (proofMap : gmap Z Verifier.ProofMetaData)
    : outcome (gmap Z Verifier.ProofMetaData) :=
  let startIndex := index * averageProofCount in
  let endIndex := (index + 1) * averageProofCount in
  let endIndex :=
    if Z.of_nat (length proofs) <? endIndex then Z.of_nat (length proofs) else endIndex in
  worker_loop (Z.to_nat (endIndex - startIndex)) startIndex proofs (None, 0) proofMap.

(** The workers [index, index + 1, ...] one after another.  They work on
    disjoint ranges of [proofs], write the shared map under its lock, and
    the map is read only after [wg.Wait()]; a panic in any of them ends
    the program. *)
Fixpoint workers (count : nat) (index : Z) (averageProofCount : Z)
    (proofs : list Verifier.Proof) (proofMap : gmap Z Verifier.ProofMetaData)
    : outcome (gmap Z Verifier.ProofMetaData) :=
  match count with
  | O => Ok proofMap
  | S count' =>
      proofMap ← worker index averageProofCount proofs proofMap;
      workers count' (index + 1) averageProofCount proofs proofMap
  end.

(** Batch mode from the initialisation to the final check; [NumCPU] is
    [runtime.NumCPU()]. *)
Definition batch_mode (NumCPU : nat) (cfg : list CexAssetInfo)
    (proofs : list Verifier.Proof) : outcome bytes :=
  '(st0, expect) ← Verifier.init_state PoseidonBytes cfg;
  let workersNum := if (16 <? NumCPU)%nat then NumCPU else 16%nat in
  let averageProofCount :=
    Z.quot (Z.of_nat (length proofs) + Z.of_nat workersNum - 1) (Z.of_nat workersNum) in
  proofMap ← workers workersNum 0 averageProofCount proofs ∅;
  Verifier.serial_check st0 expect (length proofs) proofMap.

End WithCollaborators.

End VerifierWorkers.

(** One batch for [sample_cfg], and collaborators that load any key and
    build any witness. *)
Definition sample_proofs : list Verifier.Proof :=
  [Verifier.mkProof 0 "p" [sample_empty_commitment; sample_final_commitment]
     [emptyAccountTreeRoot; "root1"]
     (sample_hash [emptyAccountTreeRoot; "root1";
                   sample_empty_commitment; sample_final_commitment]) 50].

Definition sample_batch_mode (verdict : bool) : outcome bytes :=
  VerifierWorkers.batch_mode sample_hash sample_base64 unit unit
    (fun _ => Some tt) (fun _ => Some tt) (fun _ _ _ => verdict)
    [50; 500] ["zkpor50"; "zkpor500"] 4 sample_cfg sample_proofs.

(** The number of slots written so far. *)
Definition written_count (slots : list (option CexAssetInfo)) : nat :=
  length (omap id slots).

(** ** The verifier, user mode (src/verifier/main.go) *)

Module VerifierUser.

(** [config.UserConfig] *)
Record UserConfig := mkUserConfig {
  AccountIndex : Z;            (* uint32 *)
  AccountIdHash : string;
  TotalEquity : Z;             (* big.Int *)
  TotalDebt : Z;
  TotalCollateral : Z;
  Root : string;
  Assets : list AccountAsset;
  Proof : list string
}.

Section WithCollaborators.

Variable PoseidonBytes : list bytes -> bytes.
Variable base64_DecodeString : string -> option bytes.

(** The loop that decodes [userConfig.Proof] and appends each sibling. *)
Fixpoint decode_proof (src : list string) : outcome (list bytes) :=
  match src with
  | [] => Ok []
  | x :: rest =>
      match base64_DecodeString x with
      | None => Panic "invalid proof"
      | Some p =>
          if negb (String.length p =? 32)%nat then Panic "invalid proof"
          else
            proof ← decode_proof rest;
            Ok (p :: proof)
      end
  end.

(** User mode: [Ok true] prints "verify pass!!!", [Ok false] prints
    "verify failed...". *)
Definition user_mode (userConfig : UserConfig) : outcome bool :=
  match hex_DecodeString (Root userConfig) with
  | None => Panic "invalid account tree root"
  | Some root =>
      if negb (String.length root =? 32)%nat then Panic "invalid account tree root"
      else
        proof ← decode_proof (Proof userConfig);
        match ComputeUserAssetsCommitment PoseidonBytes (Assets userConfig) with
        | None => Panic "the target counts is less than the length of assets"
        | Some assetCommitment =>
            match hex_DecodeString (AccountIdHash userConfig) with
            | None => Panic "the AccountIdHash is invalid"
            | Some accountIdHash =>
                if negb (String.length accountIdHash =? 32)%nat
                then Panic "the AccountIdHash is invalid"
                else
                  let accountHash :=
                    PoseidonBytes [accountIdHash;
                                   BigIntBytes (TotalEquity userConfig);
                                   BigIntBytes (TotalDebt userConfig);
                                   BigIntBytes (TotalCollateral userConfig);
                                   assetCommitment] in
                  match VerifyMerkleProof PoseidonBytes root (AccountIndex userConfig)
                          proof accountHash with
                  | None => Panic "index out of range"
                  | Some verifyFlag => Ok verifyFlag
                  end
            end
        end
  end.

End WithCollaborators.

End VerifierUser.

(** The account a user configuration describes, with the decoded id. *)
Definition configured_account (accountId : bytes) (c : VerifierUser.UserConfig)
    : AccountInfo :=
  mkAccountInfo (VerifierUser.AccountIndex c) accountId
    (VerifierUser.TotalEquity c) (VerifierUser.TotalDebt c)
    (VerifierUser.TotalCollateral c) (VerifierUser.Assets c).

(** ** The CEX totals (witness.go, utils.go) *)

(** The five statements
    [cexAssets[asset.Index].X = SafeAdd(cexAssets[asset.Index].X, asset.X)]
    for one asset of an account; an index out of range and an overflow
    panic ([None]). *)
Definition add_asset (cexAssets : list CexAssetInfo) (asset : AccountAsset)
    : option (list CexAssetInfo) :=
  if Index asset <? 0 then None
  else
    c ← cexAssets !! Z.to_nat (Index asset);
    totalEquity ← SafeAdd (TotalEquity c) (Equity asset);
    totalDebt ← SafeAdd (TotalDebt c) (Debt asset);
    loanCollateral ← SafeAdd (LoanCollateral c) (Loan asset);
    marginCollateral ← SafeAdd (MarginCollateral c) (Margin asset);
    portfolioMarginCollateral ← SafeAdd (PortfolioMarginCollateral c) (PortfolioMargin asset);
    Some (<[Z.to_nat (Index asset) :=
              mkCexAssetInfo totalEquity totalDebt (BasePrice c) (Symbol c) (CexIndex c)
                loanCollateral marginCollateral portfolioMarginCollateral
                (LoanRatios c) (MarginRatios c) (PortfolioMarginRatios c)]> cexAssets).

(** The loop over the assets of one account, in [ExecuteBatchCreateUser]
    over [account.Assets] and in [RecoverAfterCexAssets] over
    [witness.CreateUserOps[i].Assets]. *)
Fixpoint add_assets (cexAssets : list CexAssetInfo) (assets : list AccountAsset)
    : option (list CexAssetInfo) :=
  match assets with
  | [] => Some cexAssets
  | a :: rest =>
      cexAssets ← add_asset cexAssets a;
      add_assets cexAssets rest
  end.

(** The accounts of a batch one after another: the loop of [Run] over
    [ExecuteBatchCreateUser] and the outer loop of [RecoverAfterCexAssets]. *)
Fixpoint add_accounts (cexAssets : list CexAssetInfo) (ops : list (list AccountAsset))
    : option (list CexAssetInfo) :=
  match ops with
  | [] => Some cexAssets
  | assets :: rest =>
      cexAssets ← add_assets cexAssets assets;
      add_accounts cexAssets rest
  end.

(** The loop of [DecodeBatchWitness] that spreads the stored assets of a
    user over [AssetCounts] slots; [userAssets[Index]] out of range panics. *)
Fixpoint spread_assets (storeUserAssets : list AccountAsset)
    (userAssets : list AccountAsset) : option (list AccountAsset) :=
  match storeUserAssets with
  | [] => Some userAssets
  | a :: rest =>
      if (Index a <? 0) || (Z.of_nat (length userAssets) <=? Index a) then None
      else spread_assets rest (<[Z.to_nat (Index a) := a]> userAssets)
  end.

(** The [AssetCounts] slots [DecodeBatchWitness] starts from: index [p],
    every amount zero. *)
Definition zero_slots : list AccountAsset :=
  (fun p => mkAccountAsset (wrap 16 p) 0 0 0 0 0) <$> seqZ 0 (Z.of_nat AssetCounts).

(** What [DecodeBatchWitness] puts in [CreateUserOps[i].Assets] for the
    stored assets of user [i]. *)
Definition DecodeBatchWitness_assets (storeUserAssets : list AccountAsset)
    : option (list AccountAsset) :=
  spread_assets storeUserAssets zero_slots.

Section Recover.

Variable PoseidonBytes : list bytes -> bytes.

(** [RecoverAfterCexAssets] on the decoded witness: its [BeforeCexAssets],
    the assets of its [CreateUserOps] and its [AfterCEXAssetsCommitment]. *)
Definition RecoverAfterCexAssets (BeforeCexAssets : list CexAssetInfo)
    (CreateUserOps : list (list AccountAsset)) (AfterCEXAssetsCommitment : bytes)
    : option (list CexAssetInfo) :=
  cexAssets ← add_accounts BeforeCexAssets CreateUserOps;
  hasher ← write_cex_assets cexAssets NewPoseidon;
  let cexCommitment := Sum PoseidonBytes hasher in
  if negb (String.eqb cexCommitment AfterCEXAssetsCommitment) then None
  else Some cexAssets.

End Recover.

(** *** The totals, in closed form *)

(** What the assets with index [k] add to the total read by [f]. *)
Definition credited (f : AccountAsset -> Z) (k : Z) (assets : list AccountAsset) : Z :=
  sumZ (f <$> filter (fun a => Index a = k) assets).

(** The record at position [k] after [assets] were added. *)
Definition record_after (assets : list AccountAsset) (k : nat) (c : CexAssetInfo)
    : CexAssetInfo :=
  mkCexAssetInfo
    (TotalEquity c + credited Equity (Z.of_nat k) assets)
    (TotalDebt c + credited Debt (Z.of_nat k) assets)
    (BasePrice c) (Symbol c) (CexIndex c)
    (LoanCollateral c + credited Loan (Z.of_nat k) assets)
    (MarginCollateral c + credited Margin (Z.of_nat k) assets)
    (PortfolioMarginCollateral c + credited PortfolioMargin (Z.of_nat k) assets)
    (LoanRatios c) (MarginRatios c) (PortfolioMarginRatios c).

Definition totals_after (cexAssets : list CexAssetInfo) (assets : list AccountAsset)
    : list CexAssetInfo :=
  imap (record_after assets) cexAssets.

Definition totals_uint64 (c : CexAssetInfo) : bool :=
  forallb IsUint64 [TotalEquity c; TotalDebt c; LoanCollateral c;
                    MarginCollateral c; PortfolioMarginCollateral c].

Definition amounts_uint64 (a : AccountAsset) : bool :=
  forallb IsUint64 [Equity a; Debt a; Loan a; Margin a; PortfolioMargin a].

Definition indices_in_range (n : nat) (assets : list AccountAsset) : bool :=
  forallb (fun a => (0 <=? Index a) && (Index a <? Z.of_nat n)) assets.

(** The slots hold their own position as index, counted from [off]. *)
Definition positional (off : Z) (userAssets : list AccountAsset) : Prop :=
  forall (p : nat) (x : AccountAsset),
    userAssets !! p = Some x -> Index x = off + Z.of_nat p.

(** Two records with zero totals and the assets of one user. *)
Definition sample_totals : list CexAssetInfo :=
  [mkCexAssetInfo 0 0 2 "btc" 0 0 0 0 twelve_tiers twelve_tiers twelve_tiers;
   mkCexAssetInfo 100 50 3 "eth" 1 1 2 3 twelve_tiers twelve_tiers twelve_tiers].

Definition sample_user_assets : list AccountAsset :=
  [mkAccountAsset 0 10 5 1 2 3; mkAccountAsset 1 20 0 4 5 6].

(** The five amounts of an asset, as functions to sum over. *)
Definition amount_fields : list (AccountAsset -> Z) :=
  [Equity; Debt; Loan; Margin; PortfolioMargin].

(** 500 records without tiers, all totals zero. *)
Definition sample_before : list CexAssetInfo :=
  replicate 500 (mkCexAssetInfo 0 0 1 "x" 0 0 0 0 [] [] []).

(** ** Padding the accounts of a tier to whole batches (utils.go) *)

(** The account [PaddingAccounts] appends: no id, zero totals and
    [assetKey] assets with the indices [0 .. assetKey-1] and zero amounts. *)
Definition padding_account (assetKey : Z) (paddingStartIndex : Z) : AccountInfo :=
  mkAccountInfo (wrap 32 paddingStartIndex) "" 0 0 0
    ((fun j => mkAccountAsset (wrap 16 j) 0 0 0 0 0) <$> seqZ 0 assetKey).

(** [PaddingAccounts]: a key that is not in [BatchCreateUserOpsCountsTiers]
    reads 0 from the map and the division by it panics ([None]). *)
Definition PaddingAccounts (accounts : list AccountInfo) (assetKey : Z)
    (paddingStartIndex : Z) : option (Z * list AccountInfo) :=
  let opsPerBatch := default 0 (BatchCreateUserOpsCountsTiers !! assetKey) in
  if opsPerBatch =? 0 then None
  else
    let batchCounts := Z.quot (Z.of_nat (length accounts) + opsPerBatch - 1) opsPerBatch in
    let paddingAccountCounts := batchCounts * opsPerBatch - Z.of_nat (length accounts) in
    Some (paddingStartIndex + paddingAccountCounts,
          accounts ++ (padding_account assetKey
                         <$> seqZ paddingStartIndex paddingAccountCounts)).

(** The number of batches [GetBatchNumber] counts for one tier. *)
Definition batches_of (accounts : list AccountInfo) (opsPerBatch : Z) : Z :=
  Z.quot (Z.of_nat (length accounts) + opsPerBatch - 1) opsPerBatch.

(** ** Accepted accounts *)

(** An asset as a row may hold it: [uint64] amounts, not all of equity and
    debt zero, collateral within equity. *)
Definition asset_held (a : AccountAsset) : bool :=
  amounts_uint64 a
  && (negb (Equity a =? 0) || negb (Debt a =? 0))
  && (Loan a + Margin a + PortfolioMargin a <=? Equity a).

(** Configured assets whose tables are consistent with ratios of at most
    100 and whose price is not negative. *)
Definition haircut_config (cexAssetsInfo : list CexAssetInfo) : bool :=
  forallb (fun cex => haircut_tables cex && (0 <=? BasePrice cex)) cexAssetsInfo.

(** ** Empty assets (utils.go) *)

Definition IsAssetEmpty (ua : AccountAsset) : bool :=
  (Debt ua =? 0) && (Equity ua =? 0) && (Margin ua =? 0)
  && (PortfolioMargin ua =? 0) && (Loan ua =? 0).

(** The loop [for _, v := range assets] that counts the assets that are
    not empty. *)
Fixpoint count_non_empty (assets : list AccountAsset) (count : Z) : Z :=
  match assets with
  | [] => count
  | v :: rest => count_non_empty rest (if negb (IsAssetEmpty v) then count + 1 else count)
  end.

Definition GetNonEmptyAssetsCountOfUser (assets : list AccountAsset) : Z :=
  let count := count_non_empty assets 0 in
  first_tier_fitting count AssetCountsTiers.

(** ** The accounts of a data set, tier after tier *)

(** The accounts filed under the tiers of [AssetCountsTiers], the lower
    tier first. *)
Definition tiered_accounts (accounts : gmap Z (list AccountInfo)) : list AccountInfo :=
  AssetCountsTiers ≫= (fun t => default [] (accounts !! t)).

(** Every account of the map is filed under a tier of [AssetCountsTiers]. *)
Definition only_tiers (accounts : gmap Z (list AccountInfo)) : Prop :=
  forall t, t ∉ AssetCountsTiers -> default [] (accounts !! t) = [].

(** The accounts of the map carry the indices [first], [first + 1], ...
    as 32-bit numbers, each once, in some order. *)
Definition numbered_from (first : Z) (accounts : gmap Z (list AccountInfo)) : Prop :=
  only_tiers accounts
  /\ AccountIndex <$> tiered_accounts accounts
     ≡ₚ wrap 32 <$> seqZ first (Z.of_nat (length (tiered_accounts accounts))).

(** Two user files without an invalid row: one account, then two. *)
Definition sample_data_set : list (list (list string)) :=
  [[sample_header; sample_row sample_id "2.5" "0.0" "0.0"];
   [sample_header; sample_row sample_id "2.5" "0.0" "0.0";
    sample_row sample_id "1" "0.0" "0.0"]].

(** ** The asset lists of accepted accounts *)

(** What [ReadUserDataFromCsvFile] leaves in [Assets]: held assets, sorted
    strictly ascending by a 16-bit index, at most 500 of them. *)
Definition accepted_assets (assets : list AccountAsset) : bool :=
  forallb asset_held assets && ascending_indices assets
  && uint16_indices assets && (length assets <=? 500)%nat.

(** ** The file of the configured assets (utils.go) *)

(** Go's zero value of [CexAssetInfo], which a read of a missing map key
    and [make] give: numbers 0, the symbol empty, tables of [TierCount]
    zero tiers (their [*big.Int] fields are nil in Go; they show as 0
    here and nothing below reads them). *)
Definition zero_TierRatio : TierRatio := mkTierRatio 0 0 0.

Definition zero_CexAssetInfo : CexAssetInfo :=
  mkCexAssetInfo 0 0 0 "" 0 0 0 0
    (replicate TierCount zero_TierRatio) (replicate TierCount zero_TierRatio)
    (replicate TierCount zero_TierRatio).

(** [cexAssetsInfo[i].Index = uint32(i)] *)
Definition set_Index (c : CexAssetInfo) (i : Z) : CexAssetInfo :=
  mkCexAssetInfo (TotalEquity c) (TotalDebt c) (BasePrice c) (Symbol c) (wrap 32 i)
    (LoanCollateral c) (MarginCollateral c) (PortfolioMarginCollateral c)
    (LoanRatios c) (MarginRatios c) (PortfolioMarginRatios c).

(** [ParseAssetIndexFromUserFile] on the first record of the file: the
    lower-cased names of the columns [6i + 4]; [None] is an index out of
    range. *)
Definition ParseAssetIndexFromUserFile (data : list string) : option (list string) :=
  let assetCounts := Z.quot (Z.of_nat (length data) - 3) 6 in
  mapM (fun i => strings_ToLower <$> data !! Z.to_nat (i * 6 + 4)) (seqZ 0 assetCounts).

Section CexFile.

Variable NewFromString : string -> option (Z * Z).

(** One round of the loop over the rows: the record of the row. *)
Definition parse_cex_row (row : list string) : outcome CexAssetInfo :=
  if negb (length row =? 5)%nat then Err "cex asset data wrong"
  else
    let symbol := strings_ToLower (default "" (row !! 0%nat)) in
    let multiplier :=
      if AssetTypeForTwoDigits symbol then 100000000000000 else 100000000 in
    basePrice ←
      ConvertFloatStrToUint64 NewFromString (default "" (row !! 1%nat)) multiplier;
    loanRatios ← ParseTiersRatioFromStr NewFromString (default "" (row !! 2%nat));
    marginRatios ← ParseTiersRatioFromStr NewFromString (default "" (row !! 3%nat));
    portfolioMarginRatios ←
      ParseTiersRatioFromStr NewFromString (default "" (row !! 4%nat));
    Ok (mkCexAssetInfo 0 0 basePrice symbol 0 0 0 0
          loanRatios marginRatios portfolioMarginRatios).

(** The loop over the rows, which fills the map [cexAssets2Info]. *)
Fixpoint parse_cex_rows (data : list (list string))
    (cexAssets2Info : gmap string CexAssetInfo)
    : outcome (gmap string CexAssetInfo) :=
  match data with
  | [] => Ok cexAssets2Info
  | row :: rest =>
      tmpCexAssetInfo ← parse_cex_row row;
      parse_cex_rows rest (<[Symbol tmpCexAssetInfo := tmpCexAssetInfo]> cexAssets2Info)
  end.

(** The loop [for i := 0; i < len(assetIndexes); i++]. *)
Fixpoint place_assets (assetIndexes : list string) (i : nat)
    (cexAssets2Info : gmap string CexAssetInfo) (cexAssetsInfo : list CexAssetInfo)
    : outcome (list CexAssetInfo) :=
  match assetIndexes with
  | [] => Ok cexAssetsInfo
  | symbol :: rest =>
      if (i <? length cexAssetsInfo)%nat
      then
        let c := default zero_CexAssetInfo (cexAssets2Info !! symbol) in
        place_assets rest (S i) cexAssets2Info
          (<[i := set_Index c (Z.of_nat i)]> cexAssetsInfo)
      else Panic "index out of range"
  end.

(** The loop [for i := len(assetIndexes); i < AssetCounts; i++] with [fuel]
    rounds left. *)
Fixpoint place_reserved (fuel : nat) (i : nat) (cexAssetsInfo : list CexAssetInfo)
    : outcome (list CexAssetInfo) :=
  match fuel with
  | O => Ok cexAssetsInfo
  | S fuel' =>
      loanRatios ← padded [];
      marginRatios ← padded [];
      portfolioMarginRatios ← padded [];
      if (i <? length cexAssetsInfo)%nat
      then
        place_reserved fuel' (S i)
          (<[i := mkCexAssetInfo 0 0 0 "reserved" (wrap 32 (Z.of_nat i)) 0 0 0
                    loanRatios marginRatios portfolioMarginRatios]> cexAssetsInfo)
      else Panic "index out of range"
  end.

(** [ParseCexAssetInfoFromFile] on the records [csvReader.ReadAll]
    returned. *)
Definition ParseCexAssetInfoFromFile (data : list (list string))
    (assetIndexes : list string) : outcome (list CexAssetInfo) :=
  match data with
  | [] => Panic "slice bounds out of range"
  | _ :: data =>
      cexAssets2Info ← parse_cex_rows data ∅;
      let cexAssetsInfo := replicate AssetCounts zero_CexAssetInfo in
      if negb (length assetIndexes =? size cexAssets2Info)%nat
      then Err "cex asset data wrong"
      else
        cexAssetsInfo ← place_assets assetIndexes 0 cexAssets2Info cexAssetsInfo;
        place_reserved (AssetCounts - length assetIndexes) (length assetIndexes)
          cexAssetsInfo
  end.

End CexFile.

(** The symbols of the rows of the file, in lower case. *)
Definition row_symbols (rows : list (list string)) : list string :=
  (fun row => strings_ToLower (default "" (row !! 0%nat))) <$> rows.

(** The reserved record at position [i]. *)
Definition reserved_record (i : nat) : CexAssetInfo :=
  mkCexAssetInfo 0 0 0 "reserved" (Z.of_nat i) 0 0 0
    (replicate TierCount (mkTierRatio MaxTierBoundaryValue 0 0))
    (replicate TierCount (mkTierRatio MaxTierBoundaryValue 0 0))
    (replicate TierCount (mkTierRatio MaxTierBoundaryValue 0 0)).

(** The three tables of a record are consistent. *)
Definition tables_consistent (c : CexAssetInfo) : bool :=
  tiers_consistent 0 0 (LoanRatios c) && tiers_consistent 0 0 (MarginRatios c)
  && tiers_consistent 0 0 (PortfolioMarginRatios c).

(** A file of two assets and the header of a user file that names one of
    them and an asset without a row. *)
Definition sample_cex_file : list (list string) :=
  [["symbol"; "price"; "loan"; "margin"; "portfolio_margin"];
   ["BTC"; "30000"; "[0-1000:100]"; "[]"; "[]"];
   ["xrp"; "0.5"; "[]"; "[]"; "[]"]].

Definition sample_user_header : list string :=
  ["rn"; "id";
   "equity_btc"; "debt_btc"; "BTC"; "btc_loan"; "btc_margin"; "btc_portfolio_margin";
   "equity_eth"; "debt_eth"; "ETH"; "eth_loan"; "eth_margin"; "eth_portfolio_margin";
   "total_net_balance"].

(** * Properties *)

(** ** Merkle inclusion proofs *)

Section MerkleProperties.

Variable PoseidonBytes : list bytes -> bytes.

Lemma land_single_bit (a : Z) (i : nat) :
  (i < 32)%nat ->
  (Z.land a (wrap 32 (Z.shiftl 1 (Z.of_nat i))) =? 0) = negb (Z.testbit a (Z.of_nat i)).
Proof.
  intros Hi.
  assert (Hw : wrap 32 (Z.shiftl 1 (Z.of_nat i)) = 2 ^ Z.of_nat i).
  { unfold wrap. rewrite Z.shiftl_1_l. apply Z.mod_small. split; [lia|].
    apply Z.pow_lt_mono_r; lia. }
  rewrite Hw.
  destruct (Z.testbit a (Z.of_nat i)) eqn:Hb; simpl.
  - apply Z.eqb_neq. intros H0.
    assert (Ht : Z.testbit (Z.land a (2 ^ Z.of_nat i)) (Z.of_nat i) = true).
    { rewrite Z.land_spec, Hb, Z.pow2_bits_true by lia. reflexivity. }
    rewrite H0, Z.bits_0 in Ht. discriminate.
  - apply Z.eqb_eq. apply Z.bits_inj'. intros n Hn.
    rewrite Z.land_spec, Z.bits_0.
    destruct (Z.eq_dec n (Z.of_nat i)) as [->|Hne].
    + rewrite Hb. reflexivity.
    + rewrite Z.pow2_bits_false by lia. apply andb_false_r.
Qed.

Lemma VerifyMerkleProof_loop_fold (accountIndex : Z) (proof : list bytes) :
  forall (steps i : nat) (node : bytes),
    (i + steps <= 32)%nat ->
    length proof = (i + steps)%nat ->
    VerifyMerkleProof_loop PoseidonBytes steps i [] accountIndex proof node
    = Some (merkle_fold PoseidonBytes i accountIndex (drop i proof) node).
Proof.
  induction steps as [|steps IH]; intros i node Hle Hlen.
  - simpl. rewrite drop_ge by lia. reflexivity.
  - simpl.
    destruct (proof !! i) as [p|] eqn:Hp.
    2:{ apply lookup_ge_None in Hp. lia. }
    rewrite (drop_S _ _ _ Hp). simpl.
    rewrite land_single_bit by lia.
    unfold Reset, Sum, Write. simpl.
    rewrite IH by lia.
    destruct (Z.testbit accountIndex (Z.of_nat i)); reflexivity.
Qed.

(** C3. [VerifyMerkleProof] always returns, and it returns true exactly
    when the proof has 28 siblings and the fold from the least-significant
    bit of the index upward (node on the left when the bit is 0, on the
    right when it is 1) ends in the root. *)
Theorem VerifyMerkleProof_iff_fold (root : bytes) (accountIndex : Z)
    (proof : list bytes) (leaf : bytes) :
  (exists b, VerifyMerkleProof PoseidonBytes root accountIndex proof leaf = Some b)
  /\ (VerifyMerkleProof PoseidonBytes root accountIndex proof leaf = Some true
      <-> length proof = 28%nat
          /\ merkle_fold PoseidonBytes 0 accountIndex proof leaf = root).
Proof.
  unfold VerifyMerkleProof, AccountTreeDepth, NewPoseidon.
  destruct (Nat.eqb_spec (length proof) 28) as [Hlen|Hlen]; cbn [negb].
  - rewrite (VerifyMerkleProof_loop_fold accountIndex proof 28 0 leaf)
      by (rewrite ?Hlen; lia).
    rewrite drop_0.
    destruct (String.eqb_spec
                (merkle_fold PoseidonBytes 0 accountIndex proof leaf) root)
      as [Heq|Hne]; cbn [negb].
    + split; [eauto|]. split; auto.
    + split; [eauto|]. split; [discriminate|]. intros [_ H]. contradiction.
  - split; [eauto|]. split; [discriminate|]. intros [H _]. contradiction.
Qed.

End MerkleProperties.

(** ** The proof table *)

Lemma latest_row_spec (l : list Prover.Proof) :
  forall (best : option Prover.Proof) (r : Prover.Proof),
    Prover.latest_row best l = Some r ->
    (r ∈ l \/ best = Some r)
    /\ (forall r', r' ∈ l -> Prover.BatchNumber r' <= Prover.BatchNumber r)
    /\ (forall b, best = Some b -> Prover.BatchNumber b <= Prover.BatchNumber r).
Proof.
  induction l as [|x l IH]; intros best r H; simpl in H.
  - subst best. split; [auto|]. split.
    + intros r' Hin. inversion Hin.
    + intros b Hb. inversion Hb. lia.
  - destruct best as [b|].
    + destruct (Z.ltb_spec (Prover.BatchNumber b) (Prover.BatchNumber x)) as [Hlt|Hge];
        apply IH in H as (Hin & Hmax & Hbest).
      * specialize (Hbest x eq_refl). split; [|split].
        -- destruct Hin as [Hin|Hin]; [left; by constructor|].
           inversion Hin; subst. left. constructor.
        -- intros r' Hr'. inversion Hr'; subst; auto.
        -- intros b' Hb'. inversion Hb'; subst. lia.
      * specialize (Hbest b eq_refl). split; [|split].
        -- destruct Hin as [Hin|Hin]; [left; by constructor|by right].
        -- intros r' Hr'. inversion Hr'; subst; [lia|auto].
        -- intros b' Hb'. inversion Hb'; subst. lia.
    + apply IH in H as (Hin & Hmax & Hbest).
      specialize (Hbest x eq_refl). split; [|split].
      * destruct Hin as [Hin|Hin]; [left; by constructor|].
        inversion Hin; subst. left. constructor.
      * intros r' Hr'. inversion Hr'; subst; auto.
      * intros b' Hb'. discriminate.
Qed.

Lemma latest_row_None (l : list Prover.Proof) (best : option Prover.Proof) :
  Prover.latest_row best l = None -> best = None /\ l = [].
Proof.
  revert best. induction l as [|x l IH]; intros best H; simpl in H; [auto|].
  destruct best as [b|].
  - destruct (Prover.BatchNumber b <? Prover.BatchNumber x);
      apply IH in H as [H _]; discriminate.
  - apply IH in H as [H _]. discriminate.
Qed.

(** C9. [GetLatestConfirmedProof] and [GetLatestProof] agree on every
    database state: both return a row of largest [batch_number] of the
    whole table (no row is filtered out), the not-found error on an empty
    table, and the SQL error when the statement fails. *)
Theorem GetLatestConfirmedProof_is_GetLatestProof (m : Prover.DB) :
  Prover.GetLatestConfirmedProof m = Prover.GetLatestProof m
  /\ match Prover.GetLatestProof m with
     | (Some r, None) =>
         Prover.failing m = false /\ r ∈ Prover.rows m
         /\ forall r', r' ∈ Prover.rows m ->
                       Prover.BatchNumber r' <= Prover.BatchNumber r
     | (None, Some Prover.DbErrNotFound) =>
         Prover.failing m = false /\ Prover.rows m = []
     | (None, Some Prover.DbErrSqlOperation) => Prover.failing m = true
     | _ => False
     end.
Proof.
  split; [reflexivity|].
  unfold Prover.GetLatestProof, Prover.Order_desc_Limit1_Find.
  destruct (Prover.failing m) eqn:Hf; simpl; [reflexivity|].
  destruct (Prover.latest_row None (Prover.rows m)) as [r|] eqn:Hl; simpl.
  - apply latest_row_spec in Hl as (Hin & Hmax & _).
    destruct Hin as [Hin|Hin]; [|discriminate]. auto.
  - apply latest_row_None in Hl as [_ Hl]. auto.
Qed.

(** ** Tiered valuation *)

Lemma ascending_from_lookup (tiers : list TierRatio) :
  forall (prev : Z) (j : nat) (tj : TierRatio),
    ascending_from prev tiers = true -> tiers !! j = Some tj ->
    prev < BoundaryValue tj.
Proof.
  induction tiers as [|t rest IH]; intros prev j tj Hasc Hj; [discriminate|].
  simpl in Hasc. apply andb_true_iff in Hasc as [Hlt Hrest].
  apply Z.ltb_lt in Hlt.
  destruct j as [|j]; simpl in Hj.
  - inversion Hj; subst. exact Hlt.
  - specialize (IH _ _ _ Hrest Hj). lia.
Qed.

Lemma ascending_boundaries_lookup (tiers : list TierRatio) :
  ascending_boundaries tiers = true ->
  forall (i j : nat) (ti tj : TierRatio),
    (i < j)%nat -> tiers !! i = Some ti -> tiers !! j = Some tj ->
    BoundaryValue ti < BoundaryValue tj.
Proof.
  induction tiers as [|t rest IH]; intros Hasc i j ti tj Hij Hi Hj; [discriminate|].
  simpl in Hasc.
  destruct j as [|j]; [lia|]. simpl in Hj.
  destruct i as [|i]; simpl in Hi.
  - inversion Hi; subst. eapply ascending_from_lookup; eauto.
  - apply (IH) with (i := i) (j := j); auto; [|lia].
    destruct rest as [|t' rest']; [reflexivity|].
    simpl in Hasc. apply andb_true_iff in Hasc as [_ Hasc]. exact Hasc.
Qed.

(** The tier before the selected one: the last of the tiers skipped, or
    the one handed over by the caller of the loop. *)
Definition tier_before (prev : option TierRatio) (skipped : list TierRatio)
    : option TierRatio :=
  match list.last skipped with
  | Some x => Some x
  | None => prev
  end.

Lemma tier_before_cons (prev : option TierRatio) (x : TierRatio) (l : list TierRatio) :
  tier_before (Some x) l = tier_before prev (x :: l).
Proof.
  unfold tier_before. destruct l as [|y l]; [reflexivity|].
  rewrite (last_cons_cons x y l). destruct (list.last (y :: l)) eqn:E; [reflexivity|].
  apply last_None in E. discriminate.
Qed.

Lemma CalculateAssetValueViaTiersRatio_loop_select (v : Z) (t : TierRatio)
    (l2 : list TierRatio) :
  forall (l1 : list TierRatio) (prev : option TierRatio),
    (forall x, x ∈ l1 -> BoundaryValue x < v) ->
    v <= BoundaryValue t ->
    CalculateAssetValueViaTiersRatio_loop v prev (l1 ++ t :: l2)
    = match tier_before prev l1 with
      | Some p => ((v - BoundaryValue p) * Ratio t / 100 + PrecomputedValue p,
                   v - BoundaryValue p)
      | None => (v * Ratio t / 100, v)
      end.
Proof.
  induction l1 as [|x l1 IH]; intros prev Hlt Hle; simpl.
  - destruct (Z.leb_spec v (BoundaryValue t)); [|lia].
    unfold tier_before; simpl. destruct prev; reflexivity.
  - assert (Hx : BoundaryValue x < v) by (apply Hlt; constructor).
    destruct (Z.leb_spec v (BoundaryValue x)); [lia|].
    rewrite IH; [|intros y Hy; apply Hlt; by constructor|exact Hle].
    rewrite (tier_before_cons prev). reflexivity.
Qed.

Lemma CalculateAssetValueViaTiersRatio_loop_above (v : Z) :
  forall (l : list TierRatio) (prev : option TierRatio),
    (forall x, x ∈ l -> BoundaryValue x < v) ->
    CalculateAssetValueViaTiersRatio_loop v prev l
    = (match tier_before prev l with
       | Some p => PrecomputedValue p
       | None => 0
       end, v).
Proof.
  induction l as [|x l IH]; intros prev Hlt; simpl.
  - unfold tier_before; simpl. destruct prev; reflexivity.
  - assert (Hx : BoundaryValue x < v) by (apply Hlt; constructor).
    destruct (Z.leb_spec v (BoundaryValue x)); [lia|].
    rewrite IH; [|intros y Hy; apply Hlt; by constructor].
    rewrite (tier_before_cons prev). reflexivity.
Qed.

Lemma tier_before_take (tiers : list TierRatio) (i : nat) (t : TierRatio) :
  tiers !! i = Some t ->
  tier_before None (take i tiers)
  = match i with O => None | S k => tiers !! k end.
Proof.
  intros Hi. unfold tier_before. rewrite last_lookup.
  assert (Hlen : (i < length tiers)%nat) by (eapply lookup_lt_Some; eauto).
  rewrite length_take, Nat.min_l by lia.
  destruct i as [|k]; simpl; [reflexivity|].
  rewrite lookup_take_lt by lia.
  destruct (tiers !! k) eqn:E; [reflexivity|].
  apply lookup_ge_None in E. lia.
Qed.

(** The value and the final cell contents when the loop selects tier [i]. *)
Lemma CalculateAssetValueViaTiersRatio_selected (v : Z) (tiers : list TierRatio)
    (i : nat) (t : TierRatio) :
  selected_tier v tiers = Some (i, t) ->
  CalculateAssetValueViaTiersRatio v tiers
  = ((v - prev_boundary tiers i) * Ratio t / 100 + prev_precomputed tiers i,
     v - prev_boundary tiers i).
Proof.
  unfold selected_tier. intros Hsel.
  apply list_find_Some in Hsel as (Hi & Hle & Hbefore).
  unfold CalculateAssetValueViaTiersRatio.
  destruct tiers as [|t0 tiers0] eqn:Ht; [discriminate|]. simpl length. simpl Nat.eqb.
  rewrite <- Ht in *. clear Ht t0 tiers0.
  rewrite <- (take_drop_middle tiers i t Hi) at 1.
  rewrite CalculateAssetValueViaTiersRatio_loop_select; [|
    intros x Hx; apply list_elem_of_lookup in Hx as [k Hk];
    pose proof (lookup_lt_Some _ _ _ Hk) as Hklen;
    rewrite length_take in Hklen;
    rewrite lookup_take_lt in Hk by lia;
    specialize (Hbefore k x Hk ltac:(lia)); lia | exact Hle].
  rewrite (tier_before_take tiers i t Hi).
  destruct i as [|k]; simpl.
  - rewrite Z.sub_0_r, Z.add_0_r. reflexivity.
  - destruct (tiers !! k) as [p|] eqn:Hk; simpl; [reflexivity|].
    apply lookup_ge_None in Hk. apply lookup_lt_Some in Hi. lia.
Qed.

(** The bracket of the specification pins down the tier the loop selects. *)
Lemma bracket_selected (v : Z) (tiers : list TierRatio) (i : nat) (t : TierRatio) :
  ascending_boundaries tiers = true ->
  tiers !! i = Some t ->
  prev_boundary tiers i < v <= BoundaryValue t ->
  selected_tier v tiers = Some (i, t).
Proof.
  intros Hasc Hi [Hlo Hhi]. unfold selected_tier.
  apply list_find_Some. split; [exact Hi|]. split; [exact Hhi|].
  intros j y Hj Hji Hy.
  destruct i as [|k]; [lia|]. simpl in Hlo.
  destruct (tiers !! k) as [p|] eqn:Hk; simpl in Hlo.
  2:{ apply lookup_ge_None in Hk. apply lookup_lt_Some in Hi. lia. }
  destruct (Nat.eq_dec j k) as [->|Hne].
  - rewrite Hk in Hj. inversion Hj; subst. lia.
  - pose proof (ascending_boundaries_lookup tiers Hasc j k y p ltac:(lia) Hj Hk). lia.
Qed.

(** C4. The haircut valuation on ascending tiers: in the bracket of tier
    [i] it is [tiers[i-1].precomputed + (v - tiers[i-1].boundary) *
    tiers[i].ratio / 100] and that [i] is unique; above every boundary it
    is the last tier's precomputed value; on the empty list it is 0; and
    each collateral leg is valued at [v = amount * price]. *)
Theorem haircut_valuation (v : Z) (tiers : list TierRatio) :
  0 <= v ->
  ascending_boundaries tiers = true ->
  (forall (i : nat) (t : TierRatio),
      tiers !! i = Some t ->
      prev_boundary tiers i < v <= BoundaryValue t ->
      fst (CalculateAssetValueViaTiersRatio v tiers)
      = prev_precomputed tiers i + (v - prev_boundary tiers i) * Ratio t / 100
      /\ forall (i' : nat) (t' : TierRatio),
           tiers !! i' = Some t' ->
           prev_boundary tiers i' < v <= BoundaryValue t' -> i' = i)
  /\ (forall l : TierRatio,
        list.last tiers = Some l ->
        (forall t, t ∈ tiers -> BoundaryValue t < v) ->
        fst (CalculateAssetValueViaTiersRatio v tiers) = PrecomputedValue l)
  /\ fst (CalculateAssetValueViaTiersRatio v []) = 0
  /\ (forall (loan margin portfolioMargin : Z) (cex : CexAssetInfo),
        CalculateAssetValueForCollateral loan margin portfolioMargin cex
        = fst (CalculateAssetValueViaTiersRatio (loan * BasePrice cex) (LoanRatios cex))
          + fst (CalculateAssetValueViaTiersRatio (margin * BasePrice cex) (MarginRatios cex))
          + fst (CalculateAssetValueViaTiersRatio (portfolioMargin * BasePrice cex)
                   (PortfolioMarginRatios cex))).
Proof.
  intros Hv Hasc. repeat split.
  - rewrite (CalculateAssetValueViaTiersRatio_selected v tiers i t)
      by (apply bracket_selected; auto).
    simpl. lia.
  - intros i' t' Hi' Hb'.
    pose proof (bracket_selected v tiers i t Hasc H H0) as S1.
    pose proof (bracket_selected v tiers i' t' Hasc Hi' Hb') as S2.
    rewrite S1 in S2. inversion S2. reflexivity.
  - intros l Hlast Habove.
    unfold CalculateAssetValueViaTiersRatio.
    destruct tiers as [|t0 tiers0] eqn:Ht; [discriminate|]. simpl length. simpl Nat.eqb.
    rewrite CalculateAssetValueViaTiersRatio_loop_above by exact Habove.
    unfold tier_before. rewrite Hlast. reflexivity.
Qed.

Lemma haircut_valuation_witness :
  fst (CalculateAssetValueViaTiersRatio 150
         [mkTierRatio 100 50 50; mkTierRatio 200 20 70]) = 50 + (150 - 100) * 20 / 100.
Proof.
  pose proof (haircut_valuation 150 [mkTierRatio 100 50 50; mkTierRatio 200 20 70]
                ltac:(lia) eq_refl) as (H & _).
  destruct (H 1%nat (mkTierRatio 200 20 70) eq_refl ltac:(simpl; lia)) as [E _].
  exact E.
Defined.

(** C10. When the loop selects a tier [i > 0], the cell behind
    [collateralValue] holds [v - tiers[i-1].boundary] after the call, and
    the returned value is still the haircut of the original [v]; when it
    selects tier 0, or no tier, the cell is left as it was. *)
Theorem collateralValue_mutated_in_place (v : Z) (tiers : list TierRatio) :
  (forall (i : nat) (t p : TierRatio),
      selected_tier v tiers = Some (S i, t) ->
      tiers !! i = Some p ->
      snd (CalculateAssetValueViaTiersRatio v tiers) = v - BoundaryValue p
      /\ fst (CalculateAssetValueViaTiersRatio v tiers)
         = PrecomputedValue p + (v - BoundaryValue p) * Ratio t / 100)
  /\ (forall t : TierRatio,
        selected_tier v tiers = Some (O, t) ->
        CalculateAssetValueViaTiersRatio v tiers = (v * Ratio t / 100, v))
  /\ (selected_tier v tiers = None ->
      snd (CalculateAssetValueViaTiersRatio v tiers) = v).
Proof.
  repeat split.
  - rewrite (CalculateAssetValueViaTiersRatio_selected v tiers (S i) t H).
    simpl. rewrite H0. reflexivity.
  - rewrite (CalculateAssetValueViaTiersRatio_selected v tiers (S i) t H).
    simpl. rewrite H0. simpl. lia.
  - intros t Hsel.
    rewrite (CalculateAssetValueViaTiersRatio_selected v tiers 0 t Hsel).
    simpl. rewrite Z.sub_0_r, Z.add_0_r. reflexivity.
  - intros Hnone. unfold selected_tier in Hnone.
    apply list_find_None in Hnone.
    unfold CalculateAssetValueViaTiersRatio.
    destruct tiers as [|t0 tiers0] eqn:Ht; [reflexivity|]. simpl length. simpl Nat.eqb.
    rewrite CalculateAssetValueViaTiersRatio_loop_above; [reflexivity|].
    intros x Hx. rewrite list.Forall_forall in Hnone. specialize (Hnone x Hx). lia.
Qed.

Lemma collateralValue_mutated_in_place_witness :
  CalculateAssetValueViaTiersRatio 150
    [mkTierRatio 100 50 50; mkTierRatio 200 20 70] = (60, 50).
Proof.
  pose proof (collateralValue_mutated_in_place 150
                [mkTierRatio 100 50 50; mkTierRatio 200 20 70]) as (H & _).
  destruct (H 0%nat (mkTierRatio 200 20 70) (mkTierRatio 100 50 50) eq_refl eq_refl)
    as [E1 E2].
  rewrite (surjective_pairing (CalculateAssetValueViaTiersRatio _ _)), E1, E2.
  reflexivity.
Defined.

(** ** The batch commitment *)

Section BatchCommitmentProperties.

Variable PoseidonBytes : list bytes -> bytes.
Variable base64_DecodeString : string -> option bytes.

(** C2. The batch commitment the witness builder emits is the Poseidon
    hash of the before root, the after root, the before CEX commitment and
    the after CEX commitment, in that order; the verifier hashes the
    stored roots and CEX commitments in the same order and panics exactly
    when the digest differs from the stored batch commitment, otherwise it
    records the batch in the shared map. *)
Theorem batch_commitment_binding
    (beforeRoot afterRoot : bytes) (cexBefore cexAfter : list CexAssetInfo)
    (w : Witness.BatchCreateUserWitness)
    (proof : Verifier.Proof) (proofMap : gmap Z Verifier.ProofMetaData)
    (proofRaw actualHash : bytes) (roots cex : bytes * bytes) :
  Witness.Run_batch PoseidonBytes beforeRoot afterRoot cexBefore cexAfter = Some w ->
  base64_DecodeString (Verifier.ZkProof proof) = Some proofRaw ->
  Verifier.decode_pair base64_DecodeString 0 (Verifier.CexAssetCommitment proof) ("", "")
    = Ok cex ->
  Verifier.decode_pair base64_DecodeString 0 (Verifier.AccountTreeRoots proof) ("", "")
    = Ok roots ->
  base64_DecodeString (Verifier.BatchCommitment proof) = Some actualHash ->
  (Witness.BatchCommitment w
   = PoseidonBytes [Witness.BeforeAccountTreeRoot w; Witness.AfterAccountTreeRoot w;
                    Witness.BeforeCEXAssetsCommitment w;
                    Witness.AfterCEXAssetsCommitment w]
   /\ Witness.BeforeAccountTreeRoot w = beforeRoot
   /\ Witness.AfterAccountTreeRoot w = afterRoot)
  /\ (is_Panic (Verifier.check_public_input PoseidonBytes base64_DecodeString proof proofMap)
      = true
      <-> PoseidonBytes [fst roots; snd roots; fst cex; snd cex] <> actualHash)
  /\ (PoseidonBytes [fst roots; snd roots; fst cex; snd cex] = actualHash ->
      Verifier.check_public_input PoseidonBytes base64_DecodeString proof proofMap
      = Ok (actualHash,
            <[Verifier.BatchNumber proof := Verifier.mkProofMetaData roots cex]> proofMap)).
Proof.
  intros Hrun Hraw Hcex Hroots Hact.
  split.
  - unfold Witness.Run_batch in Hrun.
    destruct (write_cex_assets cexBefore NewPoseidon) as [h1|]; [|discriminate].
    simpl in Hrun.
    destruct (write_cex_assets cexAfter (Reset h1)) as [h2|]; [|discriminate].
    simpl in Hrun. inversion Hrun; subst w; simpl. auto.
  - unfold Verifier.check_public_input.
    rewrite Hraw, Hcex. simpl. rewrite Hroots. simpl. rewrite Hact.
    unfold Sum, Write, NewPoseidon. simpl.
    destruct (String.eqb_spec
                (PoseidonBytes [fst roots; snd roots; fst cex; snd cex]) actualHash)
      as [Heq|Hne]; simpl.
    + split; [split; [discriminate|congruence]|]. intros _. reflexivity.
    + split; [split; auto|]. contradiction.
Qed.

End BatchCommitmentProperties.

Lemma batch_commitment_binding_witness :
  Witness.Run_batch sample_hash "r0" "r1" [] []
  = Some (Witness.mkBatchCreateUserWitness
            (sample_hash ["r0"; "r1"; sample_hash []; sample_hash []])
            "r0" "r1" (sample_hash []) (sample_hash []))
  /\ Verifier.check_public_input sample_hash sample_base64
       (Verifier.mkProof 0 "p" ["c0"; "c1"] ["r0"; "r1"]
          (sample_hash ["r0"; "r1"; "c0"; "c1"]) 50) ∅
     = Ok (sample_hash ["r0"; "r1"; "c0"; "c1"],
           <[0 := Verifier.mkProofMetaData ("r0", "r1") ("c0", "c1")]> ∅).
Proof.
  split; [reflexivity|].
  destruct (batch_commitment_binding sample_hash sample_base64
              "r0" "r1" [] []
              (Witness.mkBatchCreateUserWitness
                 (sample_hash ["r0"; "r1"; sample_hash []; sample_hash []])
                 "r0" "r1" (sample_hash []) (sample_hash []))
              (Verifier.mkProof 0 "p" ["c0"; "c1"] ["r0"; "r1"]
                 (sample_hash ["r0"; "r1"; "c0"; "c1"]) 50)
              ∅ "p" (sample_hash ["r0"; "r1"; "c0"; "c1"]) ("r0", "r1") ("c0", "c1")
              eq_refl eq_refl eq_refl eq_refl eq_refl) as (_ & _ & H).
  apply H. reflexivity.
Defined.

(** ** The serial pass of the verifier *)

Section ChainProperties.

Variable PoseidonBytes : list bytes -> bytes.
Variable proofMap : gmap Z Verifier.ProofMetaData.
Variables firstRoot firstCex : bytes.

Lemma serial_pass_chained :
  forall (fuel k0 : nat) (st : Verifier.chain_state),
    snd (Verifier.prevAccountTreeRoots st) = prev_after_root firstRoot proofMap k0 ->
    snd (Verifier.prevCexAssetListCommitments st) = prev_after_cex firstCex proofMap k0 ->
    match Verifier.serial_pass fuel (Z.of_nat k0) proofMap st with
    | Ok st' =>
        (forall k, (k0 <= k < k0 + fuel)%nat ->
                   stored_and_chained firstRoot firstCex proofMap k)
        /\ Verifier.finalCexAssetsInfoComm st'
           = match fuel with
             | O => Verifier.finalCexAssetsInfoComm st
             | S _ => prev_after_cex "" proofMap (k0 + fuel)
             end
    | Panic _ =>
        ~ (forall k, (k0 <= k < k0 + fuel)%nat ->
                     stored_and_chained firstRoot firstCex proofMap k)
    | Err _ => False
    end.
Proof.
  induction fuel as [|fuel IH]; intros k0 st Hroot Hcex; simpl.
  - split; [intros k Hk; lia | reflexivity].
  - destruct (proofMap !! Z.of_nat k0) as [pd|] eqn:Hpd.
    2:{ intros Hall. destruct (Hall k0 ltac:(lia)) as [[x Hx] _]. congruence. }
    assert (Hbr : before_root proofMap k0 = fst (Verifier.accountTreeRoots pd))
      by (unfold before_root; rewrite Hpd; reflexivity).
    assert (Hbc : before_cex proofMap k0 = fst (Verifier.cexAssetListCommitments pd))
      by (unfold before_cex; rewrite Hpd; reflexivity).
    destruct (String.eqb_spec (fst (Verifier.accountTreeRoots pd))
                (snd (Verifier.prevAccountTreeRoots st))) as [E1|N1]; simpl.
    2:{ intros Hall. destruct (Hall k0 ltac:(lia)) as [_ [Hc _]]. congruence. }
    destruct (String.eqb_spec (fst (Verifier.cexAssetListCommitments pd))
                (snd (Verifier.prevCexAssetListCommitments st))) as [E2|N2]; simpl.
    2:{ intros Hall. destruct (Hall k0 ltac:(lia)) as [_ [_ Hc]]. congruence. }
    replace (Z.of_nat k0 + 1) with (Z.of_nat (S k0)) by lia.
    match goal with |- context [Verifier.serial_pass fuel _ _ ?s] => set (st1 := s) end.
    specialize (IH (S k0) st1).
    assert (Hk0 : stored_and_chained firstRoot firstCex proofMap k0).
    { split; [rewrite Hpd; by eexists|]. split; congruence. }
    destruct (Verifier.serial_pass fuel (Z.of_nat (S k0)) proofMap st1) as [st'|e|e].
    + destruct IH as [Hall Hfin].
      * subst st1; simpl. unfold after_root. rewrite Hpd. reflexivity.
      * subst st1; simpl. unfold after_cex. rewrite Hpd. reflexivity.
      * split.
        -- intros k Hk. destruct (Nat.eq_dec k k0) as [->|Hne]; [exact Hk0|].
           apply Hall. lia.
        -- rewrite Hfin. destruct fuel as [|fuel'].
           ++ subst st1; simpl. rewrite Nat.add_1_r. simpl.
              unfold after_cex. rewrite Hpd. reflexivity.
           ++ f_equal. lia.
    + exfalso. apply IH.
      * subst st1; simpl. unfold after_root. rewrite Hpd. reflexivity.
      * subst st1; simpl. unfold after_cex. rewrite Hpd. reflexivity.
    + intros Hall. apply IH.
      * subst st1; simpl. unfold after_root. rewrite Hpd. reflexivity.
      * subst st1; simpl. unfold after_cex. rewrite Hpd. reflexivity.
      * intros k Hk. apply Hall. lia.
Qed.

End ChainProperties.

Section VerifierProperties.

Variable PoseidonBytes : list bytes -> bytes.

Lemma init_state_placed (cfg cexAssetsInfo : list CexAssetInfo) (e f : bytes) :
  placed_config cfg = Ok cexAssetsInfo ->
  ComputeCexAssetsCommitment PoseidonBytes (map Verifier.zero_totals cexAssetsInfo) = Some e ->
  ComputeCexAssetsCommitment PoseidonBytes cexAssetsInfo = Some f ->
  Verifier.init_state PoseidonBytes cfg
  = Ok (Verifier.mkChainState ("", emptyAccountTreeRoot) ("", e) "" "", f).
Proof.
  intros Hp He Hf. unfold Verifier.init_state, placed_config in *.
  change (hex_DecodeString Verifier.emptyAccountTreeRootHex)
    with (Some emptyAccountTreeRoot).
  cbv beta iota.
  destruct (Verifier.place_cex_assets cfg (replicate (length cfg) None))
    as [slots|m|m]; simpl in Hp; try discriminate.
  simpl. rewrite Hp. simpl.
  unfold Verifier.commit_or_panic. rewrite He. simpl. rewrite Hf. reflexivity.
Qed.

(** The zeroed configuration the verifier commits to is the one the
    specification describes. *)
Lemma zero_totals_zeroed (cexAssetsInfo zeroed : list CexAssetInfo) :
  Forall2 totals_zeroed cexAssetsInfo zeroed ->
  map Verifier.zero_totals cexAssetsInfo = zeroed.
Proof.
  induction 1 as [|c z l l' Hz _ IH]; [reflexivity|].
  cbn [map]. rewrite IH. f_equal.
  destruct Hz as (H1 & H2 & H3 & H4 & H5 & H6 & H7 & H8 & H9 & H10 & H11).
  destruct z; cbn in *. unfold Verifier.zero_totals. congruence.
Qed.

(** C1. The serial pass over the map the workers filled accepts exactly
    when every batch [k] below the number of proofs is stored in the map
    and starts from the after root and the after CEX commitment of batch
    [k-1] (for [k = 0]: the depth-28 empty-tree root constant and the
    commitment [e] of the configured assets with all five totals zeroed,
    price, symbol, index and ratios kept) and the after CEX commitment of
    the last batch is the commitment [f] of the configured assets with
    their declared totals.  A batch missing from the map makes the pass
    panic like a broken link. *)
Theorem serial_pass_accepts_iff_chain
    (cfg cexAssetsInfo zeroed : list CexAssetInfo) (e f : bytes)
    (nProofs : nat) (proofMap : gmap Z Verifier.ProofMetaData) :
  placed_config cfg = Ok cexAssetsInfo ->
  Forall2 totals_zeroed cexAssetsInfo zeroed ->
  ComputeCexAssetsCommitment PoseidonBytes zeroed = Some e ->
  ComputeCexAssetsCommitment PoseidonBytes cexAssetsInfo = Some f ->
  is_Ok (Verifier.batch_mode PoseidonBytes cfg nProofs proofMap) = true
  <-> (forall k, (k < nProofs)%nat ->
         stored_and_chained emptyAccountTreeRoot e proofMap k)
      /\ final_after_cex proofMap nProofs = f.
Proof.
  intros Hp Hz He Hf.
  rewrite <- (zero_totals_zeroed _ _ Hz) in He.
  unfold Verifier.batch_mode.
  rewrite (init_state_placed cfg cexAssetsInfo e f Hp He Hf). simpl.
  unfold Verifier.serial_check.
  pose proof (serial_pass_chained proofMap emptyAccountTreeRoot e nProofs 0
                (Verifier.mkChainState ("", emptyAccountTreeRoot) ("", e) "" "")
                eq_refl eq_refl) as Hs.
  change (Z.of_nat 0) with 0 in Hs.
  destruct (Verifier.serial_pass nProofs 0 proofMap _) as [st'|m|m]; simpl.
  - destruct Hs as [Hall Hfin].
    assert (Hfin' : Verifier.finalCexAssetsInfoComm st' = final_after_cex proofMap nProofs).
    { rewrite Hfin. unfold final_after_cex. destruct nProofs; reflexivity. }
    destruct (String.eqb_spec (Verifier.finalCexAssetsInfoComm st') f) as [E|N]; simpl.
    + split; [|reflexivity]. intros _. split; [|congruence].
      intros k Hk. apply Hall. lia.
    + split; [discriminate|]. intros [_ Hc]. congruence.
  - contradiction.
  - split; [discriminate|]. intros [Hall _]. exfalso. apply Hs.
    intros k Hk. apply Hall. lia.
Qed.

End VerifierProperties.

Lemma sample_cfg_placed : placed_config sample_cfg = Ok sample_cfg.
Proof. reflexivity. Qed.

Lemma sample_empty_commitment_eq :
  ComputeCexAssetsCommitment sample_hash (map Verifier.zero_totals sample_cfg)
  = Some sample_empty_commitment.
Proof. vm_compute. reflexivity. Qed.

Lemma sample_final_commitment_eq :
  ComputeCexAssetsCommitment sample_hash sample_cfg = Some sample_final_commitment.
Proof. vm_compute. reflexivity. Qed.

Lemma sample_cfg_zeroed :
  Forall2 totals_zeroed sample_cfg
    [mkCexAssetInfo 0 0 2 "btc" 0 0 0 0 sample_tiers sample_tiers sample_tiers].
Proof. repeat constructor. Qed.

Lemma serial_pass_accepts_iff_chain_witness :
  is_Ok (Verifier.batch_mode sample_hash sample_cfg 1 sample_proofMap) = true.
Proof.
  apply (serial_pass_accepts_iff_chain sample_hash sample_cfg sample_cfg
           [mkCexAssetInfo 0 0 2 "btc" 0 0 0 0 sample_tiers sample_tiers sample_tiers]
           sample_empty_commitment sample_final_commitment 1 sample_proofMap
           sample_cfg_placed sample_cfg_zeroed sample_empty_commitment_eq
           sample_final_commitment_eq).
  split; [|reflexivity].
  intros k Hk. destruct k as [|k]; [|lia]. split.
  - exists (Verifier.mkProofMetaData (emptyAccountTreeRoot, "root1")
              (sample_empty_commitment, sample_final_commitment)).
    reflexivity.
  - split; reflexivity.
Defined.

(** ** Tier strings *)

Section TierStringProperties.

Variable NewFromString : string -> option (Z * Z).

Lemma ConvertFloatStrToUint64_not_Panic (f : string) (m : Z) :
  is_Panic (ConvertFloatStrToUint64 NewFromString f m) = false.
Proof.
  unfold ConvertFloatStrToUint64.
  destruct (String.eqb f "0.0"); [reflexivity|].
  destruct (NewFromString f) as [[value exp]|]; [|reflexivity].
  destruct (negb _); reflexivity.
Qed.

Lemma ParseTiersRatioFromStr_step_spec (s : string) (tiersRatio : list TierRatio) :
  match ParseTiersRatioFromStr_step NewFromString s tiersRatio with
  | Ok tiersRatio' =>
      exists e, tier_entry NewFromString s = Some e
                /\ tiers_valid false (last_boundary tiersRatio) [Some e] = true
                /\ tiersRatio' = tiersRatio ++ [entry_tier e]
  | Err _ =>
      tiers_valid false (last_boundary tiersRatio)
        [tier_entry NewFromString s] = false
  | Panic _ => False
  end.
Proof.
  unfold ParseTiersRatioFromStr_step, tier_entry.
  destruct (strings_Split (strings_Trim s " ") ":") as [|range [|r [|x tl]]];
    try (simpl; reflexivity).
  cbn [lookup list_lookup default from_option id length Nat.eqb negb orb].
    destruct (strings_Split range "-") as [|l [|b [|y tl]]]; try reflexivity.
    cbn [lookup list_lookup default from_option id length Nat.eqb negb orb].
    pose proof (ConvertFloatStrToUint64_not_Panic (strings_Trim l " ") 1) as Pl.
    pose proof (ConvertFloatStrToUint64_not_Panic (strings_Trim b " ") 1) as Pb.
    pose proof (ConvertFloatStrToUint64_not_Panic (strings_Trim r " ") 1) as Pr.
    destruct (ConvertFloatStrToUint64 NewFromString (strings_Trim l " ") 1)
      as [lv|?|?]; try discriminate; [|reflexivity].
    destruct (ConvertFloatStrToUint64 NewFromString (strings_Trim b " ") 1)
      as [bv|?|?]; try discriminate; [|reflexivity].
    destruct (ConvertFloatStrToUint64 NewFromString (strings_Trim r " ") 1)
      as [rv|?|?]; try discriminate; [|reflexivity].
    cbn [mbind outcome_bind obind tiers_valid].
    destruct (Z.ltb_spec (bv * valueMultiplier) (lv * valueMultiplier)) as [H1|H1].
    { destruct (Z.leb_spec (lv * valueMultiplier) (bv * valueMultiplier)); [lia|].
      reflexivity. }
    destruct (Z.leb_spec (lv * valueMultiplier) (bv * valueMultiplier)); [|lia].
    destruct (Z.ltb_spec MaxTierBoundaryValue (bv * valueMultiplier)) as [H2|H2].
    { destruct (Z.leb_spec (bv * valueMultiplier) MaxTierBoundaryValue); [lia|].
      reflexivity. }
    destruct (Z.leb_spec (bv * valueMultiplier) MaxTierBoundaryValue); [|lia].
    unfold last_boundary.
    destruct (list.last tiersRatio) as [prev|]; cbn [fmap option_fmap option_map BoundaryValue].
    + destruct (Z.leb_spec (bv * valueMultiplier) (BoundaryValue prev)) as [H3|H3].
      * destruct (Z.ltb_spec (BoundaryValue prev) (bv * valueMultiplier)); [lia|].
        reflexivity.
      * exists (lv, bv, rv). split; [reflexivity|]. split; [|reflexivity].
        cbn [tiers_valid].
        destruct (Z.ltb_spec (BoundaryValue prev) (bv * valueMultiplier)); [|lia].
        destruct (Z.leb_spec (lv * valueMultiplier) (bv * valueMultiplier)); [|lia].
        destruct (Z.leb_spec (bv * valueMultiplier) MaxTierBoundaryValue); [|lia].
        reflexivity.
    + exists (lv, bv, rv). split; [reflexivity|]. split; [|reflexivity].
      cbn [tiers_valid].
      destruct (Z.leb_spec (lv * valueMultiplier) (bv * valueMultiplier)); [|lia].
      destruct (Z.leb_spec (bv * valueMultiplier) MaxTierBoundaryValue); [|lia].
      reflexivity.
Qed.


Lemma last_boundary_snoc (tiersRatio : list TierRatio) (e : Z * Z * Z) :
  last_boundary (tiersRatio ++ [entry_tier e])
  = Some (BoundaryValue (entry_tier e)).
Proof. unfold last_boundary. rewrite last_snoc. reflexivity. Qed.

Lemma tiers_valid_cons (strict : bool) (prev : option Z) (e : Z * Z * Z)
    (rest : list (option (Z * Z * Z))) :
  tiers_valid strict prev [Some e] = true ->
  tiers_valid strict prev (Some e :: rest)
  = tiers_valid strict (Some (BoundaryValue (entry_tier e))) rest.
Proof.
  destruct e as [[l b] r]. cbn [tiers_valid entry_tier BoundaryValue].
  rewrite andb_true_r. intros ->. reflexivity.
Qed.

Lemma ParseTiersRatioFromStr_loop_spec (strs : list string) :
  forall tiersRatio : list TierRatio,
    match ParseTiersRatioFromStr_loop NewFromString strs tiersRatio with
    | Ok tiersRatio' =>
        exists es, tier_entry NewFromString <$> strs = Some <$> es
                   /\ tiers_valid false (last_boundary tiersRatio) (Some <$> es) = true
                   /\ tiersRatio' = tiersRatio ++ (entry_tier <$> es)
    | Err _ =>
        tiers_valid false (last_boundary tiersRatio)
          (tier_entry NewFromString <$> strs) = false
    | Panic _ => False
    end.
Proof.
  induction strs as [|s strs IH]; intros tiersRatio.
  - simpl. exists []. rewrite app_nil_r. auto.
  - cbn [ParseTiersRatioFromStr_loop].
    pose proof (ParseTiersRatioFromStr_step_spec s tiersRatio) as Hstep.
    destruct (ParseTiersRatioFromStr_step NewFromString s tiersRatio)
      as [ts1|m|m]; cbn [mbind outcome_bind obind].
    + destruct Hstep as (e & He & Hv & ->).
      specialize (IH (tiersRatio ++ [entry_tier e])).
      rewrite last_boundary_snoc in IH.
      destruct (ParseTiersRatioFromStr_loop NewFromString strs _) as [ts2|m|m].
      * destruct IH as (es & Hes & Hvs & ->).
        exists (e :: es). rewrite !fmap_cons, He, Hes.
        split; [reflexivity|]. split.
        -- rewrite tiers_valid_cons by exact Hv. exact Hvs.
        -- rewrite <- app_assoc. reflexivity.
      * rewrite fmap_cons, He. rewrite tiers_valid_cons by exact Hv. exact IH.
      * exact IH.
    + rewrite fmap_cons. cbn [tiers_valid] in Hstep |- *.
      destruct (tier_entry NewFromString s) as [[[l b] r]|]; [|reflexivity].
      rewrite andb_true_r in Hstep. rewrite Hstep. reflexivity.
    + exact Hstep.
Qed.

(** *** Precomputed values *)

Lemma CalculatePrecomputedValue_loop_fields (tiers : list TierRatio) :
  forall pv pb : Z,
    BoundaryValue <$> CalculatePrecomputedValue_loop pv pb tiers = BoundaryValue <$> tiers
    /\ Ratio <$> CalculatePrecomputedValue_loop pv pb tiers = Ratio <$> tiers.
Proof.
  induction tiers as [|t rest IH]; intros pv pb; [split; reflexivity|].
  cbn [CalculatePrecomputedValue_loop]. rewrite !fmap_cons.
  destruct (IH (pv + (BoundaryValue t - pb) * Ratio t / PercentageMultiplier)
              (BoundaryValue t)) as [-> ->].
  split; reflexivity.
Qed.

Lemma CalculatePrecomputedValue_loop_recurrence (tiers : list TierRatio) :
  forall (pv pb : Z) (i : nat) (t : TierRatio),
    CalculatePrecomputedValue_loop pv pb tiers !! i = Some t ->
    PrecomputedValue t
    = match i with
      | O => pv
      | S k => default 0 (PrecomputedValue <$>
                            CalculatePrecomputedValue_loop pv pb tiers !! k)
      end
      + (BoundaryValue t
         - match i with
           | O => pb
           | S k => default 0 (BoundaryValue <$>
                                 CalculatePrecomputedValue_loop pv pb tiers !! k)
           end) * Ratio t / 100.
Proof.
  induction tiers as [|x rest IH]; intros pv pb i t Hi; [discriminate|].
  cbn [CalculatePrecomputedValue_loop] in Hi |- *.
  destruct i as [|i]; simpl in Hi.
  - inversion Hi; subst t. reflexivity.
  - specialize (IH _ _ _ _ Hi).
    destruct i as [|i]; [exact IH|].
    exact IH.
Qed.

Lemma ascending_from_boundaries (l1 l2 : list TierRatio) :
  BoundaryValue <$> l1 = BoundaryValue <$> l2 ->
  forall p, ascending_from p l1 = ascending_from p l2.
Proof.
  revert l2. induction l1 as [|x l1 IH]; intros [|y l2] H p; try discriminate;
    [reflexivity|].
  rewrite !fmap_cons in H. inversion H as [[Hxy Hrest]].
  simpl. rewrite Hxy. f_equal. apply IH. exact Hrest.
Qed.

Lemma ascending_boundaries_boundaries (l1 l2 : list TierRatio) :
  BoundaryValue <$> l1 = BoundaryValue <$> l2 ->
  ascending_boundaries l1 = ascending_boundaries l2.
Proof.
  destruct l1 as [|x l1], l2 as [|y l2]; intros H; try discriminate; [reflexivity|].
  rewrite !fmap_cons in H. inversion H as [[Hxy Hrest]].
  simpl. rewrite Hxy. apply ascending_from_boundaries. exact Hrest.
Qed.

Lemma tiers_valid_ascending_from (strict : bool) (es : list (Z * Z * Z)) :
  forall p : Z,
    tiers_valid strict (Some p) (Some <$> es) = true ->
    ascending_from p (entry_tier <$> es) = true.
Proof.
  induction es as [|[[l b] r] es IH]; intros p H; [reflexivity|].
  rewrite fmap_cons in H. cbn [tiers_valid] in H.
  apply andb_true_iff in H as [H Hrest]. apply andb_true_iff in H as [_ Hp].
  rewrite fmap_cons. cbn [ascending_from entry_tier BoundaryValue].
  rewrite Hp. simpl. apply IH. exact Hrest.
Qed.

Lemma tiers_valid_ascending (strict : bool) (es : list (Z * Z * Z)) :
  tiers_valid strict None (Some <$> es) = true ->
  ascending_boundaries (entry_tier <$> es) = true.
Proof.
  destruct es as [|[[l b] r] es]; intros H; [reflexivity|].
  rewrite fmap_cons in H. cbn [tiers_valid] in H.
  apply andb_true_iff in H as [_ Hrest].
  rewrite fmap_cons. cbn [ascending_boundaries entry_tier BoundaryValue].
  eapply tiers_valid_ascending_from. exact Hrest.
Qed.

Lemma CalculatePrecomputedValue_recurrence (tiers : list TierRatio) :
  precomputed_recurrence (CalculatePrecomputedValue tiers).
Proof.
  intros i t Hi. unfold CalculatePrecomputedValue in *.
  rewrite (CalculatePrecomputedValue_loop_recurrence tiers 0 0 i t Hi).
  destruct i; reflexivity.
Qed.

Lemma padded_spec (tiers : list TierRatio) :
  match padded tiers with
  | Ok res =>
      (length tiers <= 12)%nat
      /\ res = tiers ++ replicate (12 - length tiers)
                 (sentinel (default 0 (PrecomputedValue <$> list.last tiers)))
      /\ length res = 12%nat
  | Err _ => False
  | Panic _ => (12 < length tiers)%nat
  end.
Proof.
  unfold padded, PaddingTierRatios, TierCount.
  destruct (Nat.ltb_spec 12 (length tiers)) as [H|H]; [exact H|].
  split; [exact H|]. split.
  - unfold sentinel. destruct (list.last tiers); reflexivity.
  - rewrite length_app, length_replicate. lia.
Qed.


(** C7 (amended). Parsing a tier string returns an error exactly when
    the string has entries and one of them is malformed, has a boundary
    below its own lower bound, above the maximum, or not strictly above
    the boundary of the entry before it.  On success the result has
    exactly 12 entries: the real tiers, with the boundaries and ratios of
    the entries, strictly ascending boundaries and the precomputed
    recurrence, followed by sentinels [{MAX, 0, last real precomputed}]. *)
Theorem ParseTiersRatioFromStr_spec (enc : string) :
  (is_Err (ParseTiersRatioFromStr NewFromString enc) = true
   <-> strings_Trim enc "[]" <> ""
       /\ tiers_valid false None (tier_entries NewFromString enc) = false)
  /\ (forall res : list TierRatio,
        ParseTiersRatioFromStr NewFromString enc = Ok res ->
        exists (es : list (Z * Z * Z)) (real : list TierRatio),
          (strings_Trim enc "[]" = "" /\ es = []
           \/ tier_entries NewFromString enc = Some <$> es)
          /\ BoundaryValue <$> real = (BoundaryValue ∘ entry_tier) <$> es
          /\ Ratio <$> real = (Ratio ∘ entry_tier) <$> es
          /\ ascending_boundaries real = true
          /\ precomputed_recurrence real
          /\ res = real ++ replicate (12 - length real)
                     (sentinel (default 0 (PrecomputedValue <$> list.last real)))
          /\ length res = 12%nat).
Proof.
  unfold ParseTiersRatioFromStr, tier_entries.
  destruct (strings_Trim enc "[]") as [|c body'] eqn:Hbody.
  - cbn [String.length Nat.eqb].
    pose proof (padded_spec []) as Hp.
    destruct (padded []) as [res0|m|m]; [|contradiction|simpl in Hp; lia].
    destruct Hp as (_ & Hres & Hlen).
    split.
    + split; [discriminate|]. intros [H _]. contradiction.
    + intros res Hres'. inversion Hres'; subst res. exists [], [].
      split; [left; auto|].
      split; [reflexivity|]. split; [reflexivity|]. split; [reflexivity|].
      split; [intros i t Hi; discriminate|].
      split; [exact Hres|exact Hlen].
  - cbn [String.length Nat.eqb].
    assert (Hne : String c body' <> "") by discriminate.
    set (body := String c body') in *. clearbody body. clear Hbody c body'.
    pose proof (ParseTiersRatioFromStr_loop_spec (strings_Split body ",") []) as Hl.
    change (last_boundary []) with (@None Z) in Hl.
    destruct (ParseTiersRatioFromStr_loop NewFromString (strings_Split body ",") [])
      as [ts|m|m]; cbn [mbind outcome_bind obind].
    + destruct Hl as (es & Hes & Hv & ->). rewrite app_nil_l.
      pose proof (padded_spec (CalculatePrecomputedValue (entry_tier <$> es))) as Hp.
      destruct (CalculatePrecomputedValue_loop_fields (entry_tier <$> es) 0 0)
        as [Hb Hr].
      fold (CalculatePrecomputedValue (entry_tier <$> es)) in Hb, Hr.
      destruct (padded _) as [res0|m|m]; [|contradiction|].
      * destruct Hp as (Hle & Hres & Hlen). split.
        -- split; [discriminate|]. intros [_ H]. rewrite Hes, Hv in H. discriminate.
        -- intros res Hres'. inversion Hres'; subst res.
           exists es, (CalculatePrecomputedValue (entry_tier <$> es)).
           split; [right; exact Hes|].
           split; [rewrite Hb, list_fmap_compose; reflexivity|].
           split; [rewrite Hr, list_fmap_compose; reflexivity|].
           split; [rewrite (ascending_boundaries_boundaries _ _ Hb);
                   eapply tiers_valid_ascending; exact Hv|].
           split; [apply CalculatePrecomputedValue_recurrence|].
           split; [exact Hres|exact Hlen].
      * split; [|discriminate].
        split; [discriminate|]. intros [_ H]. rewrite Hes, Hv in H. discriminate.
    + split; [|discriminate]. split; [|reflexivity].
      intros _. split; [exact Hne|exact Hl].
    + contradiction.
Qed.

End TierStringProperties.

Lemma ParseTiersRatioFromStr_spec_witness :
  exists real : list TierRatio,
    ParseTiersRatioFromStr plain_decimal "[0-1000:100, 1000-2000:50]"
    = Ok (real ++ replicate (12 - length real)
            (sentinel (default 0 (PrecomputedValue <$> list.last real))))
    /\ ascending_boundaries real = true.
Proof.
  destruct (ParseTiersRatioFromStr_spec plain_decimal "[0-1000:100, 1000-2000:50]")
    as [_ H].
  destruct (ParseTiersRatioFromStr plain_decimal "[0-1000:100, 1000-2000:50]")
    as [res|m|m] eqn:E; [|vm_compute in E; discriminate..].
  destruct (H res eq_refl) as (es & real & _ & _ & _ & Hasc & _ & Hres & _).
  exists real. split; [rewrite Hres; reflexivity|exact Hasc].
Defined.

(** C7 as stated fails: a boundary equal to its own lower bound is not
    strictly greater than it, yet the string parses. *)
Lemma ParseTiersRatioFromStr_equal_bounds_accepted :
  tiers_valid true None (tier_entries plain_decimal "[5-5:50]") = false
  /\ is_Err (ParseTiersRatioFromStr plain_decimal "[5-5:50]") = false
  /\ is_Ok (ParseTiersRatioFromStr plain_decimal "[5-5:50]") = true.
Proof. vm_compute. auto. Qed.

(** ** Padding and committing user assets *)

Lemma wrap_small (w x : Z) : 0 <= x < 2 ^ w -> wrap w x = x.
Proof. intros H. unfold wrap. apply Z.mod_small. exact H. Qed.

Lemma store_middle (l1 l2 : list Z) (x v : Z) :
  store (l1 ++ x :: l2) (Z.of_nat (length l1)) v = Some (l1 ++ v :: l2).
Proof.
  unfold store.
  rewrite length_app. simpl length.
  destruct (Z.leb_spec 0 (Z.of_nat (length l1))); [|lia].
  destruct (Z.ltb_spec (Z.of_nat (length l1)) (Z.of_nat (length l1 + S (length l2))));
    [|lia].
  simpl. rewrite Nat2Z.id.
  rewrite insert_app_r_alt by lia. rewrite Nat.sub_diag. reflexivity.
Qed.

Lemma length_flatten_assets (l : list AccountAsset) :
  length (flatten_assets l) = (6 * length l)%nat.
Proof.
  unfold flatten_assets. induction l as [|a l IH]; [reflexivity|].
  rewrite bind_cons, length_app, IH. simpl. lia.
Qed.

Lemma flatten_assets_snoc (l : list AccountAsset) (a : AccountAsset) :
  flatten_assets (l ++ [a]) = flatten_assets l ++ asset_fields a.
Proof.
  unfold flatten_assets. rewrite bind_app. f_equal.
Qed.

Lemma replicate_six (free : nat) :
  replicate (6 * S free) 0 = 0 :: 0 :: 0 :: 0 :: 0 :: 0 :: replicate (6 * free) 0.
Proof. replace (6 * S free)%nat with (6 + 6 * free)%nat by lia. reflexivity. Qed.

Lemma store_padding_slot (pre : list AccountAsset) (free : nat) (j : Z) :
  0 <= j < 2 ^ 64 ->
  store (filled pre (S free)) (Z.of_nat (length pre) * numOfAssetsFields) (wrap 64 j)
  = Some (filled (pre ++ [padding_slot j]) free).
Proof.
  intros Hj. unfold filled. rewrite replicate_six, wrap_small by exact Hj.
  replace (Z.of_nat (length pre) * numOfAssetsFields)
    with (Z.of_nat (length (flatten_assets pre)))
    by (rewrite length_flatten_assets; unfold numOfAssetsFields; lia).
  rewrite store_middle, flatten_assets_snoc, <- app_assoc. reflexivity.
Qed.

Lemma store_at (l1 l2 : list Z) (x v : Z) (i : Z) :
  i = Z.of_nat (length l1) ->
  store (l1 ++ x :: l2) i v = Some (l1 ++ v :: l2).
Proof. intros ->. apply store_middle. Qed.

Lemma snoc_cons_assoc (l1 l2 : list Z) (x : Z) : l1 ++ x :: l2 = (l1 ++ [x]) ++ l2.
Proof. rewrite <- app_assoc. reflexivity. Qed.

Lemma store_asset_filled (pre : list AccountAsset) (free : nat) (a : AccountAsset) :
  0 <= Index a < 2 ^ 64 ->
  store_asset (filled pre (S free)) (Z.of_nat (length pre)) a
  = Some (filled (pre ++ [a]) free).
Proof.
  intros Hi. unfold filled, store_asset.
  rewrite replicate_six, wrap_small by exact Hi.
  rewrite flatten_assets_snoc.
  set (F := flatten_assets pre). set (R := replicate (6 * free) 0).
  assert (HF : Z.of_nat (length F) = Z.of_nat (length pre) * numOfAssetsFields)
    by (subst F; rewrite length_flatten_assets; unfold numOfAssetsFields; lia).
  rewrite (store_at F) by lia. cbn [mbind option_bind].
  rewrite (snoc_cons_assoc F).
  rewrite (store_at (F ++ [Index a])) by (rewrite length_app; simpl; lia).
  cbn [mbind option_bind].
  rewrite (snoc_cons_assoc (F ++ [Index a])).
  rewrite (store_at ((F ++ [Index a]) ++ [Equity a]))
    by (rewrite !length_app; simpl; lia).
  cbn [mbind option_bind].
  rewrite (snoc_cons_assoc ((F ++ [Index a]) ++ [Equity a])).
  rewrite (store_at (((F ++ [Index a]) ++ [Equity a]) ++ [Debt a]))
    by (rewrite !length_app; simpl; lia).
  cbn [mbind option_bind].
  rewrite (snoc_cons_assoc (((F ++ [Index a]) ++ [Equity a]) ++ [Debt a])).
  rewrite (store_at ((((F ++ [Index a]) ++ [Equity a]) ++ [Debt a]) ++ [Loan a]))
    by (rewrite !length_app; simpl; lia).
  cbn [mbind option_bind].
  rewrite (snoc_cons_assoc ((((F ++ [Index a]) ++ [Equity a]) ++ [Debt a]) ++ [Loan a])).
  rewrite (store_at (((((F ++ [Index a]) ++ [Equity a]) ++ [Debt a]) ++ [Loan a])
                     ++ [Margin a]))
    by (rewrite !length_app; simpl; lia).
  f_equal. rewrite <- !app_assoc. reflexivity.
Qed.

Lemma pad_gap_filled :
  forall (fuel : nat) (j pc : Z) (pre : list AccountAsset) (free : nat) (cpc cai : Z),
    cpc < pc -> pc - cpc <= Z.of_nat free ->
    0 <= j -> j + Z.of_nat fuel <= 2 ^ 64 ->
    pad_gap fuel j pc (mkPadState (filled pre free) cpc cai (Z.of_nat (length pre)))
    = Some (mkPadState
              (filled (pre ++ (padding_slot <$>
                                 seqZ j (Z.min (Z.of_nat fuel) (pc - cpc))))
                 (free - Z.to_nat (Z.min (Z.of_nat fuel) (pc - cpc))))
              (cpc + Z.min (Z.of_nat fuel) (pc - cpc)) cai
              (Z.of_nat (length pre) + Z.min (Z.of_nat fuel) (pc - cpc))).
Proof.
  induction fuel as [|fuel IH]; intros j pc pre free cpc cai Hlt Hroom Hj Hmax.
  - simpl pad_gap. rewrite Z.min_l by lia. simpl.
    rewrite app_nil_r, Nat.sub_0_r, !Z.add_0_r. reflexivity.
  - cbn [pad_gap paddingFlattenAssets currentPaddingCounts index currentAssetIndex].
    destruct free as [|free]; [lia|].
    rewrite store_padding_slot by lia. cbn [mbind option_bind].
    rewrite Z.geb_leb.
    destruct (Z.leb_spec pc (cpc + 1)) as [Hdone|Hmore].
    + assert (Hm : Z.min (Z.of_nat (S fuel)) (pc - cpc) = 1) by lia.
      rewrite Hm. f_equal. f_equal.
      simpl. rewrite Nat.sub_0_r. reflexivity.
    + replace (Z.of_nat (length pre) + 1) with (Z.of_nat (length (pre ++ [padding_slot j])))
        by (rewrite length_app; simpl; lia).
      rewrite IH by lia.
      assert (Hm : Z.min (Z.of_nat (S fuel)) (pc - cpc)
                   = Z.succ (Z.min (Z.of_nat fuel) (pc - (cpc + 1)))) by lia.
      rewrite Hm.
      set (g := Z.min (Z.of_nat fuel) (pc - (cpc + 1))).
      assert (Hg : 0 <= g) by (subst g; lia).
      f_equal. f_equal.
      * rewrite (seqZ_cons j (Z.succ g)) by lia. rewrite Z.pred_succ.
        rewrite fmap_cons, <- app_assoc.
        replace (Z.succ j) with (j + 1) by lia.
        f_equal. rewrite Z2Nat.inj_succ by lia. reflexivity.
      * lia.
      * rewrite length_app. simpl. lia.
Qed.

Lemma pad_tail_filled :
  forall (fuel : nat) (pre : list AccountAsset) (free : nat) (cur : Z),
    (fuel <= free)%nat -> 0 <= cur -> cur + Z.of_nat fuel <= 2 ^ 64 ->
    pad_tail fuel (Z.of_nat (length pre)) cur (filled pre free)
    = Some (filled (pre ++ (padding_slot <$> seqZ cur (Z.of_nat fuel))) (free - fuel)).
Proof.
  induction fuel as [|fuel IH]; intros pre free cur Hle Hcur Hmax.
  - simpl. rewrite app_nil_r, Nat.sub_0_r. reflexivity.
  - cbn [pad_tail]. destruct free as [|free]; [lia|].
    rewrite store_padding_slot by lia. cbn [mbind option_bind].
    replace (Z.of_nat (length pre) + 1) with (Z.of_nat (length (pre ++ [padding_slot cur])))
      by (rewrite length_app; simpl; lia).
    rewrite IH by lia.
    rewrite (seqZ_cons cur (Z.of_nat (S fuel))) by lia.
    rewrite fmap_cons, <- app_assoc.
    replace (Z.succ cur) with (cur + 1) by lia.
    replace (Z.pred (Z.of_nat (S fuel))) with (Z.of_nat fuel) by lia.
    reflexivity.
Qed.

Lemma filled_full (l : list AccountAsset) : filled l 0 = flatten_assets l.
Proof. unfold filled. simpl. apply app_nil_r. Qed.

(** The two padding loops together write the expanded list. *)
Lemma pad_assets_tail_expand (pc : Z) :
  forall (assets pre : list AccountAsset) (free : nat) (cpc cur : Z),
    0 <= cpc <= pc -> 0 <= cur <= 65536 ->
    Forall (fun a => 0 <= Index a < 65536) assets ->
    Z.of_nat free = pc - cpc + Z.of_nat (length assets) ->
    pc - cpc <= 65536 ->
    (st ← pad_assets assets pc
            (mkPadState (filled pre free) cpc cur (Z.of_nat (length pre)));
     pad_tail (Z.to_nat (Z.of_nat (length pre + free) - index st)) (index st)
       (currentAssetIndex st) (paddingFlattenAssets st))
    = Some (flatten_assets (pre ++ expand_assets assets cur (Z.to_nat (pc - cpc)))).
Proof.
  induction assets as [|a rest IH]; intros pre free cpc cur Hcpc Hcur Hidx Hfree Hpc.
  - cbn [pad_assets mbind option_bind index currentAssetIndex paddingFlattenAssets
         expand_assets].
    replace (Z.to_nat (Z.of_nat (length pre + free) - Z.of_nat (length pre)))
      with free by lia.
    rewrite pad_tail_filled by (simpl in Hfree; lia).
    rewrite Nat.sub_diag, filled_full.
    simpl in Hfree. replace (Z.of_nat (Z.to_nat (pc - cpc))) with (Z.of_nat free) by lia.
    reflexivity.
  - inversion Hidx as [|? ? Ha Hrest]; subst.
    cbn [pad_assets expand_assets].
    set (g := Z.min (Index a - cur) (pc - cpc)).
    assert (Hst1 :
      (if currentPaddingCounts
            (mkPadState (filled pre free) cpc cur (Z.of_nat (length pre))) <? pc
       then pad_gap (Z.to_nat (Index a - currentAssetIndex
                                 (mkPadState (filled pre free) cpc cur (Z.of_nat (length pre)))))
              (currentAssetIndex
                 (mkPadState (filled pre free) cpc cur (Z.of_nat (length pre))))
              pc (mkPadState (filled pre free) cpc cur (Z.of_nat (length pre)))
       else Some (mkPadState (filled pre free) cpc cur (Z.of_nat (length pre))))
      = Some (mkPadState
                (filled (pre ++ (padding_slot <$> seqZ cur (Z.of_nat (Z.to_nat g))))
                   (free - Z.to_nat g))
                (cpc + Z.of_nat (Z.to_nat g)) cur
                (Z.of_nat (length pre) + Z.of_nat (Z.to_nat g)))).
    { cbn [currentPaddingCounts currentAssetIndex].
      destruct (Z.ltb_spec cpc pc) as [Hlt|Hge].
      - rewrite pad_gap_filled by (simpl in Hfree; lia).
        assert (Hg : Z.min (Z.of_nat (Z.to_nat (Index a - cur))) (pc - cpc)
                     = Z.of_nat (Z.to_nat g)) by (subst g; lia).
        rewrite Hg. rewrite Nat2Z.id. reflexivity.
      - assert (Hg : Z.to_nat g = 0%nat) by (subst g; lia).
        rewrite Hg. simpl. rewrite app_nil_r, Nat.sub_0_r, !Z.add_0_r. reflexivity. }
    rewrite Hst1. clear Hst1.
    cbn [mbind option_bind paddingFlattenAssets index currentPaddingCounts].
    set (pre1 := pre ++ (padding_slot <$> seqZ cur (Z.of_nat (Z.to_nat g)))).
    assert (Hlen1 : Z.of_nat (length pre) + Z.of_nat (Z.to_nat g)
                    = Z.of_nat (length pre1)).
    { subst pre1. rewrite length_app, length_fmap, length_seqZ. lia. }
    rewrite Hlen1.
    assert (Hg0 : (Z.to_nat g <= Z.to_nat (pc - cpc))%nat) by (subst g; lia).
    simpl length in Hfree.
    destruct (free - Z.to_nat g)%nat as [|free1] eqn:Hfree1; [lia|].
    rewrite store_asset_filled by lia.
    cbn [mbind option_bind].
    replace (Z.of_nat (length pre1) + 1) with (Z.of_nat (length (pre1 ++ [a])))
      by (rewrite length_app; simpl; lia).
    replace (length pre + free)%nat with (length (pre1 ++ [a]) + free1)%nat.
    2:{ subst pre1. rewrite !length_app, length_fmap, length_seqZ. simpl. lia. }
    rewrite IH; try lia; try assumption.
    + f_equal. subst pre1. rewrite <- !app_assoc. simpl.
      replace (Z.of_nat (Z.to_nat (pc - cpc))) with (pc - cpc) by lia.
      fold g.
      replace (Z.to_nat (pc - (cpc + Z.of_nat (Z.to_nat g))))
        with (Z.to_nat (pc - cpc) - Z.to_nat g)%nat by lia.
      reflexivity.
Qed.

Lemma GetAssetsCountOfUser_smallest_tier (assets : list AccountAsset) :
  (length assets <= 500)%nat ->
  GetAssetsCountOfUser assets = smallest_tier (length assets).
Proof.
  intros H. unfold GetAssetsCountOfUser, smallest_tier, AssetCountsTiers.
  cbn [first_tier_fitting].
  destruct (Nat.leb_spec (length assets) 50);
    destruct (Z.leb_spec (Z.of_nat (length assets)) 50); try lia; try reflexivity.
  destruct (Z.leb_spec (Z.of_nat (length assets)) 500); [reflexivity|lia].
Qed.

Lemma smallest_tier_cases (n : nat) :
  (n <= 500)%nat ->
  (smallest_tier n = 50 \/ smallest_tier n = 500)
  /\ Z.of_nat n <= smallest_tier n
  /\ (smallest_tier n = 500 -> (50 < n)%nat).
Proof.
  intros H. unfold smallest_tier.
  destruct (Nat.leb_spec n 50); repeat split; auto; try lia.
Qed.

Lemma ascending_indices_from_Forall (l : list AccountAsset) :
  forall prev, ascending_indices_from prev l = true ->
               Forall (fun a => prev < Index a) l.
Proof.
  induction l as [|a l IH]; intros prev H; [constructor|].
  simpl in H. apply andb_true_iff in H as [H1 H2]. apply Z.ltb_lt in H1.
  constructor; [exact H1|].
  eapply list.Forall_impl; [apply IH; exact H2|]. simpl. intros x Hx. lia.
Qed.

Lemma index_bounds (assets : list AccountAsset) :
  ascending_indices assets = true -> uint16_indices assets = true ->
  Forall (fun a => 0 <= Index a < 65536) assets.
Proof.
  intros Hasc Hu. apply ascending_indices_from_Forall in Hasc.
  unfold uint16_indices in Hu. rewrite forallb_forall in Hu.
  rewrite list.Forall_forall in Hasc |- *. intros a Ha.
  specialize (Hasc a Ha). specialize (Hu a (proj1 (list_elem_of_In _ _) Ha)).
  apply Z.ltb_lt in Hu. lia.
Qed.

(** [PaddingAccountAssets] writes the fields of the expanded list. *)
Lemma PaddingAccountAssets_expand (assets : list AccountAsset) :
  ascending_indices assets = true -> uint16_indices assets = true ->
  (length assets <= 500)%nat ->
  PaddingAccountAssets assets
  = Some (flatten_assets
            (expand_assets assets 0
               (Z.to_nat (smallest_tier (length assets)) - length assets))).
Proof.
  intros Hasc Hu Hlen. unfold PaddingAccountAssets.
  rewrite GetAssetsCountOfUser_smallest_tier by exact Hlen.
  destruct (smallest_tier_cases (length assets) Hlen) as (HT & Hfit & _).
  set (T := smallest_tier (length assets)) in *.
  destruct (Z.ltb_spec T (Z.of_nat (length assets))); [lia|].
  set (pc := T - Z.of_nat (length assets)).
  pose proof (pad_assets_tail_expand pc assets [] (Z.to_nat T) 0 0
                ltac:(lia) ltac:(lia) (index_bounds assets Hasc Hu)
                ltac:(lia) ltac:(lia)) as Hp.
  unfold filled in Hp. simpl flatten_assets in Hp. simpl length in Hp.
  rewrite app_nil_l in Hp.
  replace (Z.to_nat (T * numOfAssetsFields)) with (6 * Z.to_nat T)%nat
    by (unfold numOfAssetsFields; lia).
  change (Z.of_nat 0) with 0 in Hp.
  destruct (pad_assets assets pc _) as [st|]; [|discriminate].
  cbn [mbind option_bind] in Hp |- *.
  replace (Z.of_nat (0 + Z.to_nat T)) with T in Hp by lia.
  rewrite Hp. f_equal. f_equal. simpl. f_equal. lia.
Qed.

(** *** The expanded list *)

Lemma length_expand_assets (assets : list AccountAsset) :
  forall (cur : Z) (need : nat),
    length (expand_assets assets cur need) = (length assets + need)%nat.
Proof.
  induction assets as [|a rest IH]; intros cur need; simpl.
  - rewrite length_fmap, length_seqZ. lia.
  - rewrite length_app, length_fmap, length_seqZ. simpl. rewrite IH. lia.
Qed.

Lemma ascending_indices_from_app (l1 l2 : list AccountAsset) :
  forall prev,
    ascending_indices_from prev (l1 ++ l2)
    = ascending_indices_from prev l1
      && ascending_indices_from
           (default prev (Index <$> list.last l1)) l2.
Proof.
  induction l1 as [|a l1 IH]; intros prev; [reflexivity|].
  simpl. rewrite IH, andb_assoc. f_equal. f_equal.
  destruct l1 as [|b l1]; [reflexivity|].
  rewrite last_cons_cons.
  destruct (list.last (b :: l1)) eqn:E; [reflexivity|].
  apply last_None in E. discriminate.
Qed.

Lemma ascending_padding_slots (n : nat) :
  forall (prev cur : Z),
    prev < cur ->
    ascending_indices_from prev (padding_slot <$> seqZ cur (Z.of_nat n)) = true
    /\ default prev (Index <$> list.last (padding_slot <$> seqZ cur (Z.of_nat n)))
       < cur + Z.of_nat n.
Proof.
  induction n as [|n IH]; intros prev cur H.
  - simpl. split; [reflexivity|lia].
  - rewrite seqZ_cons by lia. rewrite fmap_cons.
    replace (Z.pred (Z.of_nat (S n))) with (Z.of_nat n) by lia.
    destruct (IH cur (Z.succ cur) ltac:(lia)) as [Ha Hl].
    split.
    + simpl. rewrite Ha. destruct (Z.ltb_spec prev cur); [reflexivity|lia].
    + destruct (padding_slot <$> seqZ (Z.succ cur) (Z.of_nat n)) as [|b l] eqn:E.
      * simpl. lia.
      * rewrite last_cons_cons. rewrite <- E in *.
        destruct (list.last (padding_slot <$> seqZ (Z.succ cur) (Z.of_nat n))) eqn:E2.
        -- simpl in Hl |- *. lia.
        -- apply last_None in E2. rewrite E2 in E. discriminate.
Qed.

Lemma ascending_expand_assets (assets : list AccountAsset) :
  forall (cur : Z) (need : nat),
    ascending_indices_from (cur - 1) assets = true ->
    ascending_indices_from (cur - 1) (expand_assets assets cur need) = true.
Proof.
  induction assets as [|a rest IH]; intros cur need H.
  - simpl. apply ascending_padding_slots. lia.
  - cbn [expand_assets]. simpl in H. apply andb_true_iff in H as [H1 H2].
    apply Z.ltb_lt in H1.
    set (g := Z.to_nat (Z.min (Index a - cur) (Z.of_nat need))).
    destruct (ascending_padding_slots g (cur - 1) cur ltac:(lia)) as [Ha Hl].
    rewrite ascending_indices_from_app, Ha. simpl.
    apply andb_true_iff. split.
    + apply Z.ltb_lt. subst g. lia.
    + replace (Index a) with (Index a + 1 - 1) at 1 by lia.
      apply IH. replace (Index a + 1 - 1) with (Index a) by lia. exact H2.
Qed.

Lemma sublist_expand_assets (assets : list AccountAsset) :
  forall (cur : Z) (need : nat), sublist assets (expand_assets assets cur need).
Proof.
  induction assets as [|a rest IH]; intros cur need; simpl.
  - apply sublist_nil_l.
  - apply sublist_inserts_l. constructor. apply IH.
Qed.

Lemma expand_assets_no_need (assets : list AccountAsset) :
  forall cur, expand_assets assets cur 0 = assets.
Proof.
  induction assets as [|a rest IH]; intros cur; [reflexivity|].
  cbn [expand_assets].
  replace (Z.to_nat (Z.min (Index a - cur) (Z.of_nat 0))) with 0%nat by lia.
  simpl. rewrite IH. reflexivity.
Qed.

Lemma elem_of_padding_slots (x : AccountAsset) (cur n : Z) :
  x ∈ padding_slot <$> seqZ cur n ->
  is_padding_slot x = true /\ cur <= Index x < cur + n.
Proof.
  intros H. apply list_elem_of_fmap in H as (j & -> & Hj).
  apply elem_of_seqZ in Hj. split; [reflexivity|exact Hj].
Qed.

(** Every slot of the expanded list is a real asset, or a padding slot
    below which every index from [cur] on is taken. *)
Lemma expand_assets_slots (assets : list AccountAsset) :
  forall (cur : Z) (need : nat) (x : AccountAsset),
    ascending_indices_from (cur - 1) assets = true ->
    x ∈ expand_assets assets cur need ->
    x ∈ assets
    \/ (is_padding_slot x = true
        /\ forall j, cur <= j < Index x ->
                     j ∈ Index <$> expand_assets assets cur need).
Proof.
  induction assets as [|a rest IH]; intros cur need x Hasc Hx.
  - right. simpl in Hx |- *.
    destruct (elem_of_padding_slots _ _ _ Hx) as [Hp Hr].
    split; [exact Hp|]. intros j Hj.
    apply list_elem_of_fmap. exists (padding_slot j). split; [reflexivity|].
    apply list_elem_of_fmap. exists j. split; [reflexivity|].
    apply elem_of_seqZ. lia.
  - cbn [expand_assets] in Hx |- *.
    simpl in Hasc. apply andb_true_iff in Hasc as [H1 H2]. apply Z.ltb_lt in H1.
    set (g := Z.to_nat (Z.min (Index a - cur) (Z.of_nat need))) in *.
    apply elem_of_app in Hx as [Hx|Hx].
    + right. destruct (elem_of_padding_slots _ _ _ Hx) as [Hp Hr].
      split; [exact Hp|]. intros j Hj.
      rewrite fmap_app. apply elem_of_app. left.
      apply list_elem_of_fmap. exists (padding_slot j). split; [reflexivity|].
      apply list_elem_of_fmap. exists j. split; [reflexivity|].
      apply elem_of_seqZ. lia.
    + apply elem_of_cons in Hx as [->|Hx]; [left; constructor|].
      destruct (IH (Index a + 1) (need - g)%nat x) as [Hin|[Hp Hgap]].
      * replace (Index a + 1 - 1) with (Index a) by lia. exact H2.
      * exact Hx.
      * left. constructor. exact Hin.
      * destruct (Nat.eq_dec (need - g)%nat 0%nat) as [Hz|Hnz].
        { rewrite Hz, expand_assets_no_need in Hx. left. constructor. exact Hx. }
        right. split; [exact Hp|]. intros j Hj.
        rewrite fmap_app, fmap_cons.
        assert (Hg : Z.of_nat g = Index a - cur) by (subst g; lia).
        destruct (Z_lt_ge_dec j (Index a)) as [Hlo|Hhi].
        -- apply elem_of_app. left.
           apply list_elem_of_fmap. exists (padding_slot j). split; [reflexivity|].
           apply list_elem_of_fmap. exists j. split; [reflexivity|].
           apply elem_of_seqZ. lia.
        -- apply elem_of_app. right.
           destruct (Z.eq_dec j (Index a)) as [->|Hne]; [constructor|].
           apply elem_of_cons. right. apply Hgap. lia.
Qed.

(** *** Packing and absorbing *)

Lemma read_or_zero_app (done rest : list Z) (x : Z) (i : Z) :
  i = Z.of_nat (length done) ->
  read_or_zero (done ++ x :: rest) i = x.
Proof.
  intros ->. unfold read_or_zero. rewrite length_app. simpl length.
  destruct (Z.ltb_spec (Z.of_nat (length done)) (Z.of_nat (length done + S (length rest))));
    [|lia].
  rewrite Nat2Z.id. rewrite list_lookup_middle by reflexivity. reflexivity.
Qed.

Section CommitmentProperties.

Variable PoseidonBytes : list bytes -> bytes.

Lemma ComputeUserAssetsCommitment_loop_pack3 :
  forall (fuel : nat) (done rest : list Z) (h : hasher) (i : Z),
    Z.of_nat (length done) = i * 3 ->
    length rest = (3 * fuel)%nat ->
    ComputeUserAssetsCommitment_loop fuel i (done ++ rest) h
    = h ++ (BigIntBytes <$> pack3 rest).
Proof.
  induction fuel as [|fuel IH]; intros done rest h i Hd Hr.
  - destruct rest; [|discriminate]. simpl. rewrite app_nil_r. reflexivity.
  - destruct rest as [|a [|b [|c rest]]]; try (simpl in Hr; lia).
    cbn [ComputeUserAssetsCommitment_loop].
    rewrite (read_or_zero_app done) by lia.
    rewrite (snoc_cons_assoc done).
    rewrite (read_or_zero_app (done ++ [a])) by (rewrite length_app; simpl; lia).
    rewrite (snoc_cons_assoc (done ++ [a])).
    rewrite (read_or_zero_app ((done ++ [a]) ++ [b]))
      by (rewrite !length_app; simpl; lia).
    rewrite (snoc_cons_assoc ((done ++ [a]) ++ [b])).
    rewrite IH; [|rewrite !length_app; simpl; lia|simpl in Hr; lia].
    unfold Write. rewrite <- app_assoc. reflexivity.
Qed.

End CommitmentProperties.

Lemma length_pack3 (k : nat) :
  forall l : list Z, length l = (3 * k)%nat -> length (pack3 l) = k.
Proof.
  induction k as [|k IH]; intros l H.
  - destruct l; [reflexivity|discriminate].
  - destruct l as [|a [|b [|c l]]]; try (simpl in H; lia).
    simpl. f_equal. apply IH. simpl in H. lia.
Qed.

Section UserCommitmentProperties.

Variable PoseidonBytes : list bytes -> bytes.

(** The chunks absorbed for an expanded list. *)
Lemma user_assets_chunks_expand (assets : list AccountAsset) :
  ascending_indices assets = true -> uint16_indices assets = true ->
  (length assets <= 500)%nat ->
  user_assets_chunks assets
  = Some (BigIntBytes <$>
            pack3 (flatten_assets
                     (expand_assets assets 0
                        (Z.to_nat (smallest_tier (length assets)) - length assets)))).
Proof.
  intros Hasc Hu Hlen. unfold user_assets_chunks.
  rewrite PaddingAccountAssets_expand by assumption. cbn [mbind option_bind].
  rewrite GetAssetsCountOfUser_smallest_tier by exact Hlen.
  destruct (smallest_tier_cases (length assets) Hlen) as (HT & Hfit & _).
  set (E := expand_assets _ _ _).
  assert (HE : Z.of_nat (length (flatten_assets E)) = 6 * smallest_tier (length assets)).
  { rewrite length_flatten_assets. subst E. rewrite length_expand_assets. lia. }
  f_equal. unfold Reset.
  rewrite <- (app_nil_l (flatten_assets E)) at 1.
  rewrite (ComputeUserAssetsCommitment_loop_pack3 _ [] (flatten_assets E)).
  - reflexivity.
  - reflexivity.
  - destruct HT as [HT|HT]; rewrite HT in *; vm_compute Z.to_nat; lia.
Qed.

(** C5. For assets sorted strictly ascending by a 16-bit index, at most
    500 of them, the commitment is the Poseidon hash of the [2T] packed
    values [a * 2^128 + b * 2^64 + c] of the [6T] fields of the expanded
    list, where [T] is the smallest of 50 and 500 that holds the assets
    and the expanded list has [T] slots: the real assets in order, and
    padding slots with zero amounts whose indices keep the list strictly
    ascending and fill the gaps from index 0 upward. *)
Theorem user_assets_commitment_expanded (assets : list AccountAsset) :
  ascending_indices assets = true -> uint16_indices assets = true ->
  (length assets <= 500)%nat ->
  exists (T : Z) (E : list AccountAsset),
    (T = 50 \/ T = 500)
    /\ Z.of_nat (length assets) <= T
    /\ (T = 500 -> (50 < length assets)%nat)
    /\ Z.of_nat (length E) = T
    /\ sublist assets E
    /\ ascending_indices E = true
    /\ (forall x, x ∈ E ->
          x ∈ assets
          \/ (is_padding_slot x = true
              /\ forall j, 0 <= j < Index x -> j ∈ Index <$> E))
    /\ Z.of_nat (length (flatten_assets E)) = 6 * T
    /\ Z.of_nat (length (pack3 (flatten_assets E))) = 2 * T
    /\ ComputeUserAssetsCommitment PoseidonBytes assets
       = Some (PoseidonBytes (BigIntBytes <$> pack3 (flatten_assets E))).
Proof.
  intros Hasc Hu Hlen.
  destruct (smallest_tier_cases (length assets) Hlen) as (HT & Hfit & Hbig).
  exists (smallest_tier (length assets)),
    (expand_assets assets 0 (Z.to_nat (smallest_tier (length assets)) - length assets)).
  set (T := smallest_tier (length assets)) in *.
  set (E := expand_assets _ _ _).
  assert (HlenE : Z.of_nat (length E) = T)
    by (subst E; rewrite length_expand_assets; lia).
  assert (HlenF : Z.of_nat (length (flatten_assets E)) = 6 * T)
    by (rewrite length_flatten_assets; lia).
  split; [exact HT|]. split; [exact Hfit|]. split; [exact Hbig|].
  split; [exact HlenE|].
  split; [apply sublist_expand_assets|].
  split; [apply (ascending_expand_assets assets 0); exact Hasc|].
  split; [intros x Hx; apply (expand_assets_slots assets 0 _ x Hasc Hx)|].
  split; [exact HlenF|].
  split.
  - rewrite (length_pack3 (Z.to_nat (2 * T))) by lia. lia.
  - unfold ComputeUserAssetsCommitment.
    rewrite user_assets_chunks_expand by assumption. reflexivity.
Qed.

End UserCommitmentProperties.

Lemma user_assets_commitment_expanded_witness :
  exists E : list AccountAsset,
    Z.of_nat (length E) = 50
    /\ ComputeUserAssetsCommitment sample_hash testUserAssets1
       = Some (sample_hash (BigIntBytes <$> pack3 (flatten_assets E))).
Proof.
  destruct (user_assets_commitment_expanded sample_hash testUserAssets1
              eq_refl eq_refl ltac:(simpl; lia))
    as (T & E & HT & _ & Hbig & HlenE & _ & _ & _ & _ & _ & Hc).
  exists E. split; [|exact Hc].
  destruct HT as [->| ->]; [exact HlenE|].
  specialize (Hbig eq_refl). simpl in Hbig. lia.
Defined.

(** ** The sparse scenario *)

(** What the code computes on the ten sparse assets: the commitment of
    the dense list of length 50, the tier of the user, that holds the same
    amounts at those positions and zero amounts elsewhere. *)
Theorem sparse_commitment_equals_tier_list (PoseidonBytes : list bytes -> bytes) :
  ComputeUserAssetsCommitment PoseidonBytes testUserAssets1
  = ComputeUserAssetsCommitment PoseidonBytes (dense_assets 50)
  /\ exists c, ComputeUserAssetsCommitment PoseidonBytes testUserAssets1 = Some c.
Proof.
  unfold ComputeUserAssetsCommitment.
  assert (H1 : exists h, user_assets_chunks testUserAssets1 = Some h).
  { eexists. apply user_assets_chunks_expand; [reflexivity|reflexivity|simpl; lia]. }
  assert (H2 : user_assets_chunks (dense_assets 50) = user_assets_chunks testUserAssets1)
    by (vm_compute; reflexivity).
  destruct H1 as [h H1]. rewrite H2, H1.
  split; [reflexivity|]. eexists. reflexivity.
Qed.

(** C6. On the input of [TestComputeUserAssetsCommitment] the code does
    not give what the claim and the assertion of the test ask for: the ten
    sparse assets are absorbed as 100 chunks, the list of length 500 with
    the same amounts as 1000 chunks (834 in the reference helper of the
    test), and with the stand-in hash the commitment of the sparse list
    differs from both. *)
Lemma sparse_commitment_differs_from_full_list :
  (length <$> user_assets_chunks testUserAssets1) = Some 100%nat
  /\ (length <$> user_assets_chunks (dense_assets 500)) = Some 1000%nat
  /\ ComputeUserAssetsCommitment sample_hash testUserAssets1
     <> ComputeUserAssetsCommitment sample_hash (dense_assets 500)
  /\ ComputeUserAssetsCommitment sample_hash testUserAssets1
     <> ComputeAssetsCommitmentForTest sample_hash (dense_assets 500).
Proof.
  split; [vm_compute; reflexivity|].
  split; [vm_compute; reflexivity|].
  split; vm_compute; discriminate.
Qed.

(** ** Reading the user files *)

Lemma SafeAdd_exact (a b c : Z) :
  0 <= a < 2 ^ 64 -> 0 <= b < 2 ^ 64 ->
  SafeAdd a b = Some c -> c = a + b /\ 0 <= c < 2 ^ 64.
Proof.
  intros Ha Hb. unfold SafeAdd, wrap.
  destruct (Z.ltb_spec ((a + b) mod 2 ^ 64) a) as [Hlt|Hge]; [discriminate|].
  intros H. inversion H; subst c. clear H.
  destruct (Z_lt_ge_dec (a + b) (2 ^ 64)) as [Hs|Hl].
  - rewrite Z.mod_small in * by lia. lia.
  - exfalso.
    assert (E : (a + b) mod 2 ^ 64 = a + b - 2 ^ 64).
    { symmetry. apply Z.mod_unique with (q := 1); lia. }
    lia.
Qed.

Lemma credit_nothing (account : AccountInfo) (v : asset_view) :
  view_equity v = 0 -> view_debt v = 0 -> view_collateral v = 0 ->
  credit account v = account.
Proof.
  intros H1 H2 H3. unfold credit. rewrite H1, H2, H3, !Z.add_0_r.
  destruct account; reflexivity.
Qed.

Section UserDataProperties.

Variable NewFromString : string -> option (Z * Z).

Lemma ConvertFloatStrToUint64_range (f : string) (m v : Z) :
  ConvertFloatStrToUint64 NewFromString f m = Ok v -> 0 <= v < 2 ^ 64.
Proof.
  unfold ConvertFloatStrToUint64.
  destruct (String.eqb f "0.0"); [intros H; inversion H; lia|].
  destruct (NewFromString f) as [[value exp]|]; [|discriminate].
  unfold IsUint64. set (d := Decimal_BigInt (value * m, exp)).
  destruct (Z.leb_spec 0 d) as [Hlo|Hlo];
    destruct (Z.ltb_spec d (2 ^ 64)) as [Hhi|Hhi];
    cbn [negb andb]; try discriminate.
  intros Hv; inversion Hv; subst. lia.
Qed.

Lemma amount_at_range (row : list string) (k m v : Z) :
  amount_at NewFromString row k m = Some v -> 0 <= v < 2 ^ 64.
Proof.
  unfold amount_at. destruct (row !! Z.to_nat k) as [f|]; [|discriminate].
  destruct (ConvertFloatStrToUint64 NewFromString f m) as [v'|?|?] eqn:E;
    try discriminate.
  intros H; inversion H; subst. eapply ConvertFloatStrToUint64_range; eauto.
Qed.

Lemma with_amount_Ok {X} (row : list string) (k m : Z)
    (cont : Z -> outcome (option X)) (r : option X) :
  with_amount NewFromString row k m cont = Ok r ->
  match amount_at NewFromString row k m with
  | Some v => cont v = Ok r
  | None => r = None
  end.
Proof.
  unfold with_amount, amount_at.
  destruct (row !! Z.to_nat k) as [f|]; [|discriminate].
  destruct (ConvertFloatStrToUint64 NewFromString f m) as [v|?|?];
    [auto|intros H; inversion H; reflexivity|discriminate].
Qed.

(** What the body of the asset loop does, by the view of the asset. *)
Lemma read_asset_view (row : list string) (cexAssetsInfo : list CexAssetInfo)
    (j : Z) (account : AccountInfo) (assets : list AccountAsset)
    (r : option (AccountInfo * list AccountAsset)) :
  read_asset NewFromString row cexAssetsInfo j (account, assets) = Ok r ->
  r = if view_bad (view_asset NewFromString row cexAssetsInfo j) then None
      else Some (credit account (view_asset NewFromString row cexAssetsInfo j),
                 assets ++ view_assets (view_asset NewFromString row cexAssetsInfo j)).
Proof.
  unfold read_asset, view_asset.
  destruct (cexAssetsInfo !! Z.to_nat j) as [cex|]; [|discriminate].
  fold (asset_multiplier cex). set (m := asset_multiplier cex).
  intros H.
  apply with_amount_Ok in H.
  destruct (amount_at NewFromString row (j * 6 + 2) m) as [equity|] eqn:E1; [|exact H].
  apply with_amount_Ok in H.
  destruct (amount_at NewFromString row (j * 6 + 3) m) as [debt|] eqn:E2; [|exact H].
  apply with_amount_Ok in H.
  destruct (amount_at NewFromString row (j * 6 + 5) m) as [loan|] eqn:E3; [|exact H].
  apply with_amount_Ok in H.
  destruct (amount_at NewFromString row (j * 6 + 6) m) as [margin|] eqn:E4; [|exact H].
  apply with_amount_Ok in H.
  destruct (amount_at NewFromString row (j * 6 + 7) m) as [pm|] eqn:E5; [|exact H].
  apply amount_at_range in E1, E2, E3, E4, E5.
  destruct (negb (equity =? 0) || negb (debt =? 0)) eqn:Hheld.
  - cbn [Loan Margin PortfolioMargin Equity Debt] in H.
    destruct (SafeAdd loan margin) as [c1|] eqn:S1; [|discriminate].
    apply SafeAdd_exact in S1 as [-> Hc1]; [|lia..].
    destruct (SafeAdd (loan + margin) pm) as [c2|] eqn:S2; [|discriminate].
    apply SafeAdd_exact in S2 as [-> Hc2]; [|lia..].
    destruct (equity <? loan + margin + pm); simpl.
    + inversion H; reflexivity.
    + inversion H; reflexivity.
  - inversion H; subst r. simpl.
    rewrite credit_nothing by reflexivity. rewrite app_nil_r. reflexivity.
Qed.

Lemma read_assets_views (row : list string) (cexAssetsInfo : list CexAssetInfo) :
  forall (fuel : nat) (j : Z) (account : AccountInfo) (assets : list AccountAsset)
         (r : option (AccountInfo * list AccountAsset)),
    read_assets NewFromString fuel j row cexAssetsInfo (account, assets) = Ok r ->
    let views := view_asset NewFromString row cexAssetsInfo <$> seqZ j (Z.of_nat fuel) in
    r = if existsb view_bad views then None
        else Some (foldl credit account views, assets ++ (views ≫= view_assets)).
Proof.
  induction fuel as [|fuel IH]; intros j account assets r H.
  - simpl in H. inversion H; subst. simpl. rewrite app_nil_r. reflexivity.
  - cbn [read_assets] in H.
    destruct (read_asset NewFromString row cexAssetsInfo j (account, assets))
      as [r1|?|?] eqn:E; try discriminate.
    apply read_asset_view in E.
    cbn [mbind outcome_bind obind] in H.
    cbv zeta. rewrite seqZ_cons by lia. rewrite fmap_cons.
    replace (Z.pred (Z.of_nat (S fuel))) with (Z.of_nat fuel) by lia.
    replace (Z.succ j) with (j + 1) by lia.
    cbn [existsb foldl mbind list_bind].
    destruct (view_bad (view_asset NewFromString row cexAssetsInfo j)).
    + subst r1. inversion H; reflexivity.
    + subst r1. apply IH in H. cbv zeta in H. rewrite H. simpl.
      destruct (existsb view_bad _); [reflexivity|].
      rewrite <- app_assoc. reflexivity.
Qed.

End UserDataProperties.

Lemma foldl_credit_fields (views : list asset_view) :
  forall account : AccountInfo,
    foldl credit account views
    = mkAccountInfo (AccountIndex account) (AccountId account)
        (AcctTotalEquity account + sumZ (view_equity <$> views))
        (AcctTotalDebt account + sumZ (view_debt <$> views))
        (AcctTotalCollateral account + sumZ (view_collateral <$> views))
        (Assets account).
Proof.
  induction views as [|v views IH]; intros account.
  - simpl. rewrite !Z.add_0_r. destruct account; reflexivity.
  - cbn [foldl]. rewrite IH. unfold credit. rewrite !fmap_cons. unfold sumZ.
    cbn [foldr AccountIndex AccountId AcctTotalEquity AcctTotalDebt
         AcctTotalCollateral Assets].
    f_equal; lia.
Qed.

Lemma add_to_tier_lookup (a : AccountInfo) (t : Z) :
  forall (tiers : list Z) (accounts : gmap Z (list AccountInfo)),
    default [] (add_to_tier tiers a accounts !! t)
    = default [] (accounts !! t)
      ++ (if decide (snd <$> list_find (fun x => Z.of_nat (length (Assets a)) <= x) tiers
                     = Some t)
          then [a] else []).
Proof.
  induction tiers as [|x tiers IH]; intros accounts.
  - simpl. rewrite app_nil_r. reflexivity.
  - cbn [add_to_tier list_find].
    destruct (Z.leb_spec (Z.of_nat (length (Assets a))) x) as [Hle|Hgt].
    + rewrite (decide_True (P := Z.of_nat (length (Assets a)) <= x)) by exact Hle.
      cbn [fmap option_fmap option_map snd].
      destruct (decide (Some x = Some t)) as [E|N].
      * inversion E; subst. rewrite lookup_insert_eq. reflexivity.
      * rewrite lookup_insert_ne by congruence. rewrite app_nil_r. reflexivity.
    + rewrite (decide_False (P := Z.of_nat (length (Assets a)) <= x)) by lia.
      rewrite IH. f_equal.
      destruct (list_find _ tiers) as [[i y]|]; reflexivity.
Qed.

Section UserRowsProperties.

Variable NewFromString : string -> option (Z * Z).

Lemma seqZ_to_nat (n : Z) : seqZ 0 (Z.of_nat (Z.to_nat n)) = seqZ 0 n.
Proof.
  destruct (Z_lt_ge_dec n 0).
  - rewrite (seqZ_nil 0 n) by lia. replace (Z.to_nat n) with 0%nat by lia. reflexivity.
  - rewrite Z2Nat.id by lia. reflexivity.
Qed.

(** A row the reader survives is read as the specification says. *)
Lemma read_row_result (row : list string) (cexAssetsInfo : list CexAssetInfo)
    (assetCounts accountIndex : Z) (r : option AccountInfo) :
  read_row NewFromString row cexAssetsInfo assetCounts accountIndex = Ok r ->
  r = row_result NewFromString row cexAssetsInfo assetCounts accountIndex.
Proof.
  unfold read_row, row_result, row_account, row_invalid, row_views.
  destruct (row !! 1%nat) as [ident|]; [|discriminate]. cbn [mbind option_bind].
  destruct (hex_DecodeString ident) as [accountId|]; [|discriminate].
  destruct (negb _); [discriminate|].
  destruct (read_assets _ _ _ _ _ _) as [r1|?|?] eqn:E; try discriminate.
  apply read_assets_views in E. cbv zeta in E. rewrite seqZ_to_nat in E.
  cbn [mbind outcome_bind obind default from_option id].
  set (views := view_asset NewFromString row cexAssetsInfo <$> seqZ 0 assetCounts) in *.
  destruct (existsb view_bad views).
  - subst r1. intros H; inversion H; reflexivity.
  - subst r1. rewrite foldl_credit_fields. cbn -[wrap fr_SetBytes_Marshal].
    rewrite !Z.add_0_l.
    destruct (Z.leb_spec (sumZ (view_debt <$> views)) (sumZ (view_collateral <$> views)))
      as [Hle|Hgt].
    + destruct (Z.ltb_spec (sumZ (view_collateral <$> views)) (sumZ (view_debt <$> views)))
        as [Hc|Hc]; [lia|].
      intros Hr; inversion Hr; reflexivity.
    + destruct (Z.ltb_spec (sumZ (view_collateral <$> views)) (sumZ (view_debt <$> views)))
        as [Hc|Hc]; [|lia].
      intros Hr; inversion Hr; reflexivity.
Qed.

Lemma read_rows_results (cexAssetsInfo : list CexAssetInfo) (assetCounts : Z) :
  forall (rows : list (list string)) (accounts : gmap Z (list AccountInfo))
         (accountIndex invalidCounts : Z)
         (accounts' : gmap Z (list AccountInfo)) (invalidCounts' : Z),
    read_rows NewFromString rows cexAssetsInfo assetCounts accounts accountIndex
      invalidCounts = Ok (accounts', invalidCounts') ->
    let results := rows_results NewFromString rows cexAssetsInfo assetCounts accountIndex in
    invalidCounts'
    = invalidCounts
      + Z.of_nat (length (filter
                            (fun row => row_invalid NewFromString row cexAssetsInfo
                                          assetCounts = true) rows))
    /\ forall t, default [] (accounts' !! t)
                 = default [] (accounts !! t)
                   ++ filter (fun a => tier_of a = Some t) (omap id results).
Proof.
  induction rows as [|row rows IH];
    intros accounts accountIndex invalidCounts accounts' invalidCounts' H.
  - simpl in H. inversion H; subst. simpl. split; [lia|].
    intros t. rewrite app_nil_r. reflexivity.
  - cbn [read_rows] in H.
    destruct (read_row NewFromString row cexAssetsInfo assetCounts accountIndex)
      as [r|?|?] eqn:E; try discriminate.
    apply read_row_result in E.
    cbn [mbind outcome_bind obind] in H. cbv zeta.
    cbn [rows_results]. rewrite <- E.
    rewrite filter_cons.
    unfold row_result in E.
    destruct (row_invalid NewFromString row cexAssetsInfo assetCounts) eqn:Hinv.
    + subst r. apply IH in H as [Hc Hg]. cbv zeta in Hg.
      rewrite decide_True by reflexivity. split.
      * rewrite Hc. simpl length. lia.
      * intros t. rewrite Hg. reflexivity.
    + subst r. apply IH in H as [Hc Hg]. cbv zeta in Hg.
      rewrite decide_False by discriminate. split; [exact Hc|].
      intros t. rewrite Hg. rewrite add_to_tier_lookup.
      cbn [omap list_omap id]. rewrite filter_cons.
      fold (tier_of (row_account NewFromString row cexAssetsInfo assetCounts accountIndex)).
      rewrite <- app_assoc. f_equal.
      destruct (decide (tier_of _ = Some t)); reflexivity.
Qed.

End UserRowsProperties.

Section UserFilesProperties.

Variable NewFromString : string -> option (Z * Z).

Lemma rows_results_accepted (cexAssetsInfo : list CexAssetInfo) (assetCounts : Z)
    (a : AccountInfo) :
  forall (rows : list (list string)) (accountIndex : Z),
    a ∈ omap id (rows_results NewFromString rows cexAssetsInfo assetCounts accountIndex) ->
    exists row idx,
      row ∈ rows
      /\ row_invalid NewFromString row cexAssetsInfo assetCounts = false
      /\ a = row_account NewFromString row cexAssetsInfo assetCounts idx.
Proof.
  induction rows as [|row rows IH]; intros accountIndex Ha.
  - simpl in Ha. inversion Ha.
  - cbn [rows_results] in Ha. cbv zeta in Ha. unfold row_result in Ha.
    destruct (row_invalid NewFromString row cexAssetsInfo assetCounts) eqn:Hinv.
    + cbn [omap list_omap] in Ha.
      destruct (IH _ Ha) as (row' & idx & Hin & Hv & Heq).
      exists row', idx. split; [by constructor|auto].
    + cbn [omap list_omap id] in Ha. apply elem_of_cons in Ha as [->|Ha].
      * exists row, accountIndex. split; [constructor|auto].
      * destruct (IH _ Ha) as (row' & idx & Hin & Hv & Heq).
        exists row', idx. split; [by constructor|auto].
Qed.

(** One file: the invalid rows are counted, and the groups hold the
    accounts of the other rows and nothing else. *)
Lemma ReadUserDataFromCsvFile_rows (header : list string) (rows : list (list string))
    (cexAssetsInfo : list CexAssetInfo)
    (accounts : gmap Z (list AccountInfo)) (invalidCounts : Z) :
  ReadUserDataFromCsvFile NewFromString (header :: rows) cexAssetsInfo
  = Ok (accounts, invalidCounts) ->
  let assetCounts := Z.quot (Z.of_nat (length header) - 3) 6 in
  invalidCounts = invalid_rows NewFromString (header :: rows) cexAssetsInfo
  /\ forall t,
       default [] (accounts !! t)
       = filter (fun a => tier_of a = Some t)
           (omap id (rows_results NewFromString rows cexAssetsInfo assetCounts 0)).
Proof.
  unfold ReadUserDataFromCsvFile. intros H.
  apply read_rows_results in H as [Hc Hg]. cbv zeta in Hg |- *. split.
  - rewrite Hc. unfold invalid_rows. lia.
  - intros t. rewrite Hg. rewrite lookup_empty. reflexivity.
Qed.

Lemma ReadUserDataFromCsvFile_invalid (data : list (list string))
    (cexAssetsInfo : list CexAssetInfo)
    (accounts : gmap Z (list AccountInfo)) (invalidCounts : Z) :
  ReadUserDataFromCsvFile NewFromString data cexAssetsInfo = Ok (accounts, invalidCounts) ->
  invalidCounts = invalid_rows NewFromString data cexAssetsInfo.
Proof.
  destruct data as [|header rows]; [discriminate|].
  intros H. apply ReadUserDataFromCsvFile_rows in H as [H _]. exact H.
Qed.

Lemma collect_results_total (cexAssetInfo : list CexAssetInfo) :
  forall (files : list (list (list string))) (i : nat)
         (accountInfo : gmap Z (list AccountInfo)) (total : Z)
         (accountInfo' : gmap Z (list AccountInfo)) (total' : Z),
    collect_results NewFromString i files cexAssetInfo accountInfo total
    = Ok (accountInfo', total') ->
    total' = total + sumZ ((fun f => invalid_rows NewFromString f cexAssetInfo) <$> files).
Proof.
  induction files as [|f files IH]; intros i accountInfo total accountInfo' total' H.
  - simpl in H. inversion H; subst. simpl. lia.
  - cbn [collect_results] in H.
    destruct (ReadUserDataFromCsvFile NewFromString f cexAssetInfo)
      as [[accounts inv]|?|?] eqn:E; try discriminate.
    apply ReadUserDataFromCsvFile_invalid in E. subst inv.
    cbn [mbind outcome_bind obind] in H. apply IH in H.
    rewrite H, fmap_cons. unfold sumZ. simpl. lia.
Qed.

(** The reader reports invalid rows through its count, never through
    an error of its own. *)
Lemma with_amount_not_Err {X} (row : list string) (k m : Z)
    (cont : Z -> outcome (option X)) :
  (forall v, is_Err (cont v) = false) ->
  is_Err (with_amount NewFromString row k m cont) = false.
Proof.
  intros H. unfold with_amount.
  destruct (row !! Z.to_nat k); [|reflexivity].
  destruct (ConvertFloatStrToUint64 NewFromString s m); auto.
Qed.

Lemma read_asset_not_Err (row : list string) (cexAssetsInfo : list CexAssetInfo)
    (j : Z) (st : AccountInfo * list AccountAsset) :
  is_Err (read_asset NewFromString row cexAssetsInfo j st) = false.
Proof.
  unfold read_asset. destruct st as [account assets].
  destruct (cexAssetsInfo !! Z.to_nat j); [|reflexivity].
  repeat (apply with_amount_not_Err; intros ?).
  destruct (negb _ || negb _); [|reflexivity].
  destruct (SafeAdd _ _); [|reflexivity].
  destruct (SafeAdd _ _); [|reflexivity].
  destruct (_ <? _); reflexivity.
Qed.

Lemma read_assets_not_Err (row : list string) (cexAssetsInfo : list CexAssetInfo) :
  forall (fuel : nat) (j : Z) (st : AccountInfo * list AccountAsset),
    is_Err (read_assets NewFromString fuel j row cexAssetsInfo st) = false.
Proof.
  induction fuel as [|fuel IH]; intros j st; [reflexivity|].
  cbn [read_assets].
  pose proof (read_asset_not_Err row cexAssetsInfo j st) as H.
  destruct (read_asset NewFromString row cexAssetsInfo j st) as [[st'|]|?|?];
    cbn [mbind outcome_bind obind]; auto.
Qed.

Lemma read_row_not_Err (row : list string) (cexAssetsInfo : list CexAssetInfo)
    (assetCounts accountIndex : Z) :
  is_Err (read_row NewFromString row cexAssetsInfo assetCounts accountIndex) = false.
Proof.
  unfold read_row.
  destruct (row !! 1%nat) as [ident|]; [|reflexivity].
  destruct (hex_DecodeString ident); [|reflexivity].
  destruct (negb _); [reflexivity|].
  match goal with |- context [read_assets _ ?f ?j ?r ?c ?st] =>
    pose proof (read_assets_not_Err r c f j st) as H;
    destruct (read_assets NewFromString f j r c st) as [[[a l]|]|?|?]
  end; cbn [mbind outcome_bind obind]; auto.
  destruct (_ <=? _); reflexivity.
Qed.

Lemma read_rows_not_Err (cexAssetsInfo : list CexAssetInfo) (assetCounts : Z) :
  forall (rows : list (list string)) (accounts : gmap Z (list AccountInfo))
         (accountIndex invalidCounts : Z),
    is_Err (read_rows NewFromString rows cexAssetsInfo assetCounts accounts
              accountIndex invalidCounts) = false.
Proof.
  induction rows as [|row rows IH]; intros accounts accountIndex invalidCounts;
    [reflexivity|].
  cbn [read_rows].
  pose proof (read_row_not_Err row cexAssetsInfo assetCounts accountIndex) as H.
  destruct (read_row NewFromString row cexAssetsInfo assetCounts accountIndex)
    as [[a|]|?|?]; cbn [mbind outcome_bind obind]; auto.
Qed.

Lemma collect_results_not_Err (cexAssetInfo : list CexAssetInfo) :
  forall (files : list (list (list string))) (i : nat)
         (accountInfo : gmap Z (list AccountInfo)) (total : Z),
    is_Err (collect_results NewFromString i files cexAssetInfo accountInfo total) = false.
Proof.
  induction files as [|f files IH]; intros i accountInfo total; [reflexivity|].
  cbn [collect_results].
  assert (H : is_Err (ReadUserDataFromCsvFile NewFromString f cexAssetInfo) = false).
  { unfold ReadUserDataFromCsvFile. destruct f; [reflexivity|]. apply read_rows_not_Err. }
  destruct (ReadUserDataFromCsvFile NewFromString f cexAssetInfo) as [[a n]|?|?];
    cbn [mbind outcome_bind obind]; auto.
Qed.

Lemma ParseUserDataSet_Err_iff (files : list (list (list string)))
    (cexAssetInfo : list CexAssetInfo) :
  is_Err (ParseUserDataSet NewFromString files cexAssetInfo) = true
  <-> exists accountInfo total,
        collect_results NewFromString 0 files cexAssetInfo ∅ 0 = Ok (accountInfo, total)
        /\ 0 < total.
Proof.
  unfold ParseUserDataSet.
  destruct files as [|f files].
  - simpl. split; [discriminate|]. intros (a & t & H & Ht). inversion H; subst. lia.
  - pose proof (collect_results_not_Err cexAssetInfo (f :: files) 0 ∅ 0) as HE.
    destruct (collect_results NewFromString 0 (f :: files) cexAssetInfo ∅ 0)
      as [[accountInfo total]|?|?]; cbn [mbind outcome_bind obind].
    + destruct (Z.ltb_spec 0 total) as [Hpos|Hnp]; simpl.
      * split; [|reflexivity]. intros _. exists accountInfo, total. auto.
      * split; [discriminate|]. intros (a & t & H & Ht). inversion H; subst. lia.
    + discriminate.
    + simpl. split; [discriminate|]. intros (a & t & H & _). discriminate.
Qed.

(** An error of the parse stops [main] with the table untouched. *)
Lemma witness_main_aborts {Row : Type}
    (Run : gmap Z (list AccountInfo) -> list CexAssetInfo -> list Row
           -> outcome unit * list Row)
    (files : list (list (list string))) (cexAssetInfo : list CexAssetInfo)
    (db : list Row) :
  is_Err (ParseUserDataSet NewFromString files cexAssetInfo) = true ->
  exists e, witness_main NewFromString Run files cexAssetInfo db = (Panic e, db).
Proof.
  unfold witness_main.
  destruct (ParseUserDataSet NewFromString files cexAssetInfo) as [[a c]|e|e];
    try discriminate.
  intros _. exists e. reflexivity.
Qed.

(** A row whose account id is not 32 bytes of hex is not counted: the
    reader panics. *)
Lemma read_row_bad_id (row : list string) (cexAssetsInfo : list CexAssetInfo)
    (assetCounts accountIndex : Z) (ident : string) :
  row !! 1%nat = Some ident ->
  (forall b, hex_DecodeString ident = Some b -> String.length b <> 32%nat) ->
  read_row NewFromString row cexAssetsInfo assetCounts accountIndex
  = Panic "accountId is invalid".
Proof.
  intros Hid Hbad. unfold read_row. rewrite Hid.
  destruct (hex_DecodeString ident) as [b|]; [|reflexivity].
  specialize (Hbad b eq_refl).
  destruct (Nat.eqb_spec (String.length b) 32); [contradiction|reflexivity].
Qed.

End UserFilesProperties.

Lemma is_Ok_inv {A} (m : outcome A) : is_Ok m = true -> exists a, m = Ok a.
Proof. destruct m; try discriminate. eauto. Qed.

Section InvalidRowsProperties.

Variable NewFromString : string -> option (Z * Z).

(** C8 (amended). On every user file the reader survives, each row with
    a malformed or overflowing amount, with a held asset (non-zero equity
    or debt) whose loan + margin + portfolio margin exceeds its equity, or
    whose total collateral is below its total debt is counted and appears
    in no tier group: the groups hold exactly the accounts of the other
    rows.  A row whose account id is not 32 bytes of hex makes the reader
    panic.  The parse returns an error exactly when the readers return and
    the invalid rows of all files number more than zero, and then [main]
    stops with the witness table untouched. *)
Theorem invalid_rows_counted_and_skipped (cexAssetsInfo : list CexAssetInfo) :
  (forall (header : list string) (rows : list (list string))
          (accounts : gmap Z (list AccountInfo)) (invalidCounts : Z),
      ReadUserDataFromCsvFile NewFromString (header :: rows) cexAssetsInfo
      = Ok (accounts, invalidCounts) ->
      let assetCounts := Z.quot (Z.of_nat (length header) - 3) 6 in
      invalidCounts
      = Z.of_nat (length (filter
                            (fun row => row_invalid NewFromString row cexAssetsInfo
                                          assetCounts = true) rows))
      /\ (forall t,
            default [] (accounts !! t)
            = filter (fun a => tier_of a = Some t)
                (omap id (rows_results NewFromString rows cexAssetsInfo assetCounts 0)))
      /\ (forall t a,
            a ∈ default [] (accounts !! t) ->
            exists row idx,
              row ∈ rows
              /\ row_invalid NewFromString row cexAssetsInfo assetCounts = false
              /\ a = row_account NewFromString row cexAssetsInfo assetCounts idx))
  /\ (forall (row : list string) (assetCounts accountIndex : Z) (ident : string),
        row !! 1%nat = Some ident ->
        (forall b, hex_DecodeString ident = Some b -> String.length b <> 32%nat) ->
        read_row NewFromString row cexAssetsInfo assetCounts accountIndex
        = Panic "accountId is invalid")
  /\ (forall files : list (list (list string)),
        is_Err (ParseUserDataSet NewFromString files cexAssetsInfo) = true
        <-> (exists accountInfo total,
               collect_results NewFromString 0 files cexAssetsInfo ∅ 0
               = Ok (accountInfo, total))
            /\ 0 < sumZ ((fun f => invalid_rows NewFromString f cexAssetsInfo) <$> files))
  /\ (forall (Row : Type)
             (Run : gmap Z (list AccountInfo) -> list CexAssetInfo -> list Row
                    -> outcome unit * list Row)
             (files : list (list (list string))) (db : list Row),
        is_Err (ParseUserDataSet NewFromString files cexAssetsInfo) = true ->
        exists e, witness_main NewFromString Run files cexAssetsInfo db = (Panic e, db)).
Proof.
  split; [|split; [|split]].
  - intros header rows accounts invalidCounts H assetCounts.
    apply ReadUserDataFromCsvFile_rows in H as [Hc Hg]. cbv zeta in Hg.
    split; [exact Hc|]. split; [exact Hg|].
    intros t a Ha. rewrite Hg in Ha.
    apply list_elem_of_filter in Ha as [_ Ha].
    eapply rows_results_accepted. exact Ha.
  - intros row assetCounts accountIndex ident. apply read_row_bad_id.
  - intros files. rewrite ParseUserDataSet_Err_iff. split.
    + intros (acc & total & Hc & Hpos). split; [eauto|].
      apply collect_results_total in Hc. lia.
    + intros [(acc & total & Hc) Hpos]. exists acc, total. split; [exact Hc|].
      apply collect_results_total in Hc. lia.
  - intros Row Run files db. apply witness_main_aborts.
Qed.

End InvalidRowsProperties.

Lemma sample_file_read :
  is_Ok (ReadUserDataFromCsvFile plain_decimal sample_file sample_cex) = true.
Proof. vm_compute. reflexivity. Qed.

Lemma invalid_rows_counted_and_skipped_witness :
  exists accounts,
    ReadUserDataFromCsvFile plain_decimal sample_file sample_cex = Ok (accounts, 1).
Proof.
  destruct (is_Ok_inv _ sample_file_read) as [[accounts invalidCounts] E].
  destruct (invalid_rows_counted_and_skipped plain_decimal sample_cex) as [H _].
  destruct (H _ _ _ _ E) as [Hc _].
  exists accounts. rewrite E, Hc. reflexivity.
Defined.

(** C8 as stated fails twice: a row with a non-hex account id is not
    counted and skipped, the reader panics and the parse returns no error;
    and a row with a loan but neither equity nor debt is accepted though
    its loan exceeds its equity. *)
Lemma invalid_id_panics_and_unheld_collateral_passes :
  ReadUserDataFromCsvFile plain_decimal sample_file_bad_id sample_cex
  = Panic "accountId is invalid"
  /\ is_Err (ParseUserDataSet plain_decimal [sample_file_bad_id] sample_cex) = false
  /\ (exists accounts a,
        ReadUserDataFromCsvFile plain_decimal sample_file_loan_only sample_cex
        = Ok (accounts, 0)
        /\ accounts !! 50 = Some [a])
  /\ is_Ok (ParseUserDataSet plain_decimal [sample_file_loan_only] sample_cex) = true.
Proof.
  split; [vm_compute; reflexivity|].
  split; [vm_compute; reflexivity|].
  split; [|vm_compute; reflexivity].
  destruct (ReadUserDataFromCsvFile plain_decimal sample_file_loan_only sample_cex)
    as [[accounts n]|?|?] eqn:E.
  - assert (Hn : n = 0).
    { apply ReadUserDataFromCsvFile_invalid in E. rewrite E. vm_compute. reflexivity. }
    subst n.
    pose proof (ReadUserDataFromCsvFile_rows _ _ _ _ _ _ E) as [_ Hg].
    specialize (Hg 50). cbv zeta in Hg.
    destruct (accounts !! 50) as [l|] eqn:E50; cbn [default from_option id] in Hg.
    + exists accounts,
        (row_account plain_decimal (sample_row sample_id "0.0" "0.0" "1") sample_cex 1 0).
      split; [reflexivity|]. subst l. rewrite E50. vm_compute. reflexivity.
    + exfalso. vm_compute in Hg. discriminate.
  - exfalso. assert (H : is_Err (ReadUserDataFromCsvFile plain_decimal
                                   sample_file_loan_only sample_cex) = false)
      by (vm_compute; reflexivity).
    rewrite E in H. discriminate.
  - exfalso. assert (H : is_Panic (ReadUserDataFromCsvFile plain_decimal
                                     sample_file_loan_only sample_cex) = false)
      by (vm_compute; reflexivity).
    rewrite E in H. discriminate.
Qed.

(** * Further properties of the code *)

(** ** Valuation over consistent tier tables *)

(** The loop computes [tier_value], the caller's tier standing for the
    boundary and the precomputed value before the table (0 and 0 when there
    is none). *)
Lemma CalculateAssetValueViaTiersRatio_loop_tier_value (v : Z) :
  forall (tiers : list TierRatio) (prev : option TierRatio),
    fst (CalculateAssetValueViaTiersRatio_loop v prev tiers)
    = tier_value (default 0 (BoundaryValue <$> prev))
        (default 0 (PrecomputedValue <$> prev)) v tiers.
Proof.
  induction tiers as [|t rest IH]; intros prev; simpl.
  - destruct prev; reflexivity.
  - destruct (v <=? BoundaryValue t).
    + destruct prev; simpl; [reflexivity|].
      rewrite Z.sub_0_r, Z.add_0_r. reflexivity.
    + rewrite IH. reflexivity.
Qed.

Lemma CalculateAssetValueViaTiersRatio_tier_value (v : Z) (tiers : list TierRatio) :
  fst (CalculateAssetValueViaTiersRatio v tiers) = tier_value 0 0 v tiers.
Proof.
  unfold CalculateAssetValueViaTiersRatio.
  destruct tiers as [|t rest]; [reflexivity|].
  cbn [length Nat.eqb].
  apply (CalculateAssetValueViaTiersRatio_loop_tier_value v (t :: rest) None).
Qed.

Lemma tiers_consistent_cons (pb pp : Z) (t : TierRatio) (rest : list TierRatio) :
  tiers_consistent pb pp (t :: rest) = true ->
  pb <= BoundaryValue t /\ 0 <= Ratio t
  /\ PrecomputedValue t = pp + (BoundaryValue t - pb) * Ratio t / 100
  /\ tiers_consistent (BoundaryValue t) (PrecomputedValue t) rest = true.
Proof.
  simpl. rewrite !andb_true_iff. intros [[[H1 H2] H3] H4].
  repeat split; try lia. exact H4.
Qed.

Lemma scaled_nonneg (d r : Z) : 0 <= d -> 0 <= r -> 0 <= d * r / 100.
Proof. intros Hd Hr. apply Z.div_pos; [nia|lia]. Qed.

Lemma scaled_mono (d1 d2 r : Z) : d1 <= d2 -> 0 <= r -> d1 * r / 100 <= d2 * r / 100.
Proof. intros Hd Hr. apply Z.div_le_mono; [lia|nia]. Qed.

Lemma scaled_at_most (d r : Z) : 0 <= d -> 0 <= r <= 100 -> d * r / 100 <= d.
Proof.
  intros Hd Hr. apply Z.div_le_upper_bound; [lia|nia].
Qed.

(** From the boundary before the table on, the value is at least the
    precomputed value before the table. *)
Lemma tier_value_lower (v : Z) :
  forall (tiers : list TierRatio) (pb pp : Z),
    tiers_consistent pb pp tiers = true -> pb <= v ->
    pp <= tier_value pb pp v tiers.
Proof.
  induction tiers as [|t rest IH]; intros pb pp Hc Hv; simpl; [lia|].
  apply tiers_consistent_cons in Hc as (Hb & Hr & Hp & Hc).
  destruct (Z.leb_spec v (BoundaryValue t)).
  - pose proof (scaled_nonneg (v - pb) (Ratio t)). lia.
  - pose proof (scaled_nonneg (BoundaryValue t - pb) (Ratio t)).
    specialize (IH _ _ Hc). lia.
Qed.

Lemma tier_value_mono (v1 v2 : Z) :
  v1 <= v2 ->
  forall (tiers : list TierRatio) (pb pp : Z),
    tiers_consistent pb pp tiers = true ->
    tier_value pb pp v1 tiers <= tier_value pb pp v2 tiers.
Proof.
  intros Hv. induction tiers as [|t rest IH]; intros pb pp Hc; simpl; [lia|].
  apply tiers_consistent_cons in Hc as (Hb & Hr & Hp & Hc).
  destruct (Z.leb_spec v1 (BoundaryValue t)), (Z.leb_spec v2 (BoundaryValue t)).
  - pose proof (scaled_mono (v1 - pb) (v2 - pb) (Ratio t)). lia.
  - pose proof (scaled_mono (v1 - pb) (BoundaryValue t - pb) (Ratio t)).
    pose proof (tier_value_lower v2 rest _ _ Hc). lia.
  - lia.
  - apply IH, Hc.
Qed.

Lemma tier_value_upper (v : Z) :
  forall (tiers : list TierRatio) (pb pp : Z),
    tiers_consistent pb pp tiers = true ->
    ratios_at_most_100 tiers = true ->
    pp <= pb -> pb <= v ->
    tier_value pb pp v tiers <= v.
Proof.
  induction tiers as [|t rest IH]; intros pb pp Hc H100 Hp Hv; simpl; [lia|].
  apply tiers_consistent_cons in Hc as (Hb & Hr & Hpre & Hc).
  unfold ratios_at_most_100 in H100. simpl in H100.
  apply andb_true_iff in H100 as [Hr100 H100].
  destruct (Z.leb_spec v (BoundaryValue t)).
  - pose proof (scaled_at_most (v - pb) (Ratio t)). lia.
  - apply IH; [exact Hc|exact H100| |lia].
    pose proof (scaled_at_most (BoundaryValue t - pb) (Ratio t)). lia.
Qed.

(** X1: the valuation never decreases when the collateral value grows. *)
Theorem valuation_monotone (v1 v2 : Z) (tiers : list TierRatio) :
  tiers_consistent 0 0 tiers = true ->
  v1 <= v2 ->
  fst (CalculateAssetValueViaTiersRatio v1 tiers)
  <= fst (CalculateAssetValueViaTiersRatio v2 tiers).
Proof.
  intros Hc Hv. rewrite !CalculateAssetValueViaTiersRatio_tier_value.
  by apply tier_value_mono.
Qed.

Lemma valuation_monotone_witness :
  fst (CalculateAssetValueViaTiersRatio 900 two_tiers)
  <= fst (CalculateAssetValueViaTiersRatio 1100 two_tiers).
Proof. apply valuation_monotone; [reflexivity|lia]. Defined.

(** X2: with ratios of at most 100 the value after the haircut lies between
    0 and the collateral value. *)
Theorem valuation_within_value (v : Z) (tiers : list TierRatio) :
  tiers_consistent 0 0 tiers = true ->
  ratios_at_most_100 tiers = true ->
  0 <= v ->
  0 <= fst (CalculateAssetValueViaTiersRatio v tiers) <= v.
Proof.
  intros Hc H100 Hv. rewrite CalculateAssetValueViaTiersRatio_tier_value. split.
  - by apply tier_value_lower.
  - apply tier_value_upper; [exact Hc|exact H100|lia|lia].
Qed.

Lemma valuation_within_value_witness :
  0 <= fst (CalculateAssetValueViaTiersRatio 1100 two_tiers) <= 1100.
Proof. apply valuation_within_value; [reflexivity|reflexivity|lia]. Defined.

Lemma collateral_bounds (loan margin portfolioMargin : Z) (cex : CexAssetInfo) :
  haircut_tables cex = true ->
  0 <= loan -> 0 <= margin -> 0 <= portfolioMargin -> 0 <= BasePrice cex ->
  0 <= CalculateAssetValueForCollateral loan margin portfolioMargin cex
    <= (loan + margin + portfolioMargin) * BasePrice cex.
Proof.
  unfold haircut_tables. rewrite !andb_true_iff.
  intros [[[[[Hl Hl100] Hm] Hm100] Hp] Hp100] H1 H2 H3 H4.
  unfold CalculateAssetValueForCollateral.
  rewrite !CalculateAssetValueViaTiersRatio_tier_value.
  pose proof (tier_value_lower (loan * BasePrice cex) _ _ _ Hl ltac:(nia)).
  pose proof (tier_value_lower (margin * BasePrice cex) _ _ _ Hm ltac:(nia)).
  pose proof (tier_value_lower (portfolioMargin * BasePrice cex) _ _ _ Hp ltac:(nia)).
  pose proof (tier_value_upper (loan * BasePrice cex) _ _ _ Hl Hl100
                ltac:(lia) ltac:(nia)).
  pose proof (tier_value_upper (margin * BasePrice cex) _ _ _ Hm Hm100
                ltac:(lia) ltac:(nia)).
  pose proof (tier_value_upper (portfolioMargin * BasePrice cex) _ _ _ Hp Hp100
                ltac:(lia) ltac:(nia)).
  lia.
Qed.

(** X3: the collateral value of an asset is at most the market value of the
    amounts pledged, and never negative. *)
Theorem collateral_within_market_value (loan margin portfolioMargin : Z)
    (cex : CexAssetInfo) :
  haircut_tables cex = true ->
  0 <= loan -> 0 <= margin -> 0 <= portfolioMargin -> 0 <= BasePrice cex ->
  0 <= CalculateAssetValueForCollateral loan margin portfolioMargin cex
    <= (loan + margin + portfolioMargin) * BasePrice cex.
Proof. apply collateral_bounds. Qed.

Lemma collateral_within_market_value_witness :
  0 <= CalculateAssetValueForCollateral 100 200 300 two_tier_asset
    <= (100 + 200 + 300) * BasePrice two_tier_asset.
Proof.
  apply collateral_within_market_value; [reflexivity|lia|lia|lia|simpl; lia].
Defined.

(** *** Padding and the precomputed values *)

Lemma tier_value_sentinels (v B pp : Z) :
  forall (k : nat) (pb : Z),
    tier_value pb pp v (replicate k (mkTierRatio B 0 pp)) = pp.
Proof.
  induction k as [|k IH]; intros pb; simpl; [reflexivity|].
  destruct (v <=? B); [|apply IH].
  rewrite Z.mul_0_r. reflexivity.
Qed.

Lemma last_precomputed_cons (pp : Z) (t : TierRatio) (rest : list TierRatio) :
  default pp (PrecomputedValue <$> list.last (t :: rest))
  = default (PrecomputedValue t) (PrecomputedValue <$> list.last rest).
Proof.
  destruct rest as [|y rest]; [reflexivity|].
  rewrite (last_cons_cons t y rest).
  destruct (list.last (y :: rest)) eqn:E; [reflexivity|].
  apply last_None in E. discriminate.
Qed.

Lemma tier_value_app_sentinels (v B : Z) (k : nat) :
  forall (tiers : list TierRatio) (pb pp : Z),
    tier_value pb pp v
      (tiers ++ replicate k
                  (mkTierRatio B 0 (default pp (PrecomputedValue <$> list.last tiers))))
    = tier_value pb pp v tiers.
Proof.
  induction tiers as [|t rest IH]; intros pb pp.
  - apply tier_value_sentinels.
  - rewrite last_precomputed_cons. simpl.
    destruct (v <=? BoundaryValue t); [reflexivity|]. apply IH.
Qed.

(** X4: padding a tier table with sentinels changes no valuation. *)
Theorem padding_keeps_valuation (v : Z) (tiersRatio res : list TierRatio) :
  PaddingTierRatios tiersRatio = Some res ->
  length res = 12%nat
  /\ fst (CalculateAssetValueViaTiersRatio v res)
     = fst (CalculateAssetValueViaTiersRatio v tiersRatio).
Proof.
  unfold PaddingTierRatios, TierCount.
  destruct (Nat.ltb_spec 12 (length tiersRatio)); [discriminate|].
  intros [= <-]. split.
  - rewrite length_app, length_replicate. lia.
  - rewrite !CalculateAssetValueViaTiersRatio_tier_value.
    replace (match list.last tiersRatio with
             | Some t => PrecomputedValue t
             | None => 0
             end)
      with (default 0 (PrecomputedValue <$> list.last tiersRatio))
      by (destruct (list.last tiersRatio); reflexivity).
    apply tier_value_app_sentinels.
Qed.

Lemma padding_keeps_valuation_witness :
  exists res,
    PaddingTierRatios two_tiers = Some res
    /\ fst (CalculateAssetValueViaTiersRatio 5000 res)
       = fst (CalculateAssetValueViaTiersRatio 5000 two_tiers).
Proof.
  eexists. split; [reflexivity|].
  apply (padding_keeps_valuation 5000 two_tiers). reflexivity.
Defined.

Lemma CalculatePrecomputedValue_loop_boundary (raw : list TierRatio) :
  forall (pv pb : Z) (i : nat) (t : TierRatio),
    ascending_from pb raw = true ->
    CalculatePrecomputedValue_loop pv pb raw !! i = Some t ->
    pb < BoundaryValue t.
Proof.
  intros pv pb i t Ha Hi.
  apply (ascending_from_lookup (CalculatePrecomputedValue_loop pv pb raw) pb i t);
    [|exact Hi].
  rewrite (ascending_from_boundaries _ raw); [exact Ha|].
  apply CalculatePrecomputedValue_loop_fields.
Qed.

Lemma tier_value_at_boundary (raw : list TierRatio) :
  forall (pv pb : Z) (i : nat) (t : TierRatio),
    ascending_from pb raw = true ->
    CalculatePrecomputedValue_loop pv pb raw !! i = Some t ->
    tier_value pb pv (BoundaryValue t) (CalculatePrecomputedValue_loop pv pb raw)
    = PrecomputedValue t.
Proof.
  induction raw as [|x rest IH]; intros pv pb i t Ha Hi; [discriminate|].
  simpl in Ha. apply andb_true_iff in Ha as [_ Ha].
  destruct i as [|k]; simpl in Hi |- *.
  - injection Hi as <-. simpl. unfold PercentageMultiplier.
    destruct (Z.leb_spec (BoundaryValue x) (BoundaryValue x)); [lia|lia].
  - pose proof (CalculatePrecomputedValue_loop_boundary rest _ _ _ _ Ha Hi).
    destruct (Z.leb_spec (BoundaryValue t) (BoundaryValue x)); [lia|].
    apply (IH _ _ k); assumption.
Qed.

(** X5: the precomputed value of a tier is the value of its own boundary. *)
Theorem precomputed_is_value_at_boundary (raw : list TierRatio) (i : nat)
    (t : TierRatio) :
  ascending_boundaries raw = true ->
  CalculatePrecomputedValue raw !! i = Some t ->
  fst (CalculateAssetValueViaTiersRatio (BoundaryValue t) (CalculatePrecomputedValue raw))
  = PrecomputedValue t.
Proof.
  intros Ha Hi. rewrite CalculateAssetValueViaTiersRatio_tier_value.
  unfold CalculatePrecomputedValue in *.
  destruct raw as [|x rest]; [discriminate|].
  simpl in Ha. destruct i as [|k]; simpl in Hi |- *.
  - injection Hi as <-. simpl. unfold PercentageMultiplier.
    destruct (Z.leb_spec (BoundaryValue x) (BoundaryValue x)); [lia|lia].
  - pose proof (CalculatePrecomputedValue_loop_boundary rest _ _ _ _ Ha Hi).
    destruct (Z.leb_spec (BoundaryValue t) (BoundaryValue x)); [lia|].
    apply (tier_value_at_boundary rest _ _ k); assumption.
Qed.

Lemma precomputed_is_value_at_boundary_witness :
  fst (CalculateAssetValueViaTiersRatio 3000
         (CalculatePrecomputedValue [mkTierRatio 1000 50 0; mkTierRatio 3000 20 0]))
  = 900.
Proof.
  apply (precomputed_is_value_at_boundary
           [mkTierRatio 1000 50 0; mkTierRatio 3000 20 0] 1
           (mkTierRatio 3000 20 900)); reflexivity.
Defined.

(** *** The tables the parser returns *)

Section ParsedTiers.

Variable NewFromString : string -> option (Z * Z).

(** What one round of the parsing loop appends. *)
Lemma ParseTiersRatioFromStr_step_appends (s : string) (tiersRatio res : list TierRatio) :
  ParseTiersRatioFromStr_step NewFromString s tiersRatio = Ok res ->
  exists t, res = tiersRatio ++ [t]
            /\ 0 <= BoundaryValue t < MaxTierBoundaryValue
            /\ 0 <= Ratio t < 256
            /\ PrecomputedValue t = 0
            /\ forall p, list.last tiersRatio = Some p ->
                         BoundaryValue p < BoundaryValue t.
Proof.
  unfold ParseTiersRatioFromStr_step.
  destruct (strings_Split (strings_Trim s " ") ":") as [|range [|r [|x tl]]];
    try discriminate.
  cbn [lookup list_lookup default from_option id length Nat.eqb negb orb].
  destruct (strings_Split range "-") as [|l [|b [|y tl]]]; try discriminate.
  cbn [lookup list_lookup default from_option id length Nat.eqb negb orb].
  destruct (ConvertFloatStrToUint64 NewFromString (strings_Trim l " ") 1)
    as [lv|?|?] eqn:E1; try discriminate.
  destruct (ConvertFloatStrToUint64 NewFromString (strings_Trim b " ") 1)
    as [bv|?|?] eqn:E2; try discriminate.
  destruct (ConvertFloatStrToUint64 NewFromString (strings_Trim r " ") 1)
    as [rv|?|?] eqn:E3; try discriminate.
  cbn [mbind outcome_bind obind].
  apply ConvertFloatStrToUint64_range in E1, E2.
  destruct (Z.ltb_spec (bv * valueMultiplier) (lv * valueMultiplier)); [discriminate|].
  destruct (Z.ltb_spec MaxTierBoundaryValue (bv * valueMultiplier)); [discriminate|].
  assert (Hw : 0 <= wrap 8 rv < 256) by (unfold wrap; apply Z.mod_pos_bound; lia).
  assert (Hb : 0 <= bv * valueMultiplier < MaxTierBoundaryValue)
    by (unfold valueMultiplier, MaxTierBoundaryValue; lia).
  destruct (list.last tiersRatio) as [p|] eqn:El.
  - cbn [BoundaryValue].
    destruct (Z.leb_spec (bv * valueMultiplier) (BoundaryValue p)); [discriminate|].
    intros [= <-]. eexists. split; [reflexivity|]. cbn [BoundaryValue Ratio PrecomputedValue].
    repeat split; try lia. intros p' [= <-]. lia.
  - intros [= <-]. eexists. split; [reflexivity|]. cbn [BoundaryValue Ratio PrecomputedValue].
    repeat split; try lia. discriminate.
Qed.

(** Strictly ascending boundaries survive an append above the last one. *)
Lemma ascending_from_snoc (t : TierRatio) :
  forall (l : list TierRatio) (prev : Z),
    ascending_from prev l = true ->
    default prev (BoundaryValue <$> list.last l) < BoundaryValue t ->
    ascending_from prev (l ++ [t]) = true.
Proof.
  induction l as [|x l IH]; intros prev Ha Hl; simpl in *.
  - apply andb_true_iff. split; [lia|reflexivity].
  - apply andb_true_iff in Ha as [H1 H2]. apply andb_true_iff. split; [exact H1|].
    apply IH; [exact H2|].
    destruct l as [|y l]; [exact Hl|].
    rewrite (last_cons_cons x y l) in Hl.
    destruct (list.last (y :: l)) eqn:E; [exact Hl|].
    apply last_None in E. discriminate.
Qed.

Lemma ParseTiersRatioFromStr_loop_parsed (strs : list string) :
  forall tiersRatio res : list TierRatio,
    parsed_so_far tiersRatio ->
    ParseTiersRatioFromStr_loop NewFromString strs tiersRatio = Ok res ->
    parsed_so_far res.
Proof.
  induction strs as [|s strs IH]; intros tiersRatio res Hinv; simpl.
  - by intros [= <-].
  - destruct (ParseTiersRatioFromStr_step NewFromString s tiersRatio)
      as [l'| |] eqn:E; try discriminate.
    cbn [mbind outcome_bind obind]. apply IH.
    apply ParseTiersRatioFromStr_step_appends in E
      as (t & -> & Hb & Hr & _ & Hlast).
    destruct Hinv as [Ha Hf]. split.
    + apply ascending_from_snoc; [exact Ha|].
      destruct (list.last tiersRatio) as [p|] eqn:El; simpl; [by apply Hlast|lia].
    + apply Forall_app. split; [exact Hf|]. constructor; [|constructor]. lia.
Qed.

End ParsedTiers.

(** Setting the precomputed values of ascending tiers gives a consistent
    table. *)
Lemma CalculatePrecomputedValue_loop_consistent (raw : list TierRatio) :
  forall pv pb : Z,
    ascending_boundaries raw = true ->
    Forall (fun t => 0 <= Ratio t) raw ->
    (forall t, head raw = Some t -> pb <= BoundaryValue t) ->
    tiers_consistent pb pv (CalculatePrecomputedValue_loop pv pb raw) = true.
Proof.
  induction raw as [|x rest IH]; intros pv pb Ha Hr Hh; [reflexivity|].
  simpl in Ha. inversion Hr as [|? ? Hx Hr']; subst.
  simpl. unfold PercentageMultiplier.
  rewrite !andb_true_iff. repeat split.
  - apply Z.leb_le, Hh. reflexivity.
  - lia.
  - lia.
  - destruct rest as [|y rest]; [reflexivity|].
    simpl in Ha. apply andb_true_iff in Ha as [Hxy Ha].
    apply IH; [exact Ha|exact Hr'|].
    intros t [= <-]. lia.
Qed.

Lemma tiers_consistent_sentinels (pp : Z) :
  forall (k : nat) (pb : Z),
    pb <= MaxTierBoundaryValue ->
    tiers_consistent pb pp (replicate k (mkTierRatio MaxTierBoundaryValue 0 pp)) = true.
Proof.
  induction k as [|k IH]; intros pb Hpb; [reflexivity|].
  cbn [replicate tiers_consistent BoundaryValue Ratio PrecomputedValue].
  rewrite Z.mul_0_r, !andb_true_iff. repeat split.
  - by apply Z.leb_le.
  - apply Z.eqb_eq. change (0 / 100) with 0. lia.
  - apply IH. lia.
Qed.

Lemma tiers_consistent_app_sentinels (k : nat) :
  forall (tiers : list TierRatio) (pb pp : Z),
    tiers_consistent pb pp tiers = true ->
    pb <= MaxTierBoundaryValue ->
    Forall (fun t => BoundaryValue t <= MaxTierBoundaryValue) tiers ->
    tiers_consistent pb pp
      (tiers ++ replicate k
                  (mkTierRatio MaxTierBoundaryValue 0
                     (default pp (PrecomputedValue <$> list.last tiers)))) = true.
Proof.
  induction tiers as [|t rest IH]; intros pb pp Hc Hpb Hf.
  - by apply tiers_consistent_sentinels.
  - rewrite last_precomputed_cons.
    apply tiers_consistent_cons in Hc as (Hb & Hr & Hp & Hc).
    inversion Hf as [|? ? Ht Hf']; subst.
    cbn [app tiers_consistent]. rewrite !andb_true_iff. repeat split; try lia.
    by apply IH.
Qed.

Lemma ratios_at_most_100_sentinels (pp : Z) (k : nat) (tiers : list TierRatio) :
  ratios_at_most_100 (tiers ++ replicate k (mkTierRatio MaxTierBoundaryValue 0 pp))
  = ratios_at_most_100 tiers.
Proof.
  unfold ratios_at_most_100. rewrite forallb_app.
  replace (forallb _ (replicate k _)) with true; [apply andb_true_r|].
  induction k as [|k IH]; [reflexivity|]. simpl. exact IH.
Qed.

(** ** Packing: what the chunks determine *)

(** Reading big-endian bytes after an accumulator shifts the accumulator
    by the length read. *)
Lemma be_to_Z_acc (s : bytes) :
  forall a : Z, be_to_Z s a = a * 256 ^ Z.of_nat (String.length s) + be_to_Z s 0.
Proof.
  induction s as [|c s IH]; intros a; simpl String.length; cbn [be_to_Z].
  - simpl. lia.
  - rewrite (IH (a * 256 + _)), (IH (0 * 256 + _)).
    rewrite Nat2Z.inj_succ, Z.pow_succ_r by lia. lia.
Qed.

Lemma be_bytes_value :
  forall (fuel : nat) (n : N) (acc : bytes),
    (n < 2 ^ (8 * N.of_nat fuel))%N ->
    be_to_Z (be_bytes fuel n acc) 0
    = Z.of_N n * 256 ^ Z.of_nat (String.length acc) + be_to_Z acc 0.
Proof.
  induction fuel as [|fuel IH]; intros n acc Hn.
  - simpl in *. assert (n = 0%N) as -> by lia. simpl. lia.
  - cbn [be_bytes]. destruct n as [|p]; [simpl; lia|].
    set (n := N.pos p) in *.
    rewrite IH.
    + cbn [String.length be_to_Z]. rewrite be_to_Z_acc.
      rewrite N_ascii_embedding.
      2:{ change 255%N with (N.ones 8). rewrite N.land_ones.
          apply N.mod_lt. discriminate. }
      rewrite Nat2Z.inj_succ, Z.pow_succ_r by lia.
      change 255%N with (N.ones 8). rewrite N.land_ones, N.shiftr_div_pow2.
      change (2 ^ 8)%N with 256%N.
      rewrite (N.div_mod n 256) at 3 by discriminate.
      rewrite N2Z.inj_add, N2Z.inj_mul. change (Z.of_N 256) with 256. lia.
    + rewrite N.shiftr_div_pow2. apply N.Div0.div_lt_upper_bound.
      replace (8 * N.of_nat (S fuel))%N with (8 + 8 * N.of_nat fuel)%N in Hn by lia.
      rewrite N.pow_add_r in Hn. exact Hn.
Qed.

(** [SetBytes] undoes [Bytes] up to the sign. *)
Lemma BigIntBytes_value (z : Z) : be_to_Z (BigIntBytes z) 0 = Z.abs z.
Proof.
  unfold BigIntBytes. rewrite be_bytes_value.
  - simpl. rewrite Z2N.id by lia. lia.
  - rewrite N2Nat.id.
    destruct (Z.to_N (Z.abs z)) as [|p] eqn:E; [simpl; lia|].
    eapply N.lt_le_trans; [apply N.size_gt|].
    apply N.pow_le_mono_r; [discriminate|lia].
Qed.

Lemma BigIntBytes_inj (x y : Z) :
  0 <= x -> 0 <= y -> BigIntBytes x = BigIntBytes y -> x = y.
Proof.
  intros Hx Hy H. pose proof (BigIntBytes_value x) as Ex.
  rewrite H, BigIntBytes_value in Ex. lia.
Qed.

Lemma pair_ind {A} (P : list A -> Prop) :
  P [] -> (forall x, P [x]) -> (forall x y l, P l -> P (x :: y :: l)) ->
  forall l, P l.
Proof.
  intros H0 H1 H2.
  assert (H : forall l, P l /\ forall x, P (x :: l)).
  { induction l as [|y l [IH1 IH2]]; [split; [exact H0|exact H1]|].
    split; [apply IH2|]. intros x. by apply H2. }
  intros l. apply H.
Qed.

Lemma ConvertTierRatiosToBytes_pair (t0 t1 : TierRatio) (rest : list TierRatio) :
  ConvertTierRatiosToBytes (t0 :: t1 :: rest)
  = (res ← ConvertTierRatiosToBytes rest; Some (BigIntBytes (pair_value t0 t1) :: res)).
Proof. reflexivity. Qed.

(** Odd lengths panic; even lengths give one chunk for two tiers. *)
Lemma ConvertTierRatiosToBytes_length (l : list TierRatio) :
  match ConvertTierRatiosToBytes l with
  | Some res => length l = (2 * length res)%nat
  | None => Nat.Odd (length l)
  end.
Proof.
  induction l as [|x|x y l IH] using pair_ind.
  - reflexivity.
  - exists 0%nat. reflexivity.
  - rewrite ConvertTierRatiosToBytes_pair.
    destruct (ConvertTierRatiosToBytes l) as [res|]; cbn [mbind option_bind length].
    + lia.
    + destruct IH as [k Hk]. exists (S k). lia.
Qed.

Lemma ConvertTierRatiosToBytes_committed (l1 : list TierRatio) :
  forall l2, tier_committed <$> l1 = tier_committed <$> l2 ->
             ConvertTierRatiosToBytes l1 = ConvertTierRatiosToBytes l2.
Proof.
  induction l1 as [|x|x y l1 IH] using pair_ind; intros l2 H.
  - destruct l2; [reflexivity|discriminate].
  - destruct l2 as [|x2 [|? ?]]; try discriminate. reflexivity.
  - destruct l2 as [|x2 [|y2 l2]]; try discriminate.
    rewrite !fmap_cons in H. unfold tier_committed at 1 2 4 5 in H.
    injection H as Hbx Hrx Hby Hry H.
    rewrite !ConvertTierRatiosToBytes_pair, (IH l2 H).
    unfold pair_value. rewrite Hbx, Hrx, Hby, Hry. reflexivity.
Qed.

Lemma forallb_sentinel_in_range (l : list TierRatio) :
  forallb is_sentinel l = true -> table_in_range l = true.
Proof.
  destruct l as [|t rest]; [reflexivity|]. intros H.
  cbn [table_in_range]. rewrite H. apply orb_true_r.
Qed.

Lemma table_in_range_pair (t0 t1 : TierRatio) (rest : list TierRatio) :
  table_in_range (t0 :: t1 :: rest) = true ->
  pair_in_range t0 t1 = true /\ table_in_range rest = true.
Proof.
  unfold pair_in_range. cbn [table_in_range forallb].
  rewrite !orb_true_iff, !andb_true_iff, !orb_true_iff, !andb_true_iff.
  intros [[H0 [[H1 H]|[H1 H]]]|[H0 [H1 H]]].
  - split; [|exact H]. left. split; [exact H0|]. rewrite H1. by left.
  - split; [|by apply forallb_sentinel_in_range]. left. split; [exact H0|]. by right.
  - split; [|by apply forallb_sentinel_in_range]. by right.
Qed.

Lemma pair_value_nonneg (t0 t1 : TierRatio) :
  pair_in_range t0 t1 = true -> 0 <= pair_value t0 t1.
Proof.
  unfold pair_in_range, is_real_tier, is_sentinel, pair_value.
  rewrite !orb_true_iff, !andb_true_iff, !orb_true_iff, !andb_true_iff.
  unfold MaxTierBoundaryValue, Uint8MaxValueBigInt, Uint126MaxValueBigInt,
    Uint134MaxValueBigInt.
  lia.
Qed.

Lemma pair_value_inj (t0 t1 u0 u1 : TierRatio) :
  pair_in_range t0 t1 = true -> pair_in_range u0 u1 = true ->
  pair_value t0 t1 = pair_value u0 u1 ->
  tier_committed t0 = tier_committed u0 /\ tier_committed t1 = tier_committed u1.
Proof.
  unfold pair_in_range, is_real_tier, is_sentinel, pair_value, tier_committed.
  rewrite !orb_true_iff, !andb_true_iff, !orb_true_iff, !andb_true_iff.
  unfold MaxTierBoundaryValue, Uint8MaxValueBigInt, Uint126MaxValueBigInt,
    Uint134MaxValueBigInt.
  intros Ht Hu H.
  assert (BoundaryValue t0 = BoundaryValue u0 /\ Ratio t0 = Ratio u0
          /\ BoundaryValue t1 = BoundaryValue u1 /\ Ratio t1 = Ratio u1)
    as (-> & -> & -> & ->) by lia.
  split; reflexivity.
Qed.

Lemma ConvertTierRatiosToBytes_inj (l1 : list TierRatio) :
  forall (l2 : list TierRatio) (res : list bytes),
    table_in_range l1 = true -> table_in_range l2 = true ->
    ConvertTierRatiosToBytes l1 = Some res ->
    ConvertTierRatiosToBytes l2 = Some res ->
    tier_committed <$> l1 = tier_committed <$> l2.
Proof.
  induction l1 as [|x|x y l1 IH] using pair_ind; intros l2 res H1 H2 E1 E2.
  - injection E1 as <-.
    destruct l2 as [|x2 [|y2 l2]]; [reflexivity|discriminate|].
    rewrite ConvertTierRatiosToBytes_pair in E2.
    destruct (ConvertTierRatiosToBytes l2); discriminate.
  - discriminate.
  - rewrite ConvertTierRatiosToBytes_pair in E1.
    destruct (ConvertTierRatiosToBytes l1) as [r1|] eqn:R1; [|discriminate].
    injection E1 as <-.
    destruct l2 as [|x2 [|y2 l2]]; [discriminate|discriminate|].
    rewrite ConvertTierRatiosToBytes_pair in E2.
    destruct (ConvertTierRatiosToBytes l2) as [r2|] eqn:R2; [|discriminate].
    injection E2 as Hc ->.
    apply table_in_range_pair in H1 as [P1 H1], H2 as [P2 H2].
    apply BigIntBytes_inj in Hc; [|by apply pair_value_nonneg..].
    symmetry in Hc.
    destruct (pair_value_inj _ _ _ _ P1 P2 Hc) as [Ex Ey].
    rewrite !fmap_cons, Ex, Ey. f_equal. f_equal. by apply (IH l2 r1).
Qed.

Lemma ConvertAssetInfoToBytes_Some (t : CexAssetInfo) (L M P : list bytes) :
  ConvertTierRatiosToBytes (LoanRatios t) = Some L ->
  ConvertTierRatiosToBytes (MarginRatios t) = Some M ->
  ConvertTierRatiosToBytes (PortfolioMarginRatios t) = Some P ->
  ConvertAssetInfoToBytes t
  = Some (BigIntBytes (TotalEquity t * Uint64MaxValueBigIntSquare
                       + TotalDebt t * Uint64MaxValueBigInt + BasePrice t)
          :: BigIntBytes (PortfolioMarginCollateral t
                          + (LoanCollateral t * Uint64MaxValueBigIntSquare
                             + MarginCollateral t * Uint64MaxValueBigInt))
          :: L ++ M ++ P).
Proof.
  intros HL HM HP. unfold ConvertAssetInfoToBytes. rewrite HL, HM, HP.
  cbn [mbind option_bind]. rewrite <- !app_assoc. reflexivity.
Qed.

(** X8: a first tier of a pair at the sentinel boundary [2^118] packs like
    boundary 0 with the ratio of the second tier raised by one. *)
Theorem sentinel_boundary_collides (r0 r1 b1 p0 q0 p1 q1 : Z) (rest : list TierRatio) :
  ConvertTierRatiosToBytes
    (mkTierRatio MaxTierBoundaryValue r0 p0 :: mkTierRatio b1 r1 p1 :: rest)
  = ConvertTierRatiosToBytes
      (mkTierRatio 0 r0 q0 :: mkTierRatio b1 (r1 + 1) q1 :: rest).
Proof.
  rewrite !ConvertTierRatiosToBytes_pair. unfold pair_value.
  cbn [BoundaryValue Ratio].
  unfold MaxTierBoundaryValue, Uint8MaxValueBigInt, Uint126MaxValueBigInt,
    Uint134MaxValueBigInt.
  destruct (ConvertTierRatiosToBytes rest); [|reflexivity].
  cbn [mbind option_bind]. do 3 f_equal. lia.
Qed.

Lemma asset_in_range_legs (t : CexAssetInfo) :
  asset_in_range t = true ->
  (0 <= TotalEquity t < 2 ^ 64 /\ 0 <= TotalDebt t < 2 ^ 64 /\ 0 <= BasePrice t < 2 ^ 64
   /\ 0 <= LoanCollateral t < 2 ^ 64 /\ 0 <= MarginCollateral t < 2 ^ 64
   /\ 0 <= PortfolioMarginCollateral t < 2 ^ 64)
  /\ (length (LoanRatios t) = 12%nat /\ table_in_range (LoanRatios t) = true)
  /\ (length (MarginRatios t) = 12%nat /\ table_in_range (MarginRatios t) = true)
  /\ (length (PortfolioMarginRatios t) = 12%nat
      /\ table_in_range (PortfolioMarginRatios t) = true).
Proof.
  unfold asset_in_range, IsUint64, TierCount. cbn [forallb].
  rewrite !andb_true_iff, !Nat.eqb_eq, !Z.leb_le, !Z.ltb_lt. tauto.
Qed.

Lemma ConvertTierRatiosToBytes_twelve (l : list TierRatio) :
  length l = 12%nat ->
  exists res, ConvertTierRatiosToBytes l = Some res /\ length res = 6%nat.
Proof.
  intros Hl. pose proof (ConvertTierRatiosToBytes_length l) as H.
  destruct (ConvertTierRatiosToBytes l) as [res|].
  - exists res. split; [reflexivity|lia].
  - destruct H as [k Hk]. lia.
Qed.

(** X7: a record as the Go types and the parser give it ([uint64] amounts,
    three tables of 12 tiers in range) is packed without a panic into
    exactly 20 chunks: one for the totals and the price, one for the
    collateral totals and six for each of the three tables. *)
Theorem ConvertAssetInfoToBytes_chunk_count (t : CexAssetInfo) :
  asset_in_range t = true ->
  exists (L M P : list bytes),
    length L = 6%nat /\ length M = 6%nat /\ length P = 6%nat
    /\ ConvertTierRatiosToBytes (LoanRatios t) = Some L
    /\ ConvertTierRatiosToBytes (MarginRatios t) = Some M
    /\ ConvertTierRatiosToBytes (PortfolioMarginRatios t) = Some P
    /\ ConvertAssetInfoToBytes t
       = Some (BigIntBytes (TotalEquity t * Uint64MaxValueBigIntSquare
                            + TotalDebt t * Uint64MaxValueBigInt + BasePrice t)
               :: BigIntBytes (PortfolioMarginCollateral t
                               + (LoanCollateral t * Uint64MaxValueBigIntSquare
                                  + MarginCollateral t * Uint64MaxValueBigInt))
               :: L ++ M ++ P)
    /\ (length <$> ConvertAssetInfoToBytes t) = Some 20%nat.
Proof.
  intros H. apply asset_in_range_legs in H as (_ & [Hl _] & [Hm _] & [Hp _]).
  destruct (ConvertTierRatiosToBytes_twelve _ Hl) as (L & EL & HL).
  destruct (ConvertTierRatiosToBytes_twelve _ Hm) as (M & EM & HM).
  destruct (ConvertTierRatiosToBytes_twelve _ Hp) as (P & EP & HP).
  exists L, M, P. repeat (split; [assumption|]).
  rewrite (ConvertAssetInfoToBytes_Some t L M P EL EM EP).
  split; [reflexivity|].
  cbn [fmap option_fmap option_map length]. rewrite !length_app, HL, HM, HP.
  reflexivity.
Qed.

Lemma ConvertAssetInfoToBytes_chunk_count_witness :
  (length <$> ConvertAssetInfoToBytes (sample_record "btc" 0)) = Some 20%nat.
Proof.
  destruct (ConvertAssetInfoToBytes_chunk_count (sample_record "btc" 0) eq_refl)
    as (L & M & P & _ & _ & _ & _ & _ & _ & _ & H).
  exact H.
Defined.

(** X9: on records in range the chunks determine exactly the committed
    fields: two records pack alike if and only if they agree on the
    totals, the price and the boundary and ratio of every tier. *)
Theorem packed_record_determines_committed_fields (a b : CexAssetInfo) :
  asset_in_range a = true -> asset_in_range b = true ->
  (ConvertAssetInfoToBytes a = ConvertAssetInfoToBytes b
   <-> committed_fields a = committed_fields b).
Proof.
  intros Ha Hb.
  apply asset_in_range_legs in Ha as (Ra & [La Ta] & [Ma Ua] & [Pa Va]).
  apply asset_in_range_legs in Hb as (Rb & [Lb Tb] & [Mb Ub] & [Pb Vb]).
  destruct (ConvertTierRatiosToBytes_twelve _ La) as (L1 & EL1 & HL1).
  destruct (ConvertTierRatiosToBytes_twelve _ Ma) as (M1 & EM1 & HM1).
  destruct (ConvertTierRatiosToBytes_twelve _ Pa) as (P1 & EP1 & HP1).
  destruct (ConvertTierRatiosToBytes_twelve _ Lb) as (L2 & EL2 & HL2).
  destruct (ConvertTierRatiosToBytes_twelve _ Mb) as (M2 & EM2 & HM2).
  destruct (ConvertTierRatiosToBytes_twelve _ Pb) as (P2 & EP2 & HP2).
  rewrite (ConvertAssetInfoToBytes_Some a L1 M1 P1 EL1 EM1 EP1).
  rewrite (ConvertAssetInfoToBytes_Some b L2 M2 P2 EL2 EM2 EP2).
  unfold committed_fields. split.
  - intros H. injection H as H1 H2 H3.
    apply app_inj_1 in H3 as [-> H3]; [|lia].
    apply app_inj_1 in H3 as [-> ->]; [|lia].
    apply BigIntBytes_inj in H1, H2;
      try (unfold Uint64MaxValueBigIntSquare, Uint64MaxValueBigInt; lia).
    unfold Uint64MaxValueBigIntSquare, Uint64MaxValueBigInt in H1, H2.
    assert (TotalEquity a = TotalEquity b /\ TotalDebt a = TotalDebt b
            /\ BasePrice a = BasePrice b /\ LoanCollateral a = LoanCollateral b
            /\ MarginCollateral a = MarginCollateral b
            /\ PortfolioMarginCollateral a = PortfolioMarginCollateral b)
      as (-> & -> & -> & -> & -> & ->) by lia.
    rewrite (ConvertTierRatiosToBytes_inj _ _ _ Ta Tb EL1 EL2).
    rewrite (ConvertTierRatiosToBytes_inj _ _ _ Ua Ub EM1 EM2).
    rewrite (ConvertTierRatiosToBytes_inj _ _ _ Va Vb EP1 EP2).
    reflexivity.
  - intros H. injection H as H1 H2 H3 H4 H5 H6 HL HM HP.
    rewrite (ConvertTierRatiosToBytes_committed _ _ HL) in EL1.
    rewrite (ConvertTierRatiosToBytes_committed _ _ HM) in EM1.
    rewrite (ConvertTierRatiosToBytes_committed _ _ HP) in EP1.
    rewrite H1, H2, H3, H4, H5, H6.
    congruence.
Qed.

Lemma packed_record_determines_committed_fields_witness :
  ConvertAssetInfoToBytes (sample_record "btc" 0)
  = ConvertAssetInfoToBytes (sample_record "eth" 1).
Proof.
  apply (packed_record_determines_committed_fields
           (sample_record "btc" 0) (sample_record "eth" 1));
    reflexivity.
Defined.

Lemma CalculatePrecomputedValue_loop_Forall (P : Z -> Z -> Prop) (raw : list TierRatio) :
  forall pv pb : Z,
    Forall (fun t => P (BoundaryValue t) (Ratio t)) raw ->
    Forall (fun t => P (BoundaryValue t) (Ratio t))
      (CalculatePrecomputedValue_loop pv pb raw).
Proof.
  induction raw as [|x rest IH]; intros pv pb Hf; [constructor|].
  inversion Hf as [|? ? Hx Hf']; subst. simpl. constructor; [exact Hx|]. by apply IH.
Qed.

Lemma ascending_from_boundaries_of (l : list TierRatio) (prev : Z) :
  ascending_from prev l = true -> ascending_boundaries l = true.
Proof.
  destruct l as [|x l]; [reflexivity|]. simpl.
  intros H. apply andb_true_iff in H as [_ H]. exact H.
Qed.

Lemma forallb_sentinel_replicate (pp : Z) (k : nat) :
  forallb is_sentinel (replicate k (mkTierRatio MaxTierBoundaryValue 0 pp)) = true.
Proof. induction k as [|k IH]; [reflexivity|]. cbn [replicate forallb]. by rewrite IH. Qed.

Lemma table_in_range_app_sentinels (pp : Z) (k : nat) (l : list TierRatio) :
  Forall (fun t => 0 <= BoundaryValue t < MaxTierBoundaryValue
                   /\ 0 <= Ratio t < 256) l ->
  table_in_range (l ++ replicate k (mkTierRatio MaxTierBoundaryValue 0 pp)) = true.
Proof.
  induction 1 as [|t l Ht _ IH].
  - apply forallb_sentinel_in_range, forallb_sentinel_replicate.
  - cbn [app table_in_range]. rewrite IH. apply orb_true_iff. left.
    unfold is_real_tier. rewrite !andb_true_iff, !Z.leb_le, !Z.ltb_lt. lia.
Qed.

(** Padding keeps a consistent table consistent and in range. *)
Lemma padded_consistent (l res : list TierRatio) :
  padded l = Ok res ->
  tiers_consistent 0 0 l = true ->
  Forall (fun t => 0 <= BoundaryValue t < MaxTierBoundaryValue
                   /\ 0 <= Ratio t < 256) l ->
  length res = 12%nat
  /\ tiers_consistent 0 0 res = true
  /\ table_in_range res = true.
Proof.
  intros Hp Hc Hb. pose proof (padded_spec l) as Hs. rewrite Hp in Hs.
  destruct Hs as (Hlen & -> & Hlen').
  split; [exact Hlen'|]. split.
  - unfold sentinel. apply tiers_consistent_app_sentinels; [exact Hc| |].
    + unfold MaxTierBoundaryValue. lia.
    + eapply list.Forall_impl; [exact Hb|]. simpl. lia.
  - by apply table_in_range_app_sentinels.
Qed.

Section ParsedTables.

Variable NewFromString : string -> option (Z * Z).

(** The table of a tier string the parser accepts. *)
Lemma ParseTiersRatioFromStr_table (enc : string) (res : list TierRatio) :
  ParseTiersRatioFromStr NewFromString enc = Ok res ->
  length res = 12%nat
  /\ tiers_consistent 0 0 res = true
  /\ table_in_range res = true.
Proof.
  unfold ParseTiersRatioFromStr.
  destruct (String.length (strings_Trim enc "[]") =? 0)%nat.
  - intros Hp. apply (padded_consistent [] res Hp); [reflexivity|constructor].
  - destruct (ParseTiersRatioFromStr_loop NewFromString _ []) as [l| |] eqn:E;
      try discriminate.
    cbn [mbind outcome_bind obind].
    apply (ParseTiersRatioFromStr_loop_parsed NewFromString _ []) in E;
      [|split; [reflexivity|constructor]].
    destruct E as [Ha Hf]. intros Hp.
    apply (padded_consistent _ res Hp).
    + apply CalculatePrecomputedValue_loop_consistent.
      * by apply (ascending_from_boundaries_of l (-1)).
      * eapply list.Forall_impl; [exact Hf|]. simpl. lia.
      * intros t Ht. destruct l as [|x l]; [discriminate|]. injection Ht as <-.
        simpl in Ha. apply andb_true_iff in Ha as [Ha _]. lia.
    + apply (CalculatePrecomputedValue_loop_Forall
               (fun b r => 0 <= b < MaxTierBoundaryValue /\ 0 <= r < 256)).
      apply list.Forall_forall. intros t Ht.
      pose proof (proj1 (list.Forall_forall _ _) Hf t Ht) as [Hb Hr].
      apply list_elem_of_lookup in Ht as [i Hi].
      pose proof (ascending_from_lookup l (-1) i t Ha Hi). lia.
Qed.

(** X6: a table the parser returns has 12 tiers, is consistent, and is
    made of real tiers below [2^118] followed by sentinels only. *)
Theorem parsed_tiers_consistent (enc : string) (res : list TierRatio) :
  ParseTiersRatioFromStr NewFromString enc = Ok res ->
  length res = 12%nat
  /\ tiers_consistent 0 0 res = true
  /\ table_in_range res = true.
Proof. apply ParseTiersRatioFromStr_table. Qed.

End ParsedTables.

Lemma parsed_tiers_consistent_witness :
  exists res,
    ParseTiersRatioFromStr plain_decimal "[0-1000:100, 1000-2000:50]" = Ok res
    /\ length res = 12%nat
    /\ tiers_consistent 0 0 res = true.
Proof.
  eexists. split; [vm_compute; reflexivity|].
  pose proof (parsed_tiers_consistent plain_decimal "[0-1000:100, 1000-2000:50]" _
                ltac:(vm_compute; reflexivity)) as (H1 & H2 & _).
  split; [exact H1|exact H2].
Defined.

(** ** The batch verifier and the verdict of [groth16.Verify] *)

Section WorkerProperties.

Variable PoseidonBytes : list bytes -> bytes.
Variable base64_DecodeString : string -> option bytes.
Variables VK PublicWitness : Type.
Variable LoadVerifyingKey : string -> option VK.
Variable NewWitness : bytes -> option PublicWitness.
Variable AssetsCountTiers : list Z.
Variable ZkKeyName : list string.

Local Abbreviation worker_loop V :=
  (VerifierWorkers.worker_loop PoseidonBytes base64_DecodeString VK PublicWitness
     LoadVerifyingKey NewWitness V AssetsCountTiers ZkKeyName).
Local Abbreviation worker V :=
  (VerifierWorkers.worker PoseidonBytes base64_DecodeString VK PublicWitness
     LoadVerifyingKey NewWitness V AssetsCountTiers ZkKeyName).
Local Abbreviation workers V :=
  (VerifierWorkers.workers PoseidonBytes base64_DecodeString VK PublicWitness
     LoadVerifyingKey NewWitness V AssetsCountTiers ZkKeyName).

(** The loop never uses the verdict on the last proof it handles. *)
Lemma worker_loop_last_verdict (V1 V2 : bytes -> VK -> PublicWitness -> bool)
    (proofs : list Verifier.Proof) :
  forall (fuel : nat) (j : Z) (ks : VerifierWorkers.key_state VK)
         (proofMap : gmap Z Verifier.ProofMetaData),
    0 <= j ->
    (forall (k : nat) (proof : Verifier.Proof),
        (S k < fuel)%nat -> proofs !! Z.to_nat (j + Z.of_nat k) = Some proof ->
        forall vk w,
          V1 (default "" (base64_DecodeString (Verifier.ZkProof proof))) vk w
          = V2 (default "" (base64_DecodeString (Verifier.ZkProof proof))) vk w) ->
    worker_loop V1 fuel j proofs ks proofMap = worker_loop V2 fuel j proofs ks proofMap.
Proof.
  induction fuel as [|fuel IH]; intros j ks proofMap Hj Hagree; [reflexivity|].
  cbn [VerifierWorkers.worker_loop].
  destruct (proofs !! Z.to_nat j) as [proof|] eqn:Ej; [|reflexivity].
  destruct (Verifier.check_public_input PoseidonBytes base64_DecodeString proof proofMap)
    as [[actualHash proofMap']| |]; [|reflexivity|reflexivity].
  cbn [mbind outcome_bind obind].
  destruct (NewWitness actualHash) as [w|]; [|reflexivity].
  destruct (VerifierWorkers.load_key VK LoadVerifyingKey AssetsCountTiers ZkKeyName
              (Verifier.AssetsCount proof) ks) as [ks'| |]; [|reflexivity|reflexivity].
  cbn [mbind outcome_bind obind].
  destruct (fst ks') as [vk|]; [|reflexivity].
  destruct fuel as [|fuel].
  - destruct (V1 _ vk w), (V2 _ vk w); reflexivity.
  - rewrite <- (Hagree 0%nat proof); [|lia|by rewrite Z.add_0_r].
    destruct (V1 _ vk w); [|reflexivity].
    apply IH; [lia|]. intros k p Hk Hp. apply (Hagree (S k)); [lia|].
    rewrite <- Hp. f_equal. lia.
Qed.

(** X10: a worker never uses the verdict on the last proof of its range:
    two verifiers that agree on the proofs before the last one give the
    same outcome and leave the same map. *)
Theorem last_verdict_unused (V1 V2 : bytes -> VK -> PublicWitness -> bool)
    (proofs : list Verifier.Proof) (index averageProofCount : Z)
    (proofMap : gmap Z Verifier.ProofMetaData) :
  0 <= index -> 0 <= averageProofCount ->
  (forall (j : Z) (proof : Verifier.Proof),
      index * averageProofCount <= j ->
      j + 1 < (index + 1) * averageProofCount ->
      j + 1 < Z.of_nat (length proofs) ->
      proofs !! Z.to_nat j = Some proof ->
      forall vk w,
        V1 (default "" (base64_DecodeString (Verifier.ZkProof proof))) vk w
        = V2 (default "" (base64_DecodeString (Verifier.ZkProof proof))) vk w) ->
  worker V1 index averageProofCount proofs proofMap
  = worker V2 index averageProofCount proofs proofMap.
Proof.
  intros Hi Ha Hagree. unfold VerifierWorkers.worker.
  apply worker_loop_last_verdict; [nia|].
  intros k proof Hk Hp. apply (Hagree (index * averageProofCount + Z.of_nat k)); try lia.
  - destruct (Z.ltb_spec (Z.of_nat (length proofs)) ((index + 1) * averageProofCount)); lia.
  - destruct (Z.ltb_spec (Z.of_nat (length proofs)) ((index + 1) * averageProofCount)); lia.
  - exact Hp.
Qed.

Lemma workers_short_ranges (V1 V2 : bytes -> VK -> PublicWitness -> bool)
    (proofs : list Verifier.Proof) (averageProofCount : Z) :
  0 <= averageProofCount <= 1 ->
  forall (count : nat) (index : Z) (proofMap : gmap Z Verifier.ProofMetaData),
    0 <= index ->
    workers V1 count index averageProofCount proofs proofMap
    = workers V2 count index averageProofCount proofs proofMap.
Proof.
  intros Ha. induction count as [|count IH]; intros index proofMap Hi; [reflexivity|].
  cbn [VerifierWorkers.workers].
  replace (worker V2 index averageProofCount proofs proofMap)
    with (worker V1 index averageProofCount proofs proofMap).
  - destruct (worker V1 index averageProofCount proofs proofMap); try reflexivity.
    cbn [mbind outcome_bind obind]. apply IH. lia.
  - unfold VerifierWorkers.worker. apply worker_loop_last_verdict; [nia|].
    intros k proof Hk. exfalso.
    destruct (Z.ltb_spec (Z.of_nat (length proofs)) ((index + 1) * averageProofCount)); nia.
Qed.

(** X11: with no more proofs than workers, batch mode does not depend on
    the verdict of [groth16.Verify]. *)
Theorem few_proofs_verdict_unused (V1 V2 : bytes -> VK -> PublicWitness -> bool)
    (NumCPU : nat) (cfg : list CexAssetInfo) (proofs : list Verifier.Proof) :
  (length proofs <= Nat.max 16 NumCPU)%nat ->
  VerifierWorkers.batch_mode PoseidonBytes base64_DecodeString VK PublicWitness
    LoadVerifyingKey NewWitness V1 AssetsCountTiers ZkKeyName NumCPU cfg proofs
  = VerifierWorkers.batch_mode PoseidonBytes base64_DecodeString VK PublicWitness
      LoadVerifyingKey NewWitness V2 AssetsCountTiers ZkKeyName NumCPU cfg proofs.
Proof.
  intros Hn. unfold VerifierWorkers.batch_mode.
  destruct (Verifier.init_state PoseidonBytes cfg) as [[st0 expect]| |];
    [|reflexivity|reflexivity].
  cbn [mbind outcome_bind obind].
  set (w := if (16 <? NumCPU)%nat then NumCPU else 16%nat).
  assert (Hw : w = Nat.max 16 NumCPU).
  { unfold w. destruct (Nat.ltb_spec 16 NumCPU); lia. }
  rewrite (workers_short_ranges V1 V2); [reflexivity| |lia].
  assert (0 < Z.of_nat w) by lia.
  split.
  - apply Z.quot_pos; lia.
  - assert ((Z.of_nat (length proofs) + Z.of_nat w - 1) ÷ Z.of_nat w < 2); [|lia].
    apply Z.quot_lt_upper_bound; lia.
Qed.

End WorkerProperties.

Lemma last_verdict_unused_witness :
  VerifierWorkers.worker sample_hash sample_base64 unit unit
    (fun _ => Some tt) (fun _ => Some tt) (fun _ _ _ => false)
    [50; 500] ["zkpor50"; "zkpor500"] 0 1 sample_proofs ∅
  = VerifierWorkers.worker sample_hash sample_base64 unit unit
      (fun _ => Some tt) (fun _ => Some tt) (fun _ _ _ => true)
      [50; 500] ["zkpor50"; "zkpor500"] 0 1 sample_proofs ∅.
Proof.
  apply last_verdict_unused; [lia|lia|]. intros j proof H1 H2. lia.
Defined.

(** The initialisation of the sample run. *)
Lemma sample_init_state :
  Verifier.init_state sample_hash sample_cfg
  = Ok (Verifier.mkChainState ("", emptyAccountTreeRoot) ("", sample_empty_commitment) "" "",
        sample_final_commitment).
Proof.
  exact (init_state_placed sample_hash sample_cfg sample_cfg _ _ sample_cfg_placed
           sample_empty_commitment_eq sample_final_commitment_eq).
Qed.

(** The sample run accepts although every verification fails. *)
Lemma sample_batch_mode_accepts : is_Ok (sample_batch_mode false) = true.
Proof.
  unfold sample_batch_mode, VerifierWorkers.batch_mode.
  rewrite sample_init_state. vm_compute. reflexivity.
Qed.

Lemma few_proofs_verdict_unused_witness :
  sample_batch_mode false = sample_batch_mode true
  /\ is_Ok (sample_batch_mode false) = true.
Proof.
  split; [|exact sample_batch_mode_accepts].
  unfold sample_batch_mode.
  refine (few_proofs_verdict_unused sample_hash sample_base64 unit unit
            (fun _ => Some tt) (fun _ => Some tt) [50; 500] ["zkpor50"; "zkpor500"]
            (fun _ _ _ => false) (fun _ _ _ => true) 4 sample_cfg sample_proofs _).
  unfold sample_proofs. cbn [length]. lia.
Defined.

(** ** What the verifier demands of its configuration *)

Lemma written_count_cons (y : option CexAssetInfo) (slots : list (option CexAssetInfo)) :
  written_count (y :: slots)
  = (match y with Some _ => 1 | None => 0 end + written_count slots)%nat.
Proof. destruct y; reflexivity. Qed.

Lemma written_count_insert (c : CexAssetInfo) :
  forall (slots : list (option CexAssetInfo)) (i : nat) (x : option CexAssetInfo),
    slots !! i = Some x ->
    written_count (<[i := Some c]> slots)
    = (written_count slots + match x with Some _ => 0 | None => 1 end)%nat.
Proof.
  induction slots as [|y slots IH]; intros i x Hi; [discriminate|].
  destruct i as [|i]; cbn [lookup list_lookup] in Hi.
  - injection Hi as ->.
    change (<[0%nat := Some c]> (x :: slots)) with (Some c :: slots).
    rewrite !written_count_cons. destruct x; lia.
  - change (<[S i := Some c]> (y :: slots)) with (y :: <[i := Some c]> slots).
    rewrite !written_count_cons, (IH i x Hi). lia.
Qed.

Lemma place_cex_assets_spec (cfg : list CexAssetInfo) :
  forall slots slots' : list (option CexAssetInfo),
    Verifier.place_cex_assets cfg slots = Ok slots' ->
    length slots' = length slots
    /\ Forall (fun c => TotalDebt c <= TotalEquity c
                        /\ 0 <= CexIndex c < Z.of_nat (length slots)) cfg
    /\ (written_count slots' <= written_count slots + length cfg)%nat
    /\ (written_count slots' = (written_count slots + length cfg)%nat ->
        NoDup (CexIndex <$> cfg)
        /\ forall c, c ∈ cfg -> slots !! Z.to_nat (CexIndex c) = Some None).
Proof.
  induction cfg as [|c rest IH]; intros slots slots' H.
  - injection H as <-. split; [reflexivity|]. split; [constructor|].
    simpl. split; [lia|]. intros _. split; [constructor|].
    intros c Hc. by apply not_elem_of_nil in Hc.
  - cbn [Verifier.place_cex_assets] in H.
    destruct (Z.ltb_spec (CexIndex c) 0); [discriminate|].
    destruct (Z.leb_spec (Z.of_nat (length slots)) (CexIndex c)); [discriminate|].
    cbn [orb] in H.
    destruct (Z.ltb_spec (TotalEquity c) (TotalDebt c)); [discriminate|].
    apply IH in H as (Hlen & Hf & Hle & Heq).
    rewrite length_insert in Hlen, Hf.
    assert (Hi : (Z.to_nat (CexIndex c) < length slots)%nat) by lia.
    destruct (lookup_lt_is_Some_2 slots _ Hi) as [x Hx].
    rewrite (written_count_insert c slots _ x Hx) in Hle, Heq.
    split; [exact Hlen|]. split; [constructor; [lia|exact Hf]|].
    cbn [length]. split; [destruct x; lia|].
    intros Hcount. destruct x as [y|]; [lia|].
    destruct Heq as [Hnd Hnone]; [lia|].
    assert (Hfresh : forall c', c' ∈ rest -> CexIndex c' <> CexIndex c).
    { intros c' Hc' E. specialize (Hnone c' Hc'). rewrite E in Hnone.
      rewrite list_lookup_insert_eq in Hnone by lia. discriminate. }
    split.
    + rewrite fmap_cons. constructor; [|exact Hnd].
      intros Hin. apply list_elem_of_fmap in Hin as (c' & E & Hc').
      by apply (Hfresh c' Hc').
    + intros c' Hc'. apply elem_of_cons in Hc' as [->|Hc']; [exact Hx|].
      specialize (Hnone c' Hc').
      rewrite list_lookup_insert_ne in Hnone; [exact Hnone|].
      intros E. apply (Hfresh c' Hc').
      pose proof (proj1 (list.Forall_forall _ _) Hf c' Hc') as [_ Hr]. lia.
Qed.

Lemma written_slots_full (slots : list (option CexAssetInfo)) (l : list CexAssetInfo) :
  Verifier.written_slots slots = Ok l ->
  written_count slots = length slots /\ length l = length slots.
Proof.
  unfold Verifier.written_slots.
  destruct (mapM id slots) as [l'|] eqn:E; [|discriminate].
  intros [= <-]. apply mapM_Some in E.
  assert (Hs : slots = Some <$> l').
  { clear -E. induction E as [|x y l1 l2 Hxy _ IH]; [reflexivity|].
    simpl in Hxy. subst. rewrite fmap_cons. by f_equal. }
  rewrite Hs. rewrite length_fmap. split; [|reflexivity].
  clear. induction l' as [|a l' IH]; [reflexivity|].
  rewrite fmap_cons, written_count_cons. cbn [length]. by rewrite IH.
Qed.

Lemma written_count_replicate_None (n : nat) :
  written_count (replicate n (None : option CexAssetInfo)) = 0%nat.
Proof.
  induction n as [|n IH]; [reflexivity|].
  cbn [replicate]. rewrite written_count_cons. exact IH.
Qed.

Section ConfigProperties.

Variable PoseidonBytes : list bytes -> bytes.

Lemma init_state_config (cfg : list CexAssetInfo) (st : Verifier.chain_state)
    (expect : bytes) :
  Verifier.init_state PoseidonBytes cfg = Ok (st, expect) ->
  Forall (fun c => TotalDebt c <= TotalEquity c) cfg
  /\ NoDup (CexIndex <$> cfg)
  /\ Forall (fun c => 0 <= CexIndex c < Z.of_nat (length cfg)) cfg
  /\ (length cfg <= 500)%nat.
Proof.
  unfold Verifier.init_state.
  destruct (hex_DecodeString _); [|discriminate].
  destruct (Verifier.place_cex_assets cfg (replicate (length cfg) None))
    as [slots| |] eqn:Ep; try discriminate.
  cbn [mbind outcome_bind obind].
  destruct (Verifier.written_slots slots) as [l| |] eqn:Ew; try discriminate.
  cbn [mbind outcome_bind obind].
  destruct (Verifier.commit_or_panic PoseidonBytes (map Verifier.zero_totals l))
    as [e| |] eqn:Ee; try discriminate.
  cbn [mbind outcome_bind obind].
  destruct (Verifier.commit_or_panic PoseidonBytes l) as [f| |] eqn:Ef; try discriminate.
  intros _.
  apply place_cex_assets_spec in Ep as (Hlen & Hf & _ & Heq).
  apply written_slots_full in Ew as [Hfull Hl].
  rewrite length_replicate in Hlen, Hf.
  rewrite written_count_replicate_None in Heq.
  destruct Heq as [Hnd _]; [lia|].
  split; [eapply list.Forall_impl; [exact Hf|]; simpl; lia|].
  split; [exact Hnd|].
  split; [eapply list.Forall_impl; [exact Hf|]; simpl; lia|].
  unfold Verifier.commit_or_panic, ComputeCexAssetsCommitment, AssetCounts in Ef.
  destruct (Nat.ltb_spec 500 (length l)); [discriminate|]. lia.
Qed.

(** X12: batch mode accepts only a configuration in which every asset has
    [TotalEquity >= TotalDebt], at most 500 assets, and indices that are
    distinct and below the number of assets. *)
Theorem accepted_config_is_solvent (cfg : list CexAssetInfo) (nProofs : nat)
    (proofMap : gmap Z Verifier.ProofMetaData) (root : bytes) :
  Verifier.batch_mode PoseidonBytes cfg nProofs proofMap = Ok root ->
  Forall (fun c => TotalDebt c <= TotalEquity c) cfg
  /\ NoDup (CexIndex <$> cfg)
  /\ Forall (fun c => 0 <= CexIndex c < Z.of_nat (length cfg)) cfg
  /\ (length cfg <= 500)%nat.
Proof.
  unfold Verifier.batch_mode.
  destruct (Verifier.init_state PoseidonBytes cfg) as [[st expect]| |] eqn:E;
    try discriminate.
  intros _. by apply (init_state_config cfg st expect).
Qed.

End ConfigProperties.

Lemma sample_batch_root :
  Verifier.batch_mode sample_hash sample_cfg 1 sample_proofMap = Ok "root1".
Proof.
  unfold Verifier.batch_mode. rewrite sample_init_state. reflexivity.
Qed.

Lemma accepted_config_is_solvent_witness :
  Forall (fun c => TotalDebt c <= TotalEquity c) sample_cfg.
Proof.
  exact (proj1 (accepted_config_is_solvent sample_hash sample_cfg 1 sample_proofMap
                  "root1" sample_batch_root)).
Defined.

(** ** Merkle proofs and the user mode of the verifier *)

Section MerkleIndexProperties.

Variable PoseidonBytes : list bytes -> bytes.

Lemma VerifyMerkleProof_fold (root : bytes) (accountIndex : Z) (proof : list bytes)
    (node : bytes) :
  VerifyMerkleProof PoseidonBytes root accountIndex proof node
  = Some (bool_decide (length proof = 28%nat
                       /\ merkle_fold PoseidonBytes 0 accountIndex proof node = root)).
Proof.
  unfold VerifyMerkleProof, AccountTreeDepth, NewPoseidon.
  destruct (Nat.eqb_spec (length proof) 28) as [Hl|Hl]; cbn [negb].
  - rewrite (VerifyMerkleProof_loop_fold PoseidonBytes accountIndex proof 28 0 node);
      [|lia|lia].
    rewrite drop_0.
    destruct (String.eqb_spec (merkle_fold PoseidonBytes 0 accountIndex proof node) root)
      as [E|E]; cbn [negb].
    + by rewrite bool_decide_eq_true_2.
    + rewrite bool_decide_eq_false_2; [reflexivity|]. intros [_ ?]. contradiction.
  - rewrite bool_decide_eq_false_2; [reflexivity|]. intros [? _]. contradiction.
Qed.

Lemma merkle_fold_bits (index index' : Z) (siblings : list bytes) :
  forall (i : nat) (node : bytes),
    (forall k : nat, (i <= k < i + length siblings)%nat ->
                     Z.testbit index (Z.of_nat k) = Z.testbit index' (Z.of_nat k)) ->
    merkle_fold PoseidonBytes i index siblings node
    = merkle_fold PoseidonBytes i index' siblings node.
Proof.
  induction siblings as [|s rest IH]; intros i node Hbits; [reflexivity|].
  cbn [merkle_fold]. rewrite (Hbits i) by (simpl; lia).
  apply IH. intros k Hk. apply Hbits. simpl. lia.
Qed.

(** X13: only the low 28 bits of the account index are used: indices that
    agree modulo [2^28] verify alike. *)
Theorem VerifyMerkleProof_index_mod (root : bytes) (accountIndex accountIndex' : Z)
    (proof : list bytes) (node : bytes) :
  accountIndex mod 2 ^ 28 = accountIndex' mod 2 ^ 28 ->
  VerifyMerkleProof PoseidonBytes root accountIndex proof node
  = VerifyMerkleProof PoseidonBytes root accountIndex' proof node.
Proof.
  intros Hmod. rewrite !VerifyMerkleProof_fold. f_equal.
  destruct (Nat.eq_dec (length proof) 28%nat) as [Hl|Hl].
  - rewrite (merkle_fold_bits accountIndex accountIndex'); [reflexivity|].
    intros k Hk.
    rewrite <- (Z.mod_pow2_bits_low accountIndex 28) by lia.
    rewrite <- (Z.mod_pow2_bits_low accountIndex' 28) by lia.
    by rewrite Hmod.
  - rewrite !bool_decide_eq_false_2; [reflexivity|tauto|tauto].
Qed.

End MerkleIndexProperties.

Section UserModeProperties.

Variable PoseidonBytes : list bytes -> bytes.
Variable base64_DecodeString : string -> option bytes.

Lemma decode_proof_Ok (src : list string) :
  forall siblings : list bytes,
    VerifierUser.decode_proof base64_DecodeString src = Ok siblings
    <-> mapM base64_DecodeString src = Some siblings
        /\ Forall (fun p => String.length p = 32%nat) siblings.
Proof.
  induction src as [|x rest IH]; intros siblings; cbn [VerifierUser.decode_proof].
  - change (mapM base64_DecodeString []) with (Some ([] : list string)). split.
    + intros [= <-]. split; [reflexivity|constructor].
    + intros [[= <-] _]. reflexivity.
  - change (mapM base64_DecodeString (x :: rest))
      with (y ← base64_DecodeString x; k ← mapM base64_DecodeString rest; Some (y :: k)).
    destruct (base64_DecodeString x) as [p|]; cbn [mbind option_bind]; [|split].
    2:{ discriminate. } 2:{ intros [? _]. discriminate. }
    destruct (Nat.eqb_spec (String.length p) 32) as [Hp|Hp]; cbn [negb].
    + destruct (VerifierUser.decode_proof base64_DecodeString rest) as [l| |] eqn:E
        in |- *.
      * apply IH in E as [E1 E2]. rewrite E1. cbn [mbind outcome_bind obind option_bind mret option_ret].
        split.
        -- intros [= <-]. split; [reflexivity|by constructor].
        -- intros [[= <-] _]. reflexivity.
      * cbn [mbind outcome_bind obind]. split; [discriminate|].
        intros [Hm Hf]. destruct (mapM base64_DecodeString rest) as [l|] eqn:E1;
          [|discriminate].
        injection Hm as <-. inversion Hf; subst.
        assert (VerifierUser.decode_proof base64_DecodeString rest = Ok l)
          by (apply IH; by split).
        congruence.
      * cbn [mbind outcome_bind obind]. split; [discriminate|].
        intros [Hm Hf]. destruct (mapM base64_DecodeString rest) as [l|] eqn:E1;
          [|discriminate].
        injection Hm as <-. inversion Hf; subst.
        assert (VerifierUser.decode_proof base64_DecodeString rest = Ok l)
          by (apply IH; by split).
        congruence.
    + split; [discriminate|].
      intros [Hm Hf]. destruct (mapM base64_DecodeString rest) as [l|]; [|discriminate].
      injection Hm as <-. inversion Hf; subst. contradiction.
Qed.

(** X14: user mode prints "verify pass" exactly when the root and the
    account id are 32 hex-encoded bytes, the proof is 28 siblings of 32
    bytes, and the leaf [AccountInfoToHash] gives for the configured
    account folds with the siblings to the root. *)
Theorem user_mode_passes_iff (c : VerifierUser.UserConfig) :
  VerifierUser.user_mode PoseidonBytes base64_DecodeString c = Ok true
  <-> exists (root accountId leaf : bytes) (siblings : list bytes),
        hex_DecodeString (VerifierUser.Root c) = Some root
        /\ String.length root = 32%nat
        /\ hex_DecodeString (VerifierUser.AccountIdHash c) = Some accountId
        /\ String.length accountId = 32%nat
        /\ mapM base64_DecodeString (VerifierUser.Proof c) = Some siblings
        /\ Forall (fun p => String.length p = 32%nat) siblings
        /\ length siblings = 28%nat
        /\ AccountInfoToHash PoseidonBytes (configured_account accountId c) = Some leaf
        /\ merkle_fold PoseidonBytes 0 (VerifierUser.AccountIndex c) siblings leaf = root.
Proof.
  unfold VerifierUser.user_mode, AccountInfoToHash, configured_account.
  cbn [Assets AccountId AcctTotalEquity AcctTotalDebt AcctTotalCollateral].
  split.
  - destruct (hex_DecodeString (VerifierUser.Root c)) as [root|]; [|discriminate].
    destruct (Nat.eqb_spec (String.length root) 32) as [Hr|Hr]; [|discriminate].
    cbn [negb].
    destruct (VerifierUser.decode_proof base64_DecodeString (VerifierUser.Proof c))
      as [siblings| |] eqn:Ed; [|discriminate|discriminate].
    cbn [mbind outcome_bind obind].
    destruct (ComputeUserAssetsCommitment PoseidonBytes (VerifierUser.Assets c))
      as [ac|]; [|discriminate].
    destruct (hex_DecodeString (VerifierUser.AccountIdHash c)) as [accountId|];
      [|discriminate].
    destruct (Nat.eqb_spec (String.length accountId) 32) as [Hi|Hi]; [|discriminate].
    cbn [negb]. rewrite VerifyMerkleProof_fold. intros [= Hb].
    apply bool_decide_eq_true in Hb as [Hlen Hfold].
    apply decode_proof_Ok in Ed as [Hm Hf].
    eexists root, accountId, _, siblings. cbn [mbind option_bind].
    repeat split; try eassumption; try reflexivity.
  - intros (root & accountId & leaf & siblings & -> & Hr & -> & Hi & Hm & Hf & Hlen
            & Hleaf & Hfold).
    rewrite Hr, Hi. cbn [Nat.eqb negb].
    replace (32 =? 32)%nat with true by reflexivity. cbn [negb].
    rewrite (proj2 (decode_proof_Ok _ siblings) (conj Hm Hf)).
    cbn [mbind outcome_bind obind].
    destruct (ComputeUserAssetsCommitment PoseidonBytes (VerifierUser.Assets c))
      as [ac|]; [|discriminate].
    cbn [mbind option_bind] in Hleaf. injection Hleaf as <-.
    rewrite VerifyMerkleProof_fold.
    rewrite (bool_decide_eq_true_2 _ (conj Hlen Hfold)). reflexivity.
Qed.

End UserModeProperties.

Lemma VerifyMerkleProof_index_mod_witness :
  VerifyMerkleProof sample_hash "r" 5 (replicate 28 "s") "n"
  = VerifyMerkleProof sample_hash "r" 268435461 (replicate 28 "s") "n".
Proof.
  apply (VerifyMerkleProof_index_mod sample_hash "r" 5 268435461 (replicate 28 "s") "n").
  reflexivity.
Defined.

(** ** The CEX totals *)

(** X15: on [uint64] operands [SafeAdd] returns the exact sum when it fits
    in 64 bits and panics otherwise; it never returns a wrapped value. *)
Theorem SafeAdd_sum_or_panic (a b : Z) :
  0 <= a < 2 ^ 64 -> 0 <= b < 2 ^ 64 ->
  SafeAdd a b = if a + b <? 2 ^ 64 then Some (a + b) else None.
Proof.
  intros Ha Hb. unfold SafeAdd, wrap.
  destruct (Z.ltb_spec (a + b) (2 ^ 64)) as [H|H].
  - rewrite Z.mod_small by lia. destruct (Z.ltb_spec (a + b) a); [lia|reflexivity].
  - replace ((a + b) mod 2 ^ 64) with (a + b - 2 ^ 64).
    + destruct (Z.ltb_spec (a + b - 2 ^ 64) a); [reflexivity|lia].
    + apply Z.mod_unique_pos with (q := 1); lia.
Qed.

Lemma SafeAdd_sum_or_panic_witness :
  SafeAdd 18446744073709551615 1 = None /\ SafeAdd 18446744073709551614 1
                                           = Some 18446744073709551615.
Proof.
  split.
  - apply (SafeAdd_sum_or_panic 18446744073709551615 1); lia.
  - apply (SafeAdd_sum_or_panic 18446744073709551614 1); lia.
Defined.

Lemma SafeAdd_fits (a b : Z) :
  0 <= a < 2 ^ 64 -> 0 <= b < 2 ^ 64 ->
  SafeAdd a b = if IsUint64 (a + b) then Some (a + b) else None.
Proof.
  intros Ha Hb. unfold SafeAdd, wrap, IsUint64.
  destruct (Z.leb_spec 0 (a + b)) as [_|?]; [|lia]. cbn [andb].
  destruct (Z.ltb_spec (a + b) (2 ^ 64)) as [H|H].
  - rewrite Z.mod_small by lia. destruct (Z.ltb_spec (a + b) a); [lia|reflexivity].
  - replace ((a + b) mod 2 ^ 64) with (a + b - 2 ^ 64).
    + destruct (Z.ltb_spec (a + b - 2 ^ 64) a); [reflexivity|lia].
    + apply Z.mod_unique_pos with (q := 1); lia.
Qed.

Lemma credited_cons (f : AccountAsset -> Z) (k : Z) (a : AccountAsset)
    (l : list AccountAsset) :
  credited f k (a :: l) = (if decide (Index a = k) then f a else 0) + credited f k l.
Proof.
  unfold credited. rewrite filter_cons.
  destruct (decide (Index a = k)); [reflexivity|]. lia.
Qed.

Lemma credited_app (f : AccountAsset -> Z) (k : Z) (l1 l2 : list AccountAsset) :
  credited f k (l1 ++ l2) = credited f k l1 + credited f k l2.
Proof.
  induction l1 as [|a l1 IH]; [reflexivity|].
  cbn [app]. rewrite !credited_cons, IH. lia.
Qed.

Lemma credited_nonneg (f : AccountAsset -> Z) (k : Z) (l : list AccountAsset) :
  Forall (fun a => 0 <= f a) l -> 0 <= credited f k l.
Proof.
  induction 1 as [|a l Ha _ IH]; [reflexivity|].
  rewrite credited_cons. destruct (decide (Index a = k)); lia.
Qed.

Lemma record_after_nil (k : nat) (c : CexAssetInfo) : record_after [] k c = c.
Proof.
  destruct c. unfold record_after. cbn. f_equal; lia.
Qed.

Lemma record_after_cons (a : AccountAsset) (rest : list AccountAsset) (k : nat)
    (c : CexAssetInfo) :
  record_after rest k (record_after [a] k c) = record_after (a :: rest) k c.
Proof.
  unfold record_after. cbn [TotalEquity TotalDebt BasePrice Symbol CexIndex
    LoanCollateral MarginCollateral PortfolioMarginCollateral
    LoanRatios MarginRatios PortfolioMarginRatios].
  rewrite !(credited_cons _ _ a rest), !(credited_cons _ _ a []).
  unfold credited at 1 3 5 7 9. cbn. f_equal; lia.
Qed.

Lemma totals_after_nil (cexAssets : list CexAssetInfo) : totals_after cexAssets [] = cexAssets.
Proof.
  unfold totals_after. apply list_eq. intros i. rewrite list_lookup_imap.
  destruct (cexAssets !! i); [|reflexivity]. simpl. by rewrite record_after_nil.
Qed.

Lemma totals_after_cons (cexAssets : list CexAssetInfo) (a : AccountAsset)
    (rest : list AccountAsset) :
  totals_after (totals_after cexAssets [a]) rest = totals_after cexAssets (a :: rest).
Proof.
  unfold totals_after. apply list_eq. intros i. rewrite !list_lookup_imap.
  destruct (cexAssets !! i); [|reflexivity]. simpl. by rewrite record_after_cons.
Qed.

Lemma length_totals_after (cexAssets : list CexAssetInfo) (assets : list AccountAsset) :
  length (totals_after cexAssets assets) = length cexAssets.
Proof. apply length_imap. Qed.

Lemma record_after_other (a : AccountAsset) (k : nat) (c : CexAssetInfo) :
  Index a <> Z.of_nat k -> record_after [a] k c = c.
Proof.
  intros Hk. destruct c. unfold record_after.
  rewrite !credited_cons. destruct (decide (Index a = Z.of_nat k)); [contradiction|].
  cbn. f_equal; lia.
Qed.

Lemma totals_after_single (cexAssets : list CexAssetInfo) (a : AccountAsset)
    (c : CexAssetInfo) :
  0 <= Index a -> cexAssets !! Z.to_nat (Index a) = Some c ->
  totals_after cexAssets [a]
  = <[Z.to_nat (Index a) := record_after [a] (Z.to_nat (Index a)) c]> cexAssets.
Proof.
  intros H0 Hc. unfold totals_after. apply list_eq. intros i.
  rewrite list_lookup_imap.
  destruct (decide (i = Z.to_nat (Index a))) as [->|Hi].
  - rewrite list_lookup_insert_eq by (eapply lookup_lt_Some; eauto).
    rewrite Hc. reflexivity.
  - rewrite list_lookup_insert_ne by congruence.
    destruct (cexAssets !! i); [|reflexivity]. simpl.
    rewrite record_after_other; [reflexivity|lia].
Qed.

Lemma forallb_insert_totals (r : CexAssetInfo) :
  forall (cexAssets : list CexAssetInfo) (i : nat),
    forallb totals_uint64 cexAssets = true -> (i < length cexAssets)%nat ->
    forallb totals_uint64 (<[i := r]> cexAssets) = totals_uint64 r.
Proof.
  induction cexAssets as [|c l IH]; intros i Hf Hi; [simpl in Hi; lia|].
  cbn [forallb] in Hf. apply andb_true_iff in Hf as [Hc Hl].
  destruct i as [|i].
  - change (<[0%nat := r]> (c :: l)) with (r :: l). cbn [forallb].
    rewrite Hl. apply andb_true_r.
  - change (<[S i := r]> (c :: l)) with (c :: <[i := r]> l). cbn [forallb].
    rewrite Hc. cbn [andb]. apply IH; [exact Hl|simpl in Hi; lia].
Qed.

Lemma amounts_uint64_bounds (a : AccountAsset) :
  amounts_uint64 a = true ->
  0 <= Equity a < 2 ^ 64 /\ 0 <= Debt a < 2 ^ 64 /\ 0 <= Loan a < 2 ^ 64
  /\ 0 <= Margin a < 2 ^ 64 /\ 0 <= PortfolioMargin a < 2 ^ 64.
Proof.
  unfold amounts_uint64, IsUint64. cbn [forallb].
  rewrite !andb_true_iff, !Z.leb_le, !Z.ltb_lt. tauto.
Qed.

Lemma totals_uint64_bounds (c : CexAssetInfo) :
  totals_uint64 c = true ->
  0 <= TotalEquity c < 2 ^ 64 /\ 0 <= TotalDebt c < 2 ^ 64
  /\ 0 <= LoanCollateral c < 2 ^ 64 /\ 0 <= MarginCollateral c < 2 ^ 64
  /\ 0 <= PortfolioMarginCollateral c < 2 ^ 64.
Proof.
  unfold totals_uint64, IsUint64. cbn [forallb].
  rewrite !andb_true_iff, !Z.leb_le, !Z.ltb_lt. tauto.
Qed.

Lemma forallb_lookup_totals (cexAssets : list CexAssetInfo) (i : nat) (c : CexAssetInfo) :
  forallb totals_uint64 cexAssets = true -> cexAssets !! i = Some c ->
  totals_uint64 c = true.
Proof.
  intros Hf Hc. rewrite forallb_forall in Hf. apply Hf.
  apply list_elem_of_In. eapply list_elem_of_lookup_2; eauto.
Qed.

Lemma credited_single (f : AccountAsset -> Z) (a : AccountAsset) :
  credited f (Index a) [a] = f a.
Proof.
  rewrite credited_cons. destruct (decide (Index a = Index a)); [|contradiction].
  unfold credited. cbn. lia.
Qed.

(** One asset: the five [SafeAdd]s succeed exactly when the index is in
    range and the five new totals fit in 64 bits. *)
Lemma add_asset_totals (cexAssets : list CexAssetInfo) (a : AccountAsset) :
  forallb totals_uint64 cexAssets = true -> amounts_uint64 a = true ->
  add_asset cexAssets a
  = if indices_in_range (length cexAssets) [a]
       && forallb totals_uint64 (totals_after cexAssets [a])
    then Some (totals_after cexAssets [a]) else None.
Proof.
  intros Hc Ha. unfold add_asset, indices_in_range. cbn [forallb].
  rewrite andb_true_r.
  destruct (Z.ltb_spec (Index a) 0) as [Hneg|Hpos].
  { destruct (Z.leb_spec 0 (Index a)); [lia|]. reflexivity. }
  destruct (Z.leb_spec 0 (Index a)) as [_|?]; [|lia]. cbn [andb].
  destruct (cexAssets !! Z.to_nat (Index a)) as [c|] eqn:Ec.
  2:{ apply lookup_ge_None in Ec.
      destruct (Z.ltb_spec (Index a) (Z.of_nat (length cexAssets))); [lia|]. reflexivity. }
  assert (Hlt : (Z.to_nat (Index a) < length cexAssets)%nat)
    by (eapply lookup_lt_Some; eauto).
  destruct (Z.ltb_spec (Index a) (Z.of_nat (length cexAssets))); [|lia].
  cbn [andb mbind option_bind].
  rewrite (totals_after_single cexAssets a c Hpos Ec).
  rewrite (forallb_insert_totals _ cexAssets _ Hc Hlt).
  pose proof (amounts_uint64_bounds a Ha) as (A1 & A2 & A3 & A4 & A5).
  pose proof (totals_uint64_bounds c (forallb_lookup_totals _ _ _ Hc Ec))
    as (C1 & C2 & C3 & C4 & C5).
  unfold record_after. rewrite Z2Nat.id by lia. rewrite !credited_single.
  rewrite !SafeAdd_fits by assumption.
  unfold totals_uint64. cbn [forallb TotalEquity TotalDebt LoanCollateral
    MarginCollateral PortfolioMarginCollateral].
  destruct (IsUint64 (TotalEquity c + Equity a)); [|reflexivity].
  cbn [mbind option_bind andb].
  destruct (IsUint64 (TotalDebt c + Debt a)); [|reflexivity].
  cbn [mbind option_bind andb].
  destruct (IsUint64 (LoanCollateral c + Loan a)); [|reflexivity].
  cbn [mbind option_bind andb].
  destruct (IsUint64 (MarginCollateral c + Margin a)); [|reflexivity].
  cbn [mbind option_bind andb].
  destruct (IsUint64 (PortfolioMarginCollateral c + PortfolioMargin a)); reflexivity.
Qed.

Lemma forallb_imap {A B} (P : B -> bool) (g : nat -> A -> B) (l : list A) :
  forallb P (imap g l) = true <-> forall i c, l !! i = Some c -> P (g i c) = true.
Proof.
  rewrite forallb_forall. split.
  - intros H i c Hc. apply H. apply list_elem_of_In.
    apply (list_elem_of_lookup_2 _ i). rewrite list_lookup_imap, Hc. reflexivity.
  - intros H x Hx. apply list_elem_of_In, list_elem_of_lookup in Hx as [i Hi].
    rewrite list_lookup_imap in Hi.
    destruct (l !! i) as [c|] eqn:Hc; [|discriminate].
    injection Hi as <-. by apply (H i).
Qed.

Lemma credited_one (f : AccountAsset -> Z) (k : Z) (a : AccountAsset) :
  credited f k [a] = if decide (Index a = k) then f a else 0.
Proof.
  rewrite credited_cons. unfold credited. cbn.
  destruct (decide (Index a = k)); lia.
Qed.

Lemma amounts_nonneg (f : AccountAsset -> Z) (assets : list AccountAsset) :
  (forall a, amounts_uint64 a = true -> 0 <= f a) ->
  forallb amounts_uint64 assets = true ->
  Forall (fun a => 0 <= f a) assets.
Proof.
  intros Hf H. rewrite forallb_forall in H. apply list.Forall_forall.
  intros a Ha. apply Hf, H. by apply list_elem_of_In.
Qed.

Lemma totals_uint64_record (c : CexAssetInfo) (assets : list AccountAsset) (k : nat) :
  totals_uint64 (record_after assets k c) = true
  <-> 0 <= TotalEquity c + credited Equity (Z.of_nat k) assets < 2 ^ 64
      /\ 0 <= TotalDebt c + credited Debt (Z.of_nat k) assets < 2 ^ 64
      /\ 0 <= LoanCollateral c + credited Loan (Z.of_nat k) assets < 2 ^ 64
      /\ 0 <= MarginCollateral c + credited Margin (Z.of_nat k) assets < 2 ^ 64
      /\ 0 <= PortfolioMarginCollateral c
              + credited PortfolioMargin (Z.of_nat k) assets < 2 ^ 64.
Proof.
  unfold totals_uint64, record_after, IsUint64. cbn [forallb TotalEquity TotalDebt
    LoanCollateral MarginCollateral PortfolioMarginCollateral].
  rewrite !andb_true_iff, !Z.leb_le, !Z.ltb_lt. tauto.
Qed.

(** Totals that fit after more assets fit after fewer. *)
Lemma totals_after_prefix_uint64 (cexAssets : list CexAssetInfo) (a : AccountAsset)
    (rest : list AccountAsset) :
  forallb totals_uint64 cexAssets = true ->
  forallb amounts_uint64 (a :: rest) = true ->
  forallb totals_uint64 (totals_after cexAssets (a :: rest)) = true ->
  forallb totals_uint64 (totals_after cexAssets [a]) = true.
Proof.
  intros Hc Ha H. unfold totals_after in *. rewrite forallb_imap in H |- *.
  intros i c Hi. specialize (H i c Hi).
  apply totals_uint64_record in H. apply totals_uint64_record.
  pose proof (totals_uint64_bounds c (forallb_lookup_totals _ _ _ Hc Hi)).
  assert (Hall : forall f, (forall x, amounts_uint64 x = true -> 0 <= f x) ->
                           0 <= credited f (Z.of_nat i) [a]
                           /\ credited f (Z.of_nat i) [a]
                              <= credited f (Z.of_nat i) (a :: rest)).
  { intros f Hf. cbn [forallb] in Ha. apply andb_true_iff in Ha as [Ha1 Ha2].
    pose proof (credited_nonneg f (Z.of_nat i) rest (amounts_nonneg f rest Hf Ha2)).
    pose proof (Hf a Ha1).
    rewrite (credited_cons f _ a rest), (credited_one f _ a).
    destruct (decide (Index a = Z.of_nat i)); lia. }
  pose proof (Hall Equity ltac:(intros x Hx; apply amounts_uint64_bounds in Hx; lia)).
  pose proof (Hall Debt ltac:(intros x Hx; apply amounts_uint64_bounds in Hx; lia)).
  pose proof (Hall Loan ltac:(intros x Hx; apply amounts_uint64_bounds in Hx; lia)).
  pose proof (Hall Margin ltac:(intros x Hx; apply amounts_uint64_bounds in Hx; lia)).
  pose proof (Hall PortfolioMargin
                ltac:(intros x Hx; apply amounts_uint64_bounds in Hx; lia)).
  lia.
Qed.

Lemma add_assets_closed_form (assets : list AccountAsset) :
  forall cexAssets : list CexAssetInfo,
    forallb totals_uint64 cexAssets = true ->
    forallb amounts_uint64 assets = true ->
    add_assets cexAssets assets
    = if indices_in_range (length cexAssets) assets
         && forallb totals_uint64 (totals_after cexAssets assets)
      then Some (totals_after cexAssets assets) else None.
Proof.
  induction assets as [|a rest IH]; intros cexAssets Hc Ha.
  - cbn [add_assets indices_in_range forallb andb].
    rewrite totals_after_nil, Hc. reflexivity.
  - cbn [add_assets]. pose proof Ha as Ha'.
    cbn [forallb] in Ha. apply andb_true_iff in Ha as [Ha1 Ha2].
    rewrite (add_asset_totals cexAssets a Hc Ha1).
    unfold indices_in_range. cbn [forallb]. rewrite andb_true_r.
    fold (indices_in_range (length cexAssets) rest).
    destruct ((0 <=? Index a) && (Index a <? Z.of_nat (length cexAssets))) eqn:Er;
      cbn [andb]; [|reflexivity].
    destruct (forallb totals_uint64 (totals_after cexAssets [a])) eqn:E1.
    + cbn [mbind option_bind]. rewrite (IH _ E1 Ha2).
      rewrite totals_after_cons, length_totals_after. reflexivity.
    + cbn [mbind option_bind].
      destruct (forallb totals_uint64 (totals_after cexAssets (a :: rest))) eqn:E2.
      * rewrite (totals_after_prefix_uint64 cexAssets a rest Hc Ha' E2) in E1.
        discriminate.
      * rewrite andb_false_r. reflexivity.
Qed.

Lemma add_assets_app (l1 : list AccountAsset) :
  forall (cexAssets : list CexAssetInfo) (l2 : list AccountAsset),
    add_assets cexAssets (l1 ++ l2)
    = (c ← add_assets cexAssets l1; add_assets c l2).
Proof.
  induction l1 as [|a l1 IH]; intros cexAssets l2; [reflexivity|].
  cbn [app add_assets]. destruct (add_asset cexAssets a) as [c|]; [|reflexivity].
  cbn [mbind option_bind]. apply IH.
Qed.

Lemma add_accounts_concat (ops : list (list AccountAsset)) :
  forall cexAssets : list CexAssetInfo,
    add_accounts cexAssets ops = add_assets cexAssets (concat ops).
Proof.
  induction ops as [|s ops IH]; intros cexAssets; [reflexivity|].
  cbn [add_accounts concat]. rewrite add_assets_app.
  destruct (add_assets cexAssets s) as [c|]; [|reflexivity].
  cbn [mbind option_bind]. apply IH.
Qed.

(** X16: running the accounts of a batch over the CEX totals either panics
    or leaves, at every position, the old totals plus the amounts of all
    assets of the batch with that index, and everything else unchanged; it
    panics exactly when an index is out of range or a new total exceeds 64
    bits. *)
Theorem cex_totals_are_sums (cexAssets : list CexAssetInfo)
    (ops : list (list AccountAsset)) :
  forallb totals_uint64 cexAssets = true ->
  forallb amounts_uint64 (concat ops) = true ->
  add_accounts cexAssets ops
  = if indices_in_range (length cexAssets) (concat ops)
       && forallb totals_uint64 (totals_after cexAssets (concat ops))
    then Some (totals_after cexAssets (concat ops)) else None.
Proof. intros Hc Ha. rewrite add_accounts_concat. by apply add_assets_closed_form. Qed.

Lemma cex_totals_are_sums_witness :
  add_accounts sample_totals [sample_user_assets; sample_user_assets]
  = Some [mkCexAssetInfo 20 10 2 "btc" 0 2 4 6 twelve_tiers twelve_tiers twelve_tiers;
          mkCexAssetInfo 140 50 3 "eth" 1 9 12 15 twelve_tiers twelve_tiers twelve_tiers].
Proof.
  rewrite (cex_totals_are_sums sample_totals [sample_user_assets; sample_user_assets]);
    reflexivity.
Defined.

(** *** Recovering the totals from a stored witness *)

Lemma credited_positional (f : AccountAsset -> Z) (k : Z) (userAssets : list AccountAsset) :
  forall off : Z,
    positional off userAssets ->
    credited f k userAssets
    = if (off <=? k) && (k <? off + Z.of_nat (length userAssets))
      then default 0 (f <$> userAssets !! Z.to_nat (k - off)) else 0.
Proof.
  induction userAssets as [|x l IH]; intros off Hp.
  - cbn [length]. destruct (off <=? k), (k <? off + Z.of_nat 0); reflexivity.
  - rewrite credited_cons.
    assert (Hx : Index x = off) by (rewrite (Hp 0%nat x eq_refl); lia).
    rewrite (IH (off + 1)).
    2:{ intros p y Hy. rewrite (Hp (S p) y Hy). lia. }
    cbn [length]. rewrite Hx.
    destruct (decide (off = k)) as [->|Hne].
    + destruct (Z.leb_spec k k); [|lia].
      destruct (Z.ltb_spec k (k + Z.of_nat (S (length l)))); [|lia].
      destruct (Z.leb_spec (k + 1) k); [lia|].
      cbn [andb]. rewrite Z.sub_diag. change (Z.to_nat 0) with 0%nat. cbn. lia.
    + destruct (Z.leb_spec off k) as [Hle|Hgt].
      * destruct (Z.leb_spec (off + 1) k); [|lia]. cbn [andb].
        destruct (Z.ltb_spec k (off + 1 + Z.of_nat (length l))).
        -- destruct (Z.ltb_spec k (off + Z.of_nat (S (length l)))); [|lia].
           replace (Z.to_nat (k - off)) with (S (Z.to_nat (k - (off + 1)))) by lia.
           rewrite Z.add_0_l. reflexivity.
        -- destruct (Z.ltb_spec k (off + Z.of_nat (S (length l)))); [lia|].
           reflexivity.
      * destruct (Z.leb_spec (off + 1) k); [lia|]. reflexivity.
Qed.

Lemma positional_insert (userAssets : list AccountAsset) (a : AccountAsset) :
  positional 0 userAssets -> 0 <= Index a ->
  positional 0 (<[Z.to_nat (Index a) := a]> userAssets).
Proof.
  intros Hp Ha p x Hx.
  destruct (decide (p = Z.to_nat (Index a))) as [->|Hne].
  - destruct (decide (Z.to_nat (Index a) < length userAssets)%nat) as [Hlt|Hge].
    + rewrite list_lookup_insert_eq in Hx by exact Hlt. injection Hx as <-. lia.
    + rewrite list_insert_ge in Hx by lia. by apply Hp.
  - rewrite list_lookup_insert_ne in Hx by congruence. by apply Hp.
Qed.

(** What the spread slots add at [k]: the stored assets with that index,
    and the slot that was there when no stored asset has it. *)
Lemma spread_assets_credited (f : AccountAsset -> Z) (k : Z)
    (storeUserAssets : list AccountAsset) :
  forall userAssets spread : list AccountAsset,
    spread_assets storeUserAssets userAssets = Some spread ->
    NoDup (Index <$> storeUserAssets) ->
    positional 0 userAssets ->
    length spread = length userAssets
    /\ positional 0 spread
    /\ indices_in_range (length userAssets) storeUserAssets = true
    /\ credited f k spread
       = credited f k storeUserAssets
         + (if decide (k ∈ Index <$> storeUserAssets) then 0
            else credited f k userAssets).
Proof.
  induction storeUserAssets as [|a rest IH]; intros userAssets spread Hs Hnd Hp.
  - injection Hs as <-. split; [reflexivity|]. split; [exact Hp|].
    split; [reflexivity|]. rewrite decide_False by apply not_elem_of_nil.
    unfold credited at 2. cbn. lia.
  - cbn [spread_assets] in Hs.
    destruct (Z.ltb_spec (Index a) 0) as [?|H0]; [discriminate|].
    destruct (Z.leb_spec (Z.of_nat (length userAssets)) (Index a)) as [?|Hlt];
      [discriminate|].
    cbn [orb] in Hs. rewrite fmap_cons in Hnd.
    inversion Hnd as [|? ? Hnotin Hnd']; subst. clear Hnd. rename Hnd' into Hnd.
    destruct (IH _ _ Hs Hnd (positional_insert _ a Hp H0)) as (Hlen & Hps & Hin & Hcr).
    rewrite length_insert in Hlen, Hin.
    split; [exact Hlen|]. split; [exact Hps|]. split.
    { unfold indices_in_range in *. cbn [forallb]. rewrite Hin.
      destruct (Z.leb_spec 0 (Index a)); [|lia].
      destruct (Z.ltb_spec (Index a) (Z.of_nat (length userAssets))); [|lia].
      reflexivity. }
    rewrite Hcr, credited_cons.
    rewrite (credited_positional f k _ 0 (positional_insert _ a Hp H0)).
    rewrite (credited_positional f k _ 0 Hp).
    rewrite length_insert, Z.sub_0_r.
    destruct (decide (Index a = k)) as [E|E].
    + subst k. rewrite decide_False by exact Hnotin.
      rewrite decide_True by (rewrite fmap_cons; apply elem_of_cons; by left).
      destruct (Z.leb_spec 0 (Index a)); [|lia].
      destruct (Z.ltb_spec (Index a) (0 + Z.of_nat (length userAssets))); [|lia].
      cbn [andb]. rewrite list_lookup_insert_eq by lia. cbn. lia.
    + destruct (decide (k ∈ Index <$> rest)) as [Hk|Hk].
      * rewrite decide_True by (rewrite fmap_cons; apply elem_of_cons; by right). lia.
      * rewrite decide_False.
        2:{ rewrite fmap_cons. intros Hc. apply elem_of_cons in Hc as [?|?];
              [congruence|contradiction]. }
        destruct ((0 <=? k) && (k <? 0 + Z.of_nat (length userAssets))) eqn:Er;
          [|lia].
        rewrite list_lookup_insert_ne; [lia|].
        apply andb_true_iff in Er as [E1 E2]. apply Z.leb_le in E1. lia.
Qed.

Lemma zero_slots_lookup (p : nat) (x : AccountAsset) :
  zero_slots !! p = Some x ->
  x = mkAccountAsset (Z.of_nat p) 0 0 0 0 0 /\ (p < 500)%nat.
Proof.
  unfold zero_slots, AssetCounts. rewrite list_lookup_fmap.
  destruct (seqZ 0 (Z.of_nat 500) !! p) as [z|] eqn:E; [|discriminate].
  apply lookup_seqZ in E as [-> Hp]. intros [= <-].
  split; [|lia]. rewrite Z.add_0_l. f_equal. unfold wrap. apply Z.mod_small. lia.
Qed.

Lemma positional_zero_slots : positional 0 zero_slots.
Proof. intros p x Hx. apply zero_slots_lookup in Hx as [-> _]. reflexivity. Qed.

Lemma length_zero_slots : length zero_slots = 500%nat.
Proof. unfold zero_slots, AssetCounts. rewrite length_fmap, length_seqZ. lia. Qed.

Lemma credited_zero_slots (f : AccountAsset -> Z) (k : Z) :
  f ∈ amount_fields -> credited f k zero_slots = 0.
Proof.
  intros Hf. rewrite (credited_positional f k _ 0 positional_zero_slots).
  destruct ((0 <=? k) && (k <? 0 + Z.of_nat (length zero_slots))); [|reflexivity].
  destruct (zero_slots !! Z.to_nat (k - 0)) as [x|] eqn:E; [|reflexivity].
  apply zero_slots_lookup in E as [-> _]. unfold amount_fields in Hf.
  repeat (apply elem_of_cons in Hf as [->|Hf]; [reflexivity|]).
  by apply not_elem_of_nil in Hf.
Qed.

Lemma spread_assets_elements (storeUserAssets : list AccountAsset) :
  forall (userAssets spread : list AccountAsset) (x : AccountAsset),
    spread_assets storeUserAssets userAssets = Some spread ->
    x ∈ spread -> x ∈ storeUserAssets \/ x ∈ userAssets.
Proof.
  induction storeUserAssets as [|a rest IH]; intros userAssets spread x Hs Hx.
  - injection Hs as <-. by right.
  - cbn [spread_assets] in Hs.
    destruct ((Index a <? 0) || (Z.of_nat (length userAssets) <=? Index a));
      [discriminate|].
    destruct (IH _ _ x Hs Hx) as [H|H].
    + left. by apply elem_of_cons; right.
    + apply list_elem_of_lookup in H as [i Hi].
      destruct (decide (i = Z.to_nat (Index a))) as [->|Hne].
      * destruct (decide (Z.to_nat (Index a) < length userAssets)%nat).
        -- rewrite list_lookup_insert_eq in Hi by lia. injection Hi as <-.
           left. apply elem_of_cons. by left.
        -- rewrite list_insert_ge in Hi by lia. right.
           by apply (list_elem_of_lookup_2 _ (Z.to_nat (Index a))).
      * rewrite list_lookup_insert_ne in Hi by congruence. right.
        by apply (list_elem_of_lookup_2 _ i).
Qed.

Lemma positional_in_range (userAssets : list AccountAsset) :
  positional 0 userAssets ->
  indices_in_range (length userAssets) userAssets = true.
Proof.
  intros Hp. unfold indices_in_range. apply forallb_forall. intros x Hx.
  apply list_elem_of_In, list_elem_of_lookup in Hx as [i Hi].
  pose proof (lookup_lt_Some _ _ _ Hi). rewrite (Hp i x Hi).
  apply andb_true_iff. split; [apply Z.leb_le|apply Z.ltb_lt]; lia.
Qed.

(** One user: the spread assets add the same amounts as the stored ones. *)
Lemma DecodeBatchWitness_assets_credited (storeUserAssets userAssets : list AccountAsset) :
  DecodeBatchWitness_assets storeUserAssets = Some userAssets ->
  NoDup (Index <$> storeUserAssets) ->
  forallb amounts_uint64 storeUserAssets = true ->
  length userAssets = 500%nat
  /\ indices_in_range 500 storeUserAssets = true
  /\ indices_in_range 500 userAssets = true
  /\ forallb amounts_uint64 userAssets = true
  /\ forall (f : AccountAsset -> Z) (k : Z),
       f ∈ amount_fields -> credited f k userAssets = credited f k storeUserAssets.
Proof.
  intros Hd Hnd Ha. unfold DecodeBatchWitness_assets in Hd.
  pose proof (spread_assets_credited Equity 0 _ _ _ Hd Hnd positional_zero_slots)
    as (Hlen & Hpos & Hin & _).
  rewrite length_zero_slots in Hlen, Hin.
  split; [exact Hlen|]. split; [exact Hin|]. split.
  { rewrite <- Hlen. by apply positional_in_range. }
  split.
  { apply forallb_forall. intros x Hx. apply list_elem_of_In in Hx.
    destruct (spread_assets_elements _ _ _ x Hd Hx) as [H|H].
    - rewrite forallb_forall in Ha. apply Ha. by apply list_elem_of_In.
    - apply list_elem_of_lookup in H as [p Hp].
      apply zero_slots_lookup in Hp as [-> _]. reflexivity. }
  intros f k Hf.
  destruct (spread_assets_credited f k _ _ _ Hd Hnd positional_zero_slots)
    as (_ & _ & _ & ->).
  rewrite (credited_zero_slots f k Hf). destruct (decide _); lia.
Qed.

Lemma indices_in_range_app (n : nat) (l1 l2 : list AccountAsset) :
  indices_in_range n (l1 ++ l2) = indices_in_range n l1 && indices_in_range n l2.
Proof. unfold indices_in_range. apply forallb_app. Qed.

(** A batch: the same holds for the assets of all its users together. *)
Lemma decoded_batch_credited (ops : list (list AccountAsset)) :
  forall decoded : list (list AccountAsset),
    mapM DecodeBatchWitness_assets ops = Some decoded ->
    Forall (fun s => NoDup (Index <$> s) /\ forallb amounts_uint64 s = true) ops ->
    indices_in_range 500 (concat ops) = true
    /\ indices_in_range 500 (concat decoded) = true
    /\ forallb amounts_uint64 (concat ops) = true
    /\ forallb amounts_uint64 (concat decoded) = true
    /\ forall (f : AccountAsset -> Z) (k : Z),
         f ∈ amount_fields ->
         credited f k (concat decoded) = credited f k (concat ops).
Proof.
  induction ops as [|s ops IH]; intros decoded Hm Hf.
  - injection Hm as <-. repeat split; reflexivity.
  - change (mapM DecodeBatchWitness_assets (s :: ops))
      with (y ← DecodeBatchWitness_assets s;
            k ← mapM DecodeBatchWitness_assets ops; Some (y :: k)) in Hm.
    destruct (DecodeBatchWitness_assets s) as [e|] eqn:Es; [|discriminate].
    cbn [mbind option_bind] in Hm.
    destruct (mapM DecodeBatchWitness_assets ops) as [es|] eqn:Em; [|discriminate].
    injection Hm as <-. inversion Hf as [|? ? [Hnd Ha] Hf']; subst.
    destruct (DecodeBatchWitness_assets_credited s e Es Hnd Ha)
      as (_ & I1 & I2 & A2 & Hc).
    destruct (IH es eq_refl Hf') as (J1 & J2 & B1 & B2 & Hcs).
    cbn [concat]. rewrite !indices_in_range_app, !forallb_app, I1, I2, J1, J2, Ha, A2, B1, B2.
    repeat split; try reflexivity.
    intros f k Hfk. rewrite !credited_app, (Hc f k Hfk), (Hcs f k Hfk). reflexivity.
Qed.

Lemma totals_after_credited (cexAssets : list CexAssetInfo) (l1 l2 : list AccountAsset) :
  (forall (f : AccountAsset -> Z) (k : Z),
      f ∈ amount_fields -> credited f k l1 = credited f k l2) ->
  totals_after cexAssets l1 = totals_after cexAssets l2.
Proof.
  intros H. unfold totals_after. apply list_eq. intros i. rewrite !list_lookup_imap.
  destruct (cexAssets !! i); [|reflexivity]. simpl. f_equal. unfold record_after.
  rewrite !(H Equity), !(H Debt), !(H Loan), !(H Margin), !(H PortfolioMargin);
    try reflexivity; unfold amount_fields;
    repeat (first [apply list_elem_of_here | apply list_elem_of_further]).
Qed.

Section RecoverProperties.

Variable PoseidonBytes : list bytes -> bytes.

(** X17: recovery replays the batch: on the before-state of a batch, the
    assets [DecodeBatchWitness] spreads over 500 slots and the after
    commitment the witness service stored, [RecoverAfterCexAssets]
    returns the totals the service had after the batch. *)
Theorem recovery_replays_batch (BeforeCexAssets after : list CexAssetInfo)
    (ops decoded : list (list AccountAsset)) (hasher : list bytes) :
  length BeforeCexAssets = 500%nat ->
  forallb totals_uint64 BeforeCexAssets = true ->
  Forall (fun s => NoDup (Index <$> s) /\ forallb amounts_uint64 s = true) ops ->
  mapM DecodeBatchWitness_assets ops = Some decoded ->
  add_accounts BeforeCexAssets ops = Some after ->
  write_cex_assets after NewPoseidon = Some hasher ->
  add_accounts BeforeCexAssets decoded = Some after
  /\ RecoverAfterCexAssets PoseidonBytes BeforeCexAssets decoded
       (Sum PoseidonBytes hasher) = Some after.
Proof.
  intros Hlen Hc Hf Hm Hadd Hw.
  destruct (decoded_batch_credited ops decoded Hm Hf) as (I1 & I2 & A1 & A2 & Hcr).
  assert (Hd : add_accounts BeforeCexAssets decoded = Some after).
  { rewrite <- Hadd, !add_accounts_concat.
    rewrite !add_assets_closed_form by assumption.
    rewrite Hlen, I1, I2, (totals_after_credited _ _ _ Hcr). reflexivity. }
  split; [exact Hd|].
  unfold RecoverAfterCexAssets. rewrite Hd. cbn [mbind option_bind].
  rewrite Hw. cbn [mbind option_bind]. rewrite String.eqb_refl. reflexivity.
Qed.

End RecoverProperties.

Lemma sample_user_assets_distinct :
  Forall (fun s => NoDup (Index <$> s) /\ forallb amounts_uint64 s = true)
    [sample_user_assets].
Proof.
  constructor; [|constructor]. split; [|reflexivity].
  apply (bool_decide_unpack _). vm_compute. exact I.
Qed.

Lemma recovery_replays_batch_witness :
  exists (after : list CexAssetInfo) (decoded : list (list AccountAsset)) (c : bytes),
    mapM DecodeBatchWitness_assets [sample_user_assets] = Some decoded
    /\ add_accounts sample_before [sample_user_assets] = Some after
    /\ RecoverAfterCexAssets sample_hash sample_before decoded c = Some after.
Proof.
  eexists _, _, _. split; [vm_compute; reflexivity|].
  split; [vm_compute; reflexivity|].
  refine (proj2 (recovery_replays_batch sample_hash sample_before _
                   [sample_user_assets] _ _ _ _ sample_user_assets_distinct _ _ _)).
  - vm_compute. reflexivity.
  - vm_compute. reflexivity.
  - vm_compute. reflexivity.
  - vm_compute. reflexivity.
  - vm_compute. reflexivity.
Defined.

(** ** Padding accounts to whole batches *)

Lemma BatchCreateUserOpsCountsTiers_lookup (assetKey : Z) :
  BatchCreateUserOpsCountsTiers !! assetKey
  = if decide (assetKey = 500) then Some 92
    else if decide (assetKey = 50) then Some 700 else None.
Proof.
  unfold BatchCreateUserOpsCountsTiers.
  destruct (decide (assetKey = 500)) as [->|H500].
  - by rewrite lookup_insert_eq.
  - rewrite lookup_insert_ne by congruence.
    destruct (decide (assetKey = 50)) as [->|H50].
    + by rewrite lookup_insert_eq.
    + rewrite lookup_insert_ne by congruence. apply lookup_empty.
Qed.

Lemma padding_account_tier (assetKey idx : Z) :
  assetKey = 50 \/ assetKey = 500 ->
  GetAssetsCountOfUser (Assets (padding_account assetKey idx)) = assetKey.
Proof.
  intros Hk. unfold GetAssetsCountOfUser, padding_account. cbn [Assets].
  rewrite length_fmap, length_seqZ. unfold AssetCountsTiers. cbn [first_tier_fitting].
  destruct Hk as [-> | ->]; reflexivity.
Qed.

(** X18: [PaddingAccounts] panics exactly for a key that is neither 50 nor
    500.  Otherwise it keeps the accounts, appends fewer than a batch of
    empty accounts with consecutive indices from [paddingStartIndex], so
    that the tier fills the batches [GetBatchNumber] counted for it, and
    every appended account belongs to the tier of the key. *)
Theorem PaddingAccounts_whole_batches (accounts : list AccountInfo)
    (assetKey paddingStartIndex : Z) :
  match PaddingAccounts accounts assetKey paddingStartIndex with
  | None => BatchCreateUserOpsCountsTiers !! assetKey = None
  | Some (next, padded) =>
      exists opsPerBatch n : Z,
        BatchCreateUserOpsCountsTiers !! assetKey = Some opsPerBatch
        /\ 0 <= n < opsPerBatch
        /\ next = paddingStartIndex + n
        /\ padded = accounts ++ (padding_account assetKey <$> seqZ paddingStartIndex n)
        /\ Z.of_nat (length padded) = batches_of accounts opsPerBatch * opsPerBatch
        /\ batches_of padded opsPerBatch = batches_of accounts opsPerBatch
        /\ forall i, paddingStartIndex <= i < next ->
                     GetAssetsCountOfUser (Assets (padding_account assetKey i)) = assetKey
  end.
Proof.
  unfold PaddingAccounts. rewrite BatchCreateUserOpsCountsTiers_lookup.
  assert (Hgen : forall ops : Z, 0 < ops -> assetKey = 50 \/ assetKey = 500 ->
            let q := Z.quot (Z.of_nat (length accounts) + ops - 1) ops in
            let n := q * ops - Z.of_nat (length accounts) in
            0 <= n < ops
            /\ Z.of_nat (length (accounts ++ (padding_account assetKey
                                               <$> seqZ paddingStartIndex n)))
               = batches_of accounts ops * ops
            /\ batches_of (accounts ++ (padding_account assetKey
                                          <$> seqZ paddingStartIndex n)) ops
               = batches_of accounts ops).
  { intros ops Hops Hk q n. unfold batches_of. fold q.
    assert (Hq : q = (Z.of_nat (length accounts) + ops - 1) / ops)
      by (apply Z.quot_div_nonneg; lia).
    pose proof (Z.div_mod (Z.of_nat (length accounts) + ops - 1) ops ltac:(lia)) as Hdm.
    pose proof (Z.mod_pos_bound (Z.of_nat (length accounts) + ops - 1) ops Hops) as Hm.
    rewrite <- Hq in Hdm.
    assert (Hn : 0 <= n < ops) by (unfold n; nia).
    split; [exact Hn|].
    rewrite length_app, length_fmap, length_seqZ.
    assert (Hlen : Z.of_nat (length accounts + Z.to_nat n) = q * ops) by (unfold n in *; lia).
    split; [exact Hlen|]. rewrite Hlen.
    rewrite Z.quot_div_nonneg by nia.
    symmetry. apply (Z.div_unique _ _ q (ops - 1)); [lia|nia]. }
  destruct (decide (assetKey = 500)) as [->|H500];
    [|destruct (decide (assetKey = 50)) as [->|H50]]; cbn [default from_option id Z.eqb].
  3:{ reflexivity. }
  - destruct (Hgen 92 ltac:(lia) ltac:(by right)) as (Hn & Hlen & Hb).
    change (92 =? 0) with false. cbv iota.
    eexists 92, _. split; [reflexivity|]. split; [exact Hn|].
    split; [reflexivity|]. split; [reflexivity|]. split; [exact Hlen|].
    split; [exact Hb|]. intros i _. apply padding_account_tier. by right.
  - destruct (Hgen 700 ltac:(lia) ltac:(by left)) as (Hn & Hlen & Hb).
    change (700 =? 0) with false. cbv iota.
    eexists 700, _. split; [reflexivity|]. split; [exact Hn|].
    split; [reflexivity|]. split; [reflexivity|]. split; [exact Hlen|].
    split; [exact Hb|]. intros i _. apply padding_account_tier. by left.
Qed.

(** ** The accounts the reader accepts *)

Lemma sumZ_le (l1 l2 : list Z) :
  Forall2 Z.le l1 l2 -> sumZ l1 <= sumZ l2.
Proof. induction 1 as [|x y l1 l2 Hxy _ IH]; simpl; lia. Qed.

Lemma sumZ_nonneg (l : list Z) : Forall (fun x => 0 <= x) l -> 0 <= sumZ l.
Proof. induction 1 as [|x l Hx _ IH]; simpl; lia. Qed.

Section AcceptedAccounts.

Variable NewFromString : string -> option (Z * Z).

(** What a row holds of asset [j]. *)
Lemma view_asset_Held (row : list string) (cexAssetsInfo : list CexAssetInfo) (j : Z)
    (a : AccountAsset) (cex : CexAssetInfo) :
  view_asset NewFromString row cexAssetsInfo j = Held a cex ->
  cexAssetsInfo !! Z.to_nat j = Some cex
  /\ Index a = wrap 16 j
  /\ asset_held a = true.
Proof.
  unfold view_asset.
  destruct (cexAssetsInfo !! Z.to_nat j) as [c|]; [|discriminate].
  destruct (amount_at NewFromString row (j * 6 + 2) _) as [equity|] eqn:E1; [|discriminate].
  destruct (amount_at NewFromString row (j * 6 + 3) _) as [debt|] eqn:E2; [|discriminate].
  destruct (amount_at NewFromString row (j * 6 + 5) _) as [loan|] eqn:E3; [|discriminate].
  destruct (amount_at NewFromString row (j * 6 + 6) _) as [margin|] eqn:E4; [|discriminate].
  destruct (amount_at NewFromString row (j * 6 + 7) _) as [pm|] eqn:E5; [|discriminate].
  apply amount_at_range in E1, E2, E3, E4, E5.
  destruct (negb (equity =? 0) || negb (debt =? 0)) eqn:Eh; [|discriminate].
  destruct (Z.ltb_spec equity (loan + margin + pm)); [discriminate|].
  intros [= <- <-]. split; [reflexivity|]. split; [reflexivity|].
  unfold asset_held, amounts_uint64, IsUint64.
  cbn [forallb Equity Debt Loan Margin PortfolioMargin]. rewrite Eh.
  rewrite !andb_true_iff, !Z.leb_le, !Z.ltb_lt. lia.
Qed.

Lemma asset_held_bounds (a : AccountAsset) :
  asset_held a = true ->
  0 <= Equity a /\ 0 <= Debt a /\ 0 <= Loan a /\ 0 <= Margin a /\ 0 <= PortfolioMargin a
  /\ Loan a + Margin a + PortfolioMargin a <= Equity a.
Proof.
  unfold asset_held. rewrite !andb_true_iff. intros [[Ha _] Hc].
  apply amounts_uint64_bounds in Ha. apply Z.leb_le in Hc. lia.
Qed.

Lemma haircut_config_lookup (cexAssetsInfo : list CexAssetInfo) (i : nat)
    (cex : CexAssetInfo) :
  haircut_config cexAssetsInfo = true -> cexAssetsInfo !! i = Some cex ->
  haircut_tables cex = true /\ 0 <= BasePrice cex.
Proof.
  unfold haircut_config. rewrite forallb_forall. intros H Hc.
  specialize (H cex). rewrite andb_true_iff, Z.leb_le in H. apply H.
  apply list_elem_of_In. by apply (list_elem_of_lookup_2 _ i).
Qed.

(** One view: debt and collateral are not negative and the collateral is
    within the equity. *)
Lemma view_values (row : list string) (cexAssetsInfo : list CexAssetInfo) (j : Z) :
  haircut_config cexAssetsInfo = true ->
  let v := view_asset NewFromString row cexAssetsInfo j in
  0 <= view_debt v /\ 0 <= view_collateral v <= view_equity v.
Proof.
  intros Hh v. destruct v as [| | |a cex] eqn:Ev; cbn; try lia.
  apply view_asset_Held in Ev as (Hc & _ & Ha).
  apply asset_held_bounds in Ha as (A1 & A2 & A3 & A4 & A5 & A6).
  destruct (haircut_config_lookup _ _ _ Hh Hc) as [Ht Hp].
  pose proof (collateral_bounds (Loan a) (Margin a) (PortfolioMargin a) cex
                Ht A3 A4 A5 Hp).
  nia.
Qed.

Lemma row_account_solvent (row : list string) (cexAssetsInfo : list CexAssetInfo)
    (assetCounts idx : Z) :
  haircut_config cexAssetsInfo = true ->
  row_invalid NewFromString row cexAssetsInfo assetCounts = false ->
  let a := row_account NewFromString row cexAssetsInfo assetCounts idx in
  0 <= AcctTotalDebt a <= AcctTotalCollateral a
  /\ AcctTotalCollateral a <= AcctTotalEquity a.
Proof.
  intros Hh Hv a. unfold row_invalid in Hv. apply orb_false_iff in Hv as [_ Hv].
  apply Z.ltb_ge in Hv. unfold a, row_account.
  cbn [AcctTotalDebt AcctTotalCollateral AcctTotalEquity].
  set (views := row_views NewFromString row cexAssetsInfo assetCounts) in *.
  assert (Hall : Forall (fun v => 0 <= view_debt v
                                  /\ 0 <= view_collateral v <= view_equity v) views).
  { unfold views, row_views. apply list.Forall_forall. intros v Hin.
    apply list_elem_of_fmap in Hin as (j & -> & _). by apply view_values. }
  split; [split; [|exact Hv]|].
  - apply sumZ_nonneg. apply Forall_fmap. eapply list.Forall_impl; [exact Hall|].
    simpl. lia.
  - apply sumZ_le. apply Forall2_fmap. apply Forall_Forall2_diag.
    eapply list.Forall_impl; [exact Hall|]. simpl. lia.
Qed.

(** X19: with consistent tables, ratios of at most 100 and prices that are
    not negative, every account the reader accepts has
    [0 <= TotalDebt <= TotalCollateral <= TotalEquity]. *)
Theorem accepted_accounts_are_solvent (header : list string) (rows : list (list string))
    (cexAssetsInfo : list CexAssetInfo) (accounts : gmap Z (list AccountInfo))
    (invalidCounts : Z) (t : Z) (a : AccountInfo) :
  haircut_config cexAssetsInfo = true ->
  ReadUserDataFromCsvFile NewFromString (header :: rows) cexAssetsInfo
  = Ok (accounts, invalidCounts) ->
  a ∈ default [] (accounts !! t) ->
  0 <= AcctTotalDebt a <= AcctTotalCollateral a
  /\ AcctTotalCollateral a <= AcctTotalEquity a.
Proof.
  intros Hh Hr Ha.
  destruct (ReadUserDataFromCsvFile_rows NewFromString _ _ _ _ _ Hr) as [_ Hacc].
  rewrite Hacc in Ha. apply list_elem_of_filter in Ha as [_ Ha].
  apply rows_results_accepted in Ha as (row & idx & _ & Hv & ->).
  by apply row_account_solvent.
Qed.

End AcceptedAccounts.

Lemma accepted_accounts_are_solvent_witness :
  exists (accounts : gmap Z (list AccountInfo)) (n : Z) (a : AccountInfo),
    ReadUserDataFromCsvFile plain_decimal sample_file sample_cex = Ok (accounts, n)
    /\ a ∈ default [] (accounts !! 50)
    /\ 0 <= AcctTotalDebt a <= AcctTotalCollateral a
    /\ AcctTotalCollateral a <= AcctTotalEquity a.
Proof.
  destruct (is_Ok_inv _ sample_file_read) as [[accounts n] E].
  pose proof (ReadUserDataFromCsvFile_rows _ _ _ _ _ _ E) as [_ Hg].
  specialize (Hg 50). cbv zeta in Hg.
  exists accounts, n,
    (row_account plain_decimal (sample_row sample_id "2.5" "0.0" "0.0") sample_cex 1 0).
  assert (Hin : row_account plain_decimal (sample_row sample_id "2.5" "0.0" "0.0")
                  sample_cex 1 0 ∈ default [] (accounts !! 50)).
  { rewrite Hg. vm_compute. apply list_elem_of_here. }
  split; [exact E|]. split; [exact Hin|].
  exact (accepted_accounts_are_solvent plain_decimal sample_header _ sample_cex
           accounts n 50 _ eq_refl E Hin).
Defined.

(** *** The assets of an accepted account *)

Lemma ascending_indices_from_weaken (l : list AccountAsset) (p p' : Z) :
  p' <= p -> ascending_indices_from p l = true -> ascending_indices_from p' l = true.
Proof.
  destruct l as [|a l]; [reflexivity|]. simpl. intros Hp H.
  apply andb_true_iff in H as [H1 H2]. apply andb_true_iff. split; [|exact H2].
  apply Z.ltb_lt. apply Z.ltb_lt in H1. lia.
Qed.

Section AcceptedAssets.

Variable NewFromString : string -> option (Z * Z).

(** The assets a row holds among the assets [s .. s+n-1]: held, strictly
    ascending from [s], and below the number of configured assets. *)
Lemma held_assets (row : list string) (cexAssetsInfo : list CexAssetInfo) :
  (length cexAssetsInfo <= 500)%nat ->
  forall (n : nat) (s : Z),
    0 <= s ->
    let l := (view_asset NewFromString row cexAssetsInfo <$> seqZ s (Z.of_nat n))
               ≫= view_assets in
    Forall (fun a => asset_held a = true
                     /\ s <= Index a < Z.of_nat (length cexAssetsInfo)) l
    /\ ascending_indices_from (s - 1) l = true.
Proof.
  intros Hlen. induction n as [|n IH]; intros s Hs l.
  - unfold l. simpl. split; [constructor|reflexivity].
  - unfold l. rewrite Nat2Z.inj_succ, seqZ_cons by lia.
    rewrite fmap_cons, bind_cons.
    replace (Z.pred (Z.succ (Z.of_nat n))) with (Z.of_nat n) by lia.
    destruct (IH (Z.succ s) ltac:(lia)) as [Hf Ha]. cbv zeta in Hf, Ha.
    replace (Z.succ s - 1) with s in Ha by lia.
    assert (Hf' : Forall (fun a => asset_held a = true
                                   /\ s <= Index a < Z.of_nat (length cexAssetsInfo))
                    ((view_asset NewFromString row cexAssetsInfo
                        <$> seqZ (Z.succ s) (Z.of_nat n)) ≫= view_assets)).
    { eapply list.Forall_impl; [exact Hf|]. intros x [? ?]. split; [assumption|lia]. }
    destruct (view_asset NewFromString row cexAssetsInfo s) as [| | |a cex] eqn:Ev;
      cbn [view_assets app].
    1-3: (split; [exact Hf'|];
          apply (ascending_indices_from_weaken _ s); [lia|exact Ha]).
    apply view_asset_Held in Ev as (Hc & Hi & Hh).
    pose proof (lookup_lt_Some _ _ _ Hc) as Hlt.
    assert (Hidx : Index a = s).
    { rewrite Hi. unfold wrap. apply Z.mod_small. lia. }
    split.
    + constructor; [|exact Hf']. split; [exact Hh|lia].
    + cbn [ascending_indices_from]. rewrite Hidx. apply andb_true_iff.
      split; [apply Z.ltb_lt; lia|exact Ha].
Qed.

Lemma ascending_length (l : list AccountAsset) :
  forall p hi : Z,
    ascending_indices_from p l = true ->
    Forall (fun a => Index a < hi) l ->
    Z.of_nat (length l) <= Z.max 0 (hi - p - 1).
Proof.
  induction l as [|a l IH]; intros p hi Ha Hf; [simpl; lia|].
  simpl in Ha. apply andb_true_iff in Ha as [H1 H2]. apply Z.ltb_lt in H1.
  inversion Hf as [|? ? Hx Hf']; subst.
  specialize (IH (Index a) hi H2 Hf'). cbn [length]. lia.
Qed.

Lemma row_account_assets (row : list string) (cexAssetsInfo : list CexAssetInfo)
    (assetCounts idx : Z) :
  (length cexAssetsInfo <= 500)%nat ->
  let a := row_account NewFromString row cexAssetsInfo assetCounts idx in
  Forall (fun x => asset_held x = true) (Assets a)
  /\ ascending_indices (Assets a) = true
  /\ uint16_indices (Assets a) = true
  /\ (length (Assets a) <= length cexAssetsInfo)%nat.
Proof.
  intros Hlen a. unfold a, row_account, row_views. cbn [Assets].
  rewrite <- (seqZ_to_nat assetCounts).
  destruct (held_assets row cexAssetsInfo Hlen (Z.to_nat assetCounts) 0 ltac:(lia))
    as [Hf Ha]. cbv zeta in Hf, Ha.
  split; [eapply list.Forall_impl; [exact Hf|]; simpl; tauto|].
  split; [exact Ha|]. split.
  - unfold uint16_indices. apply forallb_forall. intros x Hx.
    apply list_elem_of_In in Hx.
    pose proof (proj1 (list.Forall_forall _ _) Hf x Hx) as [_ Hr].
    apply Z.ltb_lt. lia.
  - pose proof (ascending_length _ (-1) (Z.of_nat (length cexAssetsInfo)) Ha
                  ltac:(eapply list.Forall_impl; [exact Hf|]; intros x [_ ?]; lia)).
    lia.
Qed.

Lemma tier_of_GetAssetsCountOfUser (a : AccountInfo) (t : Z) :
  (length (Assets a) <= 500)%nat ->
  tier_of a = Some t -> t = GetAssetsCountOfUser (Assets a).
Proof.
  intros Hlen. unfold tier_of, GetAssetsCountOfUser, AssetCountsTiers.
  cbn [list_find first_tier_fitting].
  destruct (decide (Z.of_nat (length (Assets a)) <= 50)) as [H50|H50].
  - destruct (Z.leb_spec (Z.of_nat (length (Assets a))) 50); [|lia].
    cbn. by intros [= <-].
  - destruct (Z.leb_spec (Z.of_nat (length (Assets a))) 50); [lia|].
    destruct (decide (Z.of_nat (length (Assets a)) <= 500)) as [H500|H500]; [|lia].
    destruct (Z.leb_spec (Z.of_nat (length (Assets a))) 500); [|lia].
    cbn. by intros [= <-].
Qed.

Variable PoseidonBytes : list bytes -> bytes.

(** X20: an accepted account can be committed: its assets are held assets
    with strictly ascending indices below the number of configured
    assets, it is filed under the tier its commitment uses, and
    [AccountInfoToHash] does not panic on it. *)
Theorem accepted_accounts_can_be_committed (header : list string)
    (rows : list (list string)) (cexAssetsInfo : list CexAssetInfo)
    (accounts : gmap Z (list AccountInfo)) (invalidCounts : Z) (t : Z) (a : AccountInfo) :
  (length cexAssetsInfo <= 500)%nat ->
  ReadUserDataFromCsvFile NewFromString (header :: rows) cexAssetsInfo
  = Ok (accounts, invalidCounts) ->
  a ∈ default [] (accounts !! t) ->
  Forall (fun x => asset_held x = true) (Assets a)
  /\ ascending_indices (Assets a) = true
  /\ (length (Assets a) <= length cexAssetsInfo)%nat
  /\ t = GetAssetsCountOfUser (Assets a)
  /\ is_Some (AccountInfoToHash PoseidonBytes a).
Proof.
  intros Hlen Hr Ha.
  destruct (ReadUserDataFromCsvFile_rows NewFromString _ _ _ _ _ Hr) as [_ Hacc].
  rewrite Hacc in Ha. apply list_elem_of_filter in Ha as [Ht Ha].
  apply rows_results_accepted in Ha as (row & idx & _ & Hv & ->).
  destruct (row_account_assets row cexAssetsInfo
              (Z.quot (Z.of_nat (length header) - 3) 6) idx Hlen)
    as (Hh & Hasc & H16 & Hl).
  split; [exact Hh|]. split; [exact Hasc|]. split; [exact Hl|]. split.
  - apply tier_of_GetAssetsCountOfUser; [lia|exact Ht].
  - unfold AccountInfoToHash, ComputeUserAssetsCommitment.
    rewrite (user_assets_chunks_expand _ Hasc H16) by lia.
    cbn [mbind option_bind]. eexists. reflexivity.
Qed.

End AcceptedAssets.

Lemma accepted_accounts_can_be_committed_witness :
  exists (accounts : gmap Z (list AccountInfo)) (n : Z) (a : AccountInfo),
    ReadUserDataFromCsvFile plain_decimal sample_file sample_cex = Ok (accounts, n)
    /\ a ∈ default [] (accounts !! 50)
    /\ 50 = GetAssetsCountOfUser (Assets a)
    /\ is_Some (AccountInfoToHash sample_hash a).
Proof.
  destruct (is_Ok_inv _ sample_file_read) as [[accounts n] E].
  pose proof (ReadUserDataFromCsvFile_rows _ _ _ _ _ _ E) as [_ Hg].
  specialize (Hg 50). cbv zeta in Hg.
  exists accounts, n,
    (row_account plain_decimal (sample_row sample_id "2.5" "0.0" "0.0") sample_cex 1 0).
  assert (Hin : row_account plain_decimal (sample_row sample_id "2.5" "0.0" "0.0")
                  sample_cex 1 0 ∈ default [] (accounts !! 50)).
  { rewrite Hg. vm_compute. apply list_elem_of_here. }
  split; [exact E|]. split; [exact Hin|].
  destruct (accepted_accounts_can_be_committed plain_decimal sample_hash sample_header _
              sample_cex accounts n 50 _ ltac:(simpl; lia) E Hin) as (_ & _ & _ & Ht & Hh).
  split; [exact Ht|exact Hh].
Defined.

(** ** Padding the assets of a user never leaves the array *)

Lemma store_in_range (arr : list Z) (i v : Z) :
  0 <= i < Z.of_nat (length arr) ->
  exists arr', store arr i v = Some arr' /\ length arr' = length arr.
Proof.
  intros Hi. unfold store.
  destruct (Z.leb_spec 0 i); [|lia].
  destruct (Z.ltb_spec i (Z.of_nat (length arr))); [|lia].
  eexists. split; [reflexivity|]. apply length_insert.
Qed.

Lemma pad_gap_in_range (T pc : Z) :
  forall (fuel : nat) (j : Z) (st : pad_state),
    Z.of_nat (length (paddingFlattenAssets st)) = 6 * T ->
    0 <= currentPaddingCounts st < pc ->
    0 <= index st ->
    index st + (pc - currentPaddingCounts st) <= T ->
    exists st',
      pad_gap fuel j pc st = Some st'
      /\ Z.of_nat (length (paddingFlattenAssets st')) = 6 * T
      /\ currentPaddingCounts st <= currentPaddingCounts st' <= pc
      /\ index st' - currentPaddingCounts st' = index st - currentPaddingCounts st
      /\ currentAssetIndex st' = currentAssetIndex st.
Proof.
  induction fuel as [|fuel IH]; intros j st Hlen Hc Hi Hb.
  - exists st. split; [reflexivity|]. repeat split; lia.
  - cbn [pad_gap]. unfold numOfAssetsFields.
    destruct (store_in_range (paddingFlattenAssets st) (index st * 6) (wrap 64 j)
                ltac:(lia)) as (arr & -> & Harr).
    cbn [mbind option_bind].
    destruct (Z.geb_spec (currentPaddingCounts st + 1) pc) as [Hge|Hlt].
    + eexists. split; [reflexivity|]. cbn. repeat split; lia.
    + destruct (IH (j + 1)
                  (mkPadState arr (currentPaddingCounts st + 1) (currentAssetIndex st)
                     (index st + 1)))
        as (st' & E & H1 & H2 & H3 & H4); cbn; try lia.
      exists st'. split; [exact E|]. cbn in H2, H3, H4. repeat split; lia.
Qed.

Lemma store_asset_in_range (arr : list Z) (index : Z) (a : AccountAsset) :
  0 <= index -> index * 6 + 5 < Z.of_nat (length arr) ->
  exists arr', store_asset arr index a = Some arr' /\ length arr' = length arr.
Proof.
  intros H0 Hi. unfold store_asset, numOfAssetsFields.
  destruct (store_in_range arr (index * 6) (wrap 64 (Index a)) ltac:(lia))
    as (a0 & -> & L0). cbn [mbind option_bind].
  destruct (store_in_range a0 (index * 6 + 1) (Equity a) ltac:(lia))
    as (a1 & -> & L1). cbn [mbind option_bind].
  destruct (store_in_range a1 (index * 6 + 2) (Debt a) ltac:(lia))
    as (a2 & -> & L2). cbn [mbind option_bind].
  destruct (store_in_range a2 (index * 6 + 3) (Loan a) ltac:(lia))
    as (a3 & -> & L3). cbn [mbind option_bind].
  destruct (store_in_range a3 (index * 6 + 4) (Margin a) ltac:(lia))
    as (a4 & -> & L4). cbn [mbind option_bind].
  destruct (store_in_range a4 (index * 6 + 5) (PortfolioMargin a) ltac:(lia))
    as (a5 & -> & L5).
  exists a5. split; [reflexivity|]. lia.
Qed.

Lemma pad_assets_in_range (T pc : Z) :
  forall (assets : list AccountAsset) (st : pad_state),
    Z.of_nat (length (paddingFlattenAssets st)) = 6 * T ->
    0 <= currentPaddingCounts st <= pc ->
    0 <= index st ->
    index st - currentPaddingCounts st + Z.of_nat (length assets) + pc <= T ->
    exists st',
      pad_assets assets pc st = Some st'
      /\ Z.of_nat (length (paddingFlattenAssets st')) = 6 * T
      /\ 0 <= index st' <= T.
Proof.
  induction assets as [|a rest IH]; intros st Hlen Hc Hi Hb.
  - exists st. split; [reflexivity|]. cbn [length] in Hb. split; [exact Hlen|]. lia.
  - cbn [pad_assets]. cbn [length] in Hb.
    assert (Hgap : exists st1,
               (if currentPaddingCounts st <? pc
                then pad_gap (Z.to_nat (Index a - currentAssetIndex st))
                       (currentAssetIndex st) pc st
                else Some st) = Some st1
               /\ Z.of_nat (length (paddingFlattenAssets st1)) = 6 * T
               /\ 0 <= currentPaddingCounts st1 <= pc
               /\ index st1 - currentPaddingCounts st1
                  = index st - currentPaddingCounts st
               /\ 0 <= index st1).
    { destruct (Z.ltb_spec (currentPaddingCounts st) pc).
      - destruct (pad_gap_in_range T pc (Z.to_nat (Index a - currentAssetIndex st))
                    (currentAssetIndex st) st Hlen ltac:(lia) Hi ltac:(lia))
          as (st1 & E & H1 & H2 & H3 & _).
        exists st1. split; [exact E|]. repeat split; lia.
      - exists st. split; [reflexivity|]. repeat split; lia. }
    destruct Hgap as (st1 & -> & L1 & C1 & D1 & I1). cbn [mbind option_bind].
    destruct (store_asset_in_range (paddingFlattenAssets st1) (index st1) a I1
                ltac:(lia)) as (arr & -> & Larr).
    cbn [mbind option_bind].
    destruct (IH (mkPadState arr (currentPaddingCounts st1) (Index a + 1)
                    (index st1 + 1))) as (st' & E & H1 & H2); cbn; try lia.
    exists st'. split; [exact E|]. split; [exact H1|]. lia.
Qed.

Lemma pad_tail_in_range (T : Z) :
  forall (fuel : nat) (i cur : Z) (arr : list Z),
    Z.of_nat (length arr) = 6 * T -> 0 <= i -> i + Z.of_nat fuel <= T ->
    exists arr', pad_tail fuel i cur arr = Some arr'
                 /\ Z.of_nat (length arr') = 6 * T.
Proof.
  induction fuel as [|fuel IH]; intros i cur arr Hlen Hi Hb.
  - exists arr. split; [reflexivity|exact Hlen].
  - cbn [pad_tail]. unfold numOfAssetsFields.
    destruct (store_in_range arr (i * 6) (wrap 64 cur) ltac:(lia)) as (arr1 & -> & L1).
    cbn [mbind option_bind]. apply IH; lia.
Qed.

(** X21: [PaddingAccountAssets] never writes outside its array, whatever
    the order of the indices: it panics exactly for more than 500 assets,
    and otherwise returns six fields for every slot of the user's tier. *)
Theorem PaddingAccountAssets_never_out_of_range (assets : list AccountAsset) :
  match PaddingAccountAssets assets with
  | Some paddingFlattenAssets =>
      (length assets <= 500)%nat
      /\ Z.of_nat (length paddingFlattenAssets) = 6 * GetAssetsCountOfUser assets
  | None => (500 < length assets)%nat
  end.
Proof.
  unfold PaddingAccountAssets.
  assert (Ht : (length assets <= 50)%nat /\ GetAssetsCountOfUser assets = 50
               \/ (50 < length assets <= 500)%nat /\ GetAssetsCountOfUser assets = 500
               \/ (500 < length assets)%nat /\ GetAssetsCountOfUser assets = 0).
  { unfold GetAssetsCountOfUser, AssetCountsTiers. cbn [first_tier_fitting].
    destruct (Z.leb_spec (Z.of_nat (length assets)) 50); [left; lia|].
    destruct (Z.leb_spec (Z.of_nat (length assets)) 500); [right; left; lia|].
    right; right; lia. }
  remember (GetAssetsCountOfUser assets) as T eqn:ET. clear ET.
  destruct (Z.ltb_spec T (Z.of_nat (length assets))) as [Hlt|Hge]; [lia|].
  assert (Hlen : (length assets <= 500)%nat) by lia.
  assert (HT : 0 <= T) by lia.
  destruct (pad_assets_in_range T (T - Z.of_nat (length assets)) assets
              (mkPadState (replicate (Z.to_nat (T * numOfAssetsFields)) 0) 0 0 0))
    as (st & -> & L & I); cbn; try lia.
  { rewrite length_replicate. unfold numOfAssetsFields. lia. }
  cbn [mbind option_bind].
  destruct (pad_tail_in_range T (Z.to_nat (T - index st)) (index st)
              (currentAssetIndex st) (paddingFlattenAssets st) L ltac:(lia) ltac:(lia))
    as (arr & -> & Larr).
  split; [exact Hlen|exact Larr].
Qed.

(** ** The tier of a decoded witness *)

Lemma count_non_empty_acc (assets : list AccountAsset) :
  forall count : Z, count_non_empty assets count = count + count_non_empty assets 0.
Proof.
  induction assets as [|v rest IH]; intros count; cbn [count_non_empty]; [lia|].
  rewrite (IH (if negb (IsAssetEmpty v) then count + 1 else count)),
    (IH (if negb (IsAssetEmpty v) then 0 + 1 else 0)).
  destruct (IsAssetEmpty v); cbn [negb]; lia.
Qed.

Lemma count_non_empty_cons (v : AccountAsset) (rest : list AccountAsset) :
  count_non_empty (v :: rest) 0
  = (if IsAssetEmpty v then 0 else 1) + count_non_empty rest 0.
Proof.
  cbn [count_non_empty]. rewrite count_non_empty_acc.
  destruct (IsAssetEmpty v); reflexivity.
Qed.

Lemma count_non_empty_insert (a : AccountAsset) :
  forall (userAssets : list AccountAsset) (i : nat) (x : AccountAsset),
    userAssets !! i = Some x ->
    count_non_empty (<[i := a]> userAssets) 0
    = count_non_empty userAssets 0
      - (if IsAssetEmpty x then 0 else 1) + (if IsAssetEmpty a then 0 else 1).
Proof.
  induction userAssets as [|y l IH]; intros i x Hi; [discriminate|].
  destruct i as [|i]; cbn [lookup list_lookup] in Hi.
  - injection Hi as ->. change (<[0%nat := a]> (x :: l)) with (a :: l).
    rewrite !count_non_empty_cons. lia.
  - change (<[S i := a]> (y :: l)) with (y :: <[i := a]> l).
    rewrite !count_non_empty_cons, (IH i x Hi). lia.
Qed.

Lemma asset_held_non_empty (a : AccountAsset) :
  asset_held a = true -> IsAssetEmpty a = false.
Proof.
  unfold asset_held, IsAssetEmpty. rewrite !andb_true_iff, orb_true_iff.
  intros [[_ [H|H]] _].
  - apply negb_true_iff in H. rewrite H. by rewrite andb_false_r.
  - apply negb_true_iff in H. by rewrite H.
Qed.

(** Spreading held assets with distinct indices over slots that are empty
    at those indices adds one asset that is not empty for each. *)
Lemma spread_assets_count (storeUserAssets : list AccountAsset) :
  forall userAssets spread : list AccountAsset,
    spread_assets storeUserAssets userAssets = Some spread ->
    NoDup (Index <$> storeUserAssets) ->
    Forall (fun a => asset_held a = true) storeUserAssets ->
    (forall a x, a ∈ storeUserAssets -> userAssets !! Z.to_nat (Index a) = Some x ->
                 IsAssetEmpty x = true) ->
    count_non_empty spread 0
    = count_non_empty userAssets 0 + Z.of_nat (length storeUserAssets).
Proof.
  induction storeUserAssets as [|a rest IH]; intros userAssets spread Hs Hnd Hh He.
  - injection Hs as <-. cbn [length]. lia.
  - cbn [spread_assets] in Hs.
    destruct (Z.ltb_spec (Index a) 0) as [?|H0]; [discriminate|].
    destruct (Z.leb_spec (Z.of_nat (length userAssets)) (Index a)) as [?|Hlt];
      [discriminate|].
    cbn [orb] in Hs. rewrite fmap_cons in Hnd.
    inversion Hnd as [|? ? Hnotin Hnd']; subst.
    inversion Hh as [|? ? Ha Hh']; subst.
    assert (Hi : (Z.to_nat (Index a) < length userAssets)%nat) by lia.
    destruct (lookup_lt_is_Some_2 _ _ Hi) as [x Hx].
    rewrite (IH _ _ Hs Hnd' Hh').
    + rewrite (count_non_empty_insert a userAssets _ x Hx).
      rewrite (He a x ltac:(apply list_elem_of_here) Hx).
      rewrite (asset_held_non_empty a Ha). cbn [length]. lia.
    + intros b y Hb Hy. apply (He b y); [by apply list_elem_of_further|].
      rewrite list_lookup_insert_ne in Hy; [exact Hy|].
      intros E. apply Hnotin. apply list_elem_of_fmap. exists b. split; [|exact Hb].
      assert (0 <= Index b).
      { destruct (Z.leb_spec 0 (Index b)) as [?|Hneg]; [assumption|].
        exfalso. clear -Hs Hb Hneg.
        revert Hs. generalize (<[Z.to_nat (Index a) := a]> userAssets).
        induction rest as [|c rest IHr]; intros U Hs; [by apply not_elem_of_nil in Hb|].
        cbn [spread_assets] in Hs.
        apply elem_of_cons in Hb as [->|Hb].
        - destruct (Z.ltb_spec (Index c) 0); [discriminate|lia].
        - destruct ((Index c <? 0) || (Z.of_nat (length U) <=? Index c));
            [discriminate|]. by apply (IHr Hb _ Hs). }
      lia.
Qed.

Lemma count_non_empty_zero_slots : count_non_empty zero_slots 0 = 0.
Proof. vm_compute. reflexivity. Qed.

(** X22: the tier the prover derives from a decoded witness is the tier the
    witness service committed the account with: for stored assets that
    are held and have distinct indices, [GetNonEmptyAssetsCountOfUser] of
    the 500 slots [DecodeBatchWitness] builds equals
    [GetAssetsCountOfUser] of the stored assets. *)
Theorem decoded_tier_is_stored_tier (storeUserAssets userAssets : list AccountAsset) :
  DecodeBatchWitness_assets storeUserAssets = Some userAssets ->
  NoDup (Index <$> storeUserAssets) ->
  Forall (fun a => asset_held a = true) storeUserAssets ->
  length userAssets = 500%nat
  /\ GetNonEmptyAssetsCountOfUser userAssets = GetAssetsCountOfUser storeUserAssets.
Proof.
  intros Hd Hnd Hh. unfold DecodeBatchWitness_assets in Hd.
  pose proof (spread_assets_credited Equity 0 _ _ _ Hd Hnd positional_zero_slots)
    as (Hlen & _ & _ & _).
  rewrite length_zero_slots in Hlen. split; [exact Hlen|].
  unfold GetNonEmptyAssetsCountOfUser, GetAssetsCountOfUser.
  rewrite (spread_assets_count _ _ _ Hd Hnd Hh), count_non_empty_zero_slots;
    [reflexivity|].
  intros a x _ Hx. apply zero_slots_lookup in Hx as [-> _]. reflexivity.
Qed.

Lemma decoded_tier_is_stored_tier_witness :
  exists userAssets,
    DecodeBatchWitness_assets sample_user_assets = Some userAssets
    /\ GetNonEmptyAssetsCountOfUser userAssets = 50.
Proof.
  eexists. split; [vm_compute; reflexivity|].
  refine (proj2 (decoded_tier_is_stored_tier sample_user_assets _ _ _ _)).
  - vm_compute. reflexivity.
  - apply (bool_decide_unpack _). vm_compute. exact I.
  - repeat constructor.
Defined.

(** ** The account indices of a data set *)

Lemma count_accounts_empty (m : gmap Z (list AccountInfo)) :
  (forall t, default [] (m !! t) = []) -> count_accounts m = 0.
Proof.
  unfold count_accounts.
  apply (map_fold_weak_ind
           (fun n m => (forall t, default [] (m !! t) = []) -> n = 0)).
  - reflexivity.
  - intros i x m' r Hi IH H.
    pose proof (H i) as Hx. rewrite lookup_insert_eq in Hx. simpl in Hx. subst x.
    rewrite IH; [reflexivity|].
    intros t. destruct (decide (t = i)) as [->|Hne].
    + rewrite Hi. reflexivity.
    + specialize (H t). rewrite lookup_insert_ne in H by congruence. exact H.
Qed.

Lemma count_accounts_delete (k : Z) (m : gmap Z (list AccountInfo)) :
  count_accounts m
  = count_accounts (delete k m) + Z.of_nat (length (default [] (m !! k))).
Proof.
  unfold count_accounts. destruct (m !! k) as [v|] eqn:E.
  - rewrite (map_fold_delete_L _ _ k v m); [reflexivity| |exact E].
    intros. lia.
  - rewrite delete_id by exact E. simpl. lia.
Qed.

Lemma count_accounts_tiered (m : gmap Z (list AccountInfo)) :
  only_tiers m -> count_accounts m = Z.of_nat (length (tiered_accounts m)).
Proof.
  intros H. rewrite (count_accounts_delete 50 m).
  rewrite (count_accounts_delete 500 (delete 50 m)).
  rewrite (lookup_delete_ne m 50 500) by lia.
  rewrite count_accounts_empty.
  - unfold tiered_accounts, AssetCountsTiers. cbn [mbind list_bind].
    rewrite app_nil_r, length_app. lia.
  - intros t. destruct (decide (t = 500)) as [->|H500].
    { rewrite lookup_delete_eq. reflexivity. }
    rewrite lookup_delete_ne by congruence.
    destruct (decide (t = 50)) as [->|H50].
    { rewrite lookup_delete_eq. reflexivity. }
    rewrite lookup_delete_ne by congruence.
    apply H. unfold AssetCountsTiers. rewrite !elem_of_cons, elem_of_nil. tauto.
Qed.

Lemma tier_of_cases (a : AccountInfo) :
  tier_of a = Some 50
  \/ (tier_of a = Some 500 /\ tier_of a <> Some 50)
  \/ (500 < Z.of_nat (length (Assets a))).
Proof.
  unfold tier_of, AssetCountsTiers. cbn [list_find].
  destruct (decide (Z.of_nat (length (Assets a)) <= 50)) as [H50|H50].
  { left. reflexivity. }
  destruct (decide (Z.of_nat (length (Assets a)) <= 500)) as [H500|H500].
  { right. left. cbn. split; [reflexivity|discriminate]. }
  right. right. lia.
Qed.

Lemma tier_of_tier (a : AccountInfo) (t : Z) :
  tier_of a = Some t -> t ∈ AssetCountsTiers.
Proof.
  unfold tier_of, AssetCountsTiers. cbn [list_find].
  destruct (decide (Z.of_nat (length (Assets a)) <= 50)) as [H50|H50].
  { cbn. intros [= <-]. rewrite !elem_of_cons. tauto. }
  destruct (decide (Z.of_nat (length (Assets a)) <= 500)) as [H500|H500].
  { cbn. intros [= <-]. rewrite !elem_of_cons. tauto. }
  discriminate.
Qed.

Lemma tiers_partition (l : list AccountInfo) :
  Forall (fun a => (length (Assets a) <= 500)%nat) l ->
  filter (fun a => tier_of a = Some 50) l ++ filter (fun a => tier_of a = Some 500) l
  ≡ₚ l.
Proof.
  induction 1 as [|a l Ha _ IH]; [reflexivity|].
  rewrite !filter_cons.
  destruct (tier_of_cases a) as [H|[[H H']|H]]; [| |lia].
  - rewrite decide_True by exact H. rewrite decide_False by (rewrite H; discriminate).
    simpl. by constructor.
  - rewrite decide_False by exact H'. rewrite decide_True by exact H.
    rewrite <- Permutation_middle. by constructor.
Qed.

Section DataSetIndices.

Variable NewFromString : string -> option (Z * Z).

Lemma rows_results_indices (cexAssetsInfo : list CexAssetInfo) (assetCounts : Z) :
  forall (rows : list (list string)) (accountIndex : Z),
    let accepted :=
      omap id (rows_results NewFromString rows cexAssetsInfo assetCounts accountIndex) in
    AccountIndex <$> accepted
    = wrap 32 <$> seqZ accountIndex (Z.of_nat (length accepted)).
Proof.
  induction rows as [|row rows IH]; intros accountIndex; [reflexivity|].
  cbn [rows_results]. cbv zeta. unfold row_result.
  destruct (row_invalid NewFromString row cexAssetsInfo assetCounts).
  - cbn [omap list_omap]. apply IH.
  - cbn [omap list_omap id length]. rewrite Nat2Z.inj_succ, seqZ_cons by lia.
    rewrite !fmap_cons. f_equal.
    replace (Z.pred (Z.succ (Z.of_nat (length (omap id
               (rows_results NewFromString rows cexAssetsInfo assetCounts
                  (accountIndex + 1)))))))
      with (Z.of_nat (length (omap id
               (rows_results NewFromString rows cexAssetsInfo assetCounts
                  (accountIndex + 1))))) by lia.
    replace (Z.succ accountIndex) with (accountIndex + 1) by lia.
    apply IH.
Qed.

Lemma tiered_accounts_two (accounts : gmap Z (list AccountInfo)) :
  tiered_accounts accounts
  = default [] (accounts !! 50) ++ default [] (accounts !! 500).
Proof.
  unfold tiered_accounts, AssetCountsTiers. cbn [mbind list_bind].
  rewrite app_nil_r. reflexivity.
Qed.

Lemma file_accounts_numbered (header : list string) (rows : list (list string))
    (cexAssetsInfo : list CexAssetInfo)
    (accounts : gmap Z (list AccountInfo)) (invalidCounts : Z) :
  (length cexAssetsInfo <= 500)%nat ->
  ReadUserDataFromCsvFile NewFromString (header :: rows) cexAssetsInfo
  = Ok (accounts, invalidCounts) ->
  numbered_from 0 accounts.
Proof.
  intros Hlen Hr.
  destruct (ReadUserDataFromCsvFile_rows NewFromString _ _ _ _ _ Hr) as [_ Hacc].
  cbv zeta in Hacc.
  remember (omap id (rows_results NewFromString rows cexAssetsInfo
                       (Z.quot (Z.of_nat (length header) - 3) 6) 0)) as R eqn:ER.
  assert (HR : Forall (fun a => (length (Assets a) <= 500)%nat) R).
  { apply list.Forall_forall. intros a Ha. subst R.
    apply rows_results_accepted in Ha as (row & idx & _ & _ & ->).
    destruct (row_account_assets NewFromString row cexAssetsInfo
                (Z.quot (Z.of_nat (length header) - 3) 6) idx Hlen)
      as (_ & _ & _ & Hl). lia. }
  split.
  - intros t Ht. rewrite Hacc.
    destruct (filter (fun a => tier_of a = Some t) R) as [|a l] eqn:E; [reflexivity|].
    assert (Ha : a ∈ filter (fun a => tier_of a = Some t) R) by (rewrite E; left).
    apply list_elem_of_filter in Ha as [Ht' _].
    apply tier_of_tier in Ht'. contradiction.
  - rewrite tiered_accounts_two, !Hacc.
    rewrite (tiers_partition R HR).
    subst R. apply reflexive_eq. apply rows_results_indices.
Qed.

End DataSetIndices.

Lemma shifted_indices (first : Z) (n : Z) :
  (fun x => wrap 32 (x + wrap 32 first)) <$> (wrap 32 <$> seqZ 0 n)
  = wrap 32 <$> seqZ first n.
Proof.
  replace (seqZ first n) with (Z.add first <$> seqZ 0 n)
    by (rewrite fmap_add_seqZ; f_equal; lia).
  rewrite <- !list_fmap_compose.
  apply list_fmap_ext. intros _ j _. simpl. unfold wrap.
  rewrite <- Z.add_mod by lia. f_equal. lia.
Qed.

Lemma shift_account_numbered (first : Z) (accounts : gmap Z (list AccountInfo)) :
  numbered_from 0 accounts ->
  numbered_from first
    (fmap (M := gmap Z) (map (shift_account first)) accounts).
Proof.
  intros [Ho Hp].
  assert (Hl : forall t,
             default [] (fmap (M := gmap Z) (map (shift_account first)) accounts !! t)
             = map (shift_account first) (default [] (accounts !! t))).
  { intros t. rewrite lookup_fmap. destruct (accounts !! t); reflexivity. }
  split.
  - intros t Ht. rewrite Hl, (Ho t Ht). reflexivity.
  - rewrite tiered_accounts_two, !Hl, <- map_app, <- tiered_accounts_two.
    rewrite length_map.
    change (map (shift_account first) (tiered_accounts accounts))
      with (shift_account first <$> tiered_accounts accounts).
    rewrite <- list_fmap_compose.
    change (AccountIndex ∘ shift_account first)
      with ((fun x => wrap 32 (x + wrap 32 first)) ∘ AccountIndex).
    rewrite list_fmap_compose, Hp. apply reflexive_eq. apply shifted_indices.
Qed.

Lemma union_accounts_lookup (m1 m2 : gmap Z (list AccountInfo)) (t : Z) :
  default [] (union_with (fun a b => Some (a ++ b)) m1 m2 !! t)
  = default [] (m1 !! t) ++ default [] (m2 !! t).
Proof.
  rewrite lookup_union_with.
  destruct (m1 !! t), (m2 !! t); simpl; rewrite ?app_nil_r; reflexivity.
Qed.

Lemma union_accounts_numbered (m1 m2 : gmap Z (list AccountInfo)) :
  numbered_from 0 m1 ->
  numbered_from (Z.of_nat (length (tiered_accounts m1))) m2 ->
  numbered_from 0 (union_with (fun a b => Some (a ++ b)) m1 m2).
Proof.
  intros [Ho1 Hp1] [Ho2 Hp2].
  assert (HP : tiered_accounts (union_with (fun a b => Some (a ++ b)) m1 m2)
               ≡ₚ tiered_accounts m1 ++ tiered_accounts m2).
  { rewrite !tiered_accounts_two, !union_accounts_lookup.
    rewrite <- !app_assoc. apply Permutation_app_head.
    rewrite !app_assoc. apply Permutation_app_tail. apply Permutation_app_comm. }
  split.
  - intros t Ht. rewrite union_accounts_lookup, (Ho1 t Ht), (Ho2 t Ht). reflexivity.
  - rewrite HP, fmap_app, length_app, Nat2Z.inj_add, seqZ_app by lia.
    rewrite fmap_app, Hp1, Hp2. reflexivity.
Qed.

Lemma numbered_from_empty : numbered_from 0 (∅ : gmap Z (list AccountInfo)).
Proof.
  split.
  - intros t _. rewrite lookup_empty. reflexivity.
  - rewrite tiered_accounts_two, !lookup_empty. reflexivity.
Qed.

Section DataSetNumbering.

Variable NewFromString : string -> option (Z * Z).

Lemma collect_results_numbered (cexAssetInfo : list CexAssetInfo) :
  (length cexAssetInfo <= 500)%nat ->
  forall (files : list (list (list string))) (i : nat)
         (accountInfo : gmap Z (list AccountInfo)) (total : Z)
         (accountInfo' : gmap Z (list AccountInfo)) (total' : Z),
    (i = 0%nat -> accountInfo = ∅) ->
    numbered_from 0 accountInfo ->
    collect_results NewFromString i files cexAssetInfo accountInfo total
    = Ok (accountInfo', total') ->
    numbered_from 0 accountInfo'.
Proof.
  intros Hlen.
  induction files as [|f files IH]; intros i accountInfo total accountInfo' total' Hi Hn H.
  - simpl in H. inversion H; subst. exact Hn.
  - cbn [collect_results] in H.
    destruct (ReadUserDataFromCsvFile NewFromString f cexAssetInfo)
      as [[accounts inv]|?|?] eqn:E; try discriminate.
    destruct f as [|header rows]; [discriminate|].
    apply (file_accounts_numbered NewFromString _ _ _ _ _ Hlen) in E.
    cbn [mbind outcome_bind obind] in H. cbv zeta in H.
    apply IH in H; [exact H|discriminate|].
    apply union_accounts_numbered; [exact Hn|].
    destruct i as [|i].
    + rewrite (Hi eq_refl). exact E.
    + cbn [Nat.eqb negb]. rewrite (count_accounts_tiered accountInfo (proj1 Hn)).
      apply shift_account_numbered. exact E.
Qed.

(** X23: when [ParseUserDataSet] accepts the user files (at most 500
    configured assets), every account it returns is filed under tier 50 or
    tier 500, and the account indices over all files and tiers are the
    32-bit numbers 0, 1, ..., N-1 for the N accounts returned, each once; so
    with at most 2^32 accounts no two accounts share an index. *)
Theorem ParseUserDataSet_indices_dense (files : list (list (list string)))
    (cexAssetInfo cexAssetInfo' : list CexAssetInfo)
    (accountInfo : gmap Z (list AccountInfo)) :
  (length cexAssetInfo <= 500)%nat ->
  ParseUserDataSet NewFromString files cexAssetInfo = Ok (accountInfo, cexAssetInfo') ->
  let all := tiered_accounts accountInfo in
  only_tiers accountInfo
  /\ AccountIndex <$> all ≡ₚ wrap 32 <$> seqZ 0 (Z.of_nat (length all))
  /\ (Z.of_nat (length all) <= 2 ^ 32 -> NoDup (AccountIndex <$> all)).
Proof.
  intros Hlen H all. unfold ParseUserDataSet in H.
  destruct files as [|f files]; [discriminate|].
  destruct (collect_results NewFromString 0 (f :: files) cexAssetInfo ∅ 0)
    as [[m total]|?|?] eqn:E; try discriminate.
  cbn [mbind outcome_bind obind] in H.
  destruct (0 <? total); [discriminate|]. inversion H; subst m cexAssetInfo'.
  apply (collect_results_numbered _ Hlen) in E;
    [|reflexivity|exact numbered_from_empty].
  destruct E as [Ho Hp]. split; [exact Ho|]. split; [exact Hp|].
  intros Hn. fold all in Hp. rewrite Hp.
  apply NoDup_fmap_2_strong; [|apply NoDup_seqZ].
  intros x y Hx Hy Hxy. apply elem_of_seqZ in Hx, Hy.
  unfold wrap in Hxy. rewrite !Z.mod_small in Hxy by lia. exact Hxy.
Qed.

End DataSetNumbering.

Lemma sample_data_set_read :
  exists accountInfo,
    ParseUserDataSet plain_decimal sample_data_set sample_cex
    = Ok (accountInfo, sample_cex)
    /\ AccountIndex <$> tiered_accounts accountInfo = [0; 1; 2].
Proof. eexists. split; vm_compute; reflexivity. Qed.

Lemma ParseUserDataSet_indices_dense_witness :
  exists accountInfo,
    ParseUserDataSet plain_decimal sample_data_set sample_cex
    = Ok (accountInfo, sample_cex)
    /\ AccountIndex <$> tiered_accounts accountInfo = [0; 1; 2]
    /\ NoDup (AccountIndex <$> tiered_accounts accountInfo).
Proof.
  destruct sample_data_set_read as (accountInfo & Hr & Hi).
  exists accountInfo. split; [exact Hr|]. split; [exact Hi|].
  refine (proj2 (proj2 (ParseUserDataSet_indices_dense plain_decimal sample_data_set
                   sample_cex sample_cex accountInfo _ Hr)) _).
  - simpl. lia.
  - rewrite <- (length_fmap AccountIndex), Hi. simpl. lia.
Defined.

(** ** The chunks of the user commitment determine the assets *)

Lemma fmap_inj_on {A B} (f : A -> B) (P : A -> Prop) :
  (forall x y, P x -> P y -> f x = f y -> x = y) ->
  forall l1 l2 : list A,
    Forall P l1 -> Forall P l2 -> f <$> l1 = f <$> l2 -> l1 = l2.
Proof.
  intros Hf. induction l1 as [|x l1 IH]; intros [|y l2] H1 H2 H;
    try discriminate; [reflexivity|].
  rewrite !fmap_cons in H. injection H as Hx Hl.
  inversion H1; subst. inversion H2; subst. f_equal; auto.
Qed.

Lemma pack3_nonneg :
  forall (k : nat) (l : list Z),
    length l = (3 * k)%nat -> Forall (fun x => 0 <= x < 2 ^ 64) l ->
    Forall (fun x => 0 <= x) (pack3 l).
Proof.
  induction k as [|k IH]; intros l Hl Hf.
  - destruct l; [constructor|discriminate].
  - destruct l as [|a [|b [|c l]]]; try (simpl in Hl; lia).
    inversion Hf as [|? ? Ha Hf1]; subst. inversion Hf1 as [|? ? Hb Hf2]; subst.
    inversion Hf2 as [|? ? Hc Hf3]; subst.
    cbn [pack3]. constructor; [lia|]. apply IH; [simpl in Hl; lia|exact Hf3].
Qed.

Lemma pack3_inj :
  forall (k : nat) (l1 l2 : list Z),
    length l1 = (3 * k)%nat -> length l2 = (3 * k)%nat ->
    Forall (fun x => 0 <= x < 2 ^ 64) l1 -> Forall (fun x => 0 <= x < 2 ^ 64) l2 ->
    pack3 l1 = pack3 l2 -> l1 = l2.
Proof.
  induction k as [|k IH]; intros l1 l2 H1 H2 F1 F2 H.
  - destruct l1, l2; try discriminate. reflexivity.
  - destruct l1 as [|a1 [|b1 [|c1 l1]]]; try (simpl in H1; lia).
    destruct l2 as [|a2 [|b2 [|c2 l2]]]; try (simpl in H2; lia).
    inversion F1 as [|? ? Ha1 F1a]; subst. inversion F1a as [|? ? Hb1 F1b]; subst.
    inversion F1b as [|? ? Hc1 F1c]; subst.
    inversion F2 as [|? ? Ha2 F2a]; subst. inversion F2a as [|? ? Hb2 F2b]; subst.
    inversion F2b as [|? ? Hc2 F2c]; subst.
    cbn [pack3] in H. injection H as Hh Ht.
    assert (a1 = a2 /\ b1 = b2 /\ c1 = c2) as (-> & -> & ->) by lia.
    f_equal. f_equal. f_equal.
    apply (IH l1 l2); [simpl in H1; lia|simpl in H2; lia|assumption..].
Qed.

Lemma flatten_assets_inj :
  forall l1 l2 : list AccountAsset,
    flatten_assets l1 = flatten_assets l2 -> l1 = l2.
Proof.
  unfold flatten_assets.
  induction l1 as [|x l1 IH]; intros [|y l2] H; try discriminate; [reflexivity|].
  rewrite !bind_cons in H. unfold asset_fields at 1 3 in H. cbn [app] in H.
  injection H as H1 H2 H3 H4 H5 H6 H.
  destruct x, y. cbn in *. subst. f_equal. apply IH. exact H.
Qed.

Lemma padding_slots_in_range (cur n : Z) :
  0 <= cur -> cur + n <= 2 ^ 64 ->
  Forall (fun a => Forall (fun x => 0 <= x < 2 ^ 64) (asset_fields a))
    (padding_slot <$> seqZ cur n).
Proof.
  intros Hc Hn. apply Forall_fmap, list.Forall_forall. intros j Hj.
  apply elem_of_seqZ in Hj. unfold asset_fields, padding_slot. simpl.
  repeat constructor; lia.
Qed.

Lemma held_asset_in_range (a : AccountAsset) :
  asset_held a = true -> 0 <= Index a < 65536 ->
  Forall (fun x => 0 <= x < 2 ^ 64) (asset_fields a).
Proof.
  intros Hh Hi. unfold asset_held in Hh. rewrite !andb_true_iff in Hh.
  destruct Hh as [[Hu _] _]. apply amounts_uint64_bounds in Hu.
  unfold asset_fields. repeat constructor; lia.
Qed.

Lemma expand_assets_in_range (assets : list AccountAsset) :
  forall (cur : Z) (need : nat),
    0 <= cur <= 65536 -> (need <= 500)%nat ->
    Forall (fun a => asset_held a = true /\ 0 <= Index a < 65536) assets ->
    Forall (fun a => Forall (fun x => 0 <= x < 2 ^ 64) (asset_fields a))
      (expand_assets assets cur need).
Proof.
  induction assets as [|a rest IH]; intros cur need Hc Hn Hf.
  - cbn [expand_assets]. apply padding_slots_in_range; lia.
  - inversion Hf as [|? ? [Hh Hi] Hf']; subst.
    cbn [expand_assets]. cbv zeta. apply Forall_app. split.
    + apply padding_slots_in_range; lia.
    + constructor; [by apply held_asset_in_range|].
      apply IH; [lia|lia|exact Hf'].
Qed.

Lemma asset_held_not_padding (a : AccountAsset) :
  asset_held a = true -> is_padding_slot a = false.
Proof.
  unfold asset_held, is_padding_slot. rewrite !andb_true_iff, orb_true_iff.
  intros [[_ [H|H]] _]; apply negb_true_iff in H; rewrite H.
  - reflexivity.
  - by rewrite andb_false_r.
Qed.

Lemma filter_padding_slots (cur n : Z) :
  filter (fun x => is_padding_slot x = false) (padding_slot <$> seqZ cur n) = [].
Proof.
  induction (seqZ cur n) as [|j l IH]; [reflexivity|].
  rewrite fmap_cons, filter_cons, decide_False by (simpl; discriminate). exact IH.
Qed.

Lemma expand_assets_real (assets : list AccountAsset) :
  forall (cur : Z) (need : nat),
    Forall (fun a => asset_held a = true) assets ->
    filter (fun x => is_padding_slot x = false) (expand_assets assets cur need)
    = assets.
Proof.
  induction assets as [|a rest IH]; intros cur need Hf.
  - cbn [expand_assets]. apply filter_padding_slots.
  - inversion Hf as [|? ? Hh Hf']; subst.
    cbn [expand_assets]. cbv zeta.
    rewrite list.filter_app, filter_padding_slots, filter_cons.
    rewrite decide_True by (by apply asset_held_not_padding).
    cbn [app]. f_equal. apply IH. exact Hf'.
Qed.

Lemma accepted_assets_spec (assets : list AccountAsset) :
  accepted_assets assets = true ->
  Forall (fun a => asset_held a = true) assets
  /\ ascending_indices assets = true /\ uint16_indices assets = true
  /\ (length assets <= 500)%nat.
Proof.
  unfold accepted_assets. rewrite !andb_true_iff.
  intros [[[Hh Ha] Hu] Hl]. split; [|split; [exact Ha|split; [exact Hu|]]].
  - apply list.Forall_forall. intros a Hin. rewrite forallb_forall in Hh.
    apply Hh. by apply list_elem_of_In.
  - by apply Nat.leb_le.
Qed.

(** The flattened expanded list of accepted assets: [6T] numbers below
    2^64. *)
Lemma accepted_assets_flat (assets : list AccountAsset) :
  accepted_assets assets = true ->
  let T := smallest_tier (length assets) in
  let E := expand_assets assets 0 (Z.to_nat T - length assets) in
  user_assets_chunks assets = Some (BigIntBytes <$> pack3 (flatten_assets E))
  /\ length (flatten_assets E) = (3 * Z.to_nat (2 * T))%nat
  /\ Forall (fun x => 0 <= x < 2 ^ 64) (flatten_assets E)
  /\ filter (fun x => is_padding_slot x = false) E = assets.
Proof.
  intros H T E. apply accepted_assets_spec in H as (Hh & Ha & Hu & Hl).
  destruct (smallest_tier_cases (length assets) Hl) as (HT & Hfit & _). fold T in HT, Hfit.
  split; [by apply user_assets_chunks_expand|]. split; [|split].
  - rewrite length_flatten_assets. unfold E. rewrite length_expand_assets. lia.
  - unfold flatten_assets. apply Forall_bind.
    apply expand_assets_in_range; [lia|lia|].
    pose proof (index_bounds assets Ha Hu) as Hi.
    rewrite list.Forall_forall in Hh, Hi |- *. intros a Hin. auto.
  - by apply expand_assets_real.
Qed.

(** X24: the chunks hashed into the user commitment determine the assets:
    two asset lists as [ReadUserDataFromCsvFile] accepts them (held assets,
    strictly ascending 16-bit indices, at most 500) that give the same
    chunks are the same list. *)
Theorem user_assets_chunks_binding (assets1 assets2 : list AccountAsset) :
  accepted_assets assets1 = true -> accepted_assets assets2 = true ->
  user_assets_chunks assets1 = user_assets_chunks assets2 ->
  assets1 = assets2.
Proof.
  intros H1 H2 H.
  destruct (accepted_assets_flat assets1 H1) as (E1 & L1 & F1 & R1).
  destruct (accepted_assets_flat assets2 H2) as (E2 & L2 & F2 & R2).
  rewrite E1, E2 in H. injection H as H.
  apply (fmap_inj_on BigIntBytes (fun x => 0 <= x)) in H;
    [|intros x y Hx Hy; by apply BigIntBytes_inj
     |eapply pack3_nonneg; eassumption
     |eapply pack3_nonneg; eassumption].
  assert (HT : Z.to_nat (2 * smallest_tier (length assets1))
               = Z.to_nat (2 * smallest_tier (length assets2))).
  { rewrite <- (length_pack3 _ _ L1), <- (length_pack3 _ _ L2), H. reflexivity. }
  rewrite <- HT in L2.
  apply (pack3_inj _ _ _ L1 L2 F1 F2) in H.
  apply flatten_assets_inj in H.
  rewrite <- R1, <- R2, H. reflexivity.
Qed.

Lemma user_assets_chunks_binding_witness :
  let real := filter (fun x => is_padding_slot x = false) (dense_assets 50) in
  accepted_assets real = true
  /\ accepted_assets testUserAssets1 = true
  /\ user_assets_chunks real = user_assets_chunks testUserAssets1
  /\ real = testUserAssets1.
Proof.
  intros real.
  assert (H1 : accepted_assets real = true) by (vm_compute; reflexivity).
  assert (H2 : accepted_assets testUserAssets1 = true) by (vm_compute; reflexivity).
  assert (H : user_assets_chunks real = user_assets_chunks testUserAssets1)
    by (vm_compute; reflexivity).
  split; [exact H1|]. split; [exact H2|]. split; [exact H|].
  exact (user_assets_chunks_binding real testUserAssets1 H1 H2 H).
Defined.

(** ** The file of the configured assets *)

Lemma ParseAssetIndexFromUserFile_loop_total (data : list string) (n : nat) :
  forall s : Z,
    0 <= s -> (s + Z.of_nat n) * 6 <= Z.of_nat (length data) - 3 ->
    mapM (fun i => strings_ToLower <$> data !! Z.to_nat (i * 6 + 4))
      (seqZ s (Z.of_nat n))
    = Some ((fun i => strings_ToLower (default "" (data !! Z.to_nat (i * 6 + 4))))
              <$> seqZ s (Z.of_nat n)).
Proof.
  induction n as [|n IH]; intros s Hs Hn; [reflexivity|].
  rewrite Nat2Z.inj_succ, seqZ_cons by lia.
  replace (Z.pred (Z.succ (Z.of_nat n))) with (Z.of_nat n) by lia.
  rewrite fmap_cons.
  change (mapM ?f (?x :: ?l)) with (y ← f x; k ← mapM f l; Some (y :: k)).
  destruct (lookup_lt_is_Some_2 data (Z.to_nat (s * 6 + 4)) ltac:(lia)) as [x Hx].
  rewrite Hx. cbn [fmap option_fmap option_map mbind option_bind default].
  rewrite IH by lia. reflexivity.
Qed.

(** X25: [ParseAssetIndexFromUserFile] never indexes outside the header,
    whatever its length: it returns the lower-cased names of the columns
    [6i + 4] for [i] below [(len - 3) / 6], and no name for a header of
    fewer than 9 columns. *)
Theorem ParseAssetIndexFromUserFile_never_out_of_range (data : list string) :
  ParseAssetIndexFromUserFile data
  = Some ((fun i => strings_ToLower (default "" (data !! Z.to_nat (i * 6 + 4))))
            <$> seqZ 0 (Z.quot (Z.of_nat (length data) - 3) 6)).
Proof.
  unfold ParseAssetIndexFromUserFile.
  destruct (Z.le_gt_cases 3 (Z.of_nat (length data))) as [H|H].
  - pose proof (Z.quot_pos (Z.of_nat (length data) - 3) 6 ltac:(lia) ltac:(lia)) as Hq.
    pose proof (Z.mul_quot_le (Z.of_nat (length data) - 3) 6 ltac:(lia) ltac:(lia)) as Hm.
    rewrite <- (Z2Nat.id _ Hq).
    apply ParseAssetIndexFromUserFile_loop_total; lia.
  - replace (Z.quot (Z.of_nat (length data) - 3) 6) with 0; [reflexivity|].
    symmetry. apply Z.quot_small_iff; lia.
Qed.

Section CexFileProperties.

Variable NewFromString : string -> option (Z * Z).

Local Abbreviation parsed c :=
  (asset_in_range c = true /\ tables_consistent c = true
   /\ TotalEquity c = 0 /\ TotalDebt c = 0 /\ LoanCollateral c = 0
   /\ MarginCollateral c = 0 /\ PortfolioMarginCollateral c = 0).

Lemma parse_cex_row_Ok (row : list string) (c : CexAssetInfo) :
  parse_cex_row NewFromString row = Ok c ->
  Symbol c = strings_ToLower (default "" (row !! 0%nat)) /\ parsed c.
Proof.
  unfold parse_cex_row.
  destruct (negb (length row =? 5)%nat); [discriminate|]. cbv zeta.
  destruct (ConvertFloatStrToUint64 NewFromString _ _) as [p| |] eqn:Ep;
    try discriminate.
  apply ConvertFloatStrToUint64_range in Ep.
  cbn [mbind outcome_bind obind].
  destruct (ParseTiersRatioFromStr NewFromString (default "" (row !! 2%nat)))
    as [l| |] eqn:El; try discriminate.
  destruct (ParseTiersRatioFromStr NewFromString (default "" (row !! 3%nat)))
    as [m| |] eqn:Em; try discriminate.
  destruct (ParseTiersRatioFromStr NewFromString (default "" (row !! 4%nat)))
    as [q| |] eqn:Eq; try discriminate.
  cbn [mbind outcome_bind obind]. intros [= <-]. cbn.
  apply ParseTiersRatioFromStr_table in El as (L1 & L2 & L3).
  apply ParseTiersRatioFromStr_table in Em as (M1 & M2 & M3).
  apply ParseTiersRatioFromStr_table in Eq as (Q1 & Q2 & Q3).
  split; [reflexivity|].
  split.
  { unfold asset_in_range, IsUint64, TierCount. cbn.
    rewrite L1, M1, Q1, L3, M3, Q3. cbn.
    destruct (Z.leb_spec 0 p); [|lia]. destruct (Z.ltb_spec p (2 ^ 64)); [|lia].
    reflexivity. }
  split.
  { unfold tables_consistent. cbn. rewrite L2, M2, Q2. reflexivity. }
  repeat split.
Qed.

Lemma parse_cex_rows_inv (P : CexAssetInfo -> Prop) :
  forall (rows : list (list string)) (m m' : gmap string CexAssetInfo),
    (forall row c, row ∈ rows -> parse_cex_row NewFromString row = Ok c -> P c) ->
    (forall s c, m !! s = Some c -> Symbol c = s /\ P c) ->
    parse_cex_rows NewFromString rows m = Ok m' ->
    (forall s c, m' !! s = Some c -> Symbol c = s /\ P c)
    /\ (forall s, is_Some (m' !! s) <-> s ∈ row_symbols rows \/ is_Some (m !! s)).
Proof.
  induction rows as [|row rows IH]; intros m m' HP Hm H.
  - simpl in H. injection H as <-. split; [exact Hm|].
    intros s. unfold row_symbols. rewrite fmap_nil, elem_of_nil. tauto.
  - cbn [parse_cex_rows] in H.
    destruct (parse_cex_row NewFromString row) as [c| |] eqn:E; try discriminate.
    cbn [mbind outcome_bind obind] in H.
    pose proof (parse_cex_row_Ok row c E) as [Hs _].
    apply IH in H.
    + destruct H as [H1 H2]. split; [exact H1|].
      intros s. rewrite H2. unfold row_symbols. rewrite fmap_cons, elem_of_cons.
      fold (row_symbols rows). rewrite <- Hs.
      destruct (decide (s = Symbol c)) as [->|Hne].
      * rewrite lookup_insert_eq. split; intros _; [left; by left|right; by eexists].
      * rewrite lookup_insert_ne by congruence. tauto.
    + intros row' c' Hin. apply HP. by right.
    + intros s c'. destruct (decide (s = Symbol c)) as [->|Hne].
      * rewrite lookup_insert_eq. intros [= <-]. split; [reflexivity|].
        apply (HP row); [by left|exact E].
      * rewrite lookup_insert_ne by congruence. apply Hm.
Qed.

Lemma place_assets_spec (m : gmap string CexAssetInfo) :
  forall (l : list string) (i : nat) (arr arr' : list CexAssetInfo),
    place_assets l i m arr = Ok arr' ->
    (i <= length arr -> i + length l <= length arr)%nat
    /\ length arr' = length arr
    /\ (forall j, (j < i \/ i + length l <= j)%nat -> arr' !! j = arr !! j)
    /\ (forall k s, l !! k = Some s ->
          arr' !! (i + k)%nat
          = Some (set_Index (default zero_CexAssetInfo (m !! s)) (Z.of_nat (i + k)))).
Proof.
  induction l as [|s l IH]; intros i arr arr' H.
  - simpl in H. injection H as <-. simpl. repeat split; try lia; auto.
    intros k s Hk. discriminate.
  - cbn [place_assets] in H.
    destruct (Nat.ltb_spec i (length arr)) as [Hi|Hi]; [|discriminate].
    cbv zeta in H. apply IH in H as (Hb & Hl & Ho & Hk).
    rewrite length_insert in Hb, Hl. cbn [length].
    split; [lia|]. split; [exact Hl|]. split.
    + intros j Hj. rewrite Ho by lia. apply list_lookup_insert_ne. lia.
    + intros [|k] s' Hs'.
      * injection Hs' as <-. rewrite Nat.add_0_r, Ho by lia.
        apply list_lookup_insert_eq. exact Hi.
      * replace (i + S k)%nat with (S i + k)%nat by lia. apply Hk. exact Hs'.
Qed.

Lemma place_reserved_spec :
  forall (fuel i : nat) (arr arr' : list CexAssetInfo),
    place_reserved fuel i arr = Ok arr' ->
    length arr' = length arr
    /\ (forall j, (j < i \/ i + fuel <= j)%nat -> arr' !! j = arr !! j)
    /\ (forall j, (i <= j < i + fuel)%nat ->
          arr' !! j = Some (set_Index (reserved_record j) (Z.of_nat j))).
Proof.
  induction fuel as [|fuel IH]; intros i arr arr' H.
  - simpl in H. injection H as <-. repeat split; auto. intros j Hj. lia.
  - cbn [place_reserved] in H.
    change (padded []) with (Ok (replicate TierCount (mkTierRatio MaxTierBoundaryValue 0 0)))
      in H.
    cbn [mbind outcome_bind obind] in H.
    destruct (Nat.ltb_spec i (length arr)) as [Hi|Hi]; [|discriminate].
    apply IH in H as (Hl & Ho & Hk). rewrite length_insert in Hl.
    split; [exact Hl|]. split.
    + intros j Hj. rewrite Ho by lia. apply list_lookup_insert_ne. lia.
    + intros j Hj. destruct (decide (j = i)) as [->|Hne].
      * rewrite Ho by lia. rewrite list_lookup_insert_eq by exact Hi. reflexivity.
      * apply Hk. lia.
Qed.

Lemma ParseCexAssetInfoFromFile_Ok (data : list (list string))
    (assetIndexes : list string) (cex : list CexAssetInfo) :
  ParseCexAssetInfoFromFile NewFromString data assetIndexes = Ok cex ->
  exists m : gmap string CexAssetInfo,
    (forall s c, m !! s = Some c -> Symbol c = s /\ parsed c)
    /\ (forall s, is_Some (m !! s) <-> s ∈ row_symbols (drop 1 data))
    /\ length cex = AssetCounts
    /\ (length assetIndexes <= AssetCounts)%nat
    /\ (forall i s, assetIndexes !! i = Some s ->
          cex !! i = Some (set_Index (default zero_CexAssetInfo (m !! s)) (Z.of_nat i)))
    /\ (forall i, (length assetIndexes <= i < AssetCounts)%nat ->
          cex !! i = Some (set_Index (reserved_record i) (Z.of_nat i))).
Proof.
  unfold ParseCexAssetInfoFromFile. destruct data as [|header rows]; [discriminate|].
  destruct (parse_cex_rows NewFromString rows ∅) as [m| |] eqn:E; try discriminate.
  cbn [mbind outcome_bind obind]. cbv zeta.
  destruct (negb (length assetIndexes =? size m)%nat); [discriminate|].
  destruct (place_assets assetIndexes 0 m (replicate AssetCounts zero_CexAssetInfo))
    as [arr| |] eqn:Ea; try discriminate.
  cbn [mbind outcome_bind obind]. intros Hr.
  apply (parse_cex_rows_inv (fun c => parsed c)) in E.
  - destruct E as [Hm Hd].
    apply place_assets_spec in Ea as (Hb & Hl & Ho & Hk).
    rewrite length_replicate in Hb, Hl. specialize (Hb ltac:(lia)).
    apply place_reserved_spec in Hr as (Hl' & Ho' & Hk').
    exists m. split; [exact Hm|]. split.
    { intros s. rewrite Hd, lookup_empty.
      change (drop 1 (header :: rows)) with rows. split.
      - intros [?|[? [=]]]. assumption.
      - by left. }
    split; [lia|]. split; [lia|]. split.
    + intros i s Hi. pose proof (lookup_lt_Some _ _ _ Hi).
      rewrite Ho' by lia. apply (Hk i s Hi).
    + intros i Hi. apply Hk'. lia.
  - intros row c _ Hc. apply (parse_cex_row_Ok row c Hc).
  - intros s c. rewrite lookup_empty. discriminate.
Qed.

(** X26: when [ParseCexAssetInfoFromFile] succeeds it returns exactly
    [AssetCounts] = 500 records and at most 500 assets were named; the
    record at position [i] carries index [i]; the positions after the
    named assets hold the reserved record (price 0, sentinel tables); and
    a named asset that has a row in the file gets a record of its symbol
    with zero totals, a [uint64] price and three consistent tables of 12
    tiers in range. *)
Theorem ParseCexAssetInfoFromFile_records (data : list (list string))
    (assetIndexes : list string) (cex : list CexAssetInfo) :
  ParseCexAssetInfoFromFile NewFromString data assetIndexes = Ok cex ->
  length cex = AssetCounts
  /\ (length assetIndexes <= AssetCounts)%nat
  /\ (forall i c, cex !! i = Some c -> CexIndex c = Z.of_nat i)
  /\ (forall i, (length assetIndexes <= i < AssetCounts)%nat ->
        cex !! i = Some (reserved_record i))
  /\ (forall i s, assetIndexes !! i = Some s -> s ∈ row_symbols (drop 1 data) ->
        exists c, cex !! i = Some c /\ Symbol c = s
                  /\ asset_in_range c = true /\ tables_consistent c = true
                  /\ TotalEquity c = 0 /\ TotalDebt c = 0 /\ LoanCollateral c = 0
                  /\ MarginCollateral c = 0 /\ PortfolioMarginCollateral c = 0).
Proof.
  intros H. apply ParseCexAssetInfoFromFile_Ok in H
    as (m & Hm & Hd & Hl & Hn & Hk & Hr).
  assert (Hw : forall i : nat, (i < AssetCounts)%nat -> wrap 32 (Z.of_nat i) = Z.of_nat i).
  { intros i Hi. unfold wrap, AssetCounts in *. apply Z.mod_small. lia. }
  split; [exact Hl|]. split; [exact Hn|]. split; [|split].
  - intros i c Hc. pose proof (lookup_lt_Some _ _ _ Hc) as Hi. rewrite Hl in Hi.
    destruct (le_lt_dec (length assetIndexes) i) as [Hge|Hlt].
    + rewrite Hr in Hc by lia. injection Hc as <-. cbn. by apply Hw.
    + destruct (lookup_lt_is_Some_2 assetIndexes i Hlt) as [s Hs].
      rewrite (Hk i s Hs) in Hc. injection Hc as <-. cbn. by apply Hw.
  - intros i Hi. rewrite Hr by exact Hi. f_equal.
    unfold set_Index, reserved_record. cbn. rewrite Hw by lia. reflexivity.
  - intros i s Hs Hin. apply Hd in Hin as [c Hc].
    destruct (Hm s c Hc) as (Hsym & Hrange & Hcons & Hz).
    exists (set_Index c (Z.of_nat i)). rewrite (Hk i s Hs), Hc.
    split; [reflexivity|]. split; [exact Hsym|].
    split; [exact Hrange|]. split; [exact Hcons|]. exact Hz.
Qed.

(** X27: the length check of [ParseCexAssetInfoFromFile] compares the number
    of named assets with the number of different symbols of the file, not
    the names: a named asset without a row passes it and gets Go's zero
    record, with an empty symbol and price 0. *)
Theorem ParseCexAssetInfoFromFile_missing_symbol (data : list (list string))
    (assetIndexes : list string) (cex : list CexAssetInfo) (i : nat) (s : string) :
  ParseCexAssetInfoFromFile NewFromString data assetIndexes = Ok cex ->
  assetIndexes !! i = Some s ->
  s ∉ row_symbols (drop 1 data) ->
  exists c, cex !! i = Some c /\ Symbol c = "" /\ BasePrice c = 0
            /\ CexIndex c = Z.of_nat i.
Proof.
  intros H Hs Hin. apply ParseCexAssetInfoFromFile_Ok in H
    as (m & Hm & Hd & Hl & Hn & Hk & Hr).
  assert (Hnone : m !! s = None).
  { apply eq_None_not_Some. rewrite Hd. exact Hin. }
  exists (set_Index zero_CexAssetInfo (Z.of_nat i)).
  rewrite (Hk i s Hs), Hnone. split; [reflexivity|]. split; [reflexivity|].
  split; [reflexivity|]. cbn.
  pose proof (lookup_lt_Some _ _ _ Hs). unfold wrap, AssetCounts in *.
  apply Z.mod_small. lia.
Qed.

End CexFileProperties.

Lemma sample_cex_file_accepted :
  ParseAssetIndexFromUserFile sample_user_header = Some ["btc"; "eth"]
  /\ is_Ok (ParseCexAssetInfoFromFile plain_decimal sample_cex_file ["btc"; "eth"]) = true
  /\ "btc" ∈ row_symbols (drop 1 sample_cex_file)
  /\ "eth" ∉ row_symbols (drop 1 sample_cex_file).
Proof.
  split; [reflexivity|]. split; [vm_compute; reflexivity|]. split.
  - left.
  - intros H. repeat (apply elem_of_cons in H as [H|H]; [discriminate|]).
    by apply elem_of_nil in H.
Qed.

Lemma ParseCexAssetInfoFromFile_records_witness :
  exists cex c,
    ParseCexAssetInfoFromFile plain_decimal sample_cex_file ["btc"; "eth"] = Ok cex
    /\ length cex = 500%nat
    /\ cex !! 0%nat = Some c /\ Symbol c = "btc" /\ asset_in_range c = true
    /\ cex !! 499%nat = Some (reserved_record 499).
Proof.
  destruct sample_cex_file_accepted as (_ & Hok & Hbtc & _).
  destruct (is_Ok_inv _ Hok) as [cex E].
  destruct (ParseCexAssetInfoFromFile_records plain_decimal sample_cex_file
              ["btc"; "eth"] cex E) as (Hl & _ & _ & Hr & Hs).
  destruct (Hs 0%nat "btc" eq_refl Hbtc) as (c & Hc & Hsym & Hrange & _).
  exists cex, c. split; [exact E|]. split; [exact Hl|]. split; [exact Hc|].
  split; [exact Hsym|]. split; [exact Hrange|].
  apply Hr. unfold AssetCounts. simpl. lia.
Defined.

Lemma ParseCexAssetInfoFromFile_missing_symbol_witness :
  exists cex c,
    ParseAssetIndexFromUserFile sample_user_header = Some ["btc"; "eth"]
    /\ ParseCexAssetInfoFromFile plain_decimal sample_cex_file ["btc"; "eth"] = Ok cex
    /\ cex !! 1%nat = Some c /\ Symbol c = "" /\ BasePrice c = 0.
Proof.
  destruct sample_cex_file_accepted as (Hh & Hok & _ & Heth).
  destruct (is_Ok_inv _ Hok) as [cex E].
  destruct (ParseCexAssetInfoFromFile_missing_symbol plain_decimal sample_cex_file
              ["btc"; "eth"] cex 1 "eth" E eq_refl Heth) as (c & Hc & Hsym & Hp & _).
  exists cex, c. split; [exact Hh|]. split; [exact E|]. split; [exact Hc|].
  split; [exact Hsym|exact Hp].
Defined.
